(* ===== verification/_CoqProject ===== *)
-Q . S2P
Prelude.v
Bytes.v
Fmt.v
Crc.v
Geometry.v
GeometryFacts.v
Structs.v
Superblock.v
AgHeaders.v
Btree.v
Inode.v
LogRecord.v
Device.v
FileDevice.v
Plan.v
PlanFacts.v
Io.v
Format.v
HeadFacts.v
HeadProps.v
ChunkFacts.v
ChunkProps.v
FormatFacts.v
Fanout.v
Inspect.v
Admin.v
LogFacts.v
ClearFacts.v
SbFacts.v
AdminFacts.v
InspectFacts.v
AdminSpec.v
AdminProps.v
Fuse.v
Crash.v
Failure.v
LogSafety.v
InspectDump.v
DumpFacts.v
Compare.v
Twins.v
FormatTwins.v
CompareFacts.v
Cli.v
CliFacts.v
MkfsProps.v
ToolFacts.v
