(* ===== verification/Prelude.v ===== *)
(** * mkfs.xfs.rs: a formatter for XFS, modelled and verified

    The program lays an XFS filesystem down on a block device.  It does not
    run the transactions that [mkfs.xfs] runs; it computes the state they
    would leave and writes that once, all allocation groups (AGs)
    concurrently.  Its parts, under [src/src/], and the files that model them:

    - [error.rs], Rust's integers, options and slices: [Prelude.v] (this
      file), [Bytes.v] ([bytes.rs] and byte buffers);
    - [crc.rs], the CRC32C of every metadata block: [Crc.v];
    - [geometry.rs], from parameters and a device's size to a [Geometry]:
      [Geometry.v], theorems in [GeometryFacts.v];
    - [structs/], the encoders: [Structs.v] (what they share),
      [Superblock.v], [AgHeaders.v], [Btree.v], [Inode.v], [LogRecord.v];
    - [device.rs], the [BlockDevice] trait and the in-memory device:
      [Device.v]; the device over a file and the borrowed and shared ones:
      [FileDevice.v]; and [Io.v] for code that runs on a device;
    - [format.rs]: [Plan.v] ([plan_ag]: who owns every block of an AG),
      theorems in [PlanFacts.v]; [Format.v] (the buffers and [format]),
      theorems in [HeadFacts.v], [ChunkFacts.v], [FormatFacts.v];
      [Fanout.v] (its concurrent loop under any executor); [Fuse.v] (a device
      that fails) and [Crash.v] ([format] on it);
    - [inspect.rs]: [Inspect.v] (the superblock's reader), [InspectDump.v]
      (the dump), theorems in [InspectFacts.v] and [DumpFacts.v]; the number
      formats its fields and every file's messages are shown in: [Fmt.v];
    - [admin.rs]: [Admin.v], theorems in [LogFacts.v] (the log reader),
      [ClearFacts.v] (the log writer), [SbFacts.v] (the superblock rewrites),
      [AdminFacts.v] (a whole filesystem), [AdminSpec.v] (the state machine
      the operations refine), [AdminProps.v], [LogSafety.v] (the reader on any
      log), [Failure.v] (the operations on a device that fails);
    - [compare.rs]: [Compare.v]; two formats of one geometry, compared:
      [Twins.v] and [FormatTwins.v] (buffers that differ in identity alone),
      [CompareFacts.v];
    - [bin/mkfs_xfs.rs] and [bin/xfs_admin.rs]: [Cli.v], theorems in
      [CliFacts.v], and on files in [ToolFacts.v].

    [compute] gives a [Geometry]; [plan_ag] turns it into a plan per AG;
    [ag_head], [root_chunk] and [log_block] turn plans into buffers; [format]
    writes them.  The theorems follow the same line.  [wf] is what [compute]
    establishes and every later theorem assumes; [planned] is what [plan_ag]
    establishes; [head_spec], [chunk_spec] and [log_spec] read the buffers
    back; [image] says where they are on the device when [format] is done.
    [fs_ok] is what the administrator needs of a filesystem: [format] leaves
    it ([format_fs_ok]) and every operation keeps it.  [rep] hides it behind
    the few names the operations change.

    ** How the code is modelled

    A fallible function returns a [result]: [Ok], [Err] with the program's
    error, [Panic] where Rust panics, [OutOfFuel] where a loop with fuel has
    not ended.  Theorems that a function answers exclude the last two.
    Machine integers are [Z] with [u8] .. [u64] written where the code's
    arithmetic wraps, as it does in a release build; casts are the same
    functions.  A buffer is a [list byte]; slicing out of range panics.
    An encoder is a list of [store]s run on the caller's buffer and a
    checksum stamp, so that reading a field back is one lemma
    ([sealed_be32] and its like) for all structures.

    A device is a type with a [BlockDevice] instance; what the program relies
    on is the class [DeviceSpec], which [MemDevice], [FileDevice], [&D] and
    [Arc<D>] are proved to satisfy.  What [FileDevice] calls of the operating
    system is the class [FileOps], a parameter, and what it relies on is
    [FileSpec], which a file in memory shows can be kept.
    Code that is given a device threads its state, [io D A].  [Env] holds
    what a run takes from outside: random bytes, the clock, and the order in
    which the concurrent AG writes take effect, any permutation of the AGs.

    ** What the theorems show

    - [GeometryFacts.v]: [compute] always answers; what it returns is well
      formed; AGs tile the data area and an AG's parts are in order inside
      it; block and inode numbers split back.
    - [Crc.v]: the table-driven checksum is polynomial division, stamping
      and verifying agree, and a change within a byte is caught.
    - [AgHeaders.v] to [LogRecord.v]: every structure reads back to what was
      encoded and verifies.
    - [Device.v]: the sparse chunks of [MemDevice] are a flat byte array;
      out of range and unaligned requests are refused and change nothing.
    - [FileDevice.v]: a punched hole and written zeroes read the same;
      whatever the operating system does, a request is answered, its failure
      at its own offset; a created file reads zero.
    - [PlanFacts.v]: a plan gives every block of the AG exactly one owner,
      its reverse mappings name exactly the owners, planning always
      succeeds when the log fits, and the free block count is what is left.
    - [HeadFacts.v], [ChunkFacts.v], [FormatFacts.v]: the buffers hold the
      plan; a format leaves the whole image, in whatever order AG writes
      complete; every request is whole blocks; an interrupted run never
      looks finished; a refused one writes nothing.
    - [Fanout.v]: a schedule of the concurrent loop comes to its tasks one
      after another in some order its window admits; every schedule can be
      carried on to an end, none is longer than three moves a task and one,
      and a format leaves the image under all of them.
    - [AdminSpec.v], [AdminProps.v]: the administrator's operations refine a
      state machine; [set_uuid] and [set_label] change only what they say;
      a cleared log reads back; what [format] left can be opened, and the
      UUID it gave can always be restored; a refused operation writes
      nothing.
    - [Crash.v], [Failure.v]: a request that writes fails, and the device may
      lose the writes since the last flush or tear them between sectors.
      [format], [set_uuid] and [set_label] report it.  A cut [format] leaves
      the old first sector, an unfinished one or the whole image; a cut
      [set_uuid] or [set_label] leaves every superblock good, and running it
      again finishes the job (for [set_uuid], where the log was rewritten).
      [restore_uuid] is not resumed that way, and without a flush after the
      first zeroes a lost cache can keep the old first sector.
    - [LogSafety.v]: finding a log's head and tail ends on any contents, and
      its binary search ends at a cycle boundary.
    - [DumpFacts.v], [Compare.v]: the dump only reads, ends and does not panic
      where the superblock's inode geometry is sound (and does where it is
      not); [diff] lists exactly the differences.
    - [CompareFacts.v]: two formats of one geometry, on any devices and with
      any UUIDs, times and seeds, compare with no structural difference.
    - [CliFacts.v]: sizes and option lists read back, parameters fit their
      types, [-N] prints what a run prints, and the two commands do what the
      library's theorems say.
    - [ToolFacts.v]: [mkfs-xfs --create] and then [xfs-admin], on a file of
      any well-behaved system, end where the administrator's steps do.

    ** Bounds and fuel

    [log2_roundup_loop] has 65 steps, one more than the width of the integer it
    shifts.
    [write_zeroes_loop], [copy_out_loop] and [copy_in_loop] have one step per
    byte of the request and one more, and each step serves at least a byte;
    [fill_agfl] has one per block of the free list.  [find_cycle_loop] has 66
    steps, two more than the width of the range it halves; the log writer's
    loops have one per byte buffered, chunk zeroed or basic block filled, and
    one more; [walk_levels] has 18, one more than the levels the code walks;
    [scan_log] one per MiB of the log and two more; [trim_loop] one per byte.
    That each is enough is part of the theorems ([compute_answers],
    [default_write_zeroes_ok], [file_requests_are_answered], [mem_device_is_flat_memory],
    [every_ag_can_be_planned], [find_tail_always_answers],
    [cleared_log_reads_back], [dump_always_answers]).

    ** Not modelled

    The operating system's files ([std::fs], [rustix]), the parser [clap]
    derives and the [uuid] crate are parameters.  Of the executor, [Fanout.v]
    has what it may do to the loop over the allocation groups, each device
    request taking effect at once; [format] itself (in [Format.v]) runs the
    AG writes in an order it is given, and [every_schedule_leaves_the_image]
    is what makes the two agree.  Requests of other programs on the same
    device are not in the model.  A device of [Fuse.v] fails at a request that
    writes, and keeps or loses whole sectors of 512 bytes: a sector written in
    part and a read that fails are not in its theorems.  The clock ([Timestamp_now]) and the random
    UUIDs are inputs.  [lib.rs] only names
    the modules, and the tests and examples call the library. *)

From Stdlib Require Import ZArith Lia String.
From stdpp Require Import base tactics list numbers strings pretty.
From coqutil Require Import Byte Word.LittleEndianList.

#[global] Open Scope Z_scope.

(** * Errors and outcomes *)

(** [Error] of [src/src/error.rs], constructor for constructor.  The
    [std::io::Error] inside [Io] is kept as its message. *)
Inductive Error : Type :=
| Io (offset : Z) (source : string)
| OutOfBounds (offset len size : Z)
| InvalidParams (msg : string)
| Unsupported (msg : string)
| NotXfs (msg : string)
| Corrupt (msg : string)
| NeedsRecovery (msg : string).

#[export] Instance Error_eq_dec : EqDecision Error.
Proof. solve_decision. Defined.

(** [Error::io]. *)
Definition Error_io (offset : Z) (source : string) : Error := Io offset source.

(** What running a piece of Rust code gives: its [Ok] value, its [Err], a
    panic (a slice or index out of range, a division by zero, [expect] on
    [None]), or, for a loop modelled with fuel, no answer within the fuel. *)
Inductive result (A : Type) : Type :=
| Ok (a : A)
| Err (e : Error)
| Panic
| OutOfFuel.
Arguments Ok {A} a.
Arguments Err {A} e.
Arguments Panic {A}.
Arguments OutOfFuel {A}.

#[export] Instance result_eq_dec {A} `{EqDecision A} : EqDecision (result A).
Proof. solve_decision. Defined.

#[export] Instance result_ret : MRet result := fun A a => Ok a.
#[export] Instance result_bind : MBind result := fun A B f r =>
  match r with
  | Ok a => f a
  | Err e => Err e
  | Panic => Panic
  | OutOfFuel => OutOfFuel
  end.
#[export] Instance result_fmap : FMap result := fun A B f r =>
  match r with
  | Ok a => Ok (f a)
  | Err e => Err e
  | Panic => Panic
  | OutOfFuel => OutOfFuel
  end.

(** [if c { return Err(e) }]. *)
Definition bail_if (c : bool) (e : Error) : result unit :=
  if c then Err e else Ok tt.

(** A failed index, slice or [expect] panics. *)
Definition unwrap {A} (o : option A) : result A :=
  match o with Some a => Ok a | None => Panic end.

(** [.ok_or_else(|| e)?]. *)
Definition ok_or {A} (o : option A) (e : Error) : result A :=
  match o with Some a => Ok a | None => Err e end.

(** [.map_err(|_| e)?]. *)
Definition map_err {A} (e : Error) (r : result A) : result A :=
  match r with Err _ => Err e | r => r end.

(** [.collect::<Result<Vec<_>>>()?] of a mapped iterator. *)
Fixpoint collect {A B} (f : A -> result B) (l : list A) : result (list B) :=
  match l with
  | [] => Ok []
  | x :: l => y ← f x; ys ← collect f l; Ok (y :: ys)
  end.

(** [let r = f x; ...] repeated over a list, threading a state. *)
Fixpoint fold_result {A S} (f : S -> A -> result S) (s : S) (l : list A) : result S :=
  match l with
  | [] => Ok s
  | x :: l => s' ← f s x; fold_result f s' l
  end.

(** * Machine integers

    A value of [u8], [u16], [u32], [u64] is a [Z] in range.  The functions
    below wrap a result to its width: they are the [as] casts and the
    arithmetic of the release profile of [src/Cargo.toml], which leaves
    overflow checks off. *)
Definition u8 (z : Z) : Z := z mod 2 ^ 8.
Definition u16 (z : Z) : Z := z mod 2 ^ 16.
Definition u32 (z : Z) : Z := z mod 2 ^ 32.
Definition u64 (z : Z) : Z := z mod 2 ^ 64.

(** [as i64] and [as i32] of an unsigned value: two's complement. *)
Definition i64 (z : Z) : Z := (z + 2 ^ 63) mod 2 ^ 64 - 2 ^ 63.
Definition i32 (z : Z) : Z := (z + 2 ^ 31) mod 2 ^ 32 - 2 ^ 31.

(** Shifts mask their amount to the width. *)
Definition shl64 (a n : Z) : Z := u64 (Z.shiftl a (n mod 64)).
Definition shr64 (a n : Z) : Z := Z.shiftr a (n mod 64).
Definition shl32 (a n : Z) : Z := u32 (Z.shiftl a (n mod 32)).
Definition shr32 (a n : Z) : Z := Z.shiftr a (n mod 32).

(** [{integer}::div_ceil], [is_power_of_two], [trailing_zeros],
    [next_multiple_of], [checked_add], [checked_mul], [saturating_sub]. *)
Definition div_ceil (a b : Z) : Z := a / b + (if a mod b =? 0 then 0 else 1).
Definition is_power_of_two (v : Z) : bool := (0 <? v) && (v =? 2 ^ Z.log2 v).
Definition next_multiple_of (a b : Z) : Z :=
  if a mod b =? 0 then a else a + (b - a mod b).
Fixpoint pos_trailing_zeros (p : positive) : Z :=
  match p with xO p => 1 + pos_trailing_zeros p | _ => 0 end.
Definition trailing_zeros (w v : Z) : Z :=
  match v with Zpos p => pos_trailing_zeros p | _ => w end.
Definition checked_add64 (a b : Z) : option Z :=
  if a + b <? 2 ^ 64 then Some (a + b) else None.
Definition checked_mul64 (a b : Z) : option Z :=
  if a * b <? 2 ^ 64 then Some (a * b) else None.
Definition saturating_sub (a b : Z) : Z := Z.max 0 (a - b).

(** [u64 / u64] and [u64 % u64] panic on a zero divisor. *)
Definition div_or_panic (a b : Z) : result Z := if b =? 0 then Panic else Ok (a / b).
Definition rem_or_panic (a b : Z) : result Z := if b =? 0 then Panic else Ok (a mod b).

(** * Automation *)

(** Hint databases: [widths] rewrites casts that change nothing, [result]
    solves the common goals about outcomes. *)
Create HintDb widths discriminated.
Create HintDb result discriminated.

Lemma bind_Ok {A B} (f : A -> result B) (m : result A) b :
  m ≫= f = Ok b -> exists a, m = Ok a /\ f a = Ok b.
Proof. destruct m; cbn; naive_solver. Qed.

Lemma fmap_Ok {A B} (f : A -> B) (m : result A) b :
  f <$> m = Ok b -> exists a, m = Ok a /\ b = f a.
Proof. destruct m; cbn; naive_solver. Qed.

Lemma bail_if_Ok c e u : bail_if c e = Ok u -> c = false.
Proof. by destruct c. Qed.

Lemma unwrap_Ok {A} (o : option A) a : unwrap o = Ok a -> o = Some a.
Proof. destruct o; cbn; congruence. Qed.

Lemma ok_or_Ok {A} (o : option A) e a : ok_or o e = Ok a -> o = Some a.
Proof. destruct o; cbn; congruence. Qed.

Lemma map_err_Ok {A} (r : result A) e a : map_err e r = Ok a -> r = Ok a.
Proof. destruct r; cbn; congruence. Qed.

(** Take a hypothesis [... = Ok v] apart: every [bind] in front of it, every
    guard, every lookup. *)
Ltac inv_ok_step :=
  match goal with
  | H : Ok _ = Ok _ |- _ => injection H as H; try subst
  | H : Err _ = Ok _ |- _ => discriminate H
  | H : Panic = Ok _ |- _ => discriminate H
  | H : OutOfFuel = Ok _ |- _ => discriminate H
  | H : mret _ = Ok _ |- _ => unfold mret, result_ret in H
  | H : mbind _ _ = Ok _ |- _ =>
      let a := fresh "a" in let E := fresh "E" in
      apply bind_Ok in H as (a & E & H)
  | H : fmap _ _ = Ok _ |- _ =>
      let a := fresh "a" in let E := fresh "E" in
      apply fmap_Ok in H as (a & E & ->)
  | H : bail_if _ _ = Ok _ |- _ => apply bail_if_Ok in H
  | H : unwrap _ = Ok _ |- _ => apply unwrap_Ok in H
  | H : ok_or _ _ = Ok _ |- _ => apply ok_or_Ok in H
  | H : map_err _ _ = Ok _ |- _ => apply map_err_Ok in H
  end.
Ltac inv_ok := repeat inv_ok_step.

(** Boolean tests as propositions. *)
Ltac bool_step :=
  match goal with
  | H : _ && _ = true |- _ => apply andb_prop in H as [? ?]
  | H : _ || _ = false |- _ => apply orb_false_elim in H as [? ?]
  | H : _ && _ = false |- _ => apply andb_false_iff in H
  | H : _ || _ = true |- _ => apply orb_true_iff in H
  | H : negb _ = true |- _ => apply negb_true_iff in H
  | H : negb _ = false |- _ => apply negb_false_iff in H
  | H : (_ <? _) = true |- _ => apply Z.ltb_lt in H
  | H : (_ <? _) = false |- _ => apply Z.ltb_ge in H
  | H : (_ <=? _) = true |- _ => apply Z.leb_le in H
  | H : (_ <=? _) = false |- _ => apply Z.leb_gt in H
  | H : (_ =? _) = true |- _ => apply Z.eqb_eq in H
  | H : (_ =? _) = false |- _ => apply Z.eqb_neq in H
  end.
Ltac bools := repeat bool_step.

(** * Lemmas on machine integers *)

Lemma u8_id z : 0 <= z < 2 ^ 8 -> u8 z = z.
Proof. apply Z.mod_small. Qed.
Lemma u16_id z : 0 <= z < 2 ^ 16 -> u16 z = z.
Proof. apply Z.mod_small. Qed.
Lemma u32_id z : 0 <= z < 2 ^ 32 -> u32 z = z.
Proof. apply Z.mod_small. Qed.
Lemma u64_id z : 0 <= z < 2 ^ 64 -> u64 z = z.
Proof. apply Z.mod_small. Qed.

Lemma u8_range z : 0 <= u8 z < 2 ^ 8.
Proof. apply Z.mod_pos_bound. lia. Qed.
Lemma u16_range z : 0 <= u16 z < 2 ^ 16.
Proof. apply Z.mod_pos_bound. lia. Qed.
Lemma u32_range z : 0 <= u32 z < 2 ^ 32.
Proof. apply Z.mod_pos_bound. lia. Qed.
Lemma u64_range z : 0 <= u64 z < 2 ^ 64.
Proof. apply Z.mod_pos_bound. lia. Qed.

(** Drop the casts whose argument [lia] (or [nia]) sees to be in range. *)
Ltac no_wrap_with tac :=
  repeat match goal with
  | |- context [u64 ?x] => rewrite (u64_id x) by tac
  | |- context [u32 ?x] => rewrite (u32_id x) by tac
  | |- context [u16 ?x] => rewrite (u16_id x) by tac
  | |- context [u8 ?x] => rewrite (u8_id x) by tac
  end.
Ltac no_wrap := no_wrap_with lia.

Lemma shl64_mul a n : 0 <= n < 64 -> 0 <= a * 2 ^ n < 2 ^ 64 -> shl64 a n = a * 2 ^ n.
Proof.
  intros Hn Ha. unfold shl64. rewrite (Z.mod_small n) by lia.
  rewrite Z.shiftl_mul_pow2 by lia. by apply u64_id.
Qed.

Lemma shr64_div a n : 0 <= n < 64 -> shr64 a n = a / 2 ^ n.
Proof.
  intros Hn. unfold shr64. rewrite (Z.mod_small n) by lia.
  apply Z.shiftr_div_pow2. lia.
Qed.

Lemma pow2_pos n : 0 <= n -> 0 < 2 ^ n.
Proof. intros. apply Z.pow_pos_nonneg; lia. Qed.

Lemma pow2_le a b : 0 <= a <= b -> 2 ^ a <= 2 ^ b.
Proof. intros. apply Z.pow_le_mono_r; lia. Qed.

Lemma pow2_lt a b : 0 <= a < b -> 2 ^ a < 2 ^ b.
Proof. intros. apply Z.pow_lt_mono_r; lia. Qed.

Lemma div_ceil_bounds a b : 0 < b -> a <= div_ceil a b * b < a + b.
Proof.
  intros Hb. unfold div_ceil.
  pose proof (Z.div_mod a b ltac:(lia)). pose proof (Z.mod_pos_bound a b Hb).
  destruct (Z.eqb_spec (a mod b) 0); nia.
Qed.

Lemma div_ceil_unique a b q : 0 < b -> a <= q * b < a + b -> div_ceil a b = q.
Proof. intros Hb Hq. pose proof (div_ceil_bounds a b Hb). nia. Qed.

Lemma div_ceil_nonneg a b : 0 < b -> 0 <= a -> 0 <= div_ceil a b.
Proof. intros Hb Ha. pose proof (div_ceil_bounds a b Hb). nia. Qed.

Lemma next_multiple_of_spec a b :
  0 < b -> a <= next_multiple_of a b < a + b /\ next_multiple_of a b mod b = 0.
Proof.
  intros Hb. unfold next_multiple_of. pose proof (Z.mod_pos_bound a b Hb).
  destruct (Z.eqb_spec (a mod b) 0) as [E|E]; [lia|]. split; [lia|].
  replace (a + (b - a mod b)) with (b * (a / b + 1))
    by (pose proof (Z.div_mod a b ltac:(lia)); nia).
  rewrite Z.mul_comm. apply Z.mod_mul. lia.
Qed.

Lemma is_power_of_two_spec v :
  is_power_of_two v = true <-> exists k, 0 <= k /\ v = 2 ^ k.
Proof.
  unfold is_power_of_two. rewrite andb_true_iff, Z.ltb_lt, Z.eqb_eq. split.
  - intros [Hv E]. exists (Z.log2 v). split; [apply Z.log2_nonneg | done].
  - intros (k & Hk & ->). split; [by apply pow2_pos |]. by rewrite Z.log2_pow2.
Qed.

Lemma trailing_zeros_pow2 w k : 0 <= k -> trailing_zeros w (2 ^ k) = k.
Proof.
  intros Hk. pattern k. apply Z_of_nat_prop; [|done].
  intros n. induction n as [|n IH]; [done|].
  rewrite Nat2Z.inj_succ, Z.pow_succ_r by lia.
  pose proof (pow2_pos (Z.of_nat n) ltac:(lia)) as Hpos.
  destruct (2 ^ Z.of_nat n) as [|p|p]; [lia | | lia].
  change (2 * Z.pos p) with (Z.pos p~0). cbn in IH |- *. lia.
Qed.

(** A field shifted over another. *)
Lemma land_shift_low a b n : 0 <= n -> 0 <= b < 2 ^ n -> Z.land (Z.shiftl a n) b = 0.
Proof.
  intros Hn Hb. apply Z.bits_inj'. intros i Hi. rewrite Z.land_spec, Z.bits_0.
  destruct (Z.lt_ge_cases i n).
  - by rewrite Z.shiftl_spec_low.
  - assert (Z.testbit b i = false) as ->; [|apply andb_false_r].
    rewrite <- (Z.mod_small b (2 ^ n)) by done. by apply Z.mod_pow2_bits_high.
Qed.

Lemma lor_add_shift a b n : 0 <= n -> 0 <= b < 2 ^ n -> Z.lor (a * 2 ^ n) b = a * 2 ^ n + b.
Proof.
  intros Hn Hb. rewrite <- Z.shiftl_mul_pow2 by done.
  rewrite <- Z.lxor_lor, Z.add_nocarry_lxor by (by apply land_shift_low). done.
Qed.

Lemma split_shift a b n : 0 <= n -> 0 <= b < 2 ^ n ->
  (a * 2 ^ n + b) / 2 ^ n = a /\ Z.land (a * 2 ^ n + b) (2 ^ n - 1) = b.
Proof.
  intros Hn Hb. rewrite Z.div_add_l by lia. rewrite Z.div_small by done. split; [lia|].
  rewrite Z.sub_1_r, <- Z.ones_equiv, Z.land_ones by done.
  rewrite Z.add_comm, Z.mod_add by lia. by apply Z.mod_small.
Qed.

Lemma div_or_panic_Ok a b q : div_or_panic a b = Ok q <-> b <> 0 /\ q = a / b.
Proof. unfold div_or_panic. destruct (Z.eqb_spec b 0); intuition congruence. Qed.

Lemma rem_or_panic_Ok a b q : rem_or_panic a b = Ok q <-> b <> 0 /\ q = a mod b.
Proof. unfold rem_or_panic. destruct (Z.eqb_spec b 0); intuition congruence. Qed.

#[export] Hint Resolve u8_range u16_range u32_range u64_range pow2_pos : widths.

(** * Lemmas on outcomes *)

Lemma collect_Ok {A B} (f : A -> result B) l ys :
  collect f l = Ok ys <-> Forall2 (fun x y => f x = Ok y) l ys.
Proof.
  revert ys. induction l as [|x l IH]; intros ys; cbn [collect].
  - split; [intros [= <-]; constructor | by inversion 1].
  - split.
    + intros H. inv_ok. constructor; [done|]. by apply IH.
    + inversion 1 as [|? y ? ys' Hx Hl]; subst. rewrite Hx. cbn.
      by rewrite (proj2 (IH _) Hl).
Qed.

Lemma collect_length {A B} (f : A -> result B) l ys :
  collect f l = Ok ys -> length ys = length l.
Proof. intros H%collect_Ok. symmetry. by apply Forall2_length in H. Qed.

Lemma fold_result_app {A S} (f : S -> A -> result S) l1 l2 s :
  fold_result f s (l1 ++ l2) = (s' ← fold_result f s l1; fold_result f s' l2).
Proof.
  revert s. induction l1 as [|x l1 IH]; intros s; cbn; [done|].
  destruct (f s x); cbn; [apply IH | done..].
Qed.

(** An invariant of the state holds after a fold that returns. *)
Lemma fold_result_ind {A S} (P : S -> Prop) (f : S -> A -> result S) l s s' :
  (forall s x s', x ∈ l -> P s -> f s x = Ok s' -> P s') ->
  P s -> fold_result f s l = Ok s' -> P s'.
Proof.
  revert s. induction l as [|x l IH]; intros s Hf Hs H; cbn in H; inv_ok; [done|].
  eapply IH; [| |exact H].
  - intros s1 y s2 Hy. apply Hf. by right.
  - eapply Hf; [by left | exact Hs | done].
Qed.

(** A run that gives an answer: a value or an error, neither a panic nor an
    unfinished loop. *)
Definition answers {A} (r : result A) : Prop :=
  (exists a, r = Ok a) \/ (exists e, r = Err e).

Lemma answers_Ok {A} (a : A) : answers (Ok a).
Proof. left. eauto. Qed.
Lemma answers_Err {A} e : answers (@Err A e).
Proof. right. eauto. Qed.
Lemma answers_bail_if c e : answers (bail_if c e).
Proof. destruct c; [apply answers_Err | apply answers_Ok]. Qed.
Lemma answers_ok_or {A} (o : option A) e : answers (ok_or o e).
Proof. destruct o; [apply answers_Ok | apply answers_Err]. Qed.
Lemma answers_bind {A B} (m : result A) (f : A -> result B) :
  answers m -> (forall a, m = Ok a -> answers (f a)) -> answers (m ≫= f).
Proof. intros [[a ->]|[e ->]] Hf; cbn; [by apply Hf | apply answers_Err]. Qed.
Lemma answers_iff {A} (r : result A) : answers r <-> r <> Panic /\ r <> OutOfFuel.
Proof. unfold answers. destruct r; naive_solver. Qed.

(** A run that answers, with a value that satisfies [P] if it has one. *)
Definition good {A} (P : A -> Prop) (r : result A) : Prop :=
  match r with Ok a => P a | Err _ => True | _ => False end.

Lemma good_answers {A} (P : A -> Prop) (r : result A) : good P r -> answers r.
Proof. destruct r; cbn; [intros; apply answers_Ok | intros; apply answers_Err | done..]. Qed.
Lemma good_weaken {A} (P Q : A -> Prop) (r : result A) :
  good P r -> (forall a, P a -> Q a) -> good Q r.
Proof. destruct r; cbn; auto. Qed.
Lemma good_bind {A B} (P : A -> Prop) (Q : B -> Prop) (m : result A) (f : A -> result B) :
  good P m -> (forall a, P a -> good Q (f a)) -> good Q (m ≫= f).
Proof. intros Hm Hf. destruct m; cbn in *; auto. Qed.
Lemma good_fmap {A B} (P : B -> Prop) (f : A -> B) (m : result A) :
  good (fun a => P (f a)) m -> good P (f <$> m).
Proof. by destruct m. Qed.
Lemma good_fold {A S} (P : S -> Prop) (f : S -> A -> result S) l s :
  P s -> (forall s x, P s -> x ∈ l -> good P (f s x)) -> good P (fold_result f s l).
Proof.
  revert s. induction l as [|x l IH]; intros s Hs Hf; [done|]. cbn [fold_result].
  apply (good_bind P); [apply Hf; [done | by left]|]. intros s' Hs'. apply IH; [done|].
  intros s2 y H2 Hy. apply Hf; [done | by right].
Qed.
Lemma good_collect {A B} (P : B -> Prop) (f : A -> result B) l :
  (forall x, x ∈ l -> good P (f x)) -> good (Forall P) (collect f l).
Proof.
  induction l as [|x l IH]; intros Hf; [by constructor|]. cbn [collect].
  apply (good_bind P); [apply Hf; by left|]. intros y Hy.
  apply (good_bind (Forall P)); [apply IH; intros z Hz; apply Hf; by right|]. intros ys Hys.
  by constructor.
Qed.

#[export] Hint Resolve answers_Ok answers_Err answers_bail_if answers_ok_or : result.

(** Walk down a sequence of binds, closing the steps the hints know. *)
Ltac answers_steps :=
  repeat (apply answers_bind; [solve [eauto with result] | intros ? ?]); eauto with result.
