(* ===== verification/Bytes.v ===== *)
(** [src/src/bytes.rs]: field access in byte buffers, and the straight-line
    field stores the encoders are made of.

    A [&[u8]] is a [list byte]; an access outside it panics, as the Rust
    slice operations do.  An encoder writes its fields one after another
    into a caller's buffer: it is a list of [store]s run in order, and
    [find_store] says what a later read of a field sees. *)

From Stdlib Require Import ZArith Lia.
From Stdlib Require String.
From stdpp Require Import base tactics list numbers.
From coqutil Require Import Byte Word.LittleEndianList.
From S2P Require Import Prelude.

Abbreviation buf := (list byte).

#[export] Instance byte_eq_dec : EqDecision byte := Byte.byte_eq_dec.

(** * Slices *)

(** [&b[lo..hi]]. *)
Definition slice (b : buf) (lo hi : nat) : result buf :=
  if (lo <=? hi)%nat && (hi <=? length b)%nat
  then Ok (take (hi - lo) (drop lo b)) else Panic.

(** [b] with the bytes from [lo] on replaced by [src], in range. *)
Definition patch (lo : nat) (src b : buf) : buf :=
  take lo b ++ src ++ drop (lo + length src) b.

(** [b[lo..hi].copy_from_slice(src)]. *)
Definition copy_into (lo hi : nat) (src b : buf) : result buf :=
  if (lo <=? hi)%nat && (hi <=? length b)%nat && (length src =? hi - lo)%nat
  then Ok (patch lo src b) else Panic.

(** [f(&mut b[lo..hi])]. *)
Definition with_slice (lo hi : nat) (f : buf -> result buf) (b : buf) : result buf :=
  s ← slice b lo hi;
  s' ← f s;
  copy_into lo hi s' b.

(** [b[i]]. *)
Definition index (b : buf) (i : nat) : result Z :=
  x ← unwrap (b !! i); Ok (byte.unsigned x).

(** A buffer of [n] zero bytes, [vec![0u8; n]]. *)
Definition zeroes (n : nat) : buf := replicate n (byte.of_Z 0).

(** * Fields *)

(** The big-endian value of some bytes, and the [n] big-endian bytes of a
    value: [from_be_bytes], [to_be_bytes]; and the little-endian ones. *)
Definition of_be_bytes (l : buf) : Z := le_combine (rev l).
Definition to_be_bytes (n : nat) (v : Z) : buf := rev (le_split n v).
Definition of_le_bytes (l : buf) : Z := le_combine l.
Definition to_le_bytes (n : nat) (v : Z) : buf := le_split n v.

Definition be16 (b : buf) (off : nat) : result Z :=
  x ← unwrap (b !! off);
  y ← unwrap (b !! (off + 1)%nat);
  Ok (of_be_bytes [x; y]).
Definition be32 (b : buf) (off : nat) : result Z :=
  s ← slice b off (off + 4); Ok (of_be_bytes s).
Definition be64 (b : buf) (off : nat) : result Z :=
  s ← slice b off (off + 8); Ok (of_be_bytes s).
Definition le32 (b : buf) (off : nat) : result Z :=
  s ← slice b off (off + 4); Ok (of_le_bytes s).

Definition put16 (b : buf) (off : nat) (v : Z) : result buf :=
  copy_into off (off + 2) (to_be_bytes 2 v) b.
Definition put32 (b : buf) (off : nat) (v : Z) : result buf :=
  copy_into off (off + 4) (to_be_bytes 4 v) b.
Definition put64 (b : buf) (off : nat) (v : Z) : result buf :=
  copy_into off (off + 8) (to_be_bytes 8 v) b.

(** [b[off] = v]. *)
Definition put8 (b : buf) (off : nat) (v : Z) : result buf :=
  copy_into off (off + 1) [byte.of_Z v] b.

(** * Field stores *)

(** One statement of an encoder: [b[off] = v], [put16/32/64(b, off, v)],
    [b[off..off + n].copy_from_slice(src)]. *)
Inductive store : Type :=
| P8 (off : nat) (v : Z)
| P16 (off : nat) (v : Z)
| P32 (off : nat) (v : Z)
| P64 (off : nat) (v : Z)
| PB (off n : nat) (src : buf).

Definition run_store (b : buf) (s : store) : result buf :=
  match s with
  | P8 off v => put8 b off v
  | P16 off v => put16 b off v
  | P32 off v => put32 b off v
  | P64 off v => put64 b off v
  | PB off n src => copy_into off (off + n) src b
  end.

(** The statements in order. *)
Definition run_stores (ss : list store) (b : buf) : result buf :=
  fold_result run_store b ss.

Definition store_off (s : store) : nat :=
  match s with P8 o _ | P16 o _ | P32 o _ | P64 o _ | PB o _ _ => o end.
Definition store_len (s : store) : nat :=
  match s with P8 _ _ => 1 | P16 _ _ => 2 | P32 _ _ => 4 | P64 _ _ => 8 | PB _ n _ => n end.
Definition store_bytes (s : store) : buf :=
  match s with
  | P8 _ v => [byte.of_Z v]
  | P16 _ v => to_be_bytes 2 v
  | P32 _ v => to_be_bytes 4 v
  | P64 _ v => to_be_bytes 8 v
  | PB _ _ src => src
  end.

(** The stores' effect, in range. *)
Definition patches (ss : list store) (b : buf) : buf :=
  foldl (fun b s => patch (store_off s) (store_bytes s) b) b ss.

(** What the [n] bytes at [off] hold after some stores: the bytes of the last
    store to exactly that field, the original bytes, or a mixture. *)
Inductive found : Type := Stored (l : buf) | Untouched | Mixed.

Fixpoint find_store (off n : nat) (ss : list store) : found :=
  match ss with
  | [] => Untouched
  | s :: ss =>
      match find_store off n ss with
      | Untouched =>
          if (off =? store_off s)%nat && (n =? store_len s)%nat then Stored (store_bytes s)
          else if (off + n <=? store_off s)%nat || (store_off s + store_len s <=? off)%nat
          then Untouched else Mixed
      | r => r
      end
  end.

(** A store lies inside a buffer of [n] bytes and writes as many bytes as
    its field has. *)
Definition store_in (n : nat) (s : store) : Prop :=
  (store_off s + store_len s <= n)%nat /\ length (store_bytes s) = store_len s.

(** * Lemmas: values and bytes *)

Lemma length_to_be_bytes n v : length (to_be_bytes n v) = n.
Proof. unfold to_be_bytes. by rewrite length_rev, length_le_split. Qed.

Lemma length_to_le_bytes n v : length (to_le_bytes n v) = n.
Proof. apply length_le_split. Qed.

Lemma of_to_be_bytes n v : 0 <= v < 2 ^ (8 * Z.of_nat n) -> of_be_bytes (to_be_bytes n v) = v.
Proof.
  intros Hv. unfold of_be_bytes, to_be_bytes. rewrite rev_involutive, le_combine_split.
  apply Z.mod_small. by rewrite Z.mul_comm.
Qed.

Lemma of_to_le_bytes n v : 0 <= v < 2 ^ (8 * Z.of_nat n) -> of_le_bytes (to_le_bytes n v) = v.
Proof.
  intros Hv. unfold of_le_bytes, to_le_bytes. rewrite le_combine_split.
  apply Z.mod_small. by rewrite Z.mul_comm.
Qed.

Lemma to_of_be_bytes l : to_be_bytes (length l) (of_be_bytes l) = l.
Proof.
  unfold of_be_bytes, to_be_bytes. rewrite <- (length_rev l), split_le_combine.
  apply rev_involutive.
Qed.

Lemma of_be_bytes_range l : 0 <= of_be_bytes l < 2 ^ (8 * Z.of_nat (length l)).
Proof. unfold of_be_bytes. rewrite <- length_rev. apply le_combine_bound. Qed.

Lemma of_le_bytes_range l : 0 <= of_le_bytes l < 2 ^ (8 * Z.of_nat (length l)).
Proof. apply le_combine_bound. Qed.

Lemma of_be_bytes_mod n v : of_be_bytes (to_be_bytes n v) = v mod 2 ^ (8 * Z.of_nat n).
Proof.
  unfold of_be_bytes, to_be_bytes. by rewrite rev_involutive, le_combine_split, Z.mul_comm.
Qed.

Lemma of_be_bytes_inj l1 l2 :
  length l1 = length l2 -> of_be_bytes l1 = of_be_bytes l2 -> l1 = l2.
Proof.
  intros Hl H. apply (f_equal (to_be_bytes (length l1))) in H.
  rewrite Hl in H at 2. by rewrite !to_of_be_bytes in H.
Qed.

Lemma byte_unsigned_of_Z v : 0 <= v < 2 ^ 8 -> byte.unsigned (byte.of_Z v) = v.
Proof. intros. rewrite byte.unsigned_of_Z. by apply Z.mod_small. Qed.

Lemma length_zeroes n : length (zeroes n) = n.
Proof. apply length_replicate. Qed.

(** * Lemmas: slices and patches *)

Lemma slice_Ok b lo hi s :
  slice b lo hi = Ok s <->
  (lo <= hi <= length b)%nat /\ s = take (hi - lo) (drop lo b).
Proof.
  unfold slice. destruct (Nat.leb_spec lo hi), (Nat.leb_spec hi (length b)); cbn;
    split; intros H'; try naive_solver lia.
Qed.

Lemma slice_in b lo hi :
  (lo <= hi <= length b)%nat -> slice b lo hi = Ok (take (hi - lo) (drop lo b)).
Proof. intros. apply slice_Ok. naive_solver. Qed.

Lemma slice_length b lo hi s : slice b lo hi = Ok s -> length s = (hi - lo)%nat.
Proof. intros [? ->]%slice_Ok. rewrite length_take, length_drop. lia. Qed.

Lemma copy_into_Ok lo hi src b b' :
  copy_into lo hi src b = Ok b' <->
  (lo <= hi <= length b)%nat /\ length src = (hi - lo)%nat /\ b' = patch lo src b.
Proof.
  unfold copy_into.
  destruct (Nat.leb_spec lo hi), (Nat.leb_spec hi (length b)),
    (Nat.eqb_spec (length src) (hi - lo)); cbn; split; intros H'; try naive_solver lia.
Qed.

Lemma length_patch lo src b :
  (lo + length src <= length b)%nat -> length (patch lo src b) = length b.
Proof.
  intros H. unfold patch. rewrite !length_app, length_take, length_drop. lia.
Qed.

Lemma lookup_patch lo src b i :
  (lo + length src <= length b)%nat ->
  patch lo src b !! i =
    if decide (lo <= i < lo + length src)%nat then src !! (i - lo)%nat else b !! i.
Proof.
  intros H. unfold patch. case_decide as Hi.
  - rewrite lookup_app_r by (rewrite length_take; lia).
    rewrite length_take, lookup_app_l by lia. f_equal. lia.
  - destruct (decide (i < lo)%nat) as [Hlt|].
    + rewrite lookup_app_l by (rewrite length_take; lia). by apply lookup_take_lt.
    + rewrite lookup_app_r, length_take by (rewrite length_take; lia).
      rewrite lookup_app_r by lia. rewrite lookup_drop. f_equal. lia.
Qed.

Lemma patch_nil lo b : patch lo [] b = b.
Proof. unfold patch. cbn. rewrite Nat.add_0_r. apply take_drop. Qed.

Lemma slice_patch_same lo hi src b :
  (lo <= hi <= length b)%nat -> length src = (hi - lo)%nat ->
  slice (patch lo src b) lo hi = Ok src.
Proof.
  intros Hb Hs. rewrite slice_in by (rewrite length_patch; lia). f_equal.
  unfold patch. rewrite drop_app_length' by (rewrite length_take; lia).
  apply take_app_length'. lia.
Qed.

Lemma slice_patch_other lo src b lo' hi' :
  (lo + length src <= length b)%nat ->
  (hi' <= lo \/ lo + length src <= lo')%nat ->
  slice (patch lo src b) lo' hi' = slice b lo' hi'.
Proof.
  intros Hb Hd. unfold slice. rewrite length_patch by done.
  destruct ((lo' <=? hi')%nat && (hi' <=? length b)%nat) eqn:E; [|done].
  apply andb_prop in E as [E1%Nat.leb_le E2%Nat.leb_le]. f_equal.
  apply list_eq. intros i.
  destruct (decide (i < hi' - lo')%nat);
    [|rewrite !lookup_take_ge by lia; done].
  rewrite !lookup_take_lt, !lookup_drop by lia. rewrite lookup_patch by done.
  case_decide; [lia|done].
Qed.

Lemma patch_twice lo src src' b :
  (lo + length src <= length b)%nat -> length src' = length src ->
  patch lo src' (patch lo src b) = patch lo src' b.
Proof.
  intros Hb Hl. apply list_eq. intros i.
  rewrite !lookup_patch by (rewrite ?length_patch; lia).
  repeat case_decide; try lia; done.
Qed.

Lemma patch_comm lo1 src1 lo2 src2 b :
  (lo1 + length src1 <= length b)%nat -> (lo2 + length src2 <= length b)%nat ->
  (lo1 + length src1 <= lo2 \/ lo2 + length src2 <= lo1)%nat ->
  patch lo1 src1 (patch lo2 src2 b) = patch lo2 src2 (patch lo1 src1 b).
Proof.
  intros H1 H2 Hd. apply list_eq. intros i.
  rewrite !lookup_patch by (rewrite ?length_patch; lia).
  repeat case_decide; try lia; done.
Qed.

(** Adjacent patches are one patch. *)
Lemma patch_app lo src1 src2 (b : buf) :
  (lo + length src1 + length src2 <= length b)%nat ->
  patch (lo + length src1) src2 (patch lo src1 b) = patch lo (src1 ++ src2) b.
Proof.
  intros H. apply list_eq. intros i.
  rewrite !lookup_patch by (rewrite ?length_patch, ?length_app; lia).
  rewrite length_app. repeat case_decide; try lia; try done.
  - rewrite lookup_app_r by lia. f_equal. lia.
  - rewrite lookup_app_l by lia. done.
Qed.

Lemma patch_all src (b : buf) : length src = length b -> patch 0 src b = src.
Proof. intros H. unfold patch. cbn. rewrite H, drop_all. apply app_nil_r. Qed.

Lemma copy_into_in lo hi src b :
  (lo <= hi <= length b)%nat -> length src = (hi - lo)%nat ->
  copy_into lo hi src b = Ok (patch lo src b).
Proof. intros. apply copy_into_Ok. done. Qed.

(** A string's bytes. *)
Lemma length_list_byte_of_string l :
  length (String.list_byte_of_string l) = String.length l.
Proof. induction l; cbn; [done|]. unfold String.list_byte_of_string in *. cbn. by f_equal. Qed.

Lemma with_slice_Ok lo hi f b b' :
  with_slice lo hi f b = Ok b' ->
  exists s s', slice b lo hi = Ok s /\ f s = Ok s' /\ length s' = (hi - lo)%nat /\
    b' = patch lo s' b /\ (lo <= hi <= length b)%nat.
Proof.
  unfold with_slice. intros H. inv_ok.
  apply copy_into_Ok in H as (? & ? & ->). eauto 10.
Qed.

Lemma index_slice b i : index b i = of_be_bytes <$> slice b i (i + 1).
Proof.
  unfold index, slice. destruct (Nat.leb_spec (i + 1) (length b)) as [Hi|Hi].
  - destruct (lookup_lt_is_Some_2 b i) as [x Hx]; [lia|]. rewrite Hx.
    replace (i <=? i + 1)%nat with true by (symmetry; apply Nat.leb_le; lia). cbn.
    replace (i + 1 - i)%nat with 1%nat by lia.
    rewrite (drop_S _ _ _ Hx). cbn. rewrite firstn_O. unfold of_be_bytes. cbn.
    by rewrite le_combine_1.
  - rewrite lookup_ge_None_2 by lia. by rewrite andb_false_r.
Qed.

Lemma be16_slice b off : be16 b off = of_be_bytes <$> slice b off (off + 2).
Proof.
  unfold be16, slice. destruct (Nat.leb_spec (off + 2) (length b)) as [Hi|Hi].
  - destruct (lookup_lt_is_Some_2 b off) as [x Hx]; [lia|].
    destruct (lookup_lt_is_Some_2 b (off + 1)) as [y Hy]; [lia|]. rewrite Hx, Hy.
    replace (off <=? off + 2)%nat with true by (symmetry; apply Nat.leb_le; lia). cbn.
    replace (off + 2 - off)%nat with 2%nat by lia.
    rewrite (drop_S _ _ _ Hx). rewrite Nat.add_1_r in Hy. by rewrite (drop_S _ _ _ Hy).
  - rewrite andb_false_r. cbn.
    destruct (b !! off); cbn; [|done].
    by rewrite (lookup_ge_None_2 b (off + 1)) by lia.
Qed.

(** A slice of a slice. *)
Lemma slice_sub (b l : buf) o n i k :
  slice b o (o + n) = Ok l -> (i + k <= n)%nat ->
  slice b (o + i) (o + i + k) = slice l i (i + k).
Proof.
  intros [Hb ->]%slice_Ok Hi.
  rewrite !slice_in by (rewrite ?length_take, ?length_drop; lia). f_equal.
  rewrite skipn_firstn_comm, drop_drop, take_take. f_equal. lia.
Qed.

(** Fields of a slice. *)
Lemma slice_be16 (b l : buf) o n i :
  slice b o (o + n) = Ok l -> (i + 2 <= n)%nat -> be16 b (o + i) = be16 l i.
Proof. intros H Hi. rewrite !be16_slice. by rewrite (slice_sub b l o n i 2). Qed.
Lemma slice_be32 (b l : buf) o n i :
  slice b o (o + n) = Ok l -> (i + 4 <= n)%nat -> be32 b (o + i) = be32 l i.
Proof. intros H Hi. unfold be32. by rewrite (slice_sub b l o n i 4). Qed.
Lemma slice_be64 (b l : buf) o n i :
  slice b o (o + n) = Ok l -> (i + 8 <= n)%nat -> be64 b (o + i) = be64 l i.
Proof. intros H Hi. unfold be64. by rewrite (slice_sub b l o n i 8). Qed.
Lemma slice_index (b l : buf) o n i :
  slice b o (o + n) = Ok l -> (i + 1 <= n)%nat -> index b (o + i) = index l i.
Proof. intros H Hi. rewrite !index_slice. by rewrite (slice_sub b l o n i 1). Qed.

(** * Lemmas: field stores *)

Lemma run_store_in b s : store_in (length b) s ->
  run_store b s = Ok (patch (store_off s) (store_bytes s) b).
Proof.
  intros [H1 H2]. destruct s; cbn [store_off store_len store_bytes] in *;
    unfold run_store, put8, put16, put32, put64;
    apply copy_into_in; rewrite ?H2; lia.
Qed.

Lemma run_stores_in ss b :
  Forall (store_in (length b)) ss ->
  run_stores ss b = Ok (patches ss b) /\ length (patches ss b) = length b.
Proof.
  revert b. induction ss as [|s ss IH]; intros b H; [done|].
  inversion_clear H as [|? ? Hs Hss]. unfold run_stores in *.
  cbn [fold_result patches foldl]. rewrite run_store_in by done. cbn [mbind result_bind].
  destruct Hs as [H1 H2].
  assert (length (patch (store_off s) (store_bytes s) b) = length b) as E
    by (apply length_patch; lia).
  rewrite <- E. apply IH. by rewrite E.
Qed.

Lemma run_stores_length ss b b' :
  run_stores ss b = Ok b' -> length b' = length b.
Proof.
  unfold run_stores. intros H.
  eapply (fold_result_ind (fun x => length x = length b)) in H; [done | | done].
  intros s x s' _ Hl Hx.
  destruct x; unfold run_store, put8, put16, put32, put64 in Hx;
    apply copy_into_Ok in Hx as (? & ? & ->); rewrite length_patch; lia.
Qed.

(** What [find_store] says is what a slice reads. *)
Lemma slice_patches ss b off n :
  Forall (store_in (length b)) ss ->
  match find_store off n ss with
  | Stored l => slice (patches ss b) off (off + n) = Ok l
  | Untouched => slice (patches ss b) off (off + n) = slice b off (off + n)
  | Mixed => True
  end.
Proof.
  revert b. induction ss as [|s ss IH]; intros b H; [done|].
  inversion_clear H as [|? ? [H1 H2] Hss]. cbn [find_store patches foldl].
  fold (patches ss (patch (store_off s) (store_bytes s) b)).
  assert (length (patch (store_off s) (store_bytes s) b) = length b) as E
    by (apply length_patch; lia).
  specialize (IH (patch (store_off s) (store_bytes s) b)). rewrite E in IH.
  specialize (IH Hss). destruct (find_store off n ss) as [l| |]; [exact IH| |done].
  destruct ((off =? store_off s)%nat && (n =? store_len s)%nat) eqn:Eq.
  - apply andb_prop in Eq as [->%Nat.eqb_eq ->%Nat.eqb_eq].
    rewrite IH. apply slice_patch_same; lia.
  - destruct ((off + n <=? store_off s)%nat || (store_off s + store_len s <=? off)%nat) eqn:Ed;
      [|done].
    rewrite IH. apply slice_patch_other; [lia|].
    apply orb_prop in Ed as [?%Nat.leb_le|?%Nat.leb_le]; lia.
Qed.

Lemma slice_patches_stored ss b off n l :
  Forall (store_in (length b)) ss -> find_store off n ss = Stored l ->
  slice (patches ss b) off (off + n) = Ok l.
Proof. intros H E. pose proof (slice_patches ss b off n H) as S. by rewrite E in S. Qed.

Lemma slice_patches_untouched ss b off n :
  Forall (store_in (length b)) ss -> find_store off n ss = Untouched ->
  slice (patches ss b) off (off + n) = slice b off (off + n).
Proof. intros H E. pose proof (slice_patches ss b off n H) as S. by rewrite E in S. Qed.

(** Stores that stay away from a slice leave it. *)
Definition apart (lo hi : nat) (s : store) : Prop :=
  (hi <= store_off s \/ store_off s + store_len s <= lo)%nat.

Definition apartb (lo hi : nat) (s : store) : bool :=
  (hi <=? store_off s)%nat || (store_off s + store_len s <=? lo)%nat.

Lemma forallb_apart lo hi ss : forallb (apartb lo hi) ss = true -> Forall (apart lo hi) ss.
Proof.
  induction ss as [|s ss IH]; cbn; intros H; [constructor|].
  apply andb_prop in H as [H Hs]. constructor; [|by apply IH]. unfold apart.
  apply orb_prop in H as [?%Nat.leb_le|?%Nat.leb_le]; lia.
Qed.

Lemma slice_patches_apart ss b lo hi :
  Forall (store_in (length b)) ss -> Forall (apart lo hi) ss ->
  slice (patches ss b) lo hi = slice b lo hi.
Proof.
  revert b. induction ss as [|s ss IH]; intros b Hi Ha; [done|].
  inversion_clear Hi as [|? ? [H1 H2] Hss]. inversion_clear Ha as [|? ? Hs Has].
  cbn [patches foldl]. fold (patches ss (patch (store_off s) (store_bytes s) b)).
  rewrite IH; [|by rewrite length_patch by lia|done].
  unfold apart in Hs. apply slice_patch_other; lia.
Qed.

Lemma of_be_bytes_1 v : of_be_bytes [byte.of_Z v] = u8 v.
Proof. unfold of_be_bytes. cbn. rewrite le_combine_1. apply byte.unsigned_of_Z. Qed.

(** Reading back a stored field gives the value, cut to the field's width. *)
Lemma be16_stored b ss off v :
  Forall (store_in (length b)) ss -> find_store off 2 ss = Stored (to_be_bytes 2 v) ->
  be16 (patches ss b) off = Ok (u16 v).
Proof.
  intros H E. rewrite be16_slice, (slice_patches_stored _ _ _ _ _ H E). cbn [fmap result_fmap].
  by rewrite of_be_bytes_mod.
Qed.

Lemma be32_stored b ss off v :
  Forall (store_in (length b)) ss -> find_store off 4 ss = Stored (to_be_bytes 4 v) ->
  be32 (patches ss b) off = Ok (u32 v).
Proof.
  intros H E. unfold be32. rewrite (slice_patches_stored _ _ _ _ _ H E). cbn [mbind result_bind].
  by rewrite of_be_bytes_mod.
Qed.

Lemma be64_stored b ss off v :
  Forall (store_in (length b)) ss -> find_store off 8 ss = Stored (to_be_bytes 8 v) ->
  be64 (patches ss b) off = Ok (u64 v).
Proof.
  intros H E. unfold be64. rewrite (slice_patches_stored _ _ _ _ _ H E). cbn [mbind result_bind].
  by rewrite of_be_bytes_mod.
Qed.

Lemma index_stored b ss off v :
  Forall (store_in (length b)) ss -> find_store off 1 ss = Stored [byte.of_Z v] ->
  index (patches ss b) off = Ok (u8 v).
Proof.
  intros H E. rewrite index_slice, (slice_patches_stored _ _ _ _ _ H E). cbn [fmap result_fmap].
  by rewrite of_be_bytes_1.
Qed.

(** The two halves of [store_in] checked apart: the offsets by evaluation
    against the size [m] of the structure, the sources by their lengths. *)
Definition store_fits (m : nat) (s : store) : bool := (store_off s + store_len s <=? m)%nat.
Definition source_fits (s : store) : Prop :=
  match s with PB _ n src => length src = n | _ => True end.

Lemma stores_in m (b : buf) ss :
  forallb (store_fits m) ss = true -> (m <= length b)%nat -> Forall source_fits ss ->
  Forall (store_in (length b)) ss.
Proof.
  intros Hf Hm Hs. induction Hs as [|s ss Hs _ IH]; [constructor|].
  cbn in Hf. apply andb_prop in Hf as [Hf%Nat.leb_le Hf'].
  constructor; [|by apply IH]. split; [lia|].
  destruct s; cbn in *; rewrite ?length_to_be_bytes; done.
Qed.

Lemma run_stores_app ss1 ss2 b :
  run_stores (ss1 ++ ss2) b = (b ← run_stores ss1 b; run_stores ss2 b).
Proof. apply fold_result_app. Qed.

(** Stores one after another, from [o] on without a gap, are one patch. *)
Fixpoint adjacent (o : nat) (ss : list store) : bool :=
  match ss with
  | [] => true
  | s :: ss => (store_off s =? o)%nat && adjacent (o + store_len s) ss
  end.

Lemma run_adjacent ss o b :
  adjacent o ss = true -> Forall source_fits ss ->
  (o + length (ss ≫= store_bytes) <= length b)%nat ->
  run_stores ss b = Ok (patch o (ss ≫= store_bytes) b).
Proof.
  revert o b. induction ss as [|s ss IH]; intros o b Ha Hf Hb.
  - cbn. by rewrite patch_nil.
  - cbn in Ha. apply andb_prop in Ha as [Ho%Nat.eqb_eq Ha]. inversion_clear Hf as [|? ? Hs Hss].
    cbn [mbind list_bind] in Hb |- *. rewrite length_app in Hb.
    assert (length (store_bytes s) = store_len s) as Hl
      by (destruct s; cbn in *; rewrite ?length_to_be_bytes; done).
    unfold run_stores. cbn [fold_result].
    rewrite run_store_in by (split; [lia|done]). cbn [mbind result_bind].
    rewrite <- Hl in Ha. fold (run_stores ss (patch (store_off s) (store_bytes s) b)).
    rewrite Ho. rewrite (IH _ _ Ha Hss) by (rewrite length_patch; lia). f_equal. apply patch_app. lia.
Qed.

(** * The accessors of [bytes.rs] *)

(** Reading a big-endian field back after writing it gives the value
    written, for every width, and writing it leaves every other slice of the
    buffer and the buffer's length alone. *)
Lemma put_be_roundtrip b off v :
  (forall b', put16 b off v = Ok b' -> 0 <= v < 2 ^ 16 -> be16 b' off = Ok v) /\
  (forall b', put32 b off v = Ok b' -> 0 <= v < 2 ^ 32 -> be32 b' off = Ok v) /\
  (forall b', put64 b off v = Ok b' -> 0 <= v < 2 ^ 64 -> be64 b' off = Ok v) /\
  (forall b' lo hi, put64 b off v = Ok b' -> (hi <= off \/ off + 8 <= lo)%nat ->
     slice b' lo hi = slice b lo hi /\ length b' = length b).
Proof.
  unfold put16, put32, put64, be32, be64.
  split_and!; intros b'; [intros Hb Hv ..| intros lo hi Hb Hd];
    apply copy_into_Ok in Hb as (Hr & Hl & ->).
  - rewrite be16_slice, slice_patch_same by lia. cbn. by rewrite of_to_be_bytes.
  - rewrite slice_patch_same by lia. cbn. by rewrite of_to_be_bytes.
  - rewrite slice_patch_same by lia. cbn. by rewrite of_to_be_bytes.
  - rewrite slice_patch_other by lia. rewrite length_patch by lia. done.
Qed.
