(* ===== verification/Fmt.v ===== *)
(** Rust's formatting of numbers, as far as the messages and dumps of the
    program use it: [{:x}], [{:#x}], [{:02x}], [{:#010x}], [{:o}], [{:09}].
    Plain [{}] is stdpp's [pretty]. *)

From Stdlib Require Import ZArith Lia String Ascii.
From stdpp Require Import base tactics list numbers strings pretty.
From coqutil Require Import Byte Word.LittleEndianList.
From S2P Require Import Prelude Bytes.

(** A digit, lower case. *)
Definition digit_char (d : Z) : ascii :=
  ascii_of_nat (Z.to_nat (if d <? 10 then 48 + d else 87 + d)).

(** The digits of [n] in front of [acc].  64 digits are enough for a [u64]
    in any base. *)
Fixpoint digits (fuel : nat) (base n : Z) (acc : string) : string :=
  match fuel with
  | O => acc
  | S fuel =>
      let acc := String (digit_char (n mod base)) acc in
      if n <? base then acc else digits fuel base (n / base) acc
  end.
Definition radix (base n : Z) : string := digits 64 base n EmptyString.

(** [{:x}], [{:#x}], [{:o}]. *)
Definition hex (n : Z) : string := radix 16 n.
Definition alt_hex (n : Z) : string := "0x" +:+ hex n.
Definition octal (n : Z) : string := radix 8 n.

(** [s] filled with zeroes on the left to [w] characters. *)
Definition pad_zero (w : nat) (s : string) : string :=
  Nat.iter (w - String.length s) (String "0") s.

(** [{:#010x}]: the width counts the prefix. *)
Definition alt_hex_10 (n : Z) : string := "0x" +:+ pad_zero 8 (hex n).

(** Bytes, two digits each. *)
Definition hex_byte (b : byte) : string := pad_zero 2 (hex (byte.unsigned b)).
Definition hex_bytes (b : buf) : string := String.concat EmptyString (hex_byte <$> b).

(** [true] and [false]. *)
Definition show_bool (b : bool) : string := if b then "true" else "false".

Example hex_shown : hex 0xfeedbabe = "feedbabe" /\ hex 0 = "0" /\ alt_hex_10 255 = "0x000000ff" /\
  octal 493 = "755" /\ hex_bytes [byte.of_Z 10; byte.of_Z 255] = "0aff".
Proof. by vm_compute. Qed.
