(* ===== verification/Crc.v ===== *)
(** [src/src/crc.rs]: CRC32C, table-driven, and the checksum discipline of
    every v5 metadata structure ([cksum], [stamp], [verify]).

    The table form is proved equal to the bit-at-a-time division it unrolls;
    a stamped buffer verifies; and no change confined to one byte of a
    stamped buffer goes unnoticed. *)

From Stdlib Require Import ZArith Lia.
From stdpp Require Import base tactics list numbers.
From coqutil Require Import Byte Word.LittleEndianList.
From S2P Require Import Prelude Bytes.

(** * Definitions *)

(** The reflected Castagnoli polynomial. *)
Definition POLY : Z := 0x82f63b78.

(** One round of the inner loop of [table]. *)
Definition round (c : Z) : Z :=
  if Z.land c 1 =? 0 then Z.shiftr c 1 else Z.lxor POLY (Z.shiftr c 1).

(** [table]: 256 entries, each the index after eight rounds. *)
Definition table_entry (i : Z) : Z := Nat.iter 8 round i.
Definition table : list Z := table_entry <$> seqZ 0 256.

(** [static TABLE: [u32; 256] = table();] *)
Definition TABLE : list Z := Eval vm_compute in table.

(** [TABLE[i]]; the index below is below 256. *)
Definition table_at (i : Z) : Z := nth (Z.to_nat i) TABLE 0.

(** The body of the loop of [update]. *)
Definition update_byte (c : Z) (b : byte) : Z :=
  Z.lxor (table_at (Z.land (Z.lxor c (byte.unsigned b)) 0xff)) (Z.shiftr c 8).

Definition update (c : Z) (data : buf) : Z := foldl update_byte c data.

(** [!c] on a [u32]. *)
Definition not32 (c : Z) : Z := Z.lxor c (2 ^ 32 - 1).

Definition crc32c (data : buf) : Z := not32 (update (not32 0) data).

Definition cksum (b : buf) (off : nat) : result Z :=
  pre ← slice b 0 off;
  post ← slice b (off + 4) (length b);
  let c := update (not32 0) pre in
  let c := update c (zeroes 4) in
  Ok (not32 (update c post)).

Definition stamp (off : nat) (b : buf) : result buf :=
  c ← cksum b off;
  copy_into off (off + 4) (to_le_bytes 4 c) b.

(** [buf.len() >= off + 4 && le32(buf, off) == cksum(buf, off)]. *)
Definition verify (b : buf) (off : nat) : result bool :=
  if (off + 4 <=? length b)%nat
  then v ← le32 b off; c ← cksum b off; Ok (v =? c)
  else Ok false.

(** * The reference: one bit at a time *)

(** Polynomial division of the message, a bit at a time: the byte enters at
    the low end and is divided out in eight rounds. *)
Definition ref_byte (c : Z) (b : byte) : Z := Nat.iter 8 round (Z.lxor c (byte.unsigned b)).
Definition ref_update (c : Z) (data : buf) : Z := foldl ref_byte c data.

(** * Lemmas: the state stays in 32 bits *)

Lemma TABLE_eq : TABLE = table.
Proof. vm_compute. reflexivity. Qed.

Lemma testbit_high n a i : 0 <= n <= i -> 0 <= a < 2 ^ n -> Z.testbit a i = false.
Proof.
  intros Hn Ha. rewrite <- (Z.mod_small a (2 ^ n)) by done. by apply Z.mod_pow2_bits_high.
Qed.

Lemma range_testbit n a :
  0 <= n -> (forall i, n <= i -> Z.testbit a i = false) -> 0 <= a < 2 ^ n.
Proof.
  intros Hn H. assert (a mod 2 ^ n = a) as <-; [|apply Z.mod_pos_bound; by apply pow2_pos].
  apply Z.bits_inj'. intros i Hi. destruct (Z.lt_ge_cases i n).
  - apply Z.mod_pow2_bits_low. lia.
  - rewrite Z.mod_pow2_bits_high by lia. by rewrite H.
Qed.

Lemma lxor_range n a b : 0 <= n -> 0 <= a < 2 ^ n -> 0 <= b < 2 ^ n -> 0 <= Z.lxor a b < 2 ^ n.
Proof.
  intros Hn Ha Hb. apply range_testbit; [done|]. intros i Hi.
  rewrite Z.lxor_spec, (testbit_high n a i), (testbit_high n b i) by lia. done.
Qed.

Lemma land_255 x : Z.land x 255 = x mod 2 ^ 8.
Proof. apply (Z.land_ones x 8). lia. Qed.

Lemma table_at_entry i : 0 <= i < 256 -> table_at i = table_entry i.
Proof.
  intros Hi. unfold table_at. rewrite TABLE_eq. unfold table.
  rewrite nth_lookup, list_lookup_fmap, lookup_seqZ_lt by lia.
  cbn [fmap option_fmap option_map]. replace (0 + Z.of_nat (Z.to_nat i)) with i by lia. done.
Qed.

(** A fact about every table entry, checked by evaluation. *)
Lemma table_at_all (P : Z -> Prop) :
  Forall P TABLE -> forall i, 0 <= i < 256 -> P (table_at i).
Proof.
  intros HP i Hi. unfold table_at. rewrite Forall_nth in HP. apply HP.
  change (length TABLE) with 256%nat. lia.
Qed.

Lemma table_at_range i : 0 <= i < 256 -> 0 <= table_at i < 2 ^ 32.
Proof.
  apply (table_at_all (fun x => 0 <= x < 2 ^ 32)).
  apply List.Forall_forall. intros x Hx.
  assert (forallb (fun x => (0 <=? x) && (x <? 2 ^ 32)) TABLE = true) as H
    by (vm_compute; reflexivity).
  rewrite forallb_forall in H. specialize (H x Hx). bools. lia.
Qed.

Lemma byte_range b : 0 <= byte.unsigned b < 2 ^ 8.
Proof. apply byte.unsigned_range. Qed.

Lemma update_byte_range c b : 0 <= c < 2 ^ 32 -> 0 <= update_byte c b < 2 ^ 32.
Proof.
  intros Hc. unfold update_byte. apply lxor_range; [lia| |].
  - apply table_at_range. rewrite land_255. apply Z.mod_pos_bound. lia.
  - rewrite Z.shiftr_div_pow2 by lia. split; [apply Z.div_pos; lia|].
    apply Z.div_lt_upper_bound; lia.
Qed.

Lemma update_range c data : 0 <= c < 2 ^ 32 -> 0 <= update c data < 2 ^ 32.
Proof.
  revert c. induction data as [|b data IH]; intros c Hc; cbn; [done|].
  apply IH. by apply update_byte_range.
Qed.

Lemma not32_range c : 0 <= c < 2 ^ 32 -> 0 <= not32 c < 2 ^ 32.
Proof. intros. apply lxor_range; lia. Qed.

Lemma not32_inj c c' : not32 c = not32 c' -> c = c'.
Proof.
  unfold not32. intros H. apply (f_equal (fun x => Z.lxor x (2 ^ 32 - 1))) in H.
  by rewrite !Z.lxor_assoc, !Z.lxor_nilpotent, !Z.lxor_0_r in H.
Qed.

(** * Lemmas: the table is eight rounds *)

Lemma round_alt c : round c = Z.lxor (if Z.odd c then POLY else 0) (Z.shiftr c 1).
Proof.
  unfold round. change 1 with (Z.ones 1) at 1. rewrite Z.land_ones by lia.
  change (2 ^ 1) with 2. rewrite Zmod_odd. by destruct (Z.odd c).
Qed.

Lemma round_lxor a b : round (Z.lxor a b) = Z.lxor (round a) (round b).
Proof.
  rewrite !round_alt, Z.shiftr_lxor.
  assert (Z.odd (Z.lxor a b) = xorb (Z.odd a) (Z.odd b)) as ->
    by (rewrite <- !Z.bit0_odd; apply Z.lxor_spec).
  apply Z.bits_inj'. intros i _.
  destruct (Z.odd a), (Z.odd b); cbn [xorb];
    rewrite !Z.lxor_spec, ?Z.bits_0; repeat destruct (Z.testbit _ i); done.
Qed.

Lemma rounds_lxor n a b :
  Nat.iter n round (Z.lxor a b) = Z.lxor (Nat.iter n round a) (Nat.iter n round b).
Proof.
  induction n as [|n IH]; [done|]. by rewrite !Nat.iter_succ, IH, round_lxor.
Qed.

Lemma rounds_shiftl n h : Nat.iter n round (Z.shiftl h (Z.of_nat n)) = h.
Proof.
  induction n as [|n IH]; [done|].
  rewrite Nat.iter_succ_r. rewrite <- IH at 2. f_equal.
  rewrite round_alt. replace (Z.of_nat (S n)) with (Z.of_nat n + 1) by lia.
  rewrite <- Z.shiftl_shiftl, Z.shiftl_mul_pow2 by lia.
  rewrite Z.odd_mul, andb_false_r, Z.lxor_0_l, <- Z.shiftl_mul_pow2 by lia.
  rewrite Z.shiftr_shiftl_l by lia. by rewrite Z.shiftl_0_r.
Qed.

Lemma low_high c : 0 <= c -> c = Z.lxor (Z.land c 255) (Z.shiftl (Z.shiftr c 8) 8).
Proof.
  intros Hc. apply Z.bits_inj'. intros i Hi.
  rewrite Z.lxor_spec, Z.land_spec, Z.shiftl_spec by lia.
  change 255 with (Z.ones 8). destruct (Z.lt_ge_cases i 8).
  - rewrite Z.ones_spec_low, (Z.testbit_neg_r _ (i - 8)) by lia. by rewrite andb_true_r, xorb_false_r.
  - rewrite Z.ones_spec_high, Z.shiftr_spec by lia.
    rewrite andb_false_r, xorb_false_l. f_equal. lia.
Qed.

Lemma shiftr8_byte b : Z.shiftr (byte.unsigned b) 8 = 0.
Proof.
  pose proof (byte_range b). rewrite Z.shiftr_div_pow2 by lia. apply Z.div_small. lia.
Qed.

Lemma shiftr8_lxor_byte c b : Z.shiftr (Z.lxor c (byte.unsigned b)) 8 = Z.shiftr c 8.
Proof. by rewrite Z.shiftr_lxor, shiftr8_byte, Z.lxor_0_r. Qed.

Lemma update_byte_ref c b : 0 <= c -> update_byte c b = ref_byte c b.
Proof.
  intros Hc. unfold update_byte, ref_byte. pose proof (byte_range b).
  assert (0 <= Z.lxor c (byte.unsigned b)) as Hx by (apply Z.lxor_nonneg; lia).
  remember (Z.lxor c (byte.unsigned b)) as x eqn:Ex.
  assert (Z.shiftr c 8 = Z.shiftr x 8) as -> by (by rewrite Ex, shiftr8_lxor_byte).
  rewrite (low_high x Hx) at 3. rewrite rounds_lxor, (rounds_shiftl 8).
  rewrite table_at_entry; [done|]. rewrite land_255. apply Z.mod_pos_bound. lia.
Qed.

Lemma update_ref c data : 0 <= c < 2 ^ 32 -> update c data = ref_update c data.
Proof.
  revert c. induction data as [|b data IH]; intros c Hc; [done|].
  change (update (update_byte c b) data = ref_update (ref_byte c b) data).
  rewrite <- update_byte_ref by lia. apply IH. by apply update_byte_range.
Qed.

(** * Lemmas: no two inputs of a step collide *)

(** The top bytes of the table's entries are all different. *)
Lemma table_tops_distinct i j :
  0 <= i < 256 -> 0 <= j < 256 ->
  Z.shiftr (table_at i) 24 = Z.shiftr (table_at j) 24 -> i = j.
Proof.
  intros Hi Hj H.
  assert (NoDup ((fun x => Z.shiftr x 24) <$> TABLE)) as Hnd
    by (apply (bool_decide_unpack _); vm_compute; exact I).
  assert (Htop : forall k, 0 <= k < 256 ->
    ((fun x => Z.shiftr x 24) <$> TABLE) !! Z.to_nat k = Some (Z.shiftr (table_at k) 24)).
  { intros k Hk. unfold table_at. rewrite list_lookup_fmap, nth_lookup. destruct (TABLE !! Z.to_nat k) eqn:E; [done|].
    apply lookup_ge_None in E. change (length TABLE) with 256%nat in E. lia. }
  assert (Z.to_nat i = Z.to_nat j) by
    (eapply NoDup_lookup; [exact Hnd | by apply Htop | rewrite H; by apply Htop]).
  lia.
Qed.

Lemma lxor_cancel_r a b c : Z.lxor a c = Z.lxor b c -> a = b.
Proof.
  intros H. apply (f_equal (fun x => Z.lxor x c)) in H.
  by rewrite !Z.lxor_assoc, Z.lxor_nilpotent, !Z.lxor_0_r in H.
Qed.

Lemma update_byte_collide c b c' b' :
  0 <= c < 2 ^ 32 -> 0 <= c' < 2 ^ 32 -> update_byte c b = update_byte c' b' ->
  Z.lxor c (byte.unsigned b) = Z.lxor c' (byte.unsigned b').
Proof.
  intros Hc Hc' H. unfold update_byte in H.
  pose proof (byte_range b). pose proof (byte_range b').
  set (x := Z.lxor c (byte.unsigned b)) in *. set (x' := Z.lxor c' (byte.unsigned b')) in *.
  assert (0 <= Z.land x 255 < 256) as Hi by (rewrite land_255; apply Z.mod_pos_bound; lia).
  assert (0 <= Z.land x' 255 < 256) as Hi' by (rewrite land_255; apply Z.mod_pos_bound; lia).
  assert (Htop : forall d t, 0 <= d < 2 ^ 32 ->
    Z.shiftr (Z.lxor t (Z.shiftr d 8)) 24 = Z.shiftr t 24).
  { intros d t Hd. rewrite Z.shiftr_lxor, Z.shiftr_shiftr by lia.
    rewrite (Z.shiftr_div_pow2 d) by lia. rewrite Z.div_small by lia. apply Z.lxor_0_r. }
  assert (Z.land x 255 = Z.land x' 255) as El.
  { apply table_tops_distinct; [done..|].
    rewrite <- (Htop c (table_at (Z.land x 255)) Hc), H. by apply Htop. }
  assert (Z.shiftr x 8 = Z.shiftr x' 8) as Eh.
  { unfold x, x'. rewrite !shiftr8_lxor_byte. rewrite El in H.
    rewrite !(Z.lxor_comm (table_at _)) in H. by apply lxor_cancel_r in H. }
  rewrite (low_high x), (low_high x'), El, Eh by (apply Z.lxor_nonneg; lia). done.
Qed.

Lemma update_inj c c' data :
  0 <= c < 2 ^ 32 -> 0 <= c' < 2 ^ 32 -> update c data = update c' data -> c = c'.
Proof.
  revert c c'. induction data as [|b data IH]; intros c c' Hc Hc' H; [done|].
  apply (lxor_cancel_r _ _ (byte.unsigned b)), update_byte_collide; [done..|].
  apply IH; auto using update_byte_range.
Qed.

Lemma update_app c l1 l2 : update c (l1 ++ l2) = update (update c l1) l2.
Proof. apply foldl_app. Qed.

(** One byte changed: the states differ from there on. *)
Lemma update_insert c l i x y :
  0 <= c < 2 ^ 32 -> l !! i = Some x -> x <> y -> update c (<[i := y]> l) <> update c l.
Proof.
  intros Hc Hx Hne H.
  rewrite <- (take_drop_middle l i x Hx) in H at 2.
  rewrite insert_take_drop in H by (by eapply lookup_lt_Some).
  rewrite !update_app in H.
  change (update (update_byte (update c (take i l)) y) (drop (S i) l) =
          update (update_byte (update c (take i l)) x) (drop (S i) l)) in H.
  apply update_inj, update_byte_collide in H; auto using update_range, update_byte_range.
  rewrite !(Z.lxor_comm (update c (take i l))) in H. apply lxor_cancel_r in H.
  apply Hne. symmetry. by apply byte.unsigned_inj.
Qed.

(** * Lemmas: [cksum], [stamp], [verify] *)

Lemma not32_0_range : 0 <= not32 0 < 2 ^ 32.
Proof. apply not32_range. lia. Qed.

(** The checksum in closed form. *)
Definition cksum_of (b : buf) (off : nat) : Z :=
  not32 (update (update (update (not32 0) (take off b)) (zeroes 4)) (drop (off + 4) b)).

Lemma cksum_in b off : (off + 4 <= length b)%nat -> cksum b off = Ok (cksum_of b off).
Proof.
  intros H. unfold cksum. rewrite !slice_in by lia. cbn [mbind result_bind].
  unfold cksum_of. rewrite Nat.sub_0_r, drop_0.
  by rewrite (take_ge (drop _ b)) by (rewrite length_drop; lia).
Qed.

Lemma cksum_of_range b off : 0 <= cksum_of b off < 2 ^ 32.
Proof. apply not32_range. auto using update_range, not32_0_range. Qed.

(** The checksum does not look at its own field. *)
Lemma cksum_of_patch b off src :
  (off + 4 <= length b)%nat -> length src = 4%nat ->
  cksum_of (patch off src b) off = cksum_of b off.
Proof.
  intros Hb Hs. unfold cksum_of, patch.
  rewrite take_app_length', drop_app_ge by (rewrite length_take; lia).
  rewrite length_take. rewrite drop_app_length' by lia. rewrite Hs. done.
Qed.

Lemma stamp_in b off :
  (off + 4 <= length b)%nat ->
  stamp off b = Ok (patch off (to_le_bytes 4 (cksum_of b off)) b).
Proof.
  intros H. unfold stamp. rewrite cksum_in by done. cbn [mbind result_bind].
  apply copy_into_in; rewrite ?length_to_le_bytes; lia.
Qed.

Lemma stamp_Ok off b b' :
  stamp off b = Ok b' ->
  (off + 4 <= length b)%nat /\ b' = patch off (to_le_bytes 4 (cksum_of b off)) b.
Proof.
  intros H. destruct (decide (off + 4 <= length b)%nat) as [Hb|Hb].
  - rewrite stamp_in in H by done. naive_solver.
  - unfold stamp in H. inv_ok. apply copy_into_Ok in H. lia.
Qed.

Lemma stamp_length off b b' : stamp off b = Ok b' -> length b' = length b.
Proof. intros [? ->]%stamp_Ok. apply length_patch. by rewrite length_to_le_bytes. Qed.

Lemma verify_in b off :
  (off + 4 <= length b)%nat ->
  verify b off = Ok (of_le_bytes (take 4 (drop off b)) =? cksum_of b off).
Proof.
  intros H. unfold verify, le32. destruct (Nat.leb_spec (off + 4) (length b)); [|lia].
  rewrite slice_in, cksum_in by lia. cbn [mbind result_bind].
  by replace (off + 4 - off)%nat with 4%nat by lia.
Qed.

Lemma slice_stamp_other off b b' lo hi :
  stamp off b = Ok b' -> (hi <= off \/ off + 4 <= lo)%nat -> slice b' lo hi = slice b lo hi.
Proof.
  intros [? ->]%stamp_Ok Hd. apply slice_patch_other; by rewrite length_to_le_bytes.
Qed.

(** A stamped buffer holds its own checksum. *)
Lemma stamped_field off b b' :
  stamp off b = Ok b' ->
  (off + 4 <= length b')%nat /\ take 4 (drop off b') = to_le_bytes 4 (cksum_of b' off).
Proof.
  intros [Hoff ->]%stamp_Ok.
  assert (length (to_le_bytes 4 (cksum_of b off)) = 4)%nat as Hl by apply length_to_le_bytes.
  rewrite cksum_of_patch, length_patch by lia. split; [done|].
  unfold patch. rewrite drop_app_length' by (rewrite length_take; lia).
  by apply take_app_length'.
Qed.

(** A change inside the field leaves the computed checksum, and alters the
    stored one. *)
Lemma cksum_of_insert_field b off i y :
  (off <= i < off + 4)%nat -> cksum_of (<[i := y]> b) off = cksum_of b off.
Proof. intros Hi. unfold cksum_of. by rewrite take_insert_ge, drop_insert_lt by lia. Qed.

Lemma field_insert_inj b off i x y v :
  (off <= i < off + 4)%nat -> b !! i = Some x -> take 4 (drop off b) = to_le_bytes 4 v ->
  of_le_bytes (take 4 (drop off (<[i := y]> b))) = v -> x = y.
Proof.
  intros Hi Hx Ef H. rewrite drop_insert_ge, take_insert_lt, Ef in H by lia.
  apply (f_equal (to_le_bytes 4)) in H. unfold of_le_bytes, to_le_bytes in H, Ef.
  rewrite split_le_combine' in H by (rewrite length_insert; apply length_le_split).
  apply (f_equal (fun l => l !! (i - off)%nat)) in H.
  rewrite list_lookup_insert_eq in H by (rewrite length_le_split; lia).
  rewrite <- Ef, lookup_take_lt, lookup_drop in H by lia.
  replace (off + (i - off))%nat with i in H by lia. congruence.
Qed.

(** A change outside the field alters the computed checksum. *)
Lemma cksum_of_insert_other b off i x y :
  ~ (off <= i < off + 4)%nat -> b !! i = Some x -> x <> y ->
  cksum_of (<[i := y]> b) off <> cksum_of b off.
Proof.
  intros Hi Hx Hne. unfold cksum_of. intros H%not32_inj. revert H.
  destruct (decide (i < off)%nat).
  - rewrite take_insert_lt, drop_insert_lt by lia. intros H.
    apply update_inj, update_inj in H; auto 10 using update_range, not32_0_range.
    revert H. apply (update_insert _ _ _ x); auto using not32_0_range.
    by rewrite lookup_take_lt.
  - rewrite take_insert_ge, drop_insert_ge by lia. apply (update_insert _ _ _ x);
      auto 10 using update_range, not32_0_range.
    rewrite lookup_drop. rewrite <- Hx. f_equal. lia.
Qed.

(** * Properties *)

(** C29: the table-driven CRC32C is the bit-at-a-time division by the
    Castagnoli polynomial, on every message. *)
Theorem crc32c_is_bitwise_division (data : buf) :
  crc32c data = not32 (ref_update (not32 0) data).
Proof. unfold crc32c. by rewrite update_ref by apply not32_0_range. Qed.

(** The standard check value of CRC-32C: the message ["123456789"]. *)
Example crc32c_check_value :
  crc32c (byte.of_Z <$> [49; 50; 51; 52; 53; 54; 55; 56; 57]) = 0xe3069283.
Proof. vm_compute. reflexivity. Qed.

(** Stamping a buffer changes its checksum field and nothing else, and
    the stamped buffer verifies. *)
Theorem stamp_then_verify (b : buf) (off : nat) :
  (off + 4 <= length b)%nat ->
  exists b', stamp off b = Ok b' /\ verify b' off = Ok true /\ length b' = length b /\
    forall i, (i < off \/ off + 4 <= i)%nat -> b' !! i = b !! i.
Proof.
  intros H. eexists. split; [by apply stamp_in|].
  assert (length (to_le_bytes 4 (cksum_of b off)) = 4)%nat as Hl by apply length_to_le_bytes.
  split_and!.
  - rewrite verify_in by (rewrite length_patch; lia).
    rewrite cksum_of_patch by done. unfold patch at 1.
    rewrite drop_app_length' by (rewrite length_take; lia).
    rewrite take_app_length' by done.
    rewrite of_to_le_bytes by apply cksum_of_range. by rewrite Z.eqb_refl.
  - apply length_patch. lia.
  - intros i Hi. rewrite lookup_patch by lia. rewrite Hl. case_decide; [lia|done].
Qed.

Lemma stamp_then_verify_witness :
  exists b', stamp 8 (replicate 64 (byte.of_Z 7)) = Ok b' /\ verify b' 8 = Ok true /\
    length b' = length (replicate 64 (byte.of_Z 7)) /\
    forall i, (i < 8 \/ 8 + 4 <= i)%nat -> b' !! i = replicate 64 (byte.of_Z 7) !! i.
Proof. apply (stamp_then_verify (replicate 64 (byte.of_Z 7)) 8). cbn. lia. Defined.

(** A stamped buffer with one byte changed, in its contents or in the
    checksum field, no longer verifies. *)
Theorem verify_detects_a_changed_byte (b b' : buf) (off i : nat) (x y : byte) :
  stamp off b = Ok b' -> b' !! i = Some x -> x <> y ->
  verify (<[i := y]> b') off = Ok false.
Proof.
  intros [Hoff Ef]%stamped_field Hx Hne.
  rewrite verify_in by (rewrite length_insert; lia). f_equal. apply Z.eqb_neq. intros H.
  destruct (decide (off <= i < off + 4)%nat) as [Hin|Hout].
  - rewrite cksum_of_insert_field in H by done.
    apply Hne, (field_insert_inj b' off i x y _ Hin Hx Ef H).
  - assert (take 4 (drop off (<[i:=y]> b')) = take 4 (drop off b')) as E.
    { destruct (decide (i < off)%nat).
      - by rewrite drop_insert_lt by lia.
      - by rewrite drop_insert_ge, take_insert_ge by lia. }
    rewrite E, Ef, of_to_le_bytes in H by apply cksum_of_range.
    symmetry in H. by eapply (cksum_of_insert_other b' off i x y).
Qed.

Lemma verify_detects_a_changed_byte_witness :
  exists b', stamp 8 (replicate 64 (byte.of_Z 7)) = Ok b' /\
    verify (<[20%nat := byte.of_Z 6]> b') 8 = Ok false.
Proof.
  eexists. split; [vm_compute; reflexivity|].
  eapply (verify_detects_a_changed_byte (replicate 64 (byte.of_Z 7)) _ 8 20 (byte.of_Z 7));
    [vm_compute; reflexivity | reflexivity | discriminate].
Defined.
