(* ===== verification/Geometry.v ===== *)
(** [src/src/geometry.rs]: what [mkfs.xfs] would choose.

    [Params] is the caller's request, [Geometry] every number the formatter
    needs; [compute] is [Geometry::compute], cut at the xfsprogs function
    names its comments carry, with its error returns in order.  The methods
    of [Geometry] follow, on wrapping [u64]s.  Their correctness is in
    [GeometryFacts.v]. *)

From Stdlib Require Import ZArith Lia String.
From stdpp Require Import base tactics list numbers strings pretty.
From coqutil Require Import Byte.
From S2P Require Import Prelude Bytes Fmt.

#[local] Open Scope string_scope.
#[local] Open Scope Z_scope.

(** * Constants *)

Definition MIN_CRC_BLOCKSIZE : Z := 1024.
Definition MAX_BLOCKSIZE : Z := 65536.
Definition MAX_SUPPORTED_BLOCKSIZE : Z := 16384.
Definition MIN_SECTORSIZE : Z := 512.
Definition MAX_SECTORSIZE : Z := 32768.
Definition DINODE_MIN_SIZE : Z := 256.
Definition DINODE_MAX_SIZE : Z := 2048.
Definition INODE_BIG_CLUSTER_SIZE : Z := 8192.
Definition INODES_PER_CHUNK : Z := 64.
Definition MAX_LOG_BLOCKS : Z := 1024 * 1024.
Definition MIN_LOG_BYTES : Z := 10 * 1024 * 1024.
Definition MAX_LOG_BYTES : Z := 2 * 1024 * 1024 * 1024 - MIN_LOG_BYTES.
Definition AG_MIN_BYTES : Z := 2 ^ 24.
Definition AG_MAX_BYTES : Z := 2 ^ 40.
Definition MAX_AGNUMBER : Z := 0xfffffffe.
Definition ALLOCBT_AGFL_RESERVE : Z := 4.
Definition AGFL_HEADER : Z := 36.
Definition MIB : Z := 2 ^ 20.
Definition GIB : Z := 2 ^ 30.
Definition TIB : Z := 2 ^ 40.

(** * Data *)

Record Features : Type := mkFeatures {
  finobt : bool;
  rmapbt : bool;
  reflink : bool;
  inobtcount : bool;
  bigtime : bool;
  nrext64 : bool;
  sparse : bool;
}.

(** [Features::default()]. *)
Definition Features_default : Features := mkFeatures true true true true true true true.

Record Timestamp : Type := mkTimestamp { secs : Z; nsecs : Z }.

(** [Timestamp::now]: the clock's distance from the epoch, seconds and
    nanoseconds; a clock before it counts as the epoch. *)
Definition Timestamp_now (since_epoch : option (Z * Z)) : Timestamp :=
  let '(s, ns) := default (0, 0) since_epoch in mkTimestamp (i64 s) ns.

(** [Params].  A [String] is its bytes, a [[u8; 16]] a list of 16 bytes. *)
Record Params : Type := mkParams {
  p_size : option Z;
  p_block_size : option Z;
  p_sector_size : option Z;
  p_inode_size : option Z;
  p_agcount : option Z;
  p_agsize : option Z;
  p_imaxpct : option Z;
  p_label : option string;
  p_uuid : option buf;
  p_time : option Timestamp;
  p_gen_seed : option Z;
  p_features : Features;
}.

(** [Params::new()]. *)
Definition Params_new : Params :=
  mkParams None None None None None None None None None None None Features_default.

(** The builder methods. *)
Definition Params_size (p : Params) (bytes : Z) : Params :=
  mkParams (Some bytes) (p_block_size p) (p_sector_size p) (p_inode_size p) (p_agcount p)
    (p_agsize p) (p_imaxpct p) (p_label p) (p_uuid p) (p_time p) (p_gen_seed p) (p_features p).
Definition Params_block_size (p : Params) (bytes : Z) : Params :=
  mkParams (p_size p) (Some bytes) (p_sector_size p) (p_inode_size p) (p_agcount p)
    (p_agsize p) (p_imaxpct p) (p_label p) (p_uuid p) (p_time p) (p_gen_seed p) (p_features p).
Definition Params_sector_size (p : Params) (bytes : Z) : Params :=
  mkParams (p_size p) (p_block_size p) (Some bytes) (p_inode_size p) (p_agcount p)
    (p_agsize p) (p_imaxpct p) (p_label p) (p_uuid p) (p_time p) (p_gen_seed p) (p_features p).
Definition Params_inode_size (p : Params) (bytes : Z) : Params :=
  mkParams (p_size p) (p_block_size p) (p_sector_size p) (Some bytes) (p_agcount p)
    (p_agsize p) (p_imaxpct p) (p_label p) (p_uuid p) (p_time p) (p_gen_seed p) (p_features p).
Definition Params_agcount (p : Params) (n : Z) : Params :=
  mkParams (p_size p) (p_block_size p) (p_sector_size p) (p_inode_size p) (Some n)
    (p_agsize p) (p_imaxpct p) (p_label p) (p_uuid p) (p_time p) (p_gen_seed p) (p_features p).
Definition Params_label (p : Params) (l : string) : Params :=
  mkParams (p_size p) (p_block_size p) (p_sector_size p) (p_inode_size p) (p_agcount p)
    (p_agsize p) (p_imaxpct p) (Some l) (p_uuid p) (p_time p) (p_gen_seed p) (p_features p).
Definition Params_uuid (p : Params) (u : buf) : Params :=
  mkParams (p_size p) (p_block_size p) (p_sector_size p) (p_inode_size p) (p_agcount p)
    (p_agsize p) (p_imaxpct p) (p_label p) (Some u) (p_time p) (p_gen_seed p) (p_features p).
Definition Params_time (p : Params) (s ns : Z) : Params :=
  mkParams (p_size p) (p_block_size p) (p_sector_size p) (p_inode_size p) (p_agcount p)
    (p_agsize p) (p_imaxpct p) (p_label p) (p_uuid p) (Some (mkTimestamp s ns)) (p_gen_seed p)
    (p_features p).
Definition Params_gen_seed (p : Params) (seed : Z) : Params :=
  mkParams (p_size p) (p_block_size p) (p_sector_size p) (p_inode_size p) (p_agcount p)
    (p_agsize p) (p_imaxpct p) (p_label p) (p_uuid p) (p_time p) (Some seed) (p_features p).
Definition Params_features (p : Params) (f : Features) : Params :=
  mkParams (p_size p) (p_block_size p) (p_sector_size p) (p_inode_size p) (p_agcount p)
    (p_agsize p) (p_imaxpct p) (p_label p) (p_uuid p) (p_time p) (p_gen_seed p) f.

Record Geometry : Type := mkGeometry {
  blocksize : Z;
  blocklog : Z;
  sectsize : Z;
  sectlog : Z;
  lsectsize : Z;
  lsectlog : Z;
  inodesize : Z;
  inodelog : Z;
  inopblock : Z;
  inopblog : Z;
  dirblocklog : Z;
  dblocks : Z;
  agsize : Z;
  agcount : Z;
  agblklog : Z;
  imaxpct : Z;
  logblocks : Z;
  logagno : Z;
  log_agbno : Z;
  features : Features;
  label : buf;
}.

(** * Free functions *)

(** [roundup]. *)
Definition roundup (n m : Z) : Z := u64 (div_ceil n m * m).

(** [log2_roundup]: [while (1u64 << l) < i { l += 1 }], [l] a [u8]. *)
Fixpoint log2_roundup_loop (fuel : nat) (i l : Z) : result Z :=
  match fuel with
  | O => OutOfFuel
  | S fuel => if shl64 1 l <? i then log2_roundup_loop fuel i (u8 (l + 1)) else Ok l
  end.

(** 64 rounds are enough for every [i] up to [2^63]; past it the shift wraps
    and the Rust loop never ends ([GeometryFacts.log2_roundup_diverges]). *)
Definition log2_roundup (i : Z) : result Z := log2_roundup_loop 65 i 0.

Definition pow2_log (v : Z) : Z := u8 (trailing_zeros 32 v).

Definition ag_min_blocks (blocklog : Z) : Z := shr64 AG_MIN_BYTES blocklog.
Definition ag_max_blocks (blocklog : Z) : Z := shr64 (AG_MAX_BYTES - 1) blocklog.

(** The AG size part of [default_ag_geometry], the labelled block ['done]. *)
Definition default_agsize (blocklog dblocks : Z) (multidisk : bool) : Z :=
  let blocks_of bytes := shr64 bytes blocklog in
  let max := ag_max_blocks blocklog in
  if blocks_of (32 * TIB) <=? dblocks then max
  else if negb multidisk && (blocks_of (4 * TIB) <=? dblocks) then max
  else
    let shift :=
      if negb multidisk && (blocks_of (128 * MIB) <=? dblocks) then 2
      else 5 - Z.b2z (dblocks <=? blocks_of (512 * GIB)) - Z.b2z (dblocks <=? blocks_of (8 * GIB))
             - Z.b2z (dblocks <? blocks_of (128 * MIB)) - Z.b2z (dblocks <? blocks_of (64 * MIB))
             - Z.b2z (dblocks <? blocks_of (32 * MIB)) in
    let b := shr64 dblocks shift in
    if negb (Z.land dblocks (u64 (shl64 1 shift - 1)) =? 0) && (b <? max) then u64 (b + 1) else b.

Definition default_ag_geometry (blocklog dblocks : Z) (multidisk : bool) : result (Z * Z) :=
  let blocks := default_agsize blocklog dblocks multidisk in
  q ← div_or_panic dblocks blocks;
  r ← rem_or_panic dblocks blocks;
  Ok (blocks, u64 (q + Z.b2z (negb (r =? 0)))).

(** * Methods of [Geometry] *)

Section Methods.
Variable g : Geometry.

Definition bs : Z := blocksize g.

Definition ag_blocks (agno : Z) : Z :=
  if agno =? u64 (agcount g - 1)
  then u64 (dblocks g - u64 (agno * agsize g))
  else agsize g.

Definition header_blocks : Z := div_ceil (u64 (4 * sectsize g)) bs.
Definition bno_block : Z := header_blocks.
Definition cnt_block : Z := u64 (bno_block + 1).
Definition ibt_block : Z := u64 (cnt_block + 1).
Definition fibt_block : Z := u64 (ibt_block + 1).
Definition rmap_block : Z :=
  if finobt (features g) then u64 (fibt_block + 1) else u64 (ibt_block + 1).
Definition refc_block : Z :=
  if rmapbt (features g) then u64 (rmap_block + 1)
  else if finobt (features g) then u64 (fibt_block + 1)
  else u64 (ibt_block + 1).
Definition prealloc_blocks : Z :=
  if reflink (features g) then u64 (refc_block + 1)
  else if rmapbt (features g) then u64 (rmap_block + 1)
  else if finobt (features g) then u64 (fibt_block + 1)
  else u64 (ibt_block + 1).

Definition ag_max_usable : Z :=
  let f := features g in
  let blocks := u64 (header_blocks + ALLOCBT_AGFL_RESERVE + 3 + Z.b2z (finobt f)
                     + Z.b2z (rmapbt f) + Z.b2z (reflink f)) in
  u64 (agsize g - blocks).

Definition agfl_size : Z := u32 (sectsize g - AGFL_HEADER) / 4.
Definition min_freelist : Z := 2 + 2 + (if rmapbt (features g) then 2 else 0).

Definition chunk_blocks : Z := shr64 (u64 (INODES_PER_CHUNK * inodesize g)) (blocklog g).

Definition cluster_align : Z :=
  let cluster := u32 (INODE_BIG_CLUSTER_SIZE * (inodesize g / DINODE_MIN_SIZE)) in
  shr32 cluster (blocklog g).

Definition inoalignmt : Z := if sparse (features g) then chunk_blocks else cluster_align.

Definition rextsize : Z := if blocksize g <? 4096 then shr32 4096 (blocklog g) else 1.

Definition lsunit_bytes : Z := if 512 <? lsectsize g then blocksize g else 0.
Definition logsunit : Z := if lsunit_bytes =? 0 then 1 else lsunit_bytes.
Definition spino_align : Z := if sparse (features g) then u32 cluster_align else 0.

Definition agb_to_fsb (agno agbno : Z) : Z := Z.lor (shl64 agno (agblklog g)) agbno.
Definition agb_to_byte (agno agbno : Z) : Z :=
  shl64 (u64 (u64 (agno * agsize g) + agbno)) (blocklog g).
Definition agb_to_daddr (agno agbno : Z) : Z :=
  shl64 (u64 (u64 (agno * agsize g) + agbno)) (u8 (blocklog g - 9)).
Definition ino (agno agbno slot : Z) : Z :=
  let agino := Z.lor (shl64 agbno (inopblog g)) slot in
  Z.lor (shl64 agno (u8 (agblklog g + inopblog g))) agino.

Definition logstart : Z := agb_to_fsb (logagno g) (log_agbno g).

Definition root_chunk_agbno : Z :=
  let f := features g in
  let first := u64 (header_blocks + 2 + 1 + min_freelist) in
  let first := u64 (first + (Z.b2z (finobt f) + Z.b2z (rmapbt f) + Z.b2z (reflink f))) in
  let first := if logagno g =? 0 then u64 (first + logblocks g) else first in
  let align := inoalignmt in
  if 1 <? align then roundup first align else first.

Definition rootino : Z := ino 0 root_chunk_agbno 0.

Definition initial_fdblocks : Z :=
  u64 (u64 (dblocks g - u64 (agcount g * prealloc_blocks)) - logblocks g).
End Methods.

(** * [Geometry::compute] *)

(** Rust's [{:?}] of a string: quoted, with the escapes of [char::escape_debug]
    that ASCII needs; other characters are taken to be printable. *)
Fixpoint escape_debug (s : string) : string :=
  match s with
  | EmptyString => EmptyString
  | String c s =>
      let n := Ascii.nat_of_ascii c in
      (if (n =? 0)%nat then "\0" else if (n =? 9)%nat then "\t" else if (n =? 10)%nat then "\n"
       else if (n =? 13)%nat then "\r" else if (n =? 34)%nat then "\" +:+ String c EmptyString
       else if (n =? 92)%nat then "\\"
       else if (n <? 32)%nat || (n =? 127)%nat then "\u{" +:+ hex (Z.of_nat n) +:+ "}"
       else String c EmptyString) +:+ escape_debug s
  end.
Definition debug_str (s : string) : string :=
  let q := String (Ascii.ascii_of_nat 34) EmptyString in q +:+ escape_debug s +:+ q.

Definition validate_blocksize (params : Params) : result Z :=
  let blocksize := default 4096 (p_block_size params) in
  bail_if (negb (is_power_of_two blocksize)
           || negb ((512 <=? blocksize) && (blocksize <=? MAX_BLOCKSIZE)))
    (InvalidParams ("illegal block size " +:+ pretty blocksize));;
  bail_if (blocksize <? MIN_CRC_BLOCKSIZE)
    (InvalidParams ("minimum block size for CRC enabled filesystems is "
                    +:+ pretty MIN_CRC_BLOCKSIZE +:+ " bytes"));;
  bail_if (MAX_SUPPORTED_BLOCKSIZE <? blocksize)
    (Unsupported ("block size " +:+ pretty blocksize
       +:+ ": mkfs.xfs sizes its log from the minimum log size there, "
       +:+ "which this crate does not calculate yet"));;
  Ok blocksize.

(** The sector size when none is asked for. *)
Definition default_sectsize (blocksize logical physical_sector : Z) : Z :=
  let physical := Z.max physical_sector logical in
  let physical := if MAX_SECTORSIZE <? physical then logical else physical in
  if (blocksize <? physical) && (logical <=? blocksize) then logical else physical.

Definition validate_sectorsize
    (params : Params) (blocksize logical_sector physical_sector : Z) : result Z :=
  let logical := Z.max logical_sector MIN_SECTORSIZE in
  let sectsize :=
    default (default_sectsize blocksize logical physical_sector) (p_sector_size params) in
  bail_if (negb (is_power_of_two sectsize)
           || negb ((MIN_SECTORSIZE <=? sectsize) && (sectsize <=? MAX_SECTORSIZE)))
    (InvalidParams ("illegal sector size " +:+ pretty sectsize));;
  bail_if (blocksize <? sectsize)
    (InvalidParams ("block size " +:+ pretty blocksize
       +:+ " cannot be smaller than sector size " +:+ pretty sectsize));;
  bail_if (sectsize <? logical)
    (InvalidParams ("illegal sector size " +:+ pretty sectsize
       +:+ "; hw sector is " +:+ pretty logical));;
  Ok sectsize.

Definition validate_inodesize (params : Params) (blocksize : Z) : result Z :=
  let inodesize := default 512 (p_inode_size params) in
  bail_if (negb (is_power_of_two inodesize) || (inodesize <? 512)
           || (DINODE_MAX_SIZE <? inodesize) || (blocksize / 2 <? inodesize))
    (InvalidParams ("illegal inode size " +:+ pretty inodesize +:+ " (512 to "
       +:+ pretty (Z.min (blocksize / 2) DINODE_MAX_SIZE) +:+ " with "
       +:+ pretty blocksize +:+ "-byte blocks)"));;
  Ok inodesize.

Definition validate_datadev (params : Params) (device_size blocklog : Z) : result Z :=
  let device_blocks := shr64 device_size blocklog in
  dblocks ←
    match p_size params with
    | Some bytes =>
        let b := shr64 bytes blocklog in
        bail_if (device_blocks <? b)
          (InvalidParams ("size " +:+ pretty bytes +:+ " is too large, maximum is "
             +:+ pretty device_blocks +:+ " blocks"));;
        Ok b
    | None => Ok device_blocks
    end;
  bail_if (dblocks <? ag_min_blocks blocklog)
    (InvalidParams ("size " +:+ pretty dblocks +:+ " of data subvolume is too small, minimum "
       +:+ pretty (ag_min_blocks blocklog) +:+ " blocks"));;
  Ok dblocks.

(** [calculate_initial_ag_geometry]: AG size and count. *)
Definition initial_ag_geometry
    (params : Params) (blocksize blocklog dblocks : Z) : result (Z * Z) :=
  match p_agsize params with
  | Some bytes =>
      bail_if (negb (bytes mod blocksize =? 0))
        (InvalidParams ("agsize (" +:+ pretty bytes +:+ ") not a multiple of fs blk size ("
           +:+ pretty blocksize +:+ ")"));;
      let s := bytes / blocksize in
      bail_if (s =? 0) (InvalidParams "agsize 0");;
      Ok (s, div_ceil dblocks s)
  | None =>
      match p_agcount params with
      | Some n =>
          bail_if (n =? 0) (InvalidParams "agcount 0");;
          Ok (div_ceil dblocks n, n)
      | None => default_ag_geometry blocklog dblocks false
      end
  end.

(** [align_ag_geometry]: drop a last AG too small to be one.  Gives
    [dblocks] and [agcount]. *)
Definition align_ag_geometry
    (params : Params) (blocklog dblocks agsize agcount : Z) : result (Z * Z) :=
  r ← rem_or_panic dblocks agsize;
  if negb (r =? 0) && (r <? ag_min_blocks blocklog) then
    match p_agcount params with
    | Some _ => Err (InvalidParams ("last AG size " +:+ pretty r
                  +:+ " blocks too small, minimum size is "
                  +:+ pretty (ag_min_blocks blocklog) +:+ " blocks"))
    | None => Ok (u64 (u64 (agcount - 1) * agsize), u64 (agcount - 1))
    end
  else Ok (dblocks, agcount).

Definition validate_ag_geometry (blocklog dblocks agsize agcount : Z) : result unit :=
  bail_if (agsize <? ag_min_blocks blocklog)
    (InvalidParams ("agsize (" +:+ pretty agsize +:+ " blocks) too small, need at least "
       +:+ pretty (ag_min_blocks blocklog) +:+ " blocks"));;
  bail_if (ag_max_blocks blocklog <? agsize)
    (InvalidParams ("agsize (" +:+ pretty agsize +:+ " blocks) too big, maximum is "
       +:+ pretty (ag_max_blocks blocklog) +:+ " blocks"));;
  bail_if (dblocks <? agsize)
    (InvalidParams ("agsize (" +:+ pretty agsize +:+ " blocks) too big, data area is "
       +:+ pretty dblocks +:+ " blocks"));;
  bail_if (MAX_AGNUMBER <? agcount)
    (InvalidParams (pretty agcount +:+ " allocation groups is too many")).

Definition calculate_imaxpct (params : Params) (blocklog dblocks : Z) : result Z :=
  match p_imaxpct params with
  | Some p => bail_if (100 <? p) (InvalidParams ("imaxpct " +:+ pretty p +:+ " is over 100"));;
              Ok p
  | None =>
      Ok (if dblocks <? shr64 TIB blocklog then 25
          else if dblocks <? shr64 (50 * TIB) blocklog then 5 else 1)
  end.

(** The label, zero padded. *)
Definition label_bytes (params : Params) : result buf :=
  match p_label params with
  | Some l =>
      bail_if (12 <? Z.of_nat (String.length l))
        (InvalidParams ("label " +:+ debug_str l +:+ " is longer than 12 bytes"));;
      copy_into 0 (String.length l) (list_byte_of_string l) (zeroes 12)
  | None => Ok (zeroes 12)
  end.

Definition set_log (g : Geometry) (blocks agno agbno : Z) : Geometry :=
  mkGeometry (blocksize g) (blocklog g) (sectsize g) (sectlog g) (lsectsize g) (lsectlog g)
    (inodesize g) (inodelog g) (inopblock g) (inopblog g) (dirblocklog g) (dblocks g)
    (agsize g) (agcount g) (agblklog g) (imaxpct g) blocks agno agbno (features g) (label g).

(** The log size [calculate_log_size] settles on: a 2048:1 ratio, raised to
    a realistic size, then cut to the AG and to the format's limits. *)
Definition wanted_logblocks (g : Geometry) (max_logblocks : Z) : Z :=
  let logblocks := shr64 (shl64 (dblocks g) (blocklog g) / 2048) (blocklog g) in
  let logblocks := Z.max logblocks (shr64 (64 * MIB) (blocklog g)) in
  let logblocks := Z.min logblocks max_logblocks in
  let logblocks := Z.min logblocks MAX_LOG_BLOCKS in
  if MAX_LOG_BYTES <? shl64 logblocks (blocklog g) then shr64 MAX_LOG_BYTES (blocklog g)
  else logblocks.

(** [calculate_log_size], on [&mut self]. *)
Definition calculate_log_size (g : Geometry) : result Geometry :=
  let blocklog := blocklog g in
  bail_if (dblocks g <? shr64 (300 * MIB) blocklog)
    (Unsupported "filesystems under 300 MB, whose log is the minimum log size");;
  let max_logblocks := u64 (ag_max_usable g - 1) in
  let logblocks := wanted_logblocks g max_logblocks in
  bail_if (u64 (agsize g - prealloc_blocks g) <? logblocks)
    (InvalidParams ("internal log size " +:+ pretty logblocks
       +:+ " too large, must fit in allocation group"));;
  let logagno := agcount g / 2 in
  let logblocks :=
    if logagno =? 0 then
      let ichunk := shr64 (u32 (INODES_PER_CHUNK * inodesize g)) blocklog in
      Z.min logblocks (u64 (max_logblocks - u64 (ichunk * 4)))
    else logblocks in
  Ok (set_log g logblocks logagno (prealloc_blocks g)).

(** [validate_supported]: what [mkfs.xfs] refuses without [--unsupported]. *)
Definition validate_supported (g : Geometry) : result unit :=
  bail_if (dblocks g <? shr64 (300 * MIB) (blocklog g))
    (InvalidParams "filesystem must be larger than 300MB (mkfs.xfs refuses smaller ones too)");;
  bail_if (logblocks g <? shr64 (64 * MIB) (blocklog g))
    (InvalidParams "log size must be at least 64MB");;
  bail_if (agcount g <? 2)
    (InvalidParams "filesystem must have at least 2 superblocks for redundancy").

(** The end of [compute]: the geometry, with its log placed, is one
    [mkfs.xfs] supports. *)
Definition finish_geometry (f : Features) (blocksize blocklog sectsize sectlog inodesize inodelog
    dirblocklog dblocks agsize agcount imaxpct : Z) (label : buf) : result Geometry :=
  agblklog ← log2_roundup agsize;
  let g := mkGeometry blocksize blocklog sectsize sectlog sectsize sectlog inodesize inodelog
             (blocksize / inodesize) (u8 (blocklog - inodelog)) dirblocklog dblocks agsize
             agcount agblklog imaxpct 0 0 0 f label in
  g ← calculate_log_size g;
  validate_supported g;;
  Ok g.

Definition compute
    (params : Params) (device_size logical_sector physical_sector : Z) : result Geometry :=
  let f := p_features params in
  bail_if (inobtcount f && negb (finobt f))
    (InvalidParams "inobtcount requires finobt (-m inobtcount=1 needs finobt=1)");;
  blocksize ← validate_blocksize params;
  let blocklog := pow2_log blocksize in
  sectsize ← validate_sectorsize params blocksize logical_sector physical_sector;
  let sectlog := pow2_log sectsize in
  let dirblocklog := if blocksize <? 4096 then 12 else blocklog in
  inodesize ← validate_inodesize params blocksize;
  let inodelog := pow2_log inodesize in
  dblocks ← validate_datadev params device_size blocklog;
  '(agsize, agcount) ← initial_ag_geometry params blocksize blocklog dblocks;
  '(dblocks, agcount) ← align_ag_geometry params blocklog dblocks agsize agcount;
  validate_ag_geometry blocklog dblocks agsize agcount;;
  imaxpct ← calculate_imaxpct params blocklog dblocks;
  label ← label_bytes params;
  finish_geometry f blocksize blocklog sectsize sectlog inodesize inodelog dirblocklog
    dblocks agsize agcount imaxpct label.
