(* ===== verification/GeometryFacts.v ===== *)
(** Facts about [Geometry.v]: what a computed geometry satisfies ([wf]), that
    its arithmetic never wraps, how the AGs tile the filesystem, and the
    block- and inode-number encodings. *)

From Stdlib Require Import ZArith Lia String.
From stdpp Require Import base tactics list numbers strings.
From coqutil Require Import Byte.
From S2P Require Import Prelude Bytes Geometry.

#[local] Open Scope Z_scope.

(** * Requests and geometries *)

(** Every field of a request fits its Rust type. *)
Definition u64_opt (o : option Z) : Prop := forall v, o = Some v -> 0 <= v < 2 ^ 64.
Definition u32_opt (o : option Z) : Prop := forall v, o = Some v -> 0 <= v < 2 ^ 32.

Record params_ok (p : Params) : Prop := {
  po_size : u64_opt (p_size p);
  po_block_size : u32_opt (p_block_size p);
  po_sector_size : u32_opt (p_sector_size p);
  po_inode_size : u32_opt (p_inode_size p);
  po_agcount : u64_opt (p_agcount p);
  po_agsize : u64_opt (p_agsize p);
  po_imaxpct : forall v, p_imaxpct p = Some v -> 0 <= v < 2 ^ 8;
}.

Lemma params_ok_new : params_ok Params_new.
Proof. split; discriminate. Qed.

(** The AGs before the last lie inside the data area, so the last is not
    empty.  [compute] guarantees it unless the caller chose [agcount]. *)
Definition tiled (g : Geometry) : Prop := (agcount g - 1) * agsize g < dblocks g.

(** What [compute] establishes. *)
Record wf (g : Geometry) : Prop := {
  wf_blocklog : 10 <= blocklog g <= 14;
  wf_blocksize : blocksize g = 2 ^ blocklog g;
  wf_sectlog : 9 <= sectlog g <= blocklog g;
  wf_sectsize : sectsize g = 2 ^ sectlog g;
  wf_lsectsize : lsectsize g = sectsize g;
  wf_lsectlog : lsectlog g = sectlog g;
  wf_inodelog : 9 <= inodelog g <= 11;
  wf_inode_block : inodelog g + 1 <= blocklog g;
  wf_inodesize : inodesize g = 2 ^ inodelog g;
  wf_inopblog : inopblog g = blocklog g - inodelog g;
  wf_inopblock : inopblock g = 2 ^ inopblog g;
  wf_dirblocklog : dirblocklog g = Z.max 12 (blocklog g);
  wf_agsize : 2 ^ (24 - blocklog g) <= agsize g < 2 ^ (40 - blocklog g);
  wf_agcount : 2 <= agcount g <= MAX_AGNUMBER;
  wf_tiled : tiled g;
  wf_covered : dblocks g <= agcount g * agsize g;
  wf_last : 2 ^ (24 - blocklog g) <= dblocks g - (agcount g - 1) * agsize g;
  wf_bytes : dblocks g * blocksize g < 2 ^ 64;
  wf_size : 300 * MIB <= dblocks g * blocksize g;
  wf_agblklog : 0 < agblklog g <= 40 - blocklog g;
  wf_agblklog_spec : 2 ^ (agblklog g - 1) < agsize g <= 2 ^ agblklog g;
  wf_imaxpct : 0 <= imaxpct g <= 100;
  wf_logblocks : 2 ^ (26 - blocklog g) <= logblocks g <= MAX_LOG_BLOCKS;
  wf_log_bytes : logblocks g * blocksize g <= MAX_LOG_BYTES;
  wf_log_usable : logblocks g <= agsize g - prealloc_blocks g - 5;
  wf_logagno : logagno g = agcount g / 2;
  wf_log_agbno : log_agbno g = prealloc_blocks g;
  wf_inobtcount : inobtcount (features g) = true -> finobt (features g) = true;
  wf_label : length (label g) = 12%nat;
}.

(** * [log2_roundup] *)

Lemma shl64_1 l : 0 <= l < 64 -> shl64 1 l = 2 ^ l.
Proof.
  intros Hl. rewrite shl64_mul; [lia | done |]. pose proof (pow2_lt l 64). lia.
Qed.

Lemma log2_roundup_loop_spec fuel i l k :
  0 <= l <= k -> k < 64 -> i <= 2 ^ k -> (forall j, l <= j < k -> 2 ^ j < i) ->
  (Z.to_nat (k - l) < fuel)%nat ->
  log2_roundup_loop fuel i l = Ok k.
Proof.
  revert l. induction fuel as [|fuel IH]; intros l Hl Hk Hi Hlow Hfuel; [lia|].
  cbn [log2_roundup_loop]. rewrite shl64_1 by lia.
  destruct (decide (l = k)) as [->|Hne].
  - by destruct (Z.ltb_spec (2 ^ k) i); [lia|].
  - specialize (Hlow l ltac:(lia)) as Hl'. destruct (Z.ltb_spec (2 ^ l) i); [|lia].
    rewrite u8_id by lia. apply IH; try lia. intros j Hj. apply Hlow. lia.
Qed.

Lemma log2_up_bounds i : 0 <= i ->
  i <= 2 ^ Z.log2_up i /\ forall j, 0 <= j < Z.log2_up i -> 2 ^ j < i.
Proof.
  intros Hi. destruct (Z.le_gt_cases i 1) as [H1|H1].
  - rewrite (proj2 (Z.log2_up_null i) H1). split; lia.
  - pose proof (Z.log2_up_spec i H1) as [Hl Hu]. split; [done|].
    intros j Hj. eapply Z.le_lt_trans; [|exact Hl]. apply pow2_le. lia.
Qed.

Lemma log2_roundup_log2_up i : 0 <= i <= 2 ^ 63 -> log2_roundup i = Ok (Z.log2_up i).
Proof.
  intros Hi. destruct (log2_up_bounds i) as [Hu Hl]; [lia|].
  assert (Z.log2_up i <= 63) as H63.
  { rewrite <- (Z.log2_up_pow2 63) by lia. apply Z.log2_up_le_mono. lia. }
  pose proof (Z.log2_up_nonneg i).
  apply log2_roundup_loop_spec; try lia. intros j Hj. apply Hl. lia.
Qed.

(** Past [2^63] every probe is below [i]: the loop counter wraps at 256 and
    the shift amount at 64, and no fuel is enough. *)
Lemma log2_roundup_loop_diverges fuel i l :
  0 <= l -> 2 ^ 63 < i -> log2_roundup_loop fuel i l = OutOfFuel.
Proof.
  revert l. induction fuel as [|fuel IH]; intros l Hl Hi; [done|].
  cbn [log2_roundup_loop]. destruct (Z.ltb_spec (shl64 1 l) i) as [|Hge].
  - apply IH; [|done]. apply u8_range.
  - exfalso. unfold shl64 in Hge. pose proof (Z.mod_pos_bound l 64 ltac:(lia)) as Hm.
    fold (shl64 1 l) in Hge. change (shl64 1 l) with (u64 (Z.shiftl 1 (l mod 64))) in Hge.
    rewrite Z.shiftl_1_l in Hge. pose proof (pow2_le (l mod 64) 63 ltac:(lia)).
    pose proof (pow2_pos (l mod 64) ltac:(lia)).
    rewrite u64_id in Hge by lia. lia.
Qed.

(** * Powers of two in a range *)

Lemma pow2_log_pow2 k : 0 <= k < 256 -> pow2_log (2 ^ k) = k.
Proof. intros Hk. unfold pow2_log. rewrite trailing_zeros_pow2 by lia. apply u8_id. lia. Qed.

Lemma pow2_le_inv a b : 0 <= a -> 2 ^ a <= 2 ^ b -> a <= b.
Proof.
  intros Ha H. destruct (Z.le_gt_cases a b) as [|Hlt]; [done|].
  destruct (Z.lt_ge_cases b 0) as [Hn|Hn].
  - rewrite (Z.pow_neg_r 2 b Hn) in H. pose proof (pow2_pos a Ha). lia.
  - pose proof (pow2_lt b a ltac:(lia)). lia.
Qed.

Lemma power_of_two_in v a b :
  0 <= a -> is_power_of_two v = true -> 2 ^ a <= v <= 2 ^ b -> exists k, a <= k <= b /\ v = 2 ^ k.
Proof.
  intros Ha (k & Hk & ->)%is_power_of_two_spec [H1 H2]. exists k.
  apply pow2_le_inv in H1; [|done]. apply pow2_le_inv in H2; [|done]. lia.
Qed.

(** * The stages of [compute] *)

(** Split on the five block sizes there are. *)
Ltac block_cases k :=
  let H := fresh in
  assert (k = 10 \/ k = 11 \/ k = 12 \/ k = 13 \/ k = 14) as H by lia;
  destruct H as [H|[H|[H|[H|H]]]]; rewrite ?H in *.

(** Evaluate closed quotients. *)
Ltac eval_div :=
  repeat match goal with
  | |- context [?a / 2 ^ Zpos ?k] =>
      let v := eval vm_compute in (a / 2 ^ Zpos k) in
      is_ground v; change (a / 2 ^ Zpos k) with v
  end.

Lemma ag_min_blocks_eq k : 10 <= k <= 14 -> ag_min_blocks k = 2 ^ (24 - k).
Proof. intros Hk. block_cases k; reflexivity. Qed.

Lemma ag_max_blocks_eq k : 10 <= k <= 14 -> ag_max_blocks k = 2 ^ (40 - k) - 1.
Proof. intros Hk. block_cases k; reflexivity. Qed.

Lemma validate_blocksize_Ok p b :
  validate_blocksize p = Ok b ->
  exists k, 10 <= k <= 14 /\ b = 2 ^ k /\ pow2_log b = k /\ b = default 4096 (p_block_size p).
Proof.
  unfold validate_blocksize. intros H. inv_ok. bools.
  set (v := default 4096 (p_block_size p)) in *.
  assert (2 ^ 10 <= v <= 2 ^ 14) as Hr
    by (unfold MIN_CRC_BLOCKSIZE, MAX_SUPPORTED_BLOCKSIZE in *; lia).
  destruct (power_of_two_in _ 10 14 ltac:(lia) ltac:(eassumption) Hr) as (k & Hk & Ek).
  exists k. rewrite !Ek. split_and!; try done; try lia. apply pow2_log_pow2. lia.
Qed.

Lemma validate_sectorsize_Ok p bsz ls ps s :
  validate_sectorsize p bsz ls ps = Ok s ->
  exists j, 9 <= j <= 15 /\ s = 2 ^ j /\ pow2_log s = j /\ s <= bsz /\ ls <= s.
Proof.
  unfold validate_sectorsize. intros H. inv_ok. bools. subst.
  match goal with |- context [default ?d ?o] => set (v := default d o) in * end.
  assert (2 ^ 9 <= v <= 2 ^ 15) as Hr by (unfold MIN_SECTORSIZE, MAX_SECTORSIZE in *; lia).
  destruct (power_of_two_in v 9 15 ltac:(lia) ltac:(eassumption) Hr) as (j & Hj & Ej).
  exists j. rewrite Ej in *. split_and!; try done; try lia. apply pow2_log_pow2. lia.
Qed.

Lemma validate_inodesize_Ok p k i :
  10 <= k <= 14 -> validate_inodesize p (2 ^ k) = Ok i ->
  exists m, 9 <= m <= 11 /\ i = 2 ^ m /\ pow2_log i = m /\ m + 1 <= k.
Proof.
  unfold validate_inodesize. intros Hk H. inv_ok. bools. subst.
  set (v := default 512 (p_inode_size p)) in *.
  assert (2 ^ 9 <= v <= 2 ^ 11) as Hr by (unfold DINODE_MAX_SIZE in *; lia).
  destruct (power_of_two_in v 9 11 ltac:(lia) ltac:(eassumption) Hr) as (m & Hm & Em).
  exists m. rewrite Em in *. split_and!; try done; try lia; [apply pow2_log_pow2; lia|].
  assert (2 ^ k / 2 = 2 ^ (k - 1)) as Ed
    by (rewrite <- (Z.pow_1_r 2) at 2; symmetry; apply Z.pow_sub_r; lia).
  rewrite Ed in *. enough (m <= k - 1) by lia. apply pow2_le_inv; lia.
Qed.

Lemma shr64_le x k : 0 <= x -> 0 <= k < 64 -> shr64 x k * 2 ^ k <= x /\ 0 <= shr64 x k.
Proof.
  intros Hx Hk. rewrite shr64_div by done. pose proof (pow2_pos k ltac:(lia)).
  split; [rewrite Z.mul_comm; by apply Z.mul_div_le | apply Z.div_pos; lia].
Qed.

Lemma validate_datadev_Ok p size k d :
  10 <= k <= 14 -> 0 <= size -> validate_datadev p size k = Ok d ->
  2 ^ (24 - k) <= d /\ d * 2 ^ k <= size /\
  (forall bytes, p_size p = Some bytes -> d = shr64 bytes k).
Proof.
  unfold validate_datadev. intros Hk Hs H.
  pose proof (shr64_le size k Hs ltac:(lia)) as [Hle Hnn]. pose proof (pow2_pos k ltac:(lia)).
  rewrite ag_min_blocks_eq in H by done.
  destruct (p_size p) as [bytes|]; inv_ok; bools; subst; split_and!; try lia; try done.
  - nia.
  - by intros ? [= ->].
Qed.

Lemma default_ag_geometry_Ok k d s n :
  0 <= d < 2 ^ 63 -> default_ag_geometry k d false = Ok (s, n) -> 0 < s ->
  s = default_agsize k d false /\ n = div_ceil d s.
Proof.
  unfold default_ag_geometry. intros Hd H Hs. inv_ok.
  match goal with H : div_or_panic _ _ = _ |- _ => apply div_or_panic_Ok in H as [_ ->] end.
  match goal with H : rem_or_panic _ _ = _ |- _ => apply rem_or_panic_Ok in H as [_ ->] end.
  split; [done|]. unfold div_ceil.
  set (v := default_agsize k d false) in *.
  pose proof (Z.div_pos d v ltac:(lia) Hs). pose proof (Z.div_le_upper_bound d v d Hs ltac:(nia)).
  destruct (d mod v =? 0); cbn [negb Z.b2z]; apply u64_id; lia.
Qed.

(** The AG size and count before alignment: [agcount] AGs of [agsize] cover
    the data area, and unless the caller chose the count none is superfluous. *)
Lemma initial_ag_geometry_Ok p bsz k d s n :
  params_ok p -> 0 <= d < 2 ^ 63 -> initial_ag_geometry p bsz k d = Ok (s, n) -> 0 < s ->
  0 <= n < 2 ^ 64 /\ d <= n * s /\
  (p_agcount p = None \/ p_agsize p <> None -> (n - 1) * s < d).
Proof.
  unfold initial_ag_geometry. intros Hp Hd H Hs.
  assert (Hceil : forall m, 0 < m -> 0 <= div_ceil d m < 2 ^ 64 /\ d <= div_ceil d m * m
    /\ (div_ceil d m - 1) * m < d).
  { intros m Hm. pose proof (div_ceil_bounds d m Hm). pose proof (div_ceil_nonneg d m Hm ltac:(lia)).
    split_and!; try lia; nia. }
  destruct (p_agsize p) as [bytes|] eqn:Ea.
  - inv_ok. destruct (Hceil _ Hs) as (? & ? & ?). done.
  - destruct (p_agcount p) as [m|] eqn:Ec.
    + inv_ok. bools. pose proof (po_agcount p Hp n Ec).
      pose proof (div_ceil_bounds d n ltac:(lia)).
      split_and!; try lia. intros [?|?]; done.
    + apply default_ag_geometry_Ok in H as [_ ->]; [|done..].
      destruct (Hceil _ Hs) as (? & ? & ?). done.
Qed.

(** After alignment a short last AG still holds [ag_min_blocks]. *)
Lemma align_ag_geometry_Ok p k d s n d' n' :
  10 <= k <= 14 -> 0 < s -> 0 <= d < 2 ^ 63 -> 0 <= n -> d <= n * s ->
  (p_agcount p = None \/ p_agsize p <> None -> (n - 1) * s < d) ->
  align_ag_geometry p k d s n = Ok (d', n') ->
  0 <= n' <= n /\ 0 <= d' <= d /\ d' <= n' * s /\ (d' mod s = 0 \/ 2 ^ (24 - k) <= d' mod s) /\
  (p_agcount p = None \/ p_agsize p <> None -> (n' - 1) * s < d').
Proof.
  unfold align_ag_geometry. intros Hk Hs Hd Hn Hcov Htile H. inv_ok.
  match goal with H : rem_or_panic _ _ = _ |- _ => apply rem_or_panic_Ok in H as [_ ->] end.
  rewrite ag_min_blocks_eq in H by done.
  destruct (negb (d mod s =? 0) && (d mod s <? 2 ^ (24 - k))) eqn:E.
  - destruct (p_agcount p) eqn:Ec; [discriminate H|]. injection H as <- <-. bools.
    specialize (Htile (or_introl eq_refl)).
    pose proof (Z.mod_pos_bound d s Hs). pose proof (Z.div_mod d s ltac:(lia)).
    pose proof (Z.div_pos d s ltac:(lia) Hs) as Hq. set (q := d / s) in *.
    assert (n = q + 1) as -> by nia. replace (q + 1 - 1) with q by lia.
    assert (0 <= q * s <= d) by nia. assert (q <= d) by nia.
    no_wrap. split_and!; try lia. left. apply Z.mod_mul. lia.
  - injection H as <- <-. split_and!; try lia. done.
Qed.

Lemma validate_ag_geometry_Ok k d s n u :
  10 <= k <= 14 -> validate_ag_geometry k d s n = Ok u ->
  2 ^ (24 - k) <= s < 2 ^ (40 - k) /\ s <= d /\ n <= MAX_AGNUMBER.
Proof.
  unfold validate_ag_geometry. intros Hk H.
  rewrite ag_min_blocks_eq, ag_max_blocks_eq in H by done. inv_ok. bools. lia.
Qed.

Lemma calculate_imaxpct_Ok p k d v :
  params_ok p -> calculate_imaxpct p k d = Ok v -> 0 <= v <= 100.
Proof.
  unfold calculate_imaxpct. intros Hp H. destruct (p_imaxpct p) as [x|] eqn:E.
  - inv_ok. bools. pose proof (po_imaxpct p Hp v E). lia.
  - inv_ok. repeat case_match; lia.
Qed.

Lemma label_bytes_Ok p l : label_bytes p = Ok l -> length l = 12%nat.
Proof.
  unfold label_bytes. intros H. destruct (p_label p); inv_ok; [|apply length_zeroes].
  apply copy_into_Ok in H as (? & ? & ->). rewrite length_patch; rewrite length_zeroes in *; lia.
Qed.

(** * The start of an AG *)

(** The four header sectors take one to four blocks. *)
Lemma header_blocks_range g :
  10 <= blocklog g <= 14 -> blocksize g = 2 ^ blocklog g ->
  9 <= sectlog g <= blocklog g -> sectsize g = 2 ^ sectlog g -> 1 <= header_blocks g <= 4.
Proof.
  intros Hk Eb Hj Es. unfold header_blocks, bs. rewrite Eb, Es.
  pose proof (pow2_le (sectlog g) (blocklog g) ltac:(lia)).
  pose proof (pow2_le (blocklog g) 14 ltac:(lia)). pose proof (pow2_pos (sectlog g) ltac:(lia)).
  pose proof (pow2_pos (blocklog g) ltac:(lia)) as Hpos.
  no_wrap. pose proof (div_ceil_bounds (4 * 2 ^ sectlog g) _ Hpos). nia.
Qed.

(** The btree roots follow the headers, one block each, and [prealloc_blocks]
    is what they take together. *)
Lemma layout_blocks g : 0 <= header_blocks g <= 4 ->
  let h := header_blocks g in
  let f := features g in
  bno_block g = h /\ cnt_block g = h + 1 /\ ibt_block g = h + 2 /\ fibt_block g = h + 3 /\
  rmap_block g = h + 3 + Z.b2z (finobt f) /\
  refc_block g = h + 3 + Z.b2z (finobt f) + Z.b2z (rmapbt f) /\
  prealloc_blocks g = h + 3 + Z.b2z (finobt f) + Z.b2z (rmapbt f) + Z.b2z (reflink f).
Proof.
  intros Hh h f. subst h f.
  unfold prealloc_blocks, refc_block, rmap_block, fibt_block, ibt_block, cnt_block, bno_block.
  destruct (finobt (features g)), (rmapbt (features g)), (reflink (features g)); cbn [Z.b2z];
    no_wrap; lia.
Qed.

Lemma prealloc_range g : 0 <= header_blocks g <= 4 ->
  header_blocks g + 3 <= prealloc_blocks g <= header_blocks g + 6.
Proof.
  intros Hh. destruct (layout_blocks g Hh) as (_ & _ & _ & _ & _ & _ & ->).
  destruct (finobt (features g)), (rmapbt (features g)), (reflink (features g)); cbn; lia.
Qed.

Lemma ag_max_usable_eq g : 0 <= header_blocks g <= 4 -> 64 <= agsize g < 2 ^ 64 ->
  ag_max_usable g = agsize g - prealloc_blocks g - 4.
Proof.
  intros Hh Ha. destruct (layout_blocks g Hh) as (_ & _ & _ & _ & _ & _ & ->).
  unfold ag_max_usable, ALLOCBT_AGFL_RESERVE.
  destruct (finobt (features g)), (rmapbt (features g)), (reflink (features g)); cbn [Z.b2z];
    no_wrap; lia.
Qed.

(** * The log *)

Lemma set_log_same g a b c :
  header_blocks (set_log g a b c) = header_blocks g /\
  prealloc_blocks (set_log g a b c) = prealloc_blocks g.
Proof. split; reflexivity. Qed.

Lemma wanted_logblocks_bounds g m :
  10 <= blocklog g <= 14 -> 0 <= m ->
  0 <= wanted_logblocks g m <= MAX_LOG_BLOCKS /\
  wanted_logblocks g m * 2 ^ blocklog g <= MAX_LOG_BYTES /\ wanted_logblocks g m <= m.
Proof.
  intros Hk Hm. unfold wanted_logblocks, MAX_LOG_BLOCKS, MAX_LOG_BYTES, MIN_LOG_BYTES.
  set (y := shr64 (64 * MIB) (blocklog g)).
  assert (0 < y) by (subst y; block_cases (blocklog g); reflexivity).
  set (lb := Z.min (Z.min (Z.max _ y) m) _). assert (0 <= lb <= 1024 * 1024 /\ lb <= m) by lia.
  clearbody lb. rewrite shl64_mul by (block_cases (blocklog g); lia).
  destruct (Z.ltb_spec (2 * 1024 * 1024 * 1024 - 10 * 1024 * 1024) (lb * 2 ^ blocklog g)).
  - rewrite shr64_div by lia. block_cases (blocklog g); eval_div; lia.
  - lia.
Qed.

Lemma calculate_log_size_Ok g g' :
  10 <= blocklog g <= 14 -> 1 <= header_blocks g <= 4 ->
  2 ^ (24 - blocklog g) <= agsize g < 2 ^ (40 - blocklog g) ->
  0 <= dblocks g -> 2 <= agcount g ->
  calculate_log_size g = Ok g' ->
  exists blocks, g' = set_log g blocks (agcount g / 2) (prealloc_blocks g) /\
    0 <= blocks <= MAX_LOG_BLOCKS /\ blocks * 2 ^ blocklog g <= MAX_LOG_BYTES /\
    blocks <= agsize g - prealloc_blocks g - 5 /\ 300 * MIB <= dblocks g * 2 ^ blocklog g.
Proof.
  intros Hk Hh Ha Hd Hn H. unfold calculate_log_size in H.
  assert (2 ^ 10 <= agsize g < 2 ^ 30) as Ha'
    by (pose proof (pow2_le 10 (24 - blocklog g)); pose proof (pow2_le (40 - blocklog g) 30); lia).
  pose proof (prealloc_range g ltac:(lia)) as Hp.
  rewrite ag_max_usable_eq in H by lia. inv_ok. bools.
  replace (agcount g / 2 =? 0) with false
    by (symmetry; apply Z.eqb_neq; pose proof (Z.div_le_lower_bound (agcount g) 2 1); lia).
  rewrite (u64_id (agsize g - prealloc_blocks g - 4 - 1)) in * by lia.
  destruct (wanted_logblocks_bounds g (agsize g - prealloc_blocks g - 4 - 1)) as (? & ? & ?);
    [lia..|].
  eexists. split_and!; [reflexivity | lia .. |].
  match goal with H : shr64 (300 * MIB) _ <= _ |- _ =>
    rewrite shr64_div in H by lia; revert H end.
  unfold MIB. block_cases (blocklog g); eval_div; lia.
Qed.

(** * The geometry [compute] returns *)

(** The geometry before the log is placed. *)
Definition pre_log (k j m : Z) (f : Features) (g : Geometry) : Geometry :=
  mkGeometry (2 ^ k) k (2 ^ j) j (2 ^ j) j (2 ^ m) m (2 ^ k / 2 ^ m) (u8 (k - m))
    (if 2 ^ k <? 4096 then 12 else k) (dblocks g) (agsize g) (agcount g) (agblklog g) (imaxpct g)
    0 0 0 f (label g).

Lemma calculate_log_size_set g g' :
  calculate_log_size g = Ok g' -> exists a b c, g' = set_log g a b c.
Proof. unfold calculate_log_size. intros H. inv_ok. eauto. Qed.

(** The stages of [compute], collected. *)
Lemma compute_stages p size ls ps g :
  params_ok p -> 0 <= size < 2 ^ 64 -> compute p size ls ps = Ok g ->
  exists k j m d n,
    (10 <= k <= 14 /\ 9 <= j <= 15 /\ 2 ^ j <= 2 ^ k /\ 9 <= m <= 11 /\ m + 1 <= k) /\
    (2 ^ (24 - k) <= d /\ d * 2 ^ k <= size) /\
    initial_ag_geometry p (2 ^ k) k d = Ok (agsize g, n) /\
    align_ag_geometry p k d (agsize g) n = Ok (dblocks g, agcount g) /\
    (2 ^ (24 - k) <= agsize g < 2 ^ (40 - k) /\ agsize g <= dblocks g /\ agcount g <= MAX_AGNUMBER) /\
    (0 <= imaxpct g <= 100 /\ length (label g) = 12%nat) /\
    log2_roundup (agsize g) = Ok (agblklog g) /\
    calculate_log_size (pre_log k j m (p_features p) g) = Ok g /\
    (shr64 (64 * MIB) k <= logblocks g /\ 2 <= agcount g) /\
    (inobtcount (p_features p) = true -> finobt (p_features p) = true).
Proof.
  intros Hp Hsize H. unfold compute, finish_geometry in H. inv_ok.
  match goal with H : validate_blocksize _ = _ |- _ =>
    apply validate_blocksize_Ok in H as (k & Hk & -> & Ek & _) end.
  match goal with H : validate_sectorsize _ _ _ _ = _ |- _ =>
    apply validate_sectorsize_Ok in H as (j & Hj & -> & Ej & Hjk & _) end.
  match goal with H : validate_inodesize _ _ = _ |- _ =>
    apply validate_inodesize_Ok in H as (m & Hm & -> & Em & Hmk); [|done] end.
  rewrite Ek, Ej, Em in *.
  match goal with H : validate_datadev _ _ _ = _ |- _ =>
    apply validate_datadev_Ok in H as (Hd & Hds & _); [|lia..] end.
  match type of H with context [let '(_, _) := ?x in _] => destruct x as [s n0] end. inv_ok.
  match type of H with context [let '(_, _) := ?x in _] => destruct x as [d n] end. inv_ok.
  match goal with H : validate_ag_geometry _ _ _ _ = _ |- _ =>
    apply validate_ag_geometry_Ok in H; [|done] end.
  match goal with H : calculate_log_size _ = _ |- _ =>
    pose proof (calculate_log_size_set _ _ H) as (x & y & z & Eg) end.
  match goal with H : validate_supported _ = _ |- _ => unfold validate_supported in H end.
  inv_ok. bools.
  match goal with H : calculate_imaxpct _ _ _ = _ |- _ =>
    apply calculate_imaxpct_Ok in H; [|done] end.
  match goal with H : label_bytes _ = _ |- _ => apply label_bytes_Ok in H end.
  exists k, j, m, a3, n0. subst g. cbn [agsize dblocks agcount imaxpct label agblklog set_log
    logblocks blocklog] in *.
  split_and!; try done; try lia.
  intros Hf. destruct E as [E|E]; [congruence | by apply negb_false_iff in E].
Qed.

Lemma pow2_div a b : 0 <= b <= a -> 2 ^ a / 2 ^ b = 2 ^ (a - b).
Proof. intros. symmetry. apply Z.pow_sub_r; lia. Qed.

Lemma last_ag_blocks d s n q :
  0 < s -> (n - 1) * s < d <= n * s -> (d mod s = 0 \/ q <= d mod s) -> q <= s ->
  q <= d - (n - 1) * s.
Proof.
  intros Hs Hd Hr Hq. pose proof (Z.div_mod d s ltac:(lia)). pose proof (Z.mod_pos_bound d s Hs).
  set (x := d / s) in *. destruct (Z.eq_dec (d mod s) 0) as [E0|E0].
  - assert (x = n) as -> by nia. lia.
  - assert (x = n - 1) as -> by nia. lia.
Qed.

Lemma agblklog_bounds s a k :
  10 <= k <= 14 -> 2 ^ (24 - k) <= s < 2 ^ (40 - k) -> log2_roundup s = Ok a ->
  0 < a <= 40 - k /\ 2 ^ (a - 1) < s <= 2 ^ a.
Proof.
  intros Hk Hs H.
  assert (2 ^ 10 <= s < 2 ^ 63) as Hs'
    by (pose proof (pow2_le 10 (24 - k)); pose proof (pow2_lt (40 - k) 63); lia).
  rewrite log2_roundup_log2_up in H by lia. injection H as <-.
  pose proof (Z.log2_up_spec s ltac:(lia)) as Hup.
  pose proof (Z.log2_up_pos s ltac:(lia)).
  assert (Z.log2_up s <= Z.log2_up (2 ^ (40 - k))) as Hle by (apply Z.log2_up_le_mono; lia).
  rewrite Z.log2_up_pow2 in Hle by lia. rewrite <- Z.sub_1_r in Hup. lia.
Qed.

(** The AGs of a computed geometry: they cover its data area, which is inside
    the device; those before the last are inside it unless only their number
    was asked for. *)
Lemma compute_ags p size g k d n :
  params_ok p -> 10 <= k <= 14 -> 2 ^ (24 - k) <= d /\ d * 2 ^ k <= size -> size < 2 ^ 64 ->
  initial_ag_geometry p (2 ^ k) k d = Ok (agsize g, n) ->
  align_ag_geometry p k d (agsize g) n = Ok (dblocks g, agcount g) ->
  2 ^ (24 - k) <= agsize g < 2 ^ (40 - k) ->
  dblocks g <= agcount g * agsize g /\ dblocks g * 2 ^ k <= size /\
  (p_agcount p = None \/ p_agsize p <> None -> tiled g) /\
  (tiled g -> 2 ^ (24 - k) <= dblocks g - (agcount g - 1) * agsize g).
Proof.
  intros Hp Hk [Hd Hds] Hsize Hi Ha Hs.
  pose proof (pow2_pos (24 - k) ltac:(lia)). pose proof (pow2_pos k ltac:(lia)).
  assert (d < 2 ^ 63) as Hd63 by (pose proof (pow2_le 10 k ltac:(lia)); nia).
  apply initial_ag_geometry_Ok in Hi as (? & ? & ?); [|done|lia|lia].
  apply align_ag_geometry_Ok in Ha as (? & ? & ? & ? & Ht); [|lia..|done].
  split_and!; [done | nia | exact Ht |]. unfold tiled. intros Htiled.
  apply last_ag_blocks; try lia; done.
Qed.

(** Where only the number of AGs was asked for, there are that many, of the
    data area divided by it. *)
Lemma compute_agcount p k d n m g : p_agcount p = Some m -> p_agsize p = None ->
  initial_ag_geometry p (2 ^ k) k d = Ok (agsize g, n) ->
  align_ag_geometry p k d (agsize g) n = Ok (dblocks g, agcount g) ->
  agcount g = m /\ agsize g = div_ceil (dblocks g) m.
Proof.
  intros Ec Es. unfold initial_ag_geometry, align_ag_geometry. rewrite Ec, Es. intros Hi Ha. inv_ok.
  destruct (_ && _); by simplify_eq.
Qed.

Lemma compute_wf_lemma p size ls ps g :
  params_ok p -> 0 <= size < 2 ^ 64 -> compute p size ls ps = Ok g ->
  (p_agcount p = None \/ p_agsize p <> None \/ tiled g) -> wf g /\ dblocks g * blocksize g <= size.
Proof.
  intros Hp Hsize H Htile.
  destruct (compute_stages p size ls ps g Hp Hsize H)
    as (k & j & m & d & n & (Hk & Hj & Hjk & Hm & Hmk) & Hd & Hi & Ha & (Hs & Hsd & Hn)
        & (Himax & Hlabel) & Hlog2 & Hlog & (Hlb & Hn2) & Hf).
  destruct (compute_ags p size g k d n Hp Hk Hd (proj2 Hsize) Hi Ha Hs)
    as (Hcov & Hbytes & Htiled & Hlast).
  assert (tiled g) as Ht by (destruct Htile as [?|[?|?]]; auto). specialize (Hlast Ht). clear Htiled.
  apply pow2_le_inv in Hjk; [|lia].
  assert (0 < 2 ^ (24 - k)) by (apply pow2_pos; lia).
  apply calculate_log_size_Ok in Hlog as (lb & Eg & Hlb1 & Hlb2 & Hlb3 & H300);
    [| done | apply header_blocks_range; cbn; lia | done | cbn; lia | done].
  destruct (agblklog_bounds _ _ k Hk Hs Hlog2) as [Hl1 Hl2].
  assert (2 ^ (26 - k) = shr64 (64 * MIB) k) as E64 by (block_cases k; reflexivity).
  assert (prealloc_blocks g = prealloc_blocks (pre_log k j m (p_features p) g)) as Ep
    by (rewrite Eg at 1; reflexivity).
  assert (Fk : blocklog g = k) by (rewrite Eg; reflexivity).
  assert (Fb : blocksize g = 2 ^ k) by (rewrite Eg; reflexivity).
  assert (Fl : logblocks g = lb) by (rewrite Eg; reflexivity).
  assert (Fj : sectlog g = j) by (rewrite Eg; reflexivity).
  assert (Fm : inodelog g = m) by (rewrite Eg; reflexivity).
  assert (Fp : inopblog g = k - m) by (rewrite Eg; apply u8_id; lia).
  assert (Ff : features g = p_features p) by (rewrite Eg; reflexivity).
  cbn [pre_log blocklog dblocks agcount agsize] in *. rewrite <- Ep in Hlb3, Eg.
  rewrite Fb. split; [|exact Hbytes]. clear Hi Ha Hd H Htile.
  constructor; rewrite ?Fk, ?Fb, ?Fl, ?Fj, ?Fm, ?Fp, ?Ff; try assumption; try lia;
    try (rewrite Eg; reflexivity).
  - rewrite Eg. apply pow2_div. lia.
  - rewrite Eg. cbn. by block_cases k.
  - by rewrite Eg at 1.
Qed.

(** * A well-formed geometry's numbers, without wrapping *)

Section Wf.
Variable g : Geometry.
Hypothesis W : wf g.

Lemma wf_header : 1 <= header_blocks g <= 4.
Proof. apply header_blocks_range; apply W. Qed.

Lemma wf_agsize_range : 2 ^ 10 <= agsize g < 2 ^ 30.
Proof.
  pose proof (wf_agsize g W). pose proof (wf_blocklog g W).
  pose proof (pow2_le 10 (24 - blocklog g)). pose proof (pow2_le (40 - blocklog g) 30). lia.
Qed.

Lemma wf_prealloc : header_blocks g + 3 <= prealloc_blocks g <= header_blocks g + 6.
Proof. apply prealloc_range. pose proof wf_header. lia. Qed.

Lemma wf_dblocks : 0 < dblocks g < 2 ^ 54.
Proof.
  pose proof (wf_bytes g W) as Hb. rewrite (wf_blocksize g W) in Hb.
  pose proof (wf_blocklog g W). pose proof (pow2_le 10 (blocklog g) ltac:(lia)).
  pose proof (wf_tiled g W) as Ht. unfold tiled in Ht. pose proof (wf_agcount g W).
  pose proof wf_agsize_range. nia.
Qed.

(** Block numbers of the filesystem fit 54 bits, byte offsets 64. *)
Lemma wf_ag_start agno : 0 <= agno < agcount g -> 0 <= agno * agsize g < dblocks g.
Proof.
  intros Ha. pose proof (wf_tiled g W) as Ht. unfold tiled in Ht.
  pose proof wf_agsize_range. nia.
Qed.

Lemma ag_blocks_eq agno : 0 <= agno < agcount g ->
  ag_blocks g agno = Z.min (agsize g) (dblocks g - agno * agsize g).
Proof.
  intros Ha. unfold ag_blocks. pose proof (wf_agcount g W) as Hn. unfold MAX_AGNUMBER in Hn.
  pose proof (wf_ag_start agno Ha). pose proof wf_dblocks. pose proof (wf_covered g W).
  pose proof (wf_tiled g W) as Ht. unfold tiled in Ht.
  rewrite u64_id by lia. destruct (Z.eqb_spec agno (agcount g - 1)) as [->|Hne].
  - rewrite (u64_id (_ * _)), u64_id by lia. lia.
  - nia.
Qed.

Lemma ag_blocks_range agno : 0 <= agno < agcount g ->
  2 ^ 10 <= ag_blocks g agno <= agsize g /\ agno * agsize g + ag_blocks g agno <= dblocks g.
Proof.
  intros Ha. rewrite ag_blocks_eq by done. pose proof wf_agsize_range.
  pose proof (wf_last g W). pose proof (wf_blocklog g W).
  pose proof (pow2_le 10 (24 - blocklog g)). nia.
Qed.

Lemma ag_blocks_inner agno : 0 <= agno < agcount g - 1 -> ag_blocks g agno = agsize g.
Proof.
  intros Ha. rewrite ag_blocks_eq by lia. pose proof (wf_tiled g W) as Ht.
  unfold tiled in Ht. pose proof wf_agsize_range. nia.
Qed.

(** A block of the filesystem at its byte offset. *)
Lemma agb_to_byte_eq agno agbno :
  0 <= agno < agcount g -> 0 <= agbno <= ag_blocks g agno ->
  agb_to_byte g agno agbno = (agno * agsize g + agbno) * blocksize g /\
  agb_to_byte g agno agbno <= dblocks g * blocksize g.
Proof.
  intros Ha Hb. unfold agb_to_byte. pose proof (ag_blocks_range agno Ha) as [_ Hr].
  pose proof (wf_ag_start agno Ha). pose proof wf_dblocks. pose proof (wf_bytes g W) as HB.
  pose proof (wf_blocklog g W). rewrite (wf_blocksize g W) in *.
  pose proof (pow2_pos (blocklog g) ltac:(lia)).
  rewrite (u64_id (agno * agsize g)), u64_id by lia.
  rewrite shl64_mul by (try lia; nia). split; [done | nia].
Qed.

Lemma chunk_blocks_eq : chunk_blocks g = 2 ^ (6 + inodelog g - blocklog g).
Proof.
  unfold chunk_blocks, INODES_PER_CHUNK. rewrite (wf_inodesize g W).
  pose proof (wf_inodelog g W). pose proof (wf_blocklog g W). pose proof (wf_inode_block g W).
  assert (inodelog g = 9 \/ inodelog g = 10 \/ inodelog g = 11) as [E|[E|E]] by lia;
    rewrite ?E in *; block_cases (blocklog g); reflexivity.
Qed.

Lemma chunk_blocks_range : 2 <= chunk_blocks g <= 64.
Proof.
  rewrite chunk_blocks_eq. pose proof (wf_inodelog g W). pose proof (wf_blocklog g W).
  pose proof (wf_inode_block g W).
  pose proof (pow2_le 1 (6 + inodelog g - blocklog g)).
  pose proof (pow2_le (6 + inodelog g - blocklog g) 6). lia.
Qed.

Lemma cluster_align_range : 1 <= cluster_align g <= 64.
Proof.
  unfold cluster_align, INODE_BIG_CLUSTER_SIZE, DINODE_MIN_SIZE. rewrite (wf_inodesize g W).
  pose proof (wf_inodelog g W). pose proof (wf_blocklog g W). pose proof (wf_inode_block g W).
  assert (inodelog g = 9 \/ inodelog g = 10 \/ inodelog g = 11) as [E|[E|E]] by lia;
    rewrite ?E in *; block_cases (blocklog g); vm_compute; intuition discriminate.
Qed.

Lemma inoalignmt_range : 1 <= inoalignmt g <= 64.
Proof.
  unfold inoalignmt. pose proof chunk_blocks_range. pose proof cluster_align_range.
  destruct (sparse (features g)); lia.
Qed.

Lemma min_freelist_range : 4 <= min_freelist g <= 6.
Proof. unfold min_freelist. destruct (rmapbt (features g)); lia. Qed.

Lemma logagno_range : 1 <= logagno g < agcount g.
Proof.
  rewrite (wf_logagno g W). pose proof (wf_agcount g W).
  pose proof (Z.div_mod (agcount g) 2 ltac:(lia)). pose proof (Z.mod_pos_bound (agcount g) 2).
  lia.
Qed.

(** The root inode chunk starts at the first aligned block after the free
    list. *)
Lemma root_chunk_agbno_bounds :
  let first := prealloc_blocks g + min_freelist g in
  first <= root_chunk_agbno g < first + inoalignmt g /\
  root_chunk_agbno g mod inoalignmt g = 0.
Proof.
  intros first. pose proof wf_header. pose proof min_freelist_range. pose proof inoalignmt_range.
  pose proof logagno_range. pose proof wf_prealloc.
  assert (first = header_blocks g + 2 + 1 + min_freelist g + (Z.b2z (finobt (features g))
    + Z.b2z (rmapbt (features g)) + Z.b2z (reflink (features g)))) as Ef.
  { subst first. destruct (layout_blocks g ltac:(lia)) as (_ & _ & _ & _ & _ & _ & ->). lia. }
  unfold root_chunk_agbno. rewrite (u64_id (header_blocks g + 2 + 1 + _)) by lia.
  destruct (Z.eqb_spec (logagno g) 0); [lia|].
  rewrite <- Ef, (u64_id first) by lia.
  destruct (Z.ltb_spec 1 (inoalignmt g)).
  - pose proof (div_ceil_bounds first (inoalignmt g) ltac:(lia)). unfold roundup.
    rewrite u64_id by lia. split; [lia|]. apply Z.mod_mul. lia.
  - replace (inoalignmt g) with 1 by lia. split; [lia | apply Z.mod_1_r].
Qed.
End Wf.

(** * [compute] always answers *)

Lemma ag_shift_range (c b1 b2 b3 b4 b5 : bool) :
  0 <= (if c then 2 else 5 - Z.b2z b1 - Z.b2z b2 - Z.b2z b3 - Z.b2z b4 - Z.b2z b5) <= 5.
Proof. destruct c, b1, b2, b3, b4, b5; cbn; lia. Qed.

Lemma default_agsize_pos k d :
  10 <= k <= 14 -> 2 ^ 10 <= d < 2 ^ 63 -> 0 < default_agsize k d false.
Proof.
  intros Hk Hd. unfold default_agsize. rewrite ag_max_blocks_eq by done.
  pose proof (pow2_le 26 (40 - k) ltac:(lia)).
  destruct (_ <=? d); [lia|]. destruct (negb false && _); [lia|].
  match goal with |- context [shr64 d ?n] => set (sh := n) in * end.
  assert (0 <= sh <= 5) as Hsh by apply ag_shift_range.
  clearbody sh. assert (0 < shr64 d sh) as Hb.
  { rewrite shr64_div by lia. apply Z.div_str_pos.
    pose proof (pow2_le sh 5 ltac:(lia)). pose proof (pow2_pos sh ltac:(lia)). lia. }
  destruct (_ && _) eqn:E; [|done]. bools.
  rewrite u64_id by (pose proof (pow2_le (40 - k) 30 ltac:(lia)); lia). lia.
Qed.

Lemma answers_initial_ag_geometry p b k d :
  params_ok p -> 0 < b -> 10 <= k <= 14 -> 2 ^ 10 <= d < 2 ^ 63 ->
  answers (initial_ag_geometry p b k d) /\
  forall s n, initial_ag_geometry p b k d = Ok (s, n) -> 0 < s.
Proof.
  intros Hp Hb Hk Hd. unfold initial_ag_geometry.
  destruct (p_agsize p) as [bytes|] eqn:Ea; [|destruct (p_agcount p) as [m|] eqn:Em].
  - split; [answers_steps|]. intros s n H. inv_ok. bools.
    pose proof (po_agsize p Hp bytes Ea). pose proof (Z.div_pos bytes b ltac:(lia) Hb). lia.
  - split; [answers_steps|]. intros s n H. inv_ok. bools.
    pose proof (po_agcount p Hp n Em). pose proof (div_ceil_bounds d n ltac:(lia)). nia.
  - pose proof (default_agsize_pos k d Hk Hd). unfold default_ag_geometry, div_or_panic, rem_or_panic.
    destruct (Z.eqb_spec (default_agsize k d false) 0); [lia|]. cbn [mbind result_bind].
    split; [eauto with result|]. intros s n' [= <- <-]. done.
Qed.

Lemma answers_align_ag_geometry p k d s n : 0 < s -> answers (align_ag_geometry p k d s n).
Proof.
  intros Hs. unfold align_ag_geometry, rem_or_panic.
  destruct (Z.eqb_spec s 0); [lia|]. cbn [mbind result_bind].
  repeat case_match; eauto with result.
Qed.

Lemma answers_label_bytes p : answers (label_bytes p).
Proof.
  unfold label_bytes. destruct (p_label p) as [l|]; [|eauto with result].
  apply answers_bind; [eauto with result|]. intros ? H. apply bail_if_Ok in H. bools.
  rewrite copy_into_in; rewrite ?length_zeroes, ?length_list_byte_of_string;
    eauto with result; lia.
Qed.

Lemma answers_validate_datadev p size k : answers (validate_datadev p size k).
Proof.
  unfold validate_datadev. apply answers_bind.
  - destruct (p_size p); answers_steps.
  - intros d _. answers_steps.
Qed.

Lemma answers_calculate_imaxpct p k d : answers (calculate_imaxpct p k d).
Proof. unfold calculate_imaxpct. destruct (p_imaxpct p); answers_steps. Qed.

Lemma answers_calculate_log_size g : answers (calculate_log_size g).
Proof. unfold calculate_log_size. answers_steps. Qed.

(** * Properties *)

(** C7: whatever the request, a geometry [compute] returns stays inside the
    device and its AGs cover its data area.  It is well formed (powers of two
    with their logs, AG and log sizes within the format's limits, a last AG
    not too small, a log no larger than an AG has room for) exactly when the
    AGs before the last lie inside the data area.  They do unless the caller
    asked for a number of AGs and no size for them; then it is that many, each
    the data area divided by their number and rounded up, and nothing more is
    promised. *)
Theorem compute_gives_wf p size ls ps g :
  params_ok p -> 0 <= size < 2 ^ 64 -> compute p size ls ps = Ok g ->
  dblocks g * blocksize g <= size /\ dblocks g <= agcount g * agsize g /\
  (wf g <-> (agcount g - 1) * agsize g < dblocks g) /\
  (p_agcount p = None \/ p_agsize p <> None -> wf g) /\
  (forall n, p_agcount p = Some n -> p_agsize p = None ->
     agcount g = n /\ agsize g = div_ceil (dblocks g) n).
Proof.
  intros Hp Hsize H.
  pose proof (fun Ht => proj1 (compute_wf_lemma p size ls ps g Hp Hsize H Ht)) as Hw.
  destruct (compute_stages p size ls ps g Hp Hsize H)
    as (k & j & m & d & n & (Hk & _) & Hd & Hi & Ha & (Hs & _) & _ & _ & Hlog & _).
  destruct (compute_ags p size g k d n Hp Hk Hd (proj2 Hsize) Hi Ha Hs) as (Hcov & Hbytes & _).
  apply calculate_log_size_set in Hlog as (x & y & z & Eg).
  assert (blocksize g = 2 ^ k) as -> by (rewrite Eg; reflexivity). split_and!; try done.
  - split; [apply wf_tiled | intros Ht; apply Hw; by right; right].
  - intros [?|?]; apply Hw; auto.
  - intros c Ec Es. by eapply compute_agcount.
Qed.

(** The geometry of the 512 MiB default. *)
Definition geo512m : Geometry := Eval vm_compute in
  match compute Params_new (512 * MIB) 512 512 with
  | Ok g => g
  | _ => mkGeometry 0 0 0 0 0 0 0 0 0 0 0 0 0 0 0 0 0 0 0 Features_default []
  end.

Lemma geo512m_computed : compute Params_new (512 * MIB) 512 512 = Ok geo512m.
Proof. vm_compute. reflexivity. Qed.

Lemma geo512m_wf : wf geo512m.
Proof.
  apply (compute_wf_lemma Params_new (512 * MIB) 512 512);
    [apply params_ok_new | unfold MIB; lia | apply geo512m_computed | by left].
Qed.

Lemma compute_gives_wf_witness :
  wf geo512m /\ dblocks geo512m * blocksize geo512m <= 512 * MIB.
Proof.
  destruct (compute_gives_wf Params_new (512 * MIB) 512 512 geo512m) as (B & _ & _ & W & _);
    [apply params_ok_new | unfold MIB; lia | vm_compute; reflexivity |].
  split; [apply W; left; reflexivity | exact B].
Defined.

(** The sizes [mkfs.xfs -N] 6.15 prints for sparse files from 300 MB to
    1 PiB: AG count and size, data and log blocks, [imaxpct]. *)
Theorem compute_matches_mkfs_xfs :
  ((fun size => (fun g => (agcount g, agsize g, dblocks g, logblocks g, imaxpct g)) <$>
     compute Params_new size 512 512) <$>
   [300 * MIB; 512 * MIB; GIB; 4 * GIB; 16 * GIB; 100 * GIB; TIB; 16 * TIB; 1024 * TIB])
  = (Ok <$> [(4, 19200, 76800, 16384, 25); (4, 32768, 131072, 16384, 25);
             (4, 65536, 262144, 16384, 25); (4, 262144, 1048576, 16384, 25);
             (4, 1048576, 4194304, 16384, 25); (4, 6553600, 26214400, 16384, 25);
             (4, 67108864, 268435456, 131072, 5); (16, 268435455, 4294967280, 521728, 5);
             (1024, 268435455, 274877905920, 521728, 1)]).
Proof. vm_compute. reflexivity. Qed.

(** C19: every block of the filesystem lies in exactly one AG, and the AGs
    hold no other block. *)
Theorem ags_partition_the_data_area g b :
  wf g ->
  (0 <= b < dblocks g <->
   exists agno, 0 <= agno < agcount g /\
     agno * agsize g <= b < agno * agsize g + ag_blocks g agno) /\
  (forall agno agno',
     0 <= agno < agcount g -> 0 <= agno' < agcount g ->
     agno * agsize g <= b < agno * agsize g + ag_blocks g agno ->
     agno' * agsize g <= b < agno' * agsize g + ag_blocks g agno' -> agno = agno').
Proof.
  intros W. pose proof (wf_agsize_range g W). pose proof (wf_covered g W). split; [split|].
  - intros Hb. exists (b / agsize g).
    pose proof (Z.div_mod b (agsize g) ltac:(lia)). pose proof (Z.mod_pos_bound b (agsize g)).
    assert (0 <= b / agsize g < agcount g)
      by (split; [apply Z.div_pos; lia | apply Z.div_lt_upper_bound; lia]).
    rewrite ag_blocks_eq by done. nia.
  - intros (agno & Ha & Hb). pose proof (ag_blocks_range g W agno Ha). nia.
  - intros a a' Ha Ha' Hb Hb'. pose proof (ag_blocks_range g W a Ha).
    pose proof (ag_blocks_range g W a' Ha'). nia.
Qed.

Lemma ags_partition_the_data_area_witness :
  (0 <= 70000 < dblocks geo512m <->
   exists agno, 0 <= agno < agcount geo512m /\
     agno * agsize geo512m <= 70000 < agno * agsize geo512m + ag_blocks geo512m agno) /\
  (forall agno agno',
     0 <= agno < agcount geo512m -> 0 <= agno' < agcount geo512m ->
     agno * agsize geo512m <= 70000 < agno * agsize geo512m + ag_blocks geo512m agno ->
     agno' * agsize geo512m <= 70000 < agno' * agsize geo512m + ag_blocks geo512m agno' ->
     agno = agno').
Proof. apply (ags_partition_the_data_area geo512m 70000 geo512m_wf). Defined.

(** The filesystem block number of a block splits back into its AG and
    its place there, as the readers split it, and its byte address is the
    plain [agno * agsize + agbno] blocks in: no shift or product wraps. *)
Theorem fsb_roundtrip g agno agbno :
  wf g -> 0 <= agno < agcount g -> 0 <= agbno < ag_blocks g agno ->
  shr64 (agb_to_fsb g agno agbno) (agblklog g) = agno /\
  Z.land (agb_to_fsb g agno agbno) (shl64 1 (agblklog g) - 1) = agbno /\
  agb_to_byte g agno agbno = (agno * agsize g + agbno) * blocksize g /\
  agb_to_daddr g agno agbno = agb_to_byte g agno agbno / 512.
Proof.
  intros W Ha Hb. pose proof (wf_agblklog g W). pose proof (wf_agblklog_spec g W).
  pose proof (ag_blocks_range g W agno Ha) as [? Hin]. pose proof (wf_agcount g W) as Hn.
  unfold MAX_AGNUMBER in Hn. pose proof (wf_blocklog g W).
  assert (0 <= agbno < 2 ^ agblklog g) as Hb' by lia.
  pose proof (pow2_le (agblklog g) 30 ltac:(lia)).
  unfold agb_to_fsb. rewrite shl64_1 by lia. rewrite shl64_mul by (try lia; nia).
  rewrite lor_add_shift by lia. rewrite shr64_div by lia.
  destruct (split_shift agno agbno (agblklog g) ltac:(lia) Hb') as [-> ->].
  destruct (agb_to_byte_eq g W agno agbno Ha ltac:(lia)) as [Eb _]. split_and!; try done.
  rewrite Eb, (wf_blocksize g W). unfold agb_to_daddr. rewrite u8_id by lia.
  pose proof (wf_ag_start g W agno Ha). pose proof (wf_dblocks g W).
  pose proof (pow2_le (blocklog g - 9) 5 ltac:(lia)). pose proof (pow2_pos (blocklog g - 9) ltac:(lia)).
  no_wrap. rewrite shl64_mul by (try lia; nia).
  replace (2 ^ blocklog g) with (2 ^ (blocklog g - 9) * 512)
    by (change 512 with (2 ^ 9); rewrite <- Z.pow_add_r by lia; f_equal; lia).
  by rewrite Z.mul_assoc, Z.div_mul by lia.
Qed.

Lemma fsb_roundtrip_witness :
  shr64 (agb_to_fsb geo512m 2 7) (agblklog geo512m) = 2 /\
  Z.land (agb_to_fsb geo512m 2 7) (shl64 1 (agblklog geo512m) - 1) = 7 /\
  agb_to_byte geo512m 2 7 = (2 * agsize geo512m + 7) * blocksize geo512m /\
  agb_to_daddr geo512m 2 7 = agb_to_byte geo512m 2 7 / 512.
Proof. apply (fsb_roundtrip geo512m 2 7 geo512m_wf); vm_compute; intuition discriminate. Defined.

(** An inode number splits back into AG, block and slot by the shifts
    the readers use. *)
Theorem ino_roundtrip g agno agbno slot :
  wf g -> 0 <= agno < agcount g -> 0 <= agbno < ag_blocks g agno -> 0 <= slot < inopblock g ->
  let i := ino g agno agbno slot in
  0 <= i < 2 ^ 64 /\
  shr64 i (agblklog g + inopblog g) = agno /\
  shr64 (Z.land i (2 ^ (agblklog g + inopblog g) - 1)) (inopblog g) = agbno /\
  Z.land i (2 ^ inopblog g - 1) = slot.
Proof.
  intros W Ha Hb Hs i. subst i. rewrite (wf_inopblock g W) in Hs.
  pose proof (wf_agblklog g W). pose proof (wf_agblklog_spec g W).
  pose proof (ag_blocks_range g W agno Ha) as [? Hin]. pose proof (wf_agcount g W) as Hn.
  unfold MAX_AGNUMBER in Hn. pose proof (wf_blocklog g W). pose proof (wf_inodelog g W).
  pose proof (wf_inode_block g W). pose proof (wf_inopblog g W).
  set (a := agblklog g) in *. set (p := inopblog g) in *.
  assert (0 <= agbno < 2 ^ a) as Hb' by lia.
  assert (0 <= p <= 5 /\ a + p <= 31) as [Hp Hap] by lia.
  pose proof (pow2_le a 30 ltac:(lia)). pose proof (pow2_le p 5 ltac:(lia)).
  pose proof (pow2_le (a + p) 31 ltac:(lia)).
  assert (2 ^ (a + p) = 2 ^ a * 2 ^ p) as Eap by (apply Z.pow_add_r; lia).
  assert (0 <= agbno * 2 ^ p + slot < 2 ^ (a + p)) as Hagino by nia.
  assert (ino g agno agbno slot = agno * 2 ^ (a + p) + (agbno * 2 ^ p + slot)) as ->.
  { unfold ino. fold a p. rewrite (u8_id (a + p)) by lia. rewrite !shl64_mul by (try lia; nia).
    rewrite (lor_add_shift agbno) by lia. by rewrite lor_add_shift by lia. }
  destruct (split_shift agno (agbno * 2 ^ p + slot) (a + p) ltac:(lia) Hagino) as [E1 E2].
  destruct (split_shift agbno slot p ltac:(lia) Hs) as [E3 E4].
  rewrite E2, !shr64_div by lia. split_and!; [nia | nia | done | done |].
  replace (agno * 2 ^ (a + p) + (agbno * 2 ^ p + slot))
    with ((agno * 2 ^ a + agbno) * 2 ^ p + slot) by (rewrite Eap; ring).
  apply split_shift; lia.
Qed.

Lemma ino_roundtrip_witness :
  let i := ino geo512m 3 16 5 in
  0 <= i < 2 ^ 64 /\
  shr64 i (agblklog geo512m + inopblog geo512m) = 3 /\
  shr64 (Z.land i (2 ^ (agblklog geo512m + inopblog geo512m) - 1)) (inopblog geo512m) = 16 /\
  Z.land i (2 ^ inopblog geo512m - 1) = 5.
Proof.
  apply (ino_roundtrip geo512m 3 16 5 geo512m_wf); vm_compute; intuition discriminate.
Defined.

(** The header sectors, the btree roots, the log or the free list, and
    the root inode chunk follow one another in an AG: each root has a block
    of its own after the headers, [prealloc_blocks] counts them, the root
    chunk starts aligned behind the free list, and both it and the log end
    inside a full-sized AG. *)
Theorem ag_layout g :
  wf g ->
  let h := header_blocks g in
  let f := features g in
  (4 * sectsize g <= h * blocksize g /\
   bno_block g = h /\ cnt_block g = h + 1 /\ ibt_block g = h + 2 /\
   (finobt f = true -> fibt_block g = h + 3) /\
   (rmapbt f = true -> rmap_block g = h + 3 + Z.b2z (finobt f)) /\
   (reflink f = true -> refc_block g = h + 3 + Z.b2z (finobt f) + Z.b2z (rmapbt f)) /\
   prealloc_blocks g = h + 3 + Z.b2z (finobt f) + Z.b2z (rmapbt f) + Z.b2z (reflink f)) /\
  (prealloc_blocks g + min_freelist g <= root_chunk_agbno g /\
   root_chunk_agbno g mod inoalignmt g = 0 /\
   root_chunk_agbno g + chunk_blocks g <= ag_blocks g 0) /\
  (prealloc_blocks g <= log_agbno g /\ log_agbno g + logblocks g + 5 <= agsize g).
Proof.
  intros W h f. pose proof (wf_header g W) as Hh. pose proof (wf_prealloc g W).
  destruct (root_chunk_agbno_bounds g W) as [Hr Hm]. pose proof (chunk_blocks_range g W).
  pose proof (inoalignmt_range g W). pose proof (min_freelist_range g).
  pose proof (wf_agcount g W). pose proof (ag_blocks_range g W 0 ltac:(lia)) as [? _].
  pose proof (wf_log_usable g W). rewrite (wf_log_agbno g W).
  destruct (layout_blocks g ltac:(lia)) as (? & ? & ? & ? & ? & ? & ?).
  assert (4 * sectsize g <= h * blocksize g).
  { unfold h, header_blocks, bs. rewrite u64_id.
    - apply div_ceil_bounds. rewrite (wf_blocksize g W). pose proof (wf_blocklog g W).
      apply pow2_pos. lia.
    - rewrite (wf_sectsize g W). pose proof (wf_sectlog g W). pose proof (wf_blocklog g W).
      pose proof (pow2_le (sectlog g) 14). pose proof (pow2_pos (sectlog g)). lia. }
  split_and!; try done; lia.
Qed.

Lemma ag_layout_witness :
  prealloc_blocks geo512m = 7 /\ root_chunk_agbno geo512m = 16 /\
  root_chunk_agbno geo512m + chunk_blocks geo512m <= ag_blocks geo512m 0.
Proof.
  split_and!; [reflexivity | reflexivity |].
  apply (ag_layout geo512m geo512m_wf).
Defined.

(** [log2_roundup] ends with the smallest power of two that is not below
    its argument, for every argument up to [2^63]; past that the shift
    wraps and the loop never ends, however long it runs. *)
Theorem log2_roundup_correct i :
  (0 <= i <= 2 ^ 63 ->
   exists l, log2_roundup i = Ok l /\ 0 <= l <= 63 /\ i <= 2 ^ l /\
     forall l', 0 <= l' < l -> 2 ^ l' < i) /\
  (2 ^ 63 < i -> forall fuel, log2_roundup_loop fuel i 0 = OutOfFuel).
Proof.
  split.
  - intros Hi. exists (Z.log2_up i). pose proof (log2_up_bounds i ltac:(lia)) as [? ?].
    split_and!; try done; [by apply log2_roundup_log2_up | apply Z.log2_up_nonneg |].
    rewrite <- (Z.log2_up_pow2 63) by lia. apply Z.log2_up_le_mono. lia.
  - intros Hi fuel. by apply log2_roundup_loop_diverges.
Qed.

(** A caller-chosen AG count can leave AGs without blocks: 60000 AGs on
    a 983950800-block device are accepted at 16400 blocks each, the last two
    start past the end of the data area, and [ag_blocks] of the last wraps
    below zero. *)
Theorem compute_accepts_ags_past_the_end :
  exists g, compute (Params_agcount Params_new 60000) (983950800 * 4096) 512 512 = Ok g /\
    agcount g = 60000 /\ agsize g = 16400 /\ dblocks g = 983950800 /\
    dblocks g < (agcount g - 2) * agsize g /\ ~ tiled g /\
    ag_blocks g (agcount g - 1) = 2 ^ 64 - 32800.
Proof.
  eexists. split; [vm_compute; reflexivity|]. split_and!; try reflexivity.
  vm_compute. discriminate.
Qed.

(** C28: [compute] always returns, a geometry or an error: no division by
    zero, no slice out of range, no endless loop, for any request, device
    size and sector sizes. *)
Theorem compute_answers p size ls ps :
  params_ok p -> 0 <= size < 2 ^ 64 -> answers (compute p size ls ps).
Proof.
  intros Hp Hsize. unfold compute, finish_geometry.
  apply answers_bind; [eauto with result|]. intros _ _.
  apply answers_bind; [unfold validate_blocksize; answers_steps|].
  intros b (k & Hk & -> & Ek & _)%validate_blocksize_Ok. rewrite Ek.
  apply answers_bind; [unfold validate_sectorsize; answers_steps|]. intros sectsize _.
  apply answers_bind; [unfold validate_inodesize; answers_steps|]. intros inodesize _.
  apply answers_bind; [apply answers_validate_datadev|].
  intros d (Hd & Hds & _)%validate_datadev_Ok; [|lia..].
  assert (2 ^ 10 <= d < 2 ^ 63) as Hd'
    by (pose proof (pow2_le 10 (24 - k) ltac:(lia)); pose proof (pow2_le 10 k ltac:(lia)); nia).
  destruct (answers_initial_ag_geometry p (2 ^ k) k d Hp ltac:(apply pow2_pos; lia) Hk Hd')
    as [Ha Hpos].
  apply answers_bind; [exact Ha|]. intros [s n] Hsn. specialize (Hpos s n Hsn).
  apply answers_bind; [by apply answers_align_ag_geometry|]. intros [d' n'] _.
  apply answers_bind; [unfold validate_ag_geometry; answers_steps|].
  intros ? Hv%validate_ag_geometry_Ok; [|done].
  apply answers_bind; [apply answers_calculate_imaxpct|]. intros imaxpct _.
  apply answers_bind; [apply answers_label_bytes|]. intros label _.
  rewrite log2_roundup_log2_up by (pose proof (pow2_le (40 - k) 63 ltac:(lia)); lia).
  cbn [mbind result_bind].
  apply answers_bind; [apply answers_calculate_log_size|]. intros g _.
  apply answers_bind; [unfold validate_supported; answers_steps | eauto with result].
Qed.

Lemma compute_answers_witness : answers (compute (Params_agcount Params_new 0) (512 * MIB) 512 4096).
Proof.
  apply (compute_answers (Params_agcount Params_new 0) (512 * MIB) 512 4096);
    [split; try discriminate; intros v [= <-]; lia | unfold MIB; lia].
Defined.
