(* ===== verification/Structs.v ===== *)
(** [src/src/structs/mod.rs], and what the encoders of [structs/] share.

    Every structure is written by a list of field stores into a buffer the
    caller zeroed, and stamped with its checksum.  [sealed] says what such an
    encoder leaves; its lemmas read a field back by evaluating where the
    stores went. *)

From Stdlib Require Import ZArith Lia.
From stdpp Require Import base tactics list numbers.
From coqutil Require Import Byte Word.LittleEndianList.
From S2P Require Import Prelude Bytes Crc.

(** [NULLAGBLOCK] / [NULLAGINO], and [NULLFSINO]. *)
Definition NULL32 : Z := 0xffffffff.
Definition NULL64 : Z := 2 ^ 64 - 1.

(** * Encoded structures

    Every structure is written by a list of stores into the caller's buffer,
    of which the first [n] bytes are then stamped: [write_sealed] is that
    sequence, [sealed] what it leaves. *)

Definition write_sealed (n off : nat) (ss : list store) (b : buf) : result buf :=
  b ← run_stores ss b; with_slice 0 n (stamp off) b.

Record sealed (n off : nat) (ss : list store) (b b' : buf) : Prop := {
  sealed_length : length b' = length b;
  sealed_verify : (s ← slice b' 0 n; verify s off) = Ok true;
  sealed_slice : forall lo k, (lo + k <= off \/ off + 4 <= lo)%nat ->
    slice b' lo (lo + k) = slice (patches ss b) lo (lo + k);
  sealed_in : Forall (store_in (length b)) ss;
}.

(** * Lemmas: encoded structures *)

Lemma patch_0_take n (src b : buf) : length src = n -> patch 0 src b = src ++ drop n b.
Proof. intros <-. reflexivity. Qed.

Lemma verify_stamp off b b' : stamp off b = Ok b' -> verify b' off = Ok true.
Proof.
  intros H. destruct (stamped_field _ _ _ H) as [Hl Hf]. rewrite verify_in by done. f_equal.
  rewrite Hf, of_to_le_bytes by apply cksum_of_range. apply Z.eqb_refl.
Qed.

(** Stamping the first [n] bytes of a longer buffer. *)
Lemma with_slice_stamp n off b :
  (off + 4 <= n)%nat -> (n <= length b)%nat ->
  with_slice 0 n (stamp off) b =
    Ok (patch off (to_le_bytes 4 (cksum_of (take n b) off)) b).
Proof.
  intros Ho Hn. unfold with_slice. rewrite slice_in by lia. rewrite Nat.sub_0_r, drop_0.
  cbn [mbind result_bind]. rewrite stamp_in by (rewrite length_take; lia). cbn [mbind result_bind].
  assert (length (to_le_bytes 4 (cksum_of (take n b) off)) = 4)%nat as Hl
    by apply length_to_le_bytes.
  rewrite copy_into_in by (rewrite ?length_patch; rewrite ?length_take; lia). f_equal.
  apply list_eq. intros i.
  rewrite !lookup_patch by (rewrite ?length_patch; rewrite ?length_take; lia).
  rewrite length_patch, length_take by (rewrite length_take; lia). rewrite Hl.
  repeat case_decide; try lia; rewrite ?lookup_patch by (rewrite length_take; lia);
    rewrite ?Hl, ?Nat.sub_0_r in *; repeat case_decide; try lia; try done.
  apply lookup_take_lt. lia.
Qed.

Lemma write_sealed_ok n off ss b :
  (off + 4 <= n)%nat -> (n <= length b)%nat -> Forall (store_in (length b)) ss ->
  exists b', write_sealed n off ss b = Ok b' /\ sealed n off ss b b'.
Proof.
  intros Ho Hn Hs. destruct (run_stores_in _ _ Hs) as [Hr Hl].
  unfold write_sealed. rewrite Hr. cbn [mbind result_bind].
  set (p := patches ss b) in *. rewrite with_slice_stamp by lia.
  eexists. split; [done|].
  assert (forall c, length (to_le_bytes 4 c) = 4%nat) as H4 by (intros; apply length_to_le_bytes).
  split; [rewrite length_patch; rewrite ?H4; lia | | | done].
  - rewrite slice_in by (rewrite length_patch; rewrite ?H4; lia).
    cbn [mbind result_bind]. rewrite Nat.sub_0_r, drop_0.
    set (v := to_le_bytes 4 (cksum_of (take n p) off)).
    assert (length v = 4%nat) as Hv by apply H4.
    assert (take n (patch off v p) = patch off v (take n p)) as ->.
    { apply list_eq. intros i. destruct (decide (i < n)%nat).
      - rewrite lookup_take_lt by lia. rewrite !lookup_patch by (rewrite ?length_take; lia).
        case_decide; [done|]. by rewrite lookup_take_lt.
      - rewrite !lookup_ge_None_2; [done| |]; rewrite ?length_take, ?length_patch;
          rewrite ?length_take; lia. }
    apply (verify_stamp off (take n p)). apply stamp_in. rewrite length_take. lia.
  - intros lo k Hd. apply slice_patch_other; rewrite H4; subst p; lia.
Qed.

Lemma sealed_stamp off ss b :
  (b ← run_stores ss b; stamp off b) = write_sealed (length b) off ss b.
Proof.
  unfold write_sealed. destruct (run_stores ss b) as [b1| | |] eqn:E; [|done..].
  apply run_stores_length in E. cbn [mbind result_bind]. rewrite <- E.
  unfold with_slice. rewrite slice_in by lia. cbn [mbind result_bind].
  rewrite Nat.sub_0_r, drop_0, take_ge by lia.
  destruct (stamp off b1) as [b2| | |] eqn:E2; [|done..]. cbn [mbind result_bind].
  apply stamp_length in E2. rewrite copy_into_in by lia. f_equal.
  rewrite (patch_0_take (length b1)) by done. rewrite drop_ge by done. by rewrite app_nil_r.
Qed.

(** The [k] bytes at [o] are clear of the checksum field. *)
Definition clear_of (off o k : nat) : bool := (o + k <=? off)%nat || (off + 4 <=? o)%nat.

Section Sealed.
Context {n off : nat} {ss : list store} {b b' : buf} (Hseal : sealed n off ss b b').

Lemma clear_of_slice o k : clear_of off o k = true ->
  slice b' o (o + k) = slice (patches ss b) o (o + k).
Proof.
  intros [H%Nat.leb_le|H%Nat.leb_le]%orb_prop; apply (sealed_slice _ _ _ _ _ Hseal); lia.
Qed.

Lemma sealed_verify_all : n = length b -> verify b' off = Ok true.
Proof.
  intros ->. pose proof (sealed_verify _ _ _ _ _ Hseal) as Hv.
  pose proof (sealed_length _ _ _ _ _ Hseal) as Hl. rewrite slice_in in Hv by lia.
  by rewrite Nat.sub_0_r, drop_0, take_ge in Hv by lia.
Qed.

Lemma sealed_bytes o k l :
  clear_of off o k = true -> find_store o k ss = Stored l -> slice b' o (o + k) = Ok l.
Proof.
  intros Hc Hf. rewrite clear_of_slice by done.
  apply slice_patches_stored; [apply Hseal | done].
Qed.

Lemma sealed_untouched o k :
  clear_of off o k = true -> find_store o k ss = Untouched ->
  slice b' o (o + k) = slice b o (o + k).
Proof.
  intros Hc Hf. rewrite clear_of_slice by done.
  apply slice_patches_untouched; [apply Hseal | done].
Qed.

Lemma sealed_apart lo k :
  (lo + k <= off \/ off + 4 <= lo)%nat -> Forall (apart lo (lo + k)) ss ->
  slice b' lo (lo + k) = slice b lo (lo + k).
Proof.
  intros Hd Ha. rewrite (sealed_slice _ _ _ _ _ Hseal) by done.
  apply slice_patches_apart; [apply Hseal | done].
Qed.

Lemma sealed_index o v :
  clear_of off o 1 = true -> find_store o 1 ss = Stored [byte.of_Z v] -> index b' o = Ok (u8 v).
Proof.
  intros Hc Hf. rewrite index_slice, (sealed_bytes o 1 _ Hc Hf). cbn. by rewrite of_be_bytes_1.
Qed.

Lemma sealed_be16 o v :
  clear_of off o 2 = true -> find_store o 2 ss = Stored (to_be_bytes 2 v) -> be16 b' o = Ok (u16 v).
Proof.
  intros Hc Hf. rewrite be16_slice, (sealed_bytes o 2 _ Hc Hf). cbn [fmap result_fmap].
  by rewrite of_be_bytes_mod.
Qed.

Lemma sealed_be32 o v :
  clear_of off o 4 = true -> find_store o 4 ss = Stored (to_be_bytes 4 v) -> be32 b' o = Ok (u32 v).
Proof.
  intros Hc Hf. unfold be32. rewrite (sealed_bytes o 4 _ Hc Hf). cbn [mbind result_bind].
  by rewrite of_be_bytes_mod.
Qed.

Lemma sealed_be64 o v :
  clear_of off o 8 = true -> find_store o 8 ss = Stored (to_be_bytes 8 v) -> be64 b' o = Ok (u64 v).
Proof.
  intros Hc Hf. unfold be64. rewrite (sealed_bytes o 8 _ Hc Hf). cbn [mbind result_bind].
  by rewrite of_be_bytes_mod.
Qed.
End Sealed.

(** Read a stored field of a sealed structure. *)
Ltac read_sealed Hseal :=
  match type of Hseal with
  | sealed _ _ _ _ ?b =>
      match goal with
      | |- context [be32 b ?o] => rewrite (sealed_be32 Hseal o _ eq_refl eq_refl)
      | |- context [be64 b ?o] => rewrite (sealed_be64 Hseal o _ eq_refl eq_refl)
      | |- context [be16 b ?o] => rewrite (sealed_be16 Hseal o _ eq_refl eq_refl)
      | |- context [index b ?o] => rewrite (sealed_index Hseal o _ eq_refl eq_refl)
      end
  end.

(** * Buffers assembled from pieces

    The head of an allocation group and the root inode chunk are zeroed
    buffers into which structures are written in order of their offsets:
    [built n hi ss] says that the pieces [ss] fill a buffer of [n] bytes in
    that order and end at [hi]. *)

Inductive built (n : nat) : nat -> list store -> Prop :=
| built_nil : built n 0 []
| built_snoc hi lo k x ss :
    built n hi ss -> (hi <= lo)%nat -> (lo + k <= n)%nat -> length x = k ->
    built n (lo + k) (ss ++ [PB lo k x]).

Section Built.
Context {n : nat}.

Lemma built_in hi ss : built n hi ss -> Forall (store_in n) ss.
Proof.
  induction 1 as [|hi lo k x ss _ IH Hlo Hk Hx]; [constructor|].
  apply Forall_app_2; [done|]. repeat constructor; cbn; lia.
Qed.

Lemma built_below hi ss : built n hi ss ->
  (hi <= n)%nat /\ Forall (fun s => store_off s + store_len s <= hi)%nat ss.
Proof.
  induction 1 as [|hi lo k x ss _ [Hn IH] Hlo Hk Hx]; [split; [lia | constructor]|].
  split; [done|]. apply Forall_app_2.
  - eapply List.Forall_impl; [|exact IH]. cbn. lia.
  - repeat constructor.
Qed.

Lemma built_apart hi ss lo k : built n hi ss -> (hi <= lo)%nat -> Forall (apart lo k) ss.
Proof.
  intros [_ H]%built_below Hlo. eapply List.Forall_impl; [|exact H]. cbn. unfold apart. lia.
Qed.

Lemma length_built hi ss : built n hi ss -> length (patches ss (zeroes n)) = n.
Proof.
  intros H%built_in. rewrite (proj2 (run_stores_in _ _ ltac:(by rewrite length_zeroes))).
  apply length_zeroes.
Qed.

Lemma slice_zeroes lo hi : (lo <= hi <= n)%nat -> slice (zeroes n) lo hi = Ok (zeroes (hi - lo)).
Proof.
  intros H. rewrite slice_in by (rewrite length_zeroes; lia). f_equal.
  unfold zeroes. rewrite drop_replicate, take_replicate. f_equal. lia.
Qed.

(** The room after the pieces is still zero. *)
Lemma built_room hi ss lo hi' : built n hi ss -> (hi <= lo)%nat -> (lo <= hi' <= n)%nat ->
  slice (patches ss (zeroes n)) lo hi' = Ok (zeroes (hi' - lo)).
Proof.
  intros H Hlo Hhi. rewrite slice_patches_apart.
  - by apply slice_zeroes.
  - rewrite length_zeroes. by eapply built_in.
  - by eapply built_apart.
Qed.

(** Every piece is where it was put. *)
Lemma built_slice hi ss lo k x : built n hi ss -> PB lo k x ∈ ss ->
  slice (patches ss (zeroes n)) lo (lo + k) = Ok x.
Proof.
  induction 1 as [|hi lo' k' x' ss Hb IH Hlo Hk Hx]; intros Hin;
    [by inversion Hin|].
  unfold patches. rewrite foldl_app. fold (patches ss (zeroes n)). cbn [foldl store_off store_bytes].
  pose proof (length_built _ _ Hb) as L.
  apply elem_of_app in Hin as [Hin|Hin%list_elem_of_singleton].
  - rewrite slice_patch_other; [by apply IH | rewrite L; lia |].
    pose proof (proj2 (built_below _ _ Hb)) as Hbel. rewrite Forall_forall in Hbel.
    apply list_elem_of_In, Hbel in Hin. cbn in Hin. lia.
  - injection Hin as -> -> ->. apply slice_patch_same; lia.
Qed.

(** Writing the next structure, in place or copied in. *)
Lemma built_with_slice hi ss lo hi' f x :
  built n hi ss -> (hi <= lo)%nat -> (lo <= hi' <= n)%nat ->
  f (zeroes (hi' - lo)) = Ok x -> length x = (hi' - lo)%nat ->
  with_slice lo hi' f (patches ss (zeroes n)) =
    Ok (patches (ss ++ [PB lo (hi' - lo) x]) (zeroes n)) /\
  built n hi' (ss ++ [PB lo (hi' - lo) x]).
Proof.
  intros Hb Hlo Hhi Hf Hx. split.
  - unfold with_slice. rewrite (built_room hi) by done. cbn [mbind result_bind].
    rewrite Hf. cbn [mbind result_bind]. pose proof (length_built _ _ Hb).
    rewrite copy_into_in by lia. unfold patches. by rewrite foldl_app.
  - replace hi' with (lo + (hi' - lo))%nat at 1 by lia. by apply (built_snoc n hi); [|lia..].
Qed.

Lemma built_copy hi ss lo hi' x :
  built n hi ss -> (hi <= lo)%nat -> (lo <= hi' <= n)%nat -> length x = (hi' - lo)%nat ->
  copy_into lo hi' x (patches ss (zeroes n)) =
    Ok (patches (ss ++ [PB lo (hi' - lo) x]) (zeroes n)) /\
  built n hi' (ss ++ [PB lo (hi' - lo) x]).
Proof.
  intros Hb Hlo Hhi Hx. split.
  - pose proof (length_built _ _ Hb). rewrite copy_into_in by lia. unfold patches.
    by rewrite foldl_app.
  - replace hi' with (lo + (hi' - lo))%nat at 1 by lia. by apply (built_snoc n hi); [|lia..].
Qed.
End Built.

(** * Encoding over old contents

    An encoder leaves the same bytes in two buffers that agree outside its
    fields and its checksum. *)

Definition covers_at (i : nat) (s : store) : Prop :=
  (store_off s <= i < store_off s + store_len s)%nat.

Lemma patches_agree ss b1 b2 i :
  Forall (store_in (length b1)) ss -> length b1 = length b2 ->
  (b1 !! i = b2 !! i \/ Exists (covers_at i) ss) -> patches ss b1 !! i = patches ss b2 !! i.
Proof.
  revert b1 b2. induction ss as [|s ss IH]; intros b1 b2 Hin Hl Hi.
  - destruct Hi as [Hi|Hi]; [done | by inversion Hi].
  - inversion_clear Hin as [|? ? [H1 H2] Hss]. cbn [patches foldl].
    fold (patches ss (patch (store_off s) (store_bytes s) b1)).
    fold (patches ss (patch (store_off s) (store_bytes s) b2)).
    apply IH; [rewrite length_patch by lia; done | rewrite !length_patch by lia; done |].
    rewrite !lookup_patch by lia. rewrite H2.
    destruct (decide _) as [Hc|Hc]; [by left|].
    destruct Hi as [Hi|Hi]; [by left|].
    inversion Hi as [? ? Hh|? ? Ht]; subst; [unfold covers_at in Hh; lia | by right].
Qed.

Lemma cksum_of_agree off b1 b2 :
  length b1 = length b2 ->
  (forall i, ~ (off <= i < off + 4)%nat -> b1 !! i = b2 !! i) -> cksum_of b1 off = cksum_of b2 off.
Proof.
  intros Hl Hi. unfold cksum_of.
  assert (take off b1 = take off b2) as ->.
  { apply list_eq. intros i. destruct (decide (i < off)%nat).
    - rewrite !lookup_take_lt by done. apply Hi. lia.
    - by rewrite !lookup_take_ge by lia. }
  assert (drop (off + 4) b1 = drop (off + 4) b2) as ->; [|done].
  apply list_eq. intros i. rewrite !lookup_drop. apply Hi. lia.
Qed.

Lemma write_sealed_agree off ss b1 b2 :
  (off + 4 <= length b1)%nat -> length b1 = length b2 -> Forall (store_in (length b1)) ss ->
  (forall i, (off <= i < off + 4)%nat \/ Exists (covers_at i) ss \/ b1 !! i = b2 !! i) ->
  write_sealed (length b1) off ss b1 = write_sealed (length b2) off ss b2.
Proof.
  intros Ho Hl Hin Hi. unfold write_sealed.
  pose proof Hin as Hin2. rewrite Hl in Hin2.
  destruct (run_stores_in _ _ Hin) as [-> L1]. destruct (run_stores_in _ _ Hin2) as [-> L2].
  cbn [mbind result_bind].
  assert (forall i, ~ (off <= i < off + 4)%nat -> patches ss b1 !! i = patches ss b2 !! i) as Ha.
  { intros i Hn. apply patches_agree; [done..|]. destruct (Hi i) as [?|[?|?]]; [lia | by right | by left]. }
  rewrite !with_slice_stamp by lia. rewrite !take_ge by lia.
  rewrite (cksum_of_agree off (patches ss b1) (patches ss b2)) by (done || lia).
  set (v := to_le_bytes 4 _). assert (length v = 4%nat) as Hv by apply length_to_le_bytes.
  f_equal. apply list_eq. intros i. rewrite !lookup_patch by lia. rewrite Hv.
  case_decide; [done|]. by apply Ha.
Qed.
