(* ===== verification/Superblock.v ===== *)
(** [src/src/structs/sb.rs]: the superblock, [struct xfs_dsb].

    The offsets and feature bits, the feature words built from a geometry,
    and [encode].  [Inspect.v] proves that the superblock's reader gets the
    geometry back. *)

From Stdlib Require Import ZArith Lia.
From stdpp Require Import base tactics list numbers.
From coqutil Require Import Byte Word.LittleEndianList.
From S2P Require Import Prelude Bytes Crc Geometry Structs.

(** "XFSB". *)
Definition MAGIC : Z := 0x58465342.

(** Field offsets in [struct xfs_dsb]. *)
Module off.
Definition MAGICNUM : nat := 0.
Definition BLOCKSIZE : nat := 4.
Definition DBLOCKS : nat := 8.
Definition RBLOCKS : nat := 16.
Definition REXTENTS : nat := 24.
Definition UUID : nat := 32.
Definition LOGSTART : nat := 48.
Definition ROOTINO : nat := 56.
Definition RBMINO : nat := 64.
Definition RSUMINO : nat := 72.
Definition REXTSIZE : nat := 80.
Definition AGBLOCKS : nat := 84.
Definition AGCOUNT : nat := 88.
Definition RBMBLOCKS : nat := 92.
Definition LOGBLOCKS : nat := 96.
Definition VERSIONNUM : nat := 100.
Definition SECTSIZE : nat := 102.
Definition INODESIZE : nat := 104.
Definition INOPBLOCK : nat := 106.
Definition FNAME : nat := 108.
Definition BLOCKLOG : nat := 120.
Definition SECTLOG : nat := 121.
Definition INODELOG : nat := 122.
Definition INOPBLOG : nat := 123.
Definition AGBLKLOG : nat := 124.
Definition REXTSLOG : nat := 125.
Definition INPROGRESS : nat := 126.
Definition IMAX_PCT : nat := 127.
Definition ICOUNT : nat := 128.
Definition IFREE : nat := 136.
Definition FDBLOCKS : nat := 144.
Definition FREXTENTS : nat := 152.
Definition UQUOTINO : nat := 160.
Definition GQUOTINO : nat := 168.
Definition QFLAGS : nat := 176.
Definition FLAGS : nat := 178.
Definition SHARED_VN : nat := 179.
Definition INOALIGNMT : nat := 180.
Definition UNIT : nat := 184.
Definition WIDTH : nat := 188.
Definition DIRBLKLOG : nat := 192.
Definition LOGSECTLOG : nat := 193.
Definition LOGSECTSIZE : nat := 194.
Definition LOGSUNIT : nat := 196.
Definition FEATURES2 : nat := 200.
Definition BAD_FEATURES2 : nat := 204.
Definition FEATURES_COMPAT : nat := 208.
Definition FEATURES_RO_COMPAT : nat := 212.
Definition FEATURES_INCOMPAT : nat := 216.
Definition FEATURES_LOG_INCOMPAT : nat := 220.
Definition CRC : nat := 224.
Definition SPINO_ALIGN : nat := 228.
Definition PQUOTINO : nat := 232.
Definition LSN : nat := 240.
Definition META_UUID : nat := 248.
Definition END : nat := 264.
End off.

(** [sb_versionnum], [sb_features2], [sb_features_ro_compat] and
    [sb_features_incompat] bits. *)
Module version.
Definition V5 : Z := 5.
Definition ATTRBIT : Z := 0x10.
Definition NLINKBIT : Z := 0x20.
Definition ALIGNBIT : Z := 0x80.
Definition DALIGNBIT : Z := 0x100.
Definition LOGV2BIT : Z := 0x400.
Definition SECTORBIT : Z := 0x800.
Definition EXTFLGBIT : Z := 0x1000.
Definition DIRV2BIT : Z := 0x2000.
Definition MOREBITSBIT : Z := 0x8000.
Definition F2_LAZYSBCOUNT : Z := 0x2.
Definition F2_ATTR2 : Z := 0x8.
Definition F2_PROJID32 : Z := 0x80.
Definition F2_CRC : Z := 0x100.
Definition RO_FINOBT : Z := 0x1.
Definition RO_RMAPBT : Z := 0x2.
Definition RO_REFLINK : Z := 0x4.
Definition RO_INOBTCNT : Z := 0x8.
Definition IN_FTYPE : Z := 0x1.
Definition IN_SPINODES : Z := 0x2.
Definition IN_META_UUID : Z := 0x4.
Definition IN_BIGTIME : Z := 0x8.
Definition IN_NEEDSREPAIR : Z := 0x10.
Definition IN_NREXT64 : Z := 0x20.
End version.

Record SbState : Type := mkSbState {
  uuid : buf;
  s_rootino : Z;
  s_rbmino : Z;
  s_rsumino : Z;
  icount : Z;
  ifree : Z;
  fdblocks : Z;
  inprogress : bool;
}.

(** * Feature words *)

Definition or_if (c : bool) (bit r : Z) : Z := if c then Z.lor r bit else r.

(** Whether the sector fields past the 512-byte default are written. *)
Definition big_sectors (g : Geometry) : bool := (512 <? sectsize g) || (512 <? lsectsize g).

Definition versionnum (g : Geometry) : Z :=
  let v := Z.lor (Z.lor (Z.lor version.V5 version.NLINKBIT) version.EXTFLGBIT)
             version.DIRV2BIT in
  let v := Z.lor v (Z.lor version.ALIGNBIT version.LOGV2BIT) in
  let v := or_if (big_sectors g) version.SECTORBIT v in
  Z.lor v version.MOREBITSBIT.

Definition features2 (_g : Geometry) : Z :=
  Z.lor (Z.lor (Z.lor version.F2_LAZYSBCOUNT version.F2_PROJID32) version.F2_CRC)
    version.F2_ATTR2.

Definition ro_compat (g : Geometry) : Z :=
  let f := features g in
  let r := 0 in
  let r := or_if (finobt f) version.RO_FINOBT r in
  let r := or_if (rmapbt f) version.RO_RMAPBT r in
  let r := or_if (reflink f) version.RO_REFLINK r in
  or_if (inobtcount f) version.RO_INOBTCNT r.

Definition incompat (g : Geometry) : Z :=
  let f := features g in
  let r := version.IN_FTYPE in
  let r := or_if (bigtime f) version.IN_BIGTIME r in
  let r := or_if (sparse f) version.IN_SPINODES r in
  or_if (nrext64 f) version.IN_NREXT64 r.

(** * [encode] *)

(** The stores before, inside and after the conditional log sector fields. *)
Definition head_fields (g : Geometry) (s : SbState) : list store :=
  [ P32 off.MAGICNUM MAGIC;
    P32 off.BLOCKSIZE (blocksize g);
    P64 off.DBLOCKS (dblocks g);
    P64 off.RBLOCKS 0;
    P64 off.REXTENTS 0;
    PB off.UUID 16 (uuid s);
    P64 off.LOGSTART (logstart g);
    P64 off.ROOTINO (s_rootino s);
    P64 off.RBMINO (s_rbmino s);
    P64 off.RSUMINO (s_rsumino s);
    P32 off.REXTSIZE (rextsize g);
    P32 off.AGBLOCKS (u32 (agsize g));
    P32 off.AGCOUNT (u32 (agcount g));
    P32 off.RBMBLOCKS 0;
    P32 off.LOGBLOCKS (u32 (logblocks g));
    P16 off.VERSIONNUM (versionnum g);
    P16 off.SECTSIZE (u16 (sectsize g));
    P16 off.INODESIZE (u16 (inodesize g));
    P16 off.INOPBLOCK (u16 (inopblock g));
    PB off.FNAME 12 (label g);
    P8 off.BLOCKLOG (blocklog g);
    P8 off.SECTLOG (sectlog g);
    P8 off.INODELOG (inodelog g);
    P8 off.INOPBLOG (inopblog g);
    P8 off.AGBLKLOG (agblklog g);
    P8 off.REXTSLOG 0;
    P8 off.INPROGRESS (Z.b2z (inprogress s));
    P8 off.IMAX_PCT (imaxpct g);
    P64 off.ICOUNT (icount s);
    P64 off.IFREE (ifree s);
    P64 off.FDBLOCKS (fdblocks s);
    P64 off.FREXTENTS 0;
    P64 off.UQUOTINO 0;
    P64 off.GQUOTINO 0;
    P32 off.INOALIGNMT (u32 (inoalignmt g));
    P32 off.UNIT 0;
    P32 off.WIDTH 0;
    P8 off.DIRBLKLOG (u8 (dirblocklog g - blocklog g)) ].

Definition log_sector_fields (g : Geometry) : list store :=
  if big_sectors g
  then [ P8 off.LOGSECTLOG (lsectlog g); P16 off.LOGSECTSIZE (u16 (lsectsize g)) ]
  else [].

Definition tail_fields (g : Geometry) : list store :=
  [ P32 off.LOGSUNIT (logsunit g);
    P32 off.FEATURES2 (features2 g);
    P32 off.BAD_FEATURES2 (features2 g);
    P32 off.FEATURES_COMPAT 0;
    P32 off.FEATURES_RO_COMPAT (ro_compat g);
    P32 off.FEATURES_INCOMPAT (incompat g);
    P32 off.FEATURES_LOG_INCOMPAT 0;
    P32 off.SPINO_ALIGN (spino_align g);
    P64 off.PQUOTINO 0;
    P64 off.LSN 0 ].

Definition fields (g : Geometry) (s : SbState) : list store :=
  head_fields g s ++ log_sector_fields g ++ tail_fields g.

Definition encode (g : Geometry) (s : SbState) (sector : buf) : result buf :=
  b ← run_stores (fields g s) sector;
  with_slice 0 (Z.to_nat (sectsize g)) (stamp off.CRC) b.

(** * Lemmas *)

Lemma encode_sealed g s b :
  (264 <= length b)%nat -> (264 <= Z.to_nat (sectsize g) <= length b)%nat ->
  length (uuid s) = 16%nat -> length (label g) = 12%nat ->
  exists b', encode g s b = Ok b' /\
    sealed (Z.to_nat (sectsize g)) off.CRC (fields g s) b b'.
Proof.
  intros Hb Hs Hu Hl. apply write_sealed_ok; [unfold off.CRC; lia | lia |].
  apply (stores_in 264); [|done|].
  - unfold fields, log_sector_fields. by destruct (big_sectors g).
  - unfold fields, log_sector_fields. destruct (big_sectors g); repeat constructor; done.
Qed.

Lemma versionnum_range g : 0 <= versionnum g < 2 ^ 16 /\ Z.land (versionnum g) 0xf = 5.
Proof. unfold versionnum. destruct (big_sectors g); vm_compute; done. Qed.

Lemma ro_compat_range g : 0 <= ro_compat g < 2 ^ 32.
Proof.
  unfold ro_compat. destruct (features g) as [[] [] [] [] ? ? ?]; vm_compute; done.
Qed.

Lemma incompat_range g : 0 <= incompat g < 2 ^ 32.
Proof.
  unfold incompat. destruct (features g) as [? ? ? ? [] [] []]; vm_compute; done.
Qed.
