(* ===== verification/AgHeaders.v ===== *)
(** [src/src/structs/ag.rs]: the allocation group headers, [struct xfs_agf],
    [struct xfs_agi] and [struct xfs_agfl].

    Each record's [encode], and for each the theorem that every field reads
    back from the sector at the offset the readers use, under a checksum that
    verifies. *)

From Stdlib Require Import ZArith Lia.
From stdpp Require Import base tactics list numbers.
From coqutil Require Import Byte Word.LittleEndianList.
From S2P Require Import Prelude Bytes Crc Structs.

(** "XAGF", "XAGI", "XAFL". *)
Definition AGF_MAGIC : Z := 0x58414746.
Definition AGI_MAGIC : Z := 0x58414749.
Definition AGFL_MAGIC : Z := 0x5841464c.
Definition AG_VERSION : Z := 1.
Definition UNLINKED_BUCKETS : nat := 64.

(** Field offsets in [struct xfs_agf]. *)
Module agf.
Definition MAGICNUM : nat := 0.
Definition VERSIONNUM : nat := 4.
Definition SEQNO : nat := 8.
Definition LENGTH : nat := 12.
Definition BNO_ROOT : nat := 16.
Definition CNT_ROOT : nat := 20.
Definition RMAP_ROOT : nat := 24.
Definition BNO_LEVEL : nat := 28.
Definition CNT_LEVEL : nat := 32.
Definition RMAP_LEVEL : nat := 36.
Definition FLFIRST : nat := 40.
Definition FLLAST : nat := 44.
Definition FLCOUNT : nat := 48.
Definition FREEBLKS : nat := 52.
Definition LONGEST : nat := 56.
Definition BTREEBLKS : nat := 60.
Definition UUID : nat := 64.
Definition RMAP_BLOCKS : nat := 80.
Definition REFCOUNT_BLOCKS : nat := 84.
Definition REFCOUNT_ROOT : nat := 88.
Definition REFCOUNT_LEVEL : nat := 92.
Definition LSN : nat := 208.
Definition CRC : nat := 216.
Definition END : nat := 224.
End agf.

(** Field offsets in [struct xfs_agi]. *)
Module agi.
Definition MAGICNUM : nat := 0.
Definition VERSIONNUM : nat := 4.
Definition SEQNO : nat := 8.
Definition LENGTH : nat := 12.
Definition COUNT : nat := 16.
Definition ROOT : nat := 20.
Definition LEVEL : nat := 24.
Definition FREECOUNT : nat := 28.
Definition NEWINO : nat := 32.
Definition DIRINO : nat := 36.
Definition UNLINKED : nat := 40.
Definition UUID : nat := 296.
Definition CRC : nat := 312.
Definition LSN : nat := 320.
Definition FREE_ROOT : nat := 328.
Definition FREE_LEVEL : nat := 332.
Definition IBLOCKS : nat := 336.
Definition FBLOCKS : nat := 340.
Definition END : nat := 344.
End agi.

(** Field offsets in [struct xfs_agfl]; the free list follows the header. *)
Module agfl.
Definition MAGICNUM : nat := 0.
Definition SEQNO : nat := 4.
Definition UUID : nat := 8.
Definition LSN : nat := 24.
Definition CRC : nat := 32.
Definition BNO : nat := 36.
End agfl.

(** * Data *)

Record Agf : Type := mkAgf {
  f_seqno : Z;
  f_length : Z;
  bno_root : Z;
  bno_level : Z;
  cnt_root : Z;
  cnt_level : Z;
  rmap_root : Z;
  rmap_level : Z;
  rmap_blocks : Z;
  refcount_root : Z;
  refcount_level : Z;
  refcount_blocks : Z;
  flfirst : Z;
  fllast : Z;
  flcount : Z;
  freeblks : Z;
  longest : Z;
  btreeblks : Z;
}.

Record Agi : Type := mkAgi {
  i_seqno : Z;
  i_length : Z;
  count : Z;
  root : Z;
  level : Z;
  freecount : Z;
  newino : Z;
  free_root : Z;
  free_level : Z;
  iblocks : Z;
  fblocks : Z;
}.

(** * Encoders *)

(** [crc::stamp(&mut b[..len], CRC)] with [len = b.len()]. *)
Definition stamp_all (off : nat) (b : buf) : result buf := with_slice 0 (length b) (stamp off) b.

Definition Agf_fields (a : Agf) (uuid : buf) : list store :=
  [ P32 agf.MAGICNUM AGF_MAGIC;
    P32 agf.VERSIONNUM AG_VERSION;
    P32 agf.SEQNO (f_seqno a);
    P32 agf.LENGTH (f_length a);
    P32 agf.BNO_ROOT (bno_root a);
    P32 agf.CNT_ROOT (cnt_root a);
    P32 agf.RMAP_ROOT (rmap_root a);
    P32 agf.BNO_LEVEL (bno_level a);
    P32 agf.CNT_LEVEL (cnt_level a);
    P32 agf.RMAP_LEVEL (rmap_level a);
    P32 agf.FLFIRST (flfirst a);
    P32 agf.FLLAST (fllast a);
    P32 agf.FLCOUNT (flcount a);
    P32 agf.FREEBLKS (freeblks a);
    P32 agf.LONGEST (longest a);
    P32 agf.BTREEBLKS (btreeblks a);
    PB agf.UUID 16 uuid;
    P32 agf.RMAP_BLOCKS (rmap_blocks a);
    P32 agf.REFCOUNT_BLOCKS (refcount_blocks a);
    P32 agf.REFCOUNT_ROOT (refcount_root a);
    P32 agf.REFCOUNT_LEVEL (refcount_level a);
    P64 agf.LSN 0 ].

Definition Agf_encode (a : Agf) (uuid sector : buf) : result buf :=
  b ← run_stores (Agf_fields a uuid) sector; stamp_all agf.CRC b.

Definition Agi_fields (a : Agi) (uuid : buf) : list store :=
  [ P32 agi.MAGICNUM AGI_MAGIC;
    P32 agi.VERSIONNUM AG_VERSION;
    P32 agi.SEQNO (i_seqno a);
    P32 agi.LENGTH (i_length a);
    P32 agi.COUNT (count a);
    P32 agi.ROOT (root a);
    P32 agi.LEVEL (level a);
    P32 agi.FREECOUNT (freecount a);
    P32 agi.NEWINO (newino a);
    P32 agi.DIRINO NULL32 ] ++
  ((fun i => P32 (agi.UNLINKED + 4 * i) NULL32) <$> seq 0 UNLINKED_BUCKETS) ++
  [ PB agi.UUID 16 uuid;
    P64 agi.LSN 0;
    P32 agi.FREE_ROOT (free_root a);
    P32 agi.FREE_LEVEL (free_level a);
    P32 agi.IBLOCKS (iblocks a);
    P32 agi.FBLOCKS (fblocks a) ].

Definition Agi_encode (a : Agi) (uuid sector : buf) : result buf :=
  b ← run_stores (Agi_fields a uuid) sector; stamp_all agi.CRC b.

(** The header, then [NULLAGBLOCK] in every slot, then the list in slots
    [first], [first + 1], ... around the end. *)
Definition agfl_slots (b : buf) : result nat :=
  if (length b <? agfl.BNO)%nat then Panic else Ok ((length b - agfl.BNO) / 4)%nat.

Definition agfl_header (seqno : Z) (uuid : buf) : list store :=
  [ P32 agfl.MAGICNUM AGFL_MAGIC;
    P32 agfl.SEQNO seqno;
    PB agfl.UUID 16 uuid;
    P64 agfl.LSN 0 ].

Definition agfl_clear (slots : nat) : list store :=
  (fun i => P32 (agfl.BNO + 4 * i) NULL32) <$> seq 0 slots.

(** [(first as usize + i) % slots]; the remainder panics on a sector with
    no slot. *)
Definition agfl_put (first slots : nat) (b : buf) (ib : nat * Z) : result buf :=
  if (slots =? 0)%nat then Panic
  else put32 b (agfl.BNO + 4 * ((first + fst ib) mod slots)) (snd ib).

Definition enumerate {A} (l : list A) : list (nat * A) := zip (seq 0 (length l)) l.

Definition encode_agfl (seqno : Z) (uuid : buf) (first : Z) (bnos : list Z) (sector : buf)
    : result buf :=
  b ← run_stores (agfl_header seqno uuid) sector;
  slots ← agfl_slots b;
  b ← run_stores (agfl_clear slots) b;
  b ← fold_result (agfl_put (Z.to_nat first) slots) b (enumerate bnos);
  stamp_all agfl.CRC b.

(** * Lemmas *)

Lemma stamp_all_sealed off ss b :
  (b ← run_stores ss b; stamp_all off b) = write_sealed (length b) off ss b.
Proof.
  unfold write_sealed, stamp_all. destruct (run_stores ss b) eqn:E; [|done..].
  cbn [mbind result_bind]. by rewrite (run_stores_length _ _ _ E).
Qed.

Lemma Agf_encode_sealed a uuid b :
  (224 <= length b)%nat -> length uuid = 16%nat ->
  exists b', Agf_encode a uuid b = Ok b' /\ sealed (length b) agf.CRC (Agf_fields a uuid) b b'.
Proof.
  intros Hb Hu. unfold Agf_encode. rewrite stamp_all_sealed.
  apply write_sealed_ok; [unfold agf.CRC; lia | lia |].
  apply (stores_in 224); [reflexivity | done | repeat constructor; done].
Qed.

Lemma Agi_encode_sealed a uuid b :
  (344 <= length b)%nat -> length uuid = 16%nat ->
  exists b', Agi_encode a uuid b = Ok b' /\ sealed (length b) agi.CRC (Agi_fields a uuid) b b'.
Proof.
  intros Hb Hu. unfold Agi_encode. rewrite stamp_all_sealed.
  apply write_sealed_ok; [unfold agi.CRC; lia | lia |].
  apply (stores_in 344); [reflexivity | done | repeat constructor; done].
Qed.

(** ** The slots of a free list *)

Definition slot_at (j : nat) : nat := agfl.BNO + 4 * j.

Lemma put32_in b off v : (off + 4 <= length b)%nat ->
  put32 b off v = Ok (patch off (to_be_bytes 4 v) b) /\
  length (patch off (to_be_bytes 4 v) b) = length b.
Proof.
  intros H. split; [apply copy_into_in | apply length_patch]; rewrite ?length_to_be_bytes; lia.
Qed.

(** Everything but the slots from [k] on is as it was. *)
Definition same_but_slots (k n : nat) (b b' : buf) : Prop :=
  length b' = length b /\
  forall lo hi, (hi <= slot_at k \/ slot_at (k + n) <= lo)%nat -> slice b' lo hi = slice b lo hi.

Lemma clear_slots n k b :
  (slot_at (k + n) <= length b)%nat ->
  exists b', run_stores ((fun i => P32 (slot_at i) NULL32) <$> seq k n) b = Ok b' /\
    same_but_slots k n b b' /\
    forall j, (k <= j < k + n)%nat ->
      slice b' (slot_at j) (slot_at j + 4) = Ok (to_be_bytes 4 NULL32).
Proof.
  revert k b. unfold slot_at. induction n as [|n IH]; intros k b Hb; cbn [seq fmap list_fmap].
  - exists b. split_and!; [done..|]. intros; lia.
  - destruct (put32_in b (agfl.BNO + 4 * k) NULL32) as [Hp Hl]; [lia|].
    unfold run_stores. cbn [fold_result run_store]. rewrite Hp. cbn [mbind result_bind].
    destruct (IH (S k) (patch (agfl.BNO + 4 * k) (to_be_bytes 4 NULL32) b))
      as (b' & Hr & [Hl' Hs] & Hj); [rewrite Hl; lia|].
    exists b'. unfold slot_at in *. split_and!; [done | split; [lia|] |].
    + intros lo hi Hd. unfold slot_at in Hd. rewrite Hs by lia.
      apply slice_patch_other; rewrite length_to_be_bytes; lia.
    + intros j Hjk. destruct (decide (j = k)) as [->|]; [|apply Hj; lia].
      rewrite Hs by lia. apply slice_patch_same; rewrite ?length_to_be_bytes; lia.
Qed.

(** The position in the list of the slot [j], the list starting at slot
    [first] and going round. *)
Definition slot_pos (first slots j : nat) : nat := ((j + slots - first) mod slots)%nat.

Lemma slot_pos_inv first slots i j :
  (first < slots)%nat -> (i < slots)%nat -> (j < slots)%nat ->
  ((first + i) mod slots)%nat = j <-> slot_pos first slots j = i.
Proof.
  intros Hf Hi Hj. unfold slot_pos.
  destruct (decide (first + i < slots)%nat), (decide (j < first)%nat).
  - rewrite !Nat.mod_small by lia. lia.
  - rewrite (Nat.mod_small (first + i)) by lia.
    replace (j + slots - first)%nat with (j - first + 1 * slots)%nat by lia.
    rewrite Nat.Div0.mod_add, Nat.mod_small by lia. lia.
  - replace (first + i)%nat with (first + i - slots + 1 * slots)%nat by lia.
    rewrite Nat.Div0.mod_add, !Nat.mod_small by lia. lia.
  - replace (first + i)%nat with (first + i - slots + 1 * slots)%nat by lia.
    replace (j + slots - first)%nat with (j - first + 1 * slots)%nat by lia.
    rewrite !Nat.Div0.mod_add, !Nat.mod_small by lia. lia.
Qed.

Lemma slot_pos_lt first slots j : (0 < slots)%nat -> (slot_pos first slots j < slots)%nat.
Proof. intros. apply Nat.mod_upper_bound. lia. Qed.

Lemma agfl_put_at first slots b k v : (0 < slots)%nat ->
  agfl_put first slots b (k, v) = put32 b (slot_at ((first + k) mod slots)) v.
Proof. intros H. unfold agfl_put. by destruct (Nat.eqb_spec slots 0); [lia|]. Qed.

Lemma put_slots first slots l k b :
  (first < slots)%nat -> (k + length l <= slots)%nat -> (slot_at slots <= length b)%nat ->
  exists b', fold_result (agfl_put first slots) b (zip (seq k (length l)) l) = Ok b' /\
    same_but_slots 0 slots b b' /\
    forall j, (j < slots)%nat ->
      slice b' (slot_at j) (slot_at j + 4) =
      match (if k <=? slot_pos first slots j then l !! (slot_pos first slots j - k) else None)%nat
      with Some v => Ok (to_be_bytes 4 v) | None => slice b (slot_at j) (slot_at j + 4) end.
Proof.
  intros Hf. revert k b. induction l as [|v l IH]; intros k b Hk Hb; cbn [length seq zip_with].
  - exists b. split_and!; [done..|]. intros j Hj. by destruct (_ <=? _)%nat.
  - cbn [length] in Hk. unfold slot_at in Hb.
    set (t := ((first + k) mod slots)%nat).
    assert (t < slots)%nat as Ht by (apply Nat.mod_upper_bound; lia).
    destruct (put32_in b (slot_at t) v) as [Hp Hl]; [unfold slot_at; lia|].
    cbn [fold_result]. rewrite agfl_put_at by lia. fold t. rewrite Hp. cbn [mbind result_bind].
    destruct (IH (S k) (patch (slot_at t) (to_be_bytes 4 v) b)) as (b' & Hr & [Hl' Hs] & Hj);
      [lia | rewrite Hl; unfold slot_at; lia |].
    exists b'. split_and!; [done | split; [lia|] |].
    + intros lo hi Hd. rewrite Hs by done. unfold slot_at in *.
      apply slice_patch_other; rewrite length_to_be_bytes; lia.
    + intros j Hjs. rewrite Hj by done. clear Hj Hs IH.
      pose proof (slot_pos_inv first slots k j Hf ltac:(lia) Hjs) as Hinv. fold t in Hinv.
      set (p := slot_pos first slots j) in *.
      destruct (Nat.leb_spec (S k) p), (Nat.leb_spec k p); try lia.
      * replace (p - k)%nat with (S (p - S k)) by lia. cbn [lookup list_lookup].
        destruct (l !! (p - S k)%nat); [done|].
        assert (t <> j) by (intros E%Hinv; lia).
        apply slice_patch_other; rewrite length_to_be_bytes; unfold slot_at in *; lia.
      * replace (p - k)%nat with 0%nat by lia. cbn [lookup list_lookup].
        assert (t = j) as E by (apply Hinv; lia). rewrite <- E.
        apply slice_patch_same; rewrite ?length_to_be_bytes; unfold slot_at in *; lia.
      * assert (t <> j) by (intros E%Hinv; lia).
        apply slice_patch_other; rewrite length_to_be_bytes; unfold slot_at in *; lia.
Qed.

Lemma slots_of_length n : (agfl.BNO <= n)%nat -> (slot_at ((n - agfl.BNO) / 4) <= n)%nat.
Proof.
  intros H. unfold slot_at. pose proof (Nat.div_mod (n - agfl.BNO) 4 ltac:(lia)). lia.
Qed.

(** * Properties *)

(** A [u32] field's value. *)
Definition is_u32 (v : Z) : Prop := 0 <= v < 2 ^ 32.

Definition Agf_ok (a : Agf) : Prop :=
  Forall is_u32 [f_seqno a; f_length a; bno_root a; bno_level a; cnt_root a; cnt_level a;
    rmap_root a; rmap_level a; rmap_blocks a; refcount_root a; refcount_level a;
    refcount_blocks a; flfirst a; fllast a; flcount a; freeblks a; longest a; btreeblks a].

Definition Agi_ok (a : Agi) : Prop :=
  Forall is_u32 [i_seqno a; i_length a; count a; root a; level a; freecount a; newino a;
    free_root a; free_level a; iblocks a; fblocks a].

(** The fields of a sector, read where [inspect.rs] reads them. *)
Definition Agf_read (b : buf) : result Agf :=
  seqno ← be32 b agf.SEQNO; len ← be32 b agf.LENGTH;
  br ← be32 b agf.BNO_ROOT; bl ← be32 b agf.BNO_LEVEL;
  cr ← be32 b agf.CNT_ROOT; cl ← be32 b agf.CNT_LEVEL;
  rr ← be32 b agf.RMAP_ROOT; rl ← be32 b agf.RMAP_LEVEL; rb ← be32 b agf.RMAP_BLOCKS;
  fr ← be32 b agf.REFCOUNT_ROOT; fl ← be32 b agf.REFCOUNT_LEVEL;
  fb ← be32 b agf.REFCOUNT_BLOCKS;
  ff ← be32 b agf.FLFIRST; fla ← be32 b agf.FLLAST; fc ← be32 b agf.FLCOUNT;
  fre ← be32 b agf.FREEBLKS; lo ← be32 b agf.LONGEST; bt ← be32 b agf.BTREEBLKS;
  Ok (mkAgf seqno len br bl cr cl rr rl rb fr fl fb ff fla fc fre lo bt).

Definition Agi_read (b : buf) : result Agi :=
  seqno ← be32 b agi.SEQNO; len ← be32 b agi.LENGTH; c ← be32 b agi.COUNT;
  r ← be32 b agi.ROOT; l ← be32 b agi.LEVEL; fc ← be32 b agi.FREECOUNT;
  ni ← be32 b agi.NEWINO; fr ← be32 b agi.FREE_ROOT; fl ← be32 b agi.FREE_LEVEL;
  ib ← be32 b agi.IBLOCKS; fb ← be32 b agi.FBLOCKS;
  Ok (mkAgi seqno len c r l fc ni fr fl ib fb).

Ltac split_Forall H := repeat (apply Forall_cons_1 in H as [? H]).
Ltac read_record S :=
  repeat (read_sealed S; cbn [mbind result_bind]);
  rewrite ?u32_id by (assumption || done).

(** What the formatter relies on: the encoders fill a zeroed sector, verify
    and read back. *)
Lemma Agf_sealed_read a uuid n b b' :
  Agf_ok a -> sealed n agf.CRC (Agf_fields a uuid) b b' -> Agf_read b' = Ok a.
Proof.
  intros Ha S. unfold Agf_ok in Ha. split_Forall Ha. unfold Agf_read. read_record S.
  by destruct a.
Qed.

Lemma Agi_sealed_read a uuid n b b' :
  Agi_ok a -> sealed n agi.CRC (Agi_fields a uuid) b b' -> Agi_read b' = Ok a.
Proof.
  intros Ha S. unfold Agi_ok in Ha. split_Forall Ha. unfold Agi_read. read_record S.
  by destruct a.
Qed.

Lemma Agf_encode_reads a uuid b :
  (224 <= length b)%nat -> length uuid = 16%nat -> Agf_ok a ->
  exists b', Agf_encode a uuid b = Ok b' /\ length b' = length b /\
    verify b' agf.CRC = Ok true /\ Agf_read b' = Ok a.
Proof.
  intros Hb Hu Ha. destruct (Agf_encode_sealed a uuid b Hb Hu) as (b' & He & S).
  exists b'. split_and!; [done | apply S | by apply (sealed_verify_all S) |].
  by eapply Agf_sealed_read.
Qed.

Lemma Agi_encode_reads a uuid b :
  (344 <= length b)%nat -> length uuid = 16%nat -> Agi_ok a ->
  exists b', Agi_encode a uuid b = Ok b' /\ length b' = length b /\
    verify b' agi.CRC = Ok true /\ Agi_read b' = Ok a.
Proof.
  intros Hb Hu Ha. destruct (Agi_encode_sealed a uuid b Hb Hu) as (b' & He & S).
  exists b'. split_and!; [done | apply S | by apply (sealed_verify_all S) |].
  by eapply Agi_sealed_read.
Qed.

(** An AGF encoded into any sector-sized buffer reads back field for
    field, carries its magic, version and UUID, verifies, and keeps the
    spare bytes the caller zeroed. *)
Theorem agf_roundtrip a uuid b :
  (224 <= length b)%nat -> length uuid = 16%nat -> Agf_ok a ->
  exists b', Agf_encode a uuid b = Ok b' /\ length b' = length b /\
    verify b' agf.CRC = Ok true /\ Agf_read b' = Ok a /\
    be32 b' agf.MAGICNUM = Ok AGF_MAGIC /\ be32 b' agf.VERSIONNUM = Ok AG_VERSION /\
    slice b' agf.UUID (agf.UUID + 16) = Ok uuid /\
    slice b' (agf.REFCOUNT_LEVEL + 4) agf.LSN = slice b (agf.REFCOUNT_LEVEL + 4) agf.LSN.
Proof.
  intros Hb Hu Ha. destruct (Agf_encode_sealed a uuid b Hb Hu) as (b' & He & S).
  exists b'. split; [done|]. split; [apply S|].
  split_and!.
  - by apply (sealed_verify_all S).
  - by eapply Agf_sealed_read.
  - by read_record S.
  - by read_record S.
  - by rewrite (sealed_bytes S agf.UUID 16 _ eq_refl eq_refl).
  - apply (sealed_untouched S (agf.REFCOUNT_LEVEL + 4) 112 eq_refl eq_refl).
Qed.

Lemma agf_roundtrip_witness :
  exists b', Agf_encode (mkAgf 3 32768 1 1 2 1 5 1 1 6 1 1 1 6 6 32757 32744 0) (zeroes 16)
               (zeroes 512) = Ok b' /\ length b' = 512%nat /\
    verify b' agf.CRC = Ok true /\
    Agf_read b' = Ok (mkAgf 3 32768 1 1 2 1 5 1 1 6 1 1 1 6 6 32757 32744 0) /\
    be32 b' agf.MAGICNUM = Ok AGF_MAGIC /\ be32 b' agf.VERSIONNUM = Ok AG_VERSION /\
    slice b' agf.UUID (agf.UUID + 16) = Ok (zeroes 16) /\
    slice b' (agf.REFCOUNT_LEVEL + 4) agf.LSN = slice (zeroes 512) (agf.REFCOUNT_LEVEL + 4) agf.LSN.
Proof.
  apply agf_roundtrip; [vm_compute; lia | done |].
  repeat constructor; vm_compute; done.
Defined.

(** An AGI encoded into any sector-sized buffer reads back field for
    field, with every unlinked bucket empty, and verifies. *)
Theorem agi_roundtrip a uuid b :
  (344 <= length b)%nat -> length uuid = 16%nat -> Agi_ok a ->
  exists b', Agi_encode a uuid b = Ok b' /\ length b' = length b /\
    verify b' agi.CRC = Ok true /\ Agi_read b' = Ok a /\
    be32 b' agi.MAGICNUM = Ok AGI_MAGIC /\ be32 b' agi.VERSIONNUM = Ok AG_VERSION /\
    slice b' agi.UUID (agi.UUID + 16) = Ok uuid /\
    be32 b' agi.DIRINO = Ok NULL32 /\
    forall i, (i < UNLINKED_BUCKETS)%nat -> be32 b' (agi.UNLINKED + 4 * i) = Ok NULL32.
Proof.
  intros Hb Hu Ha. destruct (Agi_encode_sealed a uuid b Hb Hu) as (b' & He & S).
  exists b'. split; [done|]. split; [apply S|].
  split_and!.
  - by apply (sealed_verify_all S).
  - by eapply Agi_sealed_read.
  - by read_record S.
  - by read_record S.
  - by rewrite (sealed_bytes S agi.UUID 16 _ eq_refl eq_refl).
  - by read_record S.
  - intros i Hi. unfold UNLINKED_BUCKETS in Hi.
    do 64 (destruct i as [|i]; [by read_record S|]). lia.
Qed.

Lemma agi_roundtrip_witness :
  exists b', Agi_encode (mkAgi 0 32768 64 3 1 61 128 4 1 1 1) (zeroes 16) (zeroes 512) = Ok b' /\
    length b' = 512%nat /\ verify b' agi.CRC = Ok true /\
    Agi_read b' = Ok (mkAgi 0 32768 64 3 1 61 128 4 1 1 1) /\
    be32 b' agi.MAGICNUM = Ok AGI_MAGIC /\ be32 b' agi.VERSIONNUM = Ok AG_VERSION /\
    slice b' agi.UUID (agi.UUID + 16) = Ok (zeroes 16) /\
    be32 b' agi.DIRINO = Ok NULL32 /\
    forall i, (i < UNLINKED_BUCKETS)%nat -> be32 b' (agi.UNLINKED + 4 * i) = Ok NULL32.
Proof.
  apply agi_roundtrip; [vm_compute; lia | done |].
  repeat constructor; vm_compute; done.
Defined.

Lemma encode_agfl_spec seqno uuid first bnos b :
  (40 <= length b)%nat -> length uuid = 16%nat ->
  let slots := ((length b - agfl.BNO) / 4)%nat in
  (Z.to_nat first < slots)%nat -> (length bnos <= slots)%nat -> Forall is_u32 bnos ->
  is_u32 seqno ->
  exists b', encode_agfl seqno uuid first bnos b = Ok b' /\ length b' = length b /\
    verify b' agfl.CRC = Ok true /\ be32 b' agfl.MAGICNUM = Ok AGFL_MAGIC /\
    be32 b' agfl.SEQNO = Ok seqno /\ slice b' agfl.UUID (agfl.UUID + 16) = Ok uuid /\
    forall j, (j < slots)%nat ->
      be32 b' (slot_at j) = Ok (default NULL32 (bnos !! slot_pos (Z.to_nat first) slots j)).
Proof.
  intros Hb Hu slots Hf Hl Hbn Hsq. unfold encode_agfl.
  assert (Forall (store_in (length b)) (agfl_header seqno uuid)) as Hin.
  { apply (stores_in 40); [reflexivity | done | repeat constructor; done]. }
  destruct (run_stores_in _ _ Hin) as [-> L1]. cbn [mbind result_bind].
  set (b1 := patches _ b) in *.
  assert (agfl_slots b1 = Ok slots) as ->.
  { unfold agfl_slots. destruct (Nat.ltb_spec (length b1) agfl.BNO); [unfold agfl.BNO in *; lia|].
    by rewrite L1. }
  cbn [mbind result_bind].
  assert (slot_at slots <= length b1)%nat as Hsl
    by (rewrite L1; apply slots_of_length; unfold agfl.BNO; lia).
  destruct (clear_slots slots 0 b1 Hsl) as (b2 & E2 & [L2 S2] & N2).
  unfold agfl_clear. fold slot_at. setoid_rewrite E2. cbn [mbind result_bind].
  destruct (put_slots (Z.to_nat first) slots bnos 0 b2) as (b3 & E3 & [L3 S3] & N3);
    [done..| by rewrite L2 |].
  unfold enumerate. rewrite E3. cbn [mbind result_bind].
  destruct (write_sealed_ok (length b3) agfl.CRC [] b3) as (b' & E' & S);
    [unfold agfl.CRC; lia | lia | constructor |].
  exists b'. split; [exact E'|].
  assert (forall o n, clear_of agfl.CRC o n = true -> slice b' o (o + n) = slice b3 o (o + n)) as R
    by (intros; by apply (sealed_untouched S)).
  split_and!.
  - rewrite (sealed_length _ _ _ _ _ S). lia.
  - by apply (sealed_verify_all S).
  - unfold be32. rewrite (R agfl.MAGICNUM 4%nat eq_refl), S3, S2 by (left; vm_compute; lia).
    subst b1. rewrite (slice_patches_stored _ _ agfl.MAGICNUM 4 (to_be_bytes 4 AGFL_MAGIC) Hin eq_refl).
    cbn [mbind result_bind]. by rewrite of_to_be_bytes.
  - unfold be32. rewrite (R agfl.SEQNO 4%nat eq_refl), S3, S2 by (left; vm_compute; lia).
    subst b1. rewrite (slice_patches_stored _ _ agfl.SEQNO 4 (to_be_bytes 4 seqno) Hin eq_refl).
    cbn [mbind result_bind]. by rewrite of_to_be_bytes.
  - rewrite (R agfl.UUID 16%nat eq_refl), S3, S2 by (left; vm_compute; lia).
    by apply (slice_patches_stored _ _ agfl.UUID 16 uuid Hin eq_refl).
  - intros j Hj. unfold be32. rewrite (R (slot_at j) 4%nat).
    2: { unfold clear_of, slot_at, agfl.CRC, agfl.BNO. apply orb_true_iff. right.
         apply Nat.leb_le. lia. }
    rewrite N3 by done. cbn [Nat.leb]. rewrite Nat.sub_0_r, N2 by lia.
    destruct (bnos !! _) as [v|] eqn:E; cbn [mbind result_bind default];
      rewrite of_to_be_bytes; [done| |done|done].
    rewrite Forall_lookup in Hbn. by apply Hbn in E.
Qed.

(** A free list encoded from slot [first] on reads back entry by entry,
    going round the end of the sector, with [NULLAGBLOCK] in every other
    slot. *)
Theorem agfl_roundtrip seqno uuid first bnos b :
  (40 <= length b)%nat -> length uuid = 16%nat ->
  let slots := ((length b - agfl.BNO) / 4)%nat in
  (Z.to_nat first < slots)%nat -> (length bnos <= slots)%nat -> Forall is_u32 bnos ->
  is_u32 seqno ->
  exists b', encode_agfl seqno uuid first bnos b = Ok b' /\ length b' = length b /\
    verify b' agfl.CRC = Ok true /\ be32 b' agfl.MAGICNUM = Ok AGFL_MAGIC /\
    be32 b' agfl.SEQNO = Ok seqno /\ slice b' agfl.UUID (agfl.UUID + 16) = Ok uuid /\
    forall j, (j < slots)%nat ->
      be32 b' (slot_at j) = Ok (default NULL32 (bnos !! slot_pos (Z.to_nat first) slots j)).
Proof. apply encode_agfl_spec. Qed.

Lemma agfl_roundtrip_witness :
  exists b', encode_agfl 2 (zeroes 16) 1 [7; 8; 9; 10; 11; 12] (zeroes 512) = Ok b' /\
    length b' = 512%nat /\ verify b' agfl.CRC = Ok true /\ be32 b' agfl.MAGICNUM = Ok AGFL_MAGIC /\
    be32 b' agfl.SEQNO = Ok 2 /\ slice b' agfl.UUID (agfl.UUID + 16) = Ok (zeroes 16) /\
    forall j, (j < 119)%nat ->
      be32 b' (slot_at j) = Ok (default NULL32 ([7; 8; 9; 10; 11; 12] !! slot_pos 1 119 j)).
Proof.
  apply (agfl_roundtrip 2 (zeroes 16) 1 [7; 8; 9; 10; 11; 12] (zeroes 512));
    [vm_compute; lia | done | vm_compute; lia | vm_compute; lia | |];
    repeat constructor; vm_compute; done.
Defined.
