(* ===== verification/Btree.v ===== *)
(** [src/src/structs/btree.rs]: short-form btree blocks and the records of
    the per-AG btrees.

    A leaf root is a header, its records and zeroes; [leaf_layout] says so
    byte for byte, and the record encoders are proved to write the
    concatenation of their records, from which each record reads back. *)

From Stdlib Require Import ZArith Lia.
From stdpp Require Import base tactics list numbers.
From coqutil Require Import Byte Word.LittleEndianList.
From S2P Require Import Prelude Bytes Crc Structs.

(** Magic numbers: "AB3B", "AB3C", "IAB3", "FIB3", "RMB3", "R3FC". *)
Module magic.
Definition BNO : Z := 0x41423342.
Definition CNT : Z := 0x41423343.
Definition INO : Z := 0x49414233.
Definition FINO : Z := 0x46494233.
Definition RMAP : Z := 0x524d4233.
Definition REFC : Z := 0x52334643.
End magic.

(** Field offsets in a short-form v5 btree block header. *)
Module off.
Definition MAGIC : nat := 0.
Definition LEVEL : nat := 4.
Definition NUMRECS : nat := 6.
Definition LEFTSIB : nat := 8.
Definition RIGHTSIB : nat := 12.
Definition BLKNO : nat := 16.
Definition LSN : nat := 24.
Definition UUID : nat := 32.
Definition OWNER : nat := 48.
Definition CRC : nat := 52.
Definition RECS : nat := 56.
End off.

Definition ALLOC_REC : nat := 8.
Definition INOBT_REC : nat := 16.
Definition RMAP_REC : nat := 24.
Definition REFC_REC : nat := 12.

(** Special owners: [-3i64 as u64] and so on. *)
Module owner.
Definition FS : Z := u64 (-3).
Definition LOG : Z := u64 (-4).
Definition AG : Z := u64 (-5).
Definition INOBT : Z := u64 (-6).
Definition INODES : Z := u64 (-7).
Definition REFC : Z := u64 (-8).
End owner.

Record AllocRec : Type := mkAllocRec { a_start : Z; a_count : Z }.

Record InobtRec : Type := mkInobtRec {
  startino : Z;
  holemask : Z;
  n_count : Z;
  n_freecount : Z;
  n_free : Z;
}.

Record RmapRec : Type := mkRmapRec { r_start : Z; r_count : Z; r_owner : Z }.

#[export] Instance AllocRec_eq_dec : EqDecision AllocRec.
Proof. solve_decision. Defined.
#[export] Instance InobtRec_eq_dec : EqDecision InobtRec.
Proof. solve_decision. Defined.
#[export] Instance RmapRec_eq_dec : EqDecision RmapRec.
Proof. solve_decision. Defined.

(** * Encoders *)

Definition leaf_fields (magic daddr agno : Z) (uuid recs : buf) (numrecs : Z) : list store :=
  [ P32 off.MAGIC magic;
    P16 off.LEVEL 0;
    P16 off.NUMRECS numrecs;
    P32 off.LEFTSIB NULL32;
    P32 off.RIGHTSIB NULL32;
    P64 off.BLKNO daddr;
    P64 off.LSN 0;
    PB off.UUID 16 uuid;
    P32 off.OWNER agno;
    PB off.RECS (length recs) recs ].

Definition leaf_block (magic daddr agno : Z) (uuid recs : buf) (numrecs : Z) (blocksize : nat)
    : result buf :=
  b ← run_stores (leaf_fields magic daddr agno uuid recs numrecs) (zeroes blocksize);
  stamp off.CRC b.

Definition enumerate {A} (l : list A) : list (nat * A) := zip (seq 0 (length l)) l.

(** [for (i, r) in recs.iter().enumerate()] with the stores of the body, at
    [i * rec] on. *)
Definition encode_recs {A} (rec : nat) (stores : nat -> A -> list store) (recs : list A)
    : result buf :=
  fold_result (fun out ir => run_stores (stores (fst ir * rec)%nat (snd ir)) out)
    (zeroes (length recs * rec)) (enumerate recs).

Definition alloc_stores (o : nat) (r : AllocRec) : list store :=
  [ P32 o (a_start r); P32 (o + 4) (a_count r) ].
Definition alloc_recs (recs : list AllocRec) : result buf := encode_recs ALLOC_REC alloc_stores recs.

Definition inobt_stores (is_sparse : bool) (o : nat) (r : InobtRec) : list store :=
  P32 o (startino r) ::
  (if is_sparse
   then [ P16 (o + 4) (holemask r); P8 (o + 6) (n_count r); P8 (o + 7) (n_freecount r) ]
   else [ P32 (o + 4) (n_freecount r) ]) ++
  [ P64 (o + 8) (n_free r) ].
Definition inobt_recs (recs : list InobtRec) (is_sparse : bool) : result buf :=
  encode_recs INOBT_REC (inobt_stores is_sparse) recs.

Definition rmap_stores (o : nat) (r : RmapRec) : list store :=
  [ P32 o (r_start r); P32 (o + 4) (r_count r); P64 (o + 8) (r_owner r); P64 (o + 16) 0 ].
Definition rmap_recs (recs : list RmapRec) : result buf := encode_recs RMAP_REC rmap_stores recs.

(** * Lemmas: records *)

(** The bytes of one record. *)
Definition rec_bytes {A} (stores : nat -> A -> list store) (r : A) : buf :=
  stores 0%nat r ≫= store_bytes.

Section Recs.
Context {A : Type} (rec : nat) (stores : nat -> A -> list store).
Hypothesis Hadj : forall o r, adjacent o (stores o r) = true.
Hypothesis Hsrc : forall o r, Forall source_fits (stores o r).
Hypothesis Hlen : forall r, length (rec_bytes stores r) = rec.
Hypothesis Hoff : forall o r, stores o r ≫= store_bytes = rec_bytes stores r.

Lemma length_recs (l : list A) : length (l ≫= rec_bytes stores) = (length l * rec)%nat.
Proof.
  induction l as [|r l IH]; [done|]. rewrite bind_cons, length_app, IH, Hlen. cbn [length]. lia.
Qed.

Lemma encode_recs_loop l k (b : buf) :
  ((k + length l) * rec <= length b)%nat ->
  fold_result (fun out ir => run_stores (stores (fst ir * rec)%nat (snd ir)) out) b
    (zip (seq k (length l)) l) =
  Ok (patch (k * rec) (l ≫= rec_bytes stores) b).
Proof.
  revert k b. induction l as [|r l IH]; intros k b Hb.
  - cbn. by rewrite patch_nil.
  - cbn [length seq zip_with fold_result fst snd]. cbn [length] in Hb.
    pose proof (Hlen r) as Hr. pose proof (length_recs l) as Hls.
    rewrite (run_adjacent _ (k * rec)) by (auto; rewrite ?Hoff, ?Hr; nia).
    cbn [mbind result_bind]. rewrite Hoff, IH by (rewrite length_patch; rewrite ?Hr; nia).
    f_equal. rewrite bind_cons, <- (patch_app (k * rec)) by nia.
    rewrite Hr. f_equal. lia.
Qed.

(** The loop writes the records one after another. *)
Lemma encode_recs_concat (l : list A) : encode_recs rec stores l = Ok (l ≫= rec_bytes stores).
Proof.
  unfold encode_recs, enumerate. rewrite (encode_recs_loop l 0) by (rewrite length_zeroes; lia).
  f_equal. cbn [Nat.mul]. apply patch_all. by rewrite length_recs, length_zeroes.
Qed.

(** The bytes of the [i]th record. *)
Lemma slice_rec (l : list A) i r (pre post : buf) :
  l !! i = Some r ->
  slice (pre ++ (l ≫= rec_bytes stores) ++ post) (length pre + i * rec)
    (length pre + i * rec + rec) = Ok (rec_bytes stores r).
Proof.
  intros Hi. apply list_elem_of_split_length in Hi as (l1 & l2 & -> & ->).
  rewrite bind_app, bind_cons.
  pose proof (length_recs l1) as H1. pose proof (Hlen r) as Hr.
  rewrite <- !(assoc_L (++)), slice_in by (rewrite !length_app; lia). f_equal.
  rewrite (assoc_L (++) pre), drop_app_length' by (rewrite length_app; lia).
  replace (_ - _)%nat with rec by lia. by apply take_app_length'.
Qed.
End Recs.

(** * Lemmas: each kind of record *)

Lemma rec_bytes_patches {A} (stores : nat -> A -> list store) r rec :
  adjacent 0 (stores 0%nat r) = true -> Forall source_fits (stores 0%nat r) ->
  length (rec_bytes stores r) = rec ->
  Forall (store_in rec) (stores 0%nat r) /\
  rec_bytes stores r = patches (stores 0%nat r) (zeroes rec).
Proof.
  intros Ha Hs Hl. unfold rec_bytes in *.
  assert (forall ss o m, adjacent o ss = true -> Forall source_fits ss ->
    (o + length (ss ≫= store_bytes) <= m)%nat -> Forall (store_in m) ss) as Hin.
  { clear. induction ss as [|s ss IH]; intros o m Ha Hs Hm; [constructor|].
    cbn in Ha. apply andb_prop in Ha as [Ho%Nat.eqb_eq Ha]. inversion_clear Hs as [|? ? Hs1 Hs2].
    rewrite bind_cons, length_app in Hm.
    assert (length (store_bytes s) = store_len s) as Hl
      by (destruct s; cbn in *; rewrite ?length_to_be_bytes; done).
    constructor; [split; [lia|done] | apply (IH _ _ Ha Hs2); lia]. }
  assert (Forall (store_in rec) (stores 0%nat r)) as Hi by (apply (Hin _ 0%nat); auto; lia).
  split; [done|].
  assert (length (zeroes rec) = rec) as Hz by apply length_zeroes.
  destruct (run_stores_in (stores 0%nat r) (zeroes rec)) as [E _]; [by rewrite Hz|].
  rewrite (run_adjacent _ 0) in E by (auto; lia). injection E as <-.
  symmetry. apply patch_all. by rewrite Hl.
Qed.

(** The fields of one record, as [inspect.rs] reads them. *)
Definition alloc_parse (b : buf) : result AllocRec :=
  s ← be32 b 0; c ← be32 b 4; Ok (mkAllocRec s c).
Definition inobt_parse (b : buf) : result InobtRec :=
  s ← be32 b 0; h ← be16 b 4; c ← index b 6; f ← index b 7; m ← be64 b 8;
  Ok (mkInobtRec s h c f m).
Definition rmap_parse (b : buf) : result RmapRec :=
  s ← be32 b 0; c ← be32 b 4; o ← be64 b 8; Ok (mkRmapRec s c o).

(** [n] records of [rec] bytes from [at] on. *)
Definition parse_recs {A} (rec : nat) (parse : buf -> result A) (at_ n : nat) (b : buf)
    : result (list A) :=
  collect (fun i => s ← slice b (at_ + i * rec) (at_ + i * rec + rec); parse s) (seq 0 n).

Definition AllocRec_ok (r : AllocRec) : Prop := 0 <= a_start r < 2 ^ 32 /\ 0 <= a_count r < 2 ^ 32.
Definition InobtRec_ok (r : InobtRec) : Prop :=
  0 <= startino r < 2 ^ 32 /\ 0 <= holemask r < 2 ^ 16 /\ 0 <= n_count r < 2 ^ 8 /\
  0 <= n_freecount r < 2 ^ 8 /\ 0 <= n_free r < 2 ^ 64.
Definition RmapRec_ok (r : RmapRec) : Prop :=
  0 <= r_start r < 2 ^ 32 /\ 0 <= r_count r < 2 ^ 32 /\ 0 <= r_owner r < 2 ^ 64.

Ltac record_facts :=
  first
  [ reflexivity
  | match goal with
    | |- Forall _ _ => repeat constructor
    | |- adjacent _ _ = true =>
        cbn; rewrite ?Nat.eqb_refl; cbn; rewrite ?andb_true_r;
        first [reflexivity | repeat (apply andb_true_intro; split); apply Nat.eqb_eq; lia]
    end ].

Lemma alloc_parse_rec r : AllocRec_ok r -> alloc_parse (rec_bytes alloc_stores r) = Ok r.
Proof.
  intros [H1 H2]. destruct (rec_bytes_patches alloc_stores r 8) as [Hin ->]; [record_facts..|].
  rewrite <- (length_zeroes 8) in Hin. unfold alloc_parse.
  rewrite (be32_stored _ _ 0 _ Hin eq_refl). cbn [mbind result_bind].
  rewrite (be32_stored _ _ 4 _ Hin eq_refl). cbn [mbind result_bind].
  rewrite !u32_id by done. by destruct r.
Qed.

Lemma inobt_parse_rec r : InobtRec_ok r ->
  inobt_parse (rec_bytes (inobt_stores true) r) = Ok r.
Proof.
  intros (H1 & H2 & H3 & H4 & H5).
  destruct (rec_bytes_patches (inobt_stores true) r 16) as [Hin ->]; [record_facts..|].
  rewrite <- (length_zeroes 16) in Hin. unfold inobt_parse.
  rewrite (be32_stored _ _ 0 _ Hin eq_refl). cbn [mbind result_bind].
  rewrite (be16_stored _ _ 4 _ Hin eq_refl). cbn [mbind result_bind].
  rewrite (index_stored _ _ 6 _ Hin eq_refl). cbn [mbind result_bind].
  rewrite (index_stored _ _ 7 _ Hin eq_refl). cbn [mbind result_bind].
  rewrite (be64_stored _ _ 8 _ Hin eq_refl). cbn [mbind result_bind].
  rewrite u32_id, u16_id, !u8_id, u64_id by done. by destruct r.
Qed.

(** What the format without sparse inodes keeps of a record. *)
Definition inobt_kept (is_sparse : bool) (r : InobtRec) : InobtRec :=
  if is_sparse then r else mkInobtRec (startino r) 0 0 (n_freecount r) (n_free r).

Lemma inobt_kept_rec is_sparse r : InobtRec_ok r ->
  inobt_parse (rec_bytes (inobt_stores is_sparse) r) = Ok (inobt_kept is_sparse r).
Proof.
  destruct is_sparse; [apply inobt_parse_rec|]. intros (H1 & H2 & H3 & H4 & H5).
  destruct (rec_bytes_patches (inobt_stores false) r 16) as [Hin Hp]; [record_facts..|].
  rewrite <- (length_zeroes 16) in Hin. unfold inobt_parse, inobt_kept.
  assert (rec_bytes (inobt_stores false) r =
    to_be_bytes 4 (startino r) ++ [byte.of_Z 0; byte.of_Z 0; byte.of_Z 0; byte.of_Z (n_freecount r)]
      ++ to_be_bytes 8 (n_free r)) as E.
  { unfold rec_bytes. cbn [inobt_stores app mbind list_bind store_bytes]. rewrite app_nil_r.
    f_equal.
    change (byte.of_Z 0 :: byte.of_Z 0 :: byte.of_Z 0 :: byte.of_Z (n_freecount r) ::
      to_be_bytes 8 (n_free r))
    with ([byte.of_Z 0; byte.of_Z 0; byte.of_Z 0; byte.of_Z (n_freecount r)] ++
      to_be_bytes 8 (n_free r)).
    f_equal. apply of_be_bytes_inj; [by rewrite length_to_be_bytes|].
    rewrite of_to_be_bytes by lia. unfold of_be_bytes. cbn [rev app].
    change [byte.of_Z (n_freecount r); byte.of_Z 0; byte.of_Z 0; byte.of_Z 0]
    with ([byte.of_Z (n_freecount r)] ++ repeat Byte.x00 3).
    rewrite le_combine_app_0, le_combine_1, byte_unsigned_of_Z; lia. }
  rewrite Hp, (be32_stored _ _ 0 _ Hin eq_refl). cbn [mbind result_bind].
  rewrite (be64_stored _ _ 8 _ Hin eq_refl), <- Hp, E. rewrite u32_id, u64_id by done.
  unfold be16, index. pose proof (length_to_be_bytes 4 (startino r)) as L4.
  destruct (to_be_bytes 4 (startino r)) as [|? [|? [|? [|? [|]]]]]; try done.
  assert (byte.unsigned (byte.of_Z (n_freecount r)) = n_freecount r) as F
    by (by apply byte_unsigned_of_Z).
  revert F. generalize (byte.of_Z (n_freecount r)) as x. intros x F.
  generalize (to_be_bytes 8 (n_free r)) as l. intros l.
  cbn -[of_be_bytes]. by rewrite F.
Qed.

Lemma rmap_parse_rec r : RmapRec_ok r -> rmap_parse (rec_bytes rmap_stores r) = Ok r.
Proof.
  intros (H1 & H2 & H3).
  destruct (rec_bytes_patches rmap_stores r 24) as [Hin ->]; [record_facts..|].
  rewrite <- (length_zeroes 24) in Hin. unfold rmap_parse.
  rewrite (be32_stored _ _ 0 _ Hin eq_refl). cbn [mbind result_bind].
  rewrite (be32_stored _ _ 4 _ Hin eq_refl). cbn [mbind result_bind].
  rewrite (be64_stored _ _ 8 _ Hin eq_refl). cbn [mbind result_bind].
  rewrite !u32_id, u64_id by done. by destruct r.
Qed.

Lemma alloc_recs_bytes recs : alloc_recs recs = Ok (recs ≫= rec_bytes alloc_stores).
Proof.
  apply encode_recs_concat; try done; intros; record_facts.
Qed.

Lemma inobt_recs_bytes recs is_sparse :
  inobt_recs recs is_sparse = Ok (recs ≫= rec_bytes (inobt_stores is_sparse)).
Proof.
  apply encode_recs_concat; intros; destruct is_sparse; try done; record_facts.
Qed.

Lemma rmap_recs_bytes recs : rmap_recs recs = Ok (recs ≫= rec_bytes rmap_stores).
Proof.
  apply encode_recs_concat; try done; intros; record_facts.
Qed.

(** Records whose bytes parse, parse from wherever they were put. *)
Lemma parse_recs_concat {A B} rec (stores : nat -> A -> list store) parse (P : A -> Prop)
    (h : A -> B) (pre post : buf) recs :
  (forall r, length (rec_bytes stores r) = rec) ->
  (forall r, P r -> parse (rec_bytes stores r) = Ok (h r)) ->
  Forall P recs ->
  parse_recs rec parse (length pre) (length recs) (pre ++ (recs ≫= rec_bytes stores) ++ post)
    = Ok (h <$> recs).
Proof.
  intros Hl Hp HP. unfold parse_recs. apply collect_Ok, Forall2_same_length_lookup.
  split; [by rewrite length_fmap, length_seq|]. intros i k r Hk Hr.
  apply lookup_seq in Hk as [-> _]. cbn [Nat.add].
  rewrite list_lookup_fmap in Hr. apply fmap_Some in Hr as (r0 & Hr0 & ->).
  rewrite (slice_rec rec stores) with (r := r0) by done. cbn [mbind result_bind].
  apply Hp. rewrite Forall_lookup in HP. by eapply HP.
Qed.

(** * Lemmas: leaf blocks *)

Lemma leaf_sealed magic daddr agno uuid recs n bs :
  (off.RECS + length recs <= bs)%nat -> length uuid = 16%nat ->
  exists b, leaf_block magic daddr agno uuid recs n bs = Ok b /\
    sealed bs off.CRC (leaf_fields magic daddr agno uuid recs n) (zeroes bs) b.
Proof.
  intros Hb Hu. unfold leaf_block. rewrite sealed_stamp, length_zeroes.
  unfold off.RECS in Hb.
  apply write_sealed_ok; [unfold off.CRC; lia | rewrite length_zeroes; lia |].
  unfold leaf_fields.
  change [P32 off.MAGIC magic; P16 off.LEVEL 0; P16 off.NUMRECS n; P32 off.LEFTSIB NULL32;
    P32 off.RIGHTSIB NULL32; P64 off.BLKNO daddr; P64 off.LSN 0; PB off.UUID 16 uuid;
    P32 off.OWNER agno; PB off.RECS (length recs) recs]
  with (take 9 (leaf_fields magic daddr agno uuid recs n) ++ [PB off.RECS (length recs) recs]).
  apply Forall_app_2.
  - apply (stores_in 56); [reflexivity | rewrite length_zeroes; lia | repeat constructor; done].
  - repeat constructor; cbn; rewrite ?length_zeroes; unfold off.RECS; lia.
Qed.

Lemma slice_split (b l : buf) lo n :
  slice b lo (lo + n) = Ok l -> b = take lo b ++ l ++ drop (lo + n) b.
Proof.
  intros [Hb ->]%slice_Ok. replace (lo + n - lo)%nat with n by lia.
  rewrite <- (take_drop lo b) at 1. f_equal. rewrite <- (take_drop n (drop lo b)) at 1.
  by rewrite drop_drop.
Qed.

(** Records written into a leaf read back from it. *)
Lemma leaf_reads {A B} rec (stores : nat -> A -> list store) parse (P : A -> Prop) (h : A -> B)
    magic daddr agno uuid n bs recs :
  (forall r, length (rec_bytes stores r) = rec) ->
  (forall r, P r -> parse (rec_bytes stores r) = Ok (h r)) -> Forall P recs ->
  length uuid = 16%nat -> (off.RECS + length recs * rec <= bs)%nat ->
  exists b, leaf_block magic daddr agno uuid (recs ≫= rec_bytes stores) n bs = Ok b /\
    length b = bs /\ verify b off.CRC = Ok true /\ be32 b off.MAGIC = Ok (u32 magic) /\
    be16 b off.LEVEL = Ok 0 /\
    be16 b off.NUMRECS = Ok (u16 n) /\ be64 b off.BLKNO = Ok (u64 daddr) /\
    parse_recs rec parse off.RECS (length recs) b = Ok (h <$> recs).
Proof.
  intros Hl Hp HP Hu Hbs. set (out := recs ≫= rec_bytes stores).
  assert (length out = (length recs * rec)%nat) as Ho by (by apply length_recs).
  destruct (leaf_sealed magic daddr agno uuid out n bs) as (b & E & S); [by rewrite Ho | done |].
  exists b. split; [exact E|].
  pose proof (sealed_length _ _ _ _ _ S) as L. rewrite length_zeroes in L. split; [done|].
  split; [apply (sealed_verify_all S); by rewrite length_zeroes|].
  do 4 (split; [by read_sealed S|]).
  assert (slice b off.RECS (off.RECS + length out) = Ok out) as Hs.
  { apply (sealed_bytes S); [done|]. cbn. by rewrite Nat.eqb_refl. }
  pose proof (slice_Ok b off.RECS (off.RECS + length out) out) as [HO _].
  destruct (HO Hs) as [Hbnd _].
  rewrite (slice_split _ _ _ _ Hs).
  replace off.RECS with (length (take off.RECS b)) at 1 by (rewrite length_take; lia).
  by apply (parse_recs_concat rec stores parse P h).
Qed.

Lemma parse_leaf {A} rec (stores : nat -> A -> list store) parse (P : A -> Prop)
    magic daddr agno uuid n bs recs :
  (forall r, length (rec_bytes stores r) = rec) ->
  (forall r, P r -> parse (rec_bytes stores r) = Ok r) -> Forall P recs ->
  length uuid = 16%nat -> (off.RECS + length recs * rec <= bs)%nat ->
  exists b, leaf_block magic daddr agno uuid (recs ≫= rec_bytes stores) n bs = Ok b /\
    parse_recs rec parse off.RECS (length recs) b = Ok recs.
Proof.
  intros Hl Hp HP Hu Hbs.
  destruct (leaf_reads rec stores parse P id magic daddr agno uuid n bs recs)
    as (b & E & _ & _ & _ & _ & _ & _ & R); [done..|].
  exists b. by rewrite list_fmap_id in R.
Qed.

(** * Properties *)

(** A leaf root block holds its header, its records and zeroes to the
    end of the block, and nothing else, under a checksum that verifies. *)
Theorem leaf_block_layout magic daddr agno uuid recs n bs :
  (off.RECS + length recs <= bs)%nat -> length uuid = 16%nat ->
  0 <= magic < 2 ^ 32 -> 0 <= daddr < 2 ^ 64 -> 0 <= agno < 2 ^ 32 -> 0 <= n < 2 ^ 16 ->
  exists b, leaf_block magic daddr agno uuid recs n bs = Ok b /\ length b = bs /\
    verify b off.CRC = Ok true /\ be32 b off.MAGIC = Ok magic /\
    be16 b off.LEVEL = Ok 0 /\ be16 b off.NUMRECS = Ok n /\
    be32 b off.LEFTSIB = Ok NULL32 /\ be32 b off.RIGHTSIB = Ok NULL32 /\
    be64 b off.BLKNO = Ok daddr /\ be64 b off.LSN = Ok 0 /\
    slice b off.UUID (off.UUID + 16) = Ok uuid /\ be32 b off.OWNER = Ok agno /\
    slice b off.RECS (off.RECS + length recs) = Ok recs /\
    slice b (off.RECS + length recs) bs = Ok (zeroes (bs - (off.RECS + length recs))).
Proof.
  intros Hb Hu Hm Hd Ha Hn.
  destruct (leaf_sealed magic daddr agno uuid recs n bs Hb Hu) as (b & E & S).
  exists b. split; [exact E|].
  pose proof (sealed_length _ _ _ _ _ S) as L. rewrite length_zeroes in L.
  split; [done|]. split; [apply (sealed_verify_all S); by rewrite length_zeroes|].
  do 7 (split; [read_sealed S; rewrite ?u16_id, ?u32_id, ?u64_id by done; done|]).
  split; [by apply (sealed_bytes S)|].
  split; [read_sealed S; by rewrite u32_id by done|].
  split; [apply (sealed_bytes S); [done|]; cbn; by rewrite Nat.eqb_refl|].
  replace bs with (off.RECS + length recs + (bs - (off.RECS + length recs)))%nat at 1 by lia.
  rewrite (sealed_apart S); [|unfold off.CRC, off.RECS; lia |].
  - rewrite slice_in by (rewrite length_zeroes; lia). f_equal.
    unfold zeroes. rewrite drop_replicate, take_replicate. f_equal. lia.
  - unfold off.RECS in *. unfold leaf_fields.
    repeat (apply Forall_cons_2; [right; cbn; lia|]). apply Forall_nil_2.
Qed.

Lemma leaf_block_layout_witness :
  exists b, leaf_block magic.BNO 8 3 (zeroes 16) (zeroes 8) 1 512 = Ok b /\ length b = 512%nat /\
    verify b off.CRC = Ok true /\ be32 b off.MAGIC = Ok magic.BNO /\
    be16 b off.LEVEL = Ok 0 /\ be16 b off.NUMRECS = Ok 1 /\
    be32 b off.LEFTSIB = Ok NULL32 /\ be32 b off.RIGHTSIB = Ok NULL32 /\
    be64 b off.BLKNO = Ok 8 /\ be64 b off.LSN = Ok 0 /\
    slice b off.UUID (off.UUID + 16) = Ok (zeroes 16) /\ be32 b off.OWNER = Ok 3 /\
    slice b off.RECS (off.RECS + 8) = Ok (zeroes 8) /\
    slice b (off.RECS + 8) 512 = Ok (zeroes (512 - (off.RECS + 8))).
Proof.
  apply (leaf_block_layout magic.BNO 8 3 (zeroes 16) (zeroes 8) 1 512);
    [vm_compute; lia | done | unfold magic.BNO; lia ..].
Defined.

(** Free space, inode and reverse mapping records written into a leaf
    block of any kind come back from it one by one, in order. *)
Theorem leaf_records_roundtrip magic daddr agno uuid bs :
  length uuid = 16%nat ->
  (forall recs, Forall AllocRec_ok recs -> (off.RECS + length recs * ALLOC_REC <= bs)%nat ->
     exists out b, alloc_recs recs = Ok out /\
       leaf_block magic daddr agno uuid out (Z.of_nat (length recs)) bs = Ok b /\
       parse_recs ALLOC_REC alloc_parse off.RECS (length recs) b = Ok recs) /\
  (forall recs, Forall InobtRec_ok recs -> (off.RECS + length recs * INOBT_REC <= bs)%nat ->
     exists out b, inobt_recs recs true = Ok out /\
       leaf_block magic daddr agno uuid out (Z.of_nat (length recs)) bs = Ok b /\
       parse_recs INOBT_REC inobt_parse off.RECS (length recs) b = Ok recs) /\
  (forall recs, Forall RmapRec_ok recs -> (off.RECS + length recs * RMAP_REC <= bs)%nat ->
     exists out b, rmap_recs recs = Ok out /\
       leaf_block magic daddr agno uuid out (Z.of_nat (length recs)) bs = Ok b /\
       parse_recs RMAP_REC rmap_parse off.RECS (length recs) b = Ok recs).
Proof.
  intros Hu. split_and!; intros recs HP Hb.
  - destruct (parse_leaf ALLOC_REC alloc_stores alloc_parse AllocRec_ok magic daddr agno uuid
      (Z.of_nat (length recs)) bs recs) as (b & E & Hr); auto using alloc_parse_rec.
    eexists _, b. split; [apply alloc_recs_bytes | done].
  - destruct (parse_leaf INOBT_REC (inobt_stores true) inobt_parse InobtRec_ok magic daddr agno
      uuid (Z.of_nat (length recs)) bs recs) as (b & E & Hr); auto using inobt_parse_rec.
    eexists _, b. split; [apply inobt_recs_bytes | done].
  - destruct (parse_leaf RMAP_REC rmap_stores rmap_parse RmapRec_ok magic daddr agno uuid
      (Z.of_nat (length recs)) bs recs) as (b & E & Hr); auto using rmap_parse_rec.
    eexists _, b. split; [apply rmap_recs_bytes | done].
Qed.

Lemma leaf_records_roundtrip_witness :
  exists out b, alloc_recs [mkAllocRec 13 3; mkAllocRec 24 32744] = Ok out /\
    leaf_block magic.BNO 8 3 (zeroes 16) out 2 512 = Ok b /\
    parse_recs ALLOC_REC alloc_parse off.RECS 2 b = Ok [mkAllocRec 13 3; mkAllocRec 24 32744].
Proof.
  apply (proj1 (leaf_records_roundtrip magic.BNO 8 3 (zeroes 16) 512 eq_refl)
           [mkAllocRec 13 3; mkAllocRec 24 32744]).
  - repeat constructor; vm_compute; done.
  - vm_compute. lia.
Defined.
