(* ===== verification/Inode.v ===== *)
(** [src/src/structs/inode.rs]: on-disk inodes, [struct xfs_dinode] v3.

    Timestamps are encoded and decoded, in both formats, as inverse
    functions on the range each format holds; an inode reads back field for
    field; an empty short-form directory gives its parent back. *)

From Stdlib Require Import ZArith Lia.
From stdpp Require Import base tactics list numbers.
From coqutil Require Import Byte Word.LittleEndianList.
From S2P Require Import Prelude Bytes Crc Geometry Structs.

(** "IN". *)
Definition MAGIC : Z := 0x494e.
Definition CORE_SIZE : nat := 176.

(** Field offsets in [struct xfs_dinode]. *)
Module off.
Definition MAGIC : nat := 0.
Definition MODE : nat := 2.
Definition VERSION : nat := 4.
Definition FORMAT : nat := 5.
Definition METATYPE : nat := 6.
Definition UID : nat := 8.
Definition GID : nat := 12.
Definition NLINK : nat := 16.
Definition PROJID_LO : nat := 20.
Definition PROJID_HI : nat := 22.
Definition BIG_NEXTENTS : nat := 24.
Definition ATIME : nat := 32.
Definition MTIME : nat := 40.
Definition CTIME : nat := 48.
Definition SIZE : nat := 56.
Definition NBLOCKS : nat := 64.
Definition EXTSIZE : nat := 72.
Definition NEXTENTS : nat := 76.
Definition ANEXTENTS : nat := 80.
Definition FORKOFF : nat := 82.
Definition AFORMAT : nat := 83.
Definition DMEVMASK : nat := 84.
Definition DMSTATE : nat := 88.
Definition FLAGS : nat := 90.
Definition GEN : nat := 92.
Definition NEXT_UNLINKED : nat := 96.
Definition CRC : nat := 100.
Definition CHANGECOUNT : nat := 104.
Definition LSN : nat := 112.
Definition FLAGS2 : nat := 120.
Definition COWEXTSIZE : nat := 128.
Definition CRTIME : nat := 144.
Definition INO : nat := 152.
Definition UUID : nat := 160.
End off.

(** [XFS_DINODE_FMT_*]. *)
Module format.
Definition DEV : Z := 0.
Definition LOCAL : Z := 1.
Definition EXTENTS : Z := 2.
Definition BTREE : Z := 3.
End format.

Definition DIFLAG_NEWRTBM : Z := Z.shiftl 1 2.
Definition DIFLAG2_BIGTIME : Z := Z.shiftl 1 3.
Definition DIFLAG2_NREXT64 : Z := Z.shiftl 1 4.
Definition BIGTIME_EPOCH_OFFSET : Z := Z.shiftl 1 31.

(** * Timestamps *)

(** [secs + OFFSET] wraps in [i64]; the [u64] arithmetic wraps too. *)
Definition encode_time (t : Timestamp) (is_bigtime : bool) : Z :=
  if is_bigtime
  then u64 (u64 (u64 (i64 (secs t + BIGTIME_EPOCH_OFFSET)) * 1000000000) + nsecs t)
  else Z.lor (shl64 (u32 (secs t)) 32) (nsecs t).

Definition decode_time (raw : Z) (is_bigtime : bool) : Timestamp :=
  if is_bigtime
  then mkTimestamp (i64 (i64 (raw / 1000000000) - BIGTIME_EPOCH_OFFSET)) (raw mod 1000000000)
  else mkTimestamp (i32 (u32 (shr64 raw 32))) (u32 raw).

(** * Inodes *)

Record Dinode : Type := mkDinode {
  d_ino : Z;
  mode : Z;
  d_format : Z;
  nlink : Z;
  size : Z;
  flags : Z;
  flags2 : Z;
  gen : Z;
  changecount : Z;
  atime : Timestamp;
  mtime : Timestamp;
  ctime : Timestamp;
  crtime : Timestamp;
  data : buf;
}.

Definition has_bigtime (fl2 : Z) : bool := negb (Z.land fl2 DIFLAG2_BIGTIME =? 0).

Definition Dinode_fields (d : Dinode) (uuid : buf) : list store :=
  let bt := has_bigtime (flags2 d) in
  [ P16 off.MAGIC MAGIC;
    P16 off.MODE (mode d);
    P8 off.VERSION 3;
    P8 off.FORMAT (d_format d);
    P32 off.NLINK (nlink d);
    P64 off.ATIME (encode_time (atime d) bt);
    P64 off.MTIME (encode_time (mtime d) bt);
    P64 off.CTIME (encode_time (ctime d) bt);
    P64 off.SIZE (size d);
    P8 off.FORKOFF 0;
    P8 off.AFORMAT format.EXTENTS;
    P16 off.FLAGS (flags d);
    P32 off.GEN (gen d);
    P32 off.NEXT_UNLINKED NULL32;
    P64 off.CHANGECOUNT (changecount d);
    P64 off.FLAGS2 (flags2 d);
    P64 off.CRTIME (encode_time (crtime d) bt);
    P64 off.INO (d_ino d);
    PB off.UUID 16 uuid;
    PB CORE_SIZE (length (data d)) (data d) ].

Definition Dinode_encode (d : Dinode) (uuid slot : buf) : result buf :=
  b ← run_stores (Dinode_fields d uuid) slot; stamp off.CRC b.

Definition free_fields (n_ino n_gen : Z) (uuid : buf) : list store :=
  [ P16 off.MAGIC MAGIC;
    P8 off.VERSION 3;
    P32 off.GEN n_gen;
    P32 off.NEXT_UNLINKED NULL32;
    P64 off.INO n_ino;
    PB off.UUID 16 uuid ].

Definition encode_free (n_ino n_gen : Z) (uuid slot : buf) : result buf :=
  b ← run_stores (free_fields n_ino n_gen uuid) slot; stamp off.CRC b.

(** The data fork of an empty short-form directory. *)
Definition empty_sf_dir (parent : Z) : result buf :=
  if 2 ^ 32 - 1 <? parent
  then run_stores [P8 1 1; PB 2 8 (to_be_bytes 8 parent)] (zeroes 10)
  else run_stores [PB 2 4 (to_be_bytes 4 (u32 parent))] (zeroes 6).

(** * Lemmas *)

Lemma i64_id z : - 2 ^ 63 <= z < 2 ^ 63 -> i64 z = z.
Proof. intros. unfold i64. rewrite Z.mod_small; lia. Qed.

Lemma i32_u32 z : - 2 ^ 31 <= z < 2 ^ 31 -> i32 (u32 z) = z.
Proof.
  intros H. unfold i32, u32. rewrite Z.add_mod_idemp_l, Z.mod_small by lia. lia.
Qed.

(** The range of times each format holds. *)
Definition time_in (is_bigtime : bool) (t : Timestamp) : Prop :=
  if is_bigtime
  then - 2 ^ 31 <= secs t < 2 ^ 34 - 2 ^ 31 /\ 0 <= nsecs t < 1000000000
  else - 2 ^ 31 <= secs t < 2 ^ 31 /\ 0 <= nsecs t < 2 ^ 32.

Lemma encode_time_range bt t : time_in bt t -> 0 <= encode_time t bt < 2 ^ 64.
Proof.
  unfold time_in, encode_time. destruct bt; intros [Hs Hn]; [apply u64_range|].
  pose proof (u32_range (secs t)).
  rewrite shl64_mul, lor_add_shift by lia. lia.
Qed.

Lemma decode_encode_time bt t : time_in bt t -> decode_time (encode_time t bt) bt = t.
Proof.
  unfold time_in, encode_time, decode_time. destruct bt; intros [Hs Hn].
  - unfold BIGTIME_EPOCH_OFFSET. change (Z.shiftl 1 31) with (2 ^ 31).
    destruct t as [s ns]. cbn [secs nsecs] in *.
    rewrite (i64_id (s + 2 ^ 31)) by lia.
    rewrite (u64_id (s + 2 ^ 31)), (u64_id (_ * _)), u64_id by lia.
    rewrite (Z.add_comm (_ * _)), Z.div_add, Z.mod_add, Z.div_small, Z.mod_small by lia.
    rewrite (i64_id (0 + _)) by lia. rewrite i64_id by lia. f_equal. lia.
  - pose proof (u32_range (secs t)) as Hr.
    rewrite shl64_mul, lor_add_shift by lia. rewrite shr64_div by lia.
    rewrite Z.div_add_l, (Z.div_small (nsecs t)), Z.add_0_r by lia.
    rewrite (u32_id (u32 _)), i32_u32 by lia.
    unfold u32 at 1. rewrite Z.add_comm, Z.mod_add, Z.mod_small by lia. by destruct t.
Qed.

Lemma Dinode_sealed d uuid b :
  (CORE_SIZE + length (data d) <= length b)%nat -> length uuid = 16%nat ->
  exists b', Dinode_encode d uuid b = Ok b' /\
    sealed (length b) off.CRC (Dinode_fields d uuid) b b'.
Proof.
  unfold CORE_SIZE. intros Hb Hu. unfold Dinode_encode. rewrite sealed_stamp.
  apply write_sealed_ok; [unfold off.CRC; lia | lia |].
  change (Dinode_fields d uuid)
    with (take 19 (Dinode_fields d uuid) ++ [PB CORE_SIZE (length (data d)) (data d)]).
  apply Forall_app_2.
  - apply (stores_in 176); [reflexivity | lia | repeat constructor; done].
  - repeat constructor; cbn; lia.
Qed.

Lemma free_sealed n_ino n_gen uuid b :
  (CORE_SIZE <= length b)%nat -> length uuid = 16%nat ->
  exists b', encode_free n_ino n_gen uuid b = Ok b' /\
    sealed (length b) off.CRC (free_fields n_ino n_gen uuid) b b'.
Proof.
  unfold CORE_SIZE. intros Hb Hu. unfold encode_free. rewrite sealed_stamp.
  apply write_sealed_ok; [unfold off.CRC; lia | lia |].
  apply (stores_in 176); [reflexivity | done | repeat constructor; done].
Qed.

(** Values within their fields, and times the inode's format holds. *)
Definition Dinode_ok (d : Dinode) : Prop :=
  0 <= d_ino d < 2 ^ 64 /\ 0 <= mode d < 2 ^ 16 /\ 0 <= d_format d < 2 ^ 8 /\
  0 <= nlink d < 2 ^ 32 /\ 0 <= size d < 2 ^ 64 /\ 0 <= flags d < 2 ^ 16 /\
  0 <= flags2 d < 2 ^ 64 /\ 0 <= gen d < 2 ^ 32 /\ 0 <= changecount d < 2 ^ 64 /\
  Forall (time_in (has_bigtime (flags2 d))) [atime d; mtime d; ctime d; crtime d].

(** An inode's fields, read where [inspect.rs] reads them, with [n] bytes of
    data fork. *)
Definition Dinode_read (n : nat) (b : buf) : result Dinode :=
  fl2 ← be64 b off.FLAGS2;
  let bt := has_bigtime fl2 in
  i ← be64 b off.INO; m ← be16 b off.MODE; f ← index b off.FORMAT;
  nl ← be32 b off.NLINK; sz ← be64 b off.SIZE; fl ← be16 b off.FLAGS; ge ← be32 b off.GEN;
  cc ← be64 b off.CHANGECOUNT;
  ta ← be64 b off.ATIME; tm ← be64 b off.MTIME; tc ← be64 b off.CTIME; tcr ← be64 b off.CRTIME;
  d ← slice b CORE_SIZE (CORE_SIZE + n);
  Ok (mkDinode i m f nl sz fl fl2 ge cc (decode_time ta bt) (decode_time tm bt)
        (decode_time tc bt) (decode_time tcr bt) d).

(** * Lemmas: what the formatter relies on *)

Lemma Dinode_sealed_read d uuid n b b' :
  Dinode_ok d -> sealed n off.CRC (Dinode_fields d uuid) b b' ->
  Dinode_read (length (data d)) b' = Ok d.
Proof.
  intros (H1 & H2 & H3 & H4 & H5 & H6 & H7 & H8 & H9 & HT) S.
  do 4 (apply Forall_cons_1 in HT as [? HT]). unfold Dinode_read.
  rewrite (sealed_be64 S off.FLAGS2 (flags2 d) eq_refl eq_refl), u64_id by done.
  cbn [mbind result_bind].
  repeat (read_sealed S; cbn [mbind result_bind]).
  rewrite (sealed_bytes S CORE_SIZE (length (data d)) (data d)); [|done|].
  2: { cbn -[Nat.eqb]. by rewrite !Nat.eqb_refl. }
  cbn [mbind result_bind].
  rewrite !(u64_id (encode_time _ _)) by (by apply encode_time_range).
  rewrite !decode_encode_time by done.
  rewrite (u64_id (d_ino d)), (u16_id (mode d)), (u8_id (d_format d)), (u32_id (nlink d)),
    (u64_id (size d)), (u16_id (flags d)), (u32_id (gen d)), (u64_id (changecount d)) by done.
  by destruct d.
Qed.

Lemma Dinode_encode_reads d uuid b :
  (CORE_SIZE + length (data d) <= length b)%nat -> length uuid = 16%nat -> Dinode_ok d ->
  exists b', Dinode_encode d uuid b = Ok b' /\ length b' = length b /\
    verify b' off.CRC = Ok true /\ Dinode_read (length (data d)) b' = Ok d.
Proof.
  intros Hb Hu Hd. destruct (Dinode_sealed d uuid b Hb Hu) as (b' & E & S).
  exists b'. split_and!; [done | apply S | by apply (sealed_verify_all S) |].
  by eapply Dinode_sealed_read.
Qed.

(** A free inode: its number and generation, and no type. *)
Lemma encode_free_reads n_ino n_gen uuid isz :
  (CORE_SIZE <= isz)%nat -> length uuid = 16%nat -> 0 <= n_ino < 2 ^ 64 -> 0 <= n_gen < 2 ^ 32 ->
  exists b, encode_free n_ino n_gen uuid (zeroes isz) = Ok b /\ length b = isz /\
    verify b off.CRC = Ok true /\ be16 b off.MAGIC = Ok MAGIC /\ be16 b off.MODE = Ok 0 /\
    be32 b off.GEN = Ok n_gen /\ be64 b off.INO = Ok n_ino.
Proof.
  intros Hb Hu Hi Hg. destruct (free_sealed n_ino n_gen uuid (zeroes isz)) as (b & E & S);
    [by rewrite length_zeroes | done |].
  pose proof (sealed_length _ _ _ _ _ S) as L. rewrite length_zeroes in L.
  exists b. split_and!; [done | done | by apply (sealed_verify_all S) | by read_sealed S | | |].
  - rewrite be16_slice.
    rewrite (sealed_untouched S off.MODE 2 eq_refl eq_refl), slice_in
      by (rewrite length_zeroes; unfold off.MODE, CORE_SIZE in *; lia).
    do 4 (destruct isz as [|isz]; [unfold CORE_SIZE in Hb; lia|]). done.
  - read_sealed S. by rewrite u32_id.
  - read_sealed S. by rewrite u64_id.
Qed.

Definition same_place (s s' : store) : bool :=
  (store_off s =? store_off s')%nat && (store_len s =? store_len s')%nat.

(** Encoding over a slot already initialised free is encoding into a zeroed
    one: the fields of a free inode are all among those of any other. *)
Lemma Dinode_over_free d uuid n_ino n_gen uuid' isz b :
  (CORE_SIZE + length (data d) <= isz)%nat -> length uuid = 16%nat -> length uuid' = 16%nat ->
  encode_free n_ino n_gen uuid' (zeroes isz) = Ok b ->
  Dinode_encode d uuid b = Dinode_encode d uuid (zeroes isz).
Proof.
  intros Hb Hu Hu' E. unfold CORE_SIZE in *.
  destruct (free_sealed n_ino n_gen uuid' (zeroes isz)) as (b' & E' & S);
    [rewrite length_zeroes; unfold CORE_SIZE; lia | done |].
  rewrite E in E'. injection E' as <-.
  pose proof (sealed_length _ _ _ _ _ S) as L. rewrite length_zeroes in L.
  destruct (Dinode_sealed d uuid b) as (? & _ & S'); [unfold CORE_SIZE; lia | done |].
  unfold Dinode_encode. rewrite !sealed_stamp.
  apply write_sealed_agree; [unfold off.CRC; lia | by rewrite length_zeroes | apply S' |].
  intros i. destruct (decide (off.CRC <= i < off.CRC + 4)%nat) as [|Hc]; [by left|]. right.
  destruct (decide (Exists (covers_at i) (Dinode_fields d uuid))) as [?|Hn]; [by left|]. right.
  assert (Forall (apart i (i + 1)) (free_fields n_ino n_gen uuid')) as Ha.
  { apply Forall_forall. intros s Hs%list_elem_of_In.
    assert (forallb (fun s => existsb (same_place s) (Dinode_fields d uuid))
      (free_fields n_ino n_gen uuid') = true) as Hsub by reflexivity.
    rewrite forallb_forall in Hsub. specialize (Hsub s ltac:(by apply list_elem_of_In)).
    apply existsb_exists in Hsub as (s' & Hs' & [Ho%Nat.eqb_eq Hl%Nat.eqb_eq]%andb_prop).
    unfold apart. destruct (decide (covers_at i s')) as [Hcov|Hcov].
    - destruct Hn. apply List.Exists_exists. by exists s'.
    - unfold covers_at in Hcov. lia. }
  pose proof (sealed_apart S i 1 ltac:(lia) Ha) as Hs.
  destruct (decide (i < isz)%nat).
  - rewrite !slice_in in Hs by (rewrite ?length_zeroes; lia). injection Hs as Hs.
    apply (f_equal (fun l => l !! 0%nat)) in Hs.
    rewrite !lookup_take_lt, !lookup_drop, Nat.add_0_r in Hs by lia. done.
  - rewrite !lookup_ge_None_2; [done | rewrite length_zeroes; lia | lia].
Qed.

(** * Properties *)

(** A timestamp in an inode format's range reads back as it was: from
    [-2^31] seconds for 2^34 seconds with nanoseconds below a second in the
    [bigtime] format, 32-bit signed seconds in the old one. *)
Theorem time_roundtrip is_bigtime t :
  time_in is_bigtime t ->
  0 <= encode_time t is_bigtime < 2 ^ 64 /\
  decode_time (encode_time t is_bigtime) is_bigtime = t.
Proof. split; [by apply encode_time_range | by apply decode_encode_time]. Qed.

Lemma time_roundtrip_witness :
  (0 <= encode_time (mkTimestamp (-1) 999999999) true < 2 ^ 64 /\
   decode_time (encode_time (mkTimestamp (-1) 999999999) true) true
     = mkTimestamp (-1) 999999999) /\
  (0 <= encode_time (mkTimestamp (-5) 7) false < 2 ^ 64 /\
   decode_time (encode_time (mkTimestamp (-5) 7) false) false = mkTimestamp (-5) 7).
Proof. split; apply time_roundtrip; cbn; lia. Defined.

(** An allocated inode encoded into its slot reads back field for field,
    times and data fork included, with its magic, version 3, no attribute
    fork and an empty unlinked pointer, and verifies. *)
Theorem dinode_roundtrip d uuid b :
  (CORE_SIZE + length (data d) <= length b)%nat -> length uuid = 16%nat -> Dinode_ok d ->
  exists b', Dinode_encode d uuid b = Ok b' /\ length b' = length b /\
    verify b' off.CRC = Ok true /\ Dinode_read (length (data d)) b' = Ok d /\
    be16 b' off.MAGIC = Ok MAGIC /\ index b' off.VERSION = Ok 3 /\
    index b' off.FORKOFF = Ok 0 /\ be32 b' off.NEXT_UNLINKED = Ok NULL32 /\
    slice b' off.UUID (off.UUID + 16) = Ok uuid.
Proof.
  intros Hb Hu Hd. destruct (Dinode_sealed d uuid b Hb Hu) as (b' & E & S).
  exists b'. split; [exact E|]. split; [apply S|]. split; [by apply (sealed_verify_all S)|].
  split; [by eapply Dinode_sealed_read|split_and!; [by read_sealed S ..| by apply (sealed_bytes S)]].
Qed.

Lemma dinode_roundtrip_witness :
  exists b', Dinode_encode
      (mkDinode 128 16877 1 2 6 0 24 0 2 (mkTimestamp 0 5) (mkTimestamp 1700000000 5)
         (mkTimestamp 1700000000 5) (mkTimestamp 1700000000 5) (zeroes 6))
      (zeroes 16) (zeroes 512) = Ok b' /\ length b' = 512%nat /\
    verify b' off.CRC = Ok true /\
    Dinode_read 6 b' = Ok
      (mkDinode 128 16877 1 2 6 0 24 0 2 (mkTimestamp 0 5) (mkTimestamp 1700000000 5)
         (mkTimestamp 1700000000 5) (mkTimestamp 1700000000 5) (zeroes 6)) /\
    be16 b' off.MAGIC = Ok MAGIC /\ index b' off.VERSION = Ok 3 /\
    index b' off.FORKOFF = Ok 0 /\ be32 b' off.NEXT_UNLINKED = Ok NULL32 /\
    slice b' off.UUID (off.UUID + 16) = Ok (zeroes 16).
Proof.
  apply (dinode_roundtrip
      (mkDinode 128 16877 1 2 6 0 24 0 2 (mkTimestamp 0 5) (mkTimestamp 1700000000 5)
         (mkTimestamp 1700000000 5) (mkTimestamp 1700000000 5) (zeroes 6))
      (zeroes 16) (zeroes 512)); [vm_compute; lia | done |].
  unfold Dinode_ok. cbn [d_ino mode d_format nlink size flags flags2 gen changecount atime mtime
    ctime crtime]. change (has_bigtime 24) with true.
  split_and!; try lia. repeat (apply Forall_cons_2; [cbn; lia|]). apply Forall_nil_2.
Defined.
