(* ===== verification/LogRecord.v ===== *)
(** [src/src/structs/log.rs]: the log record [mkfs.xfs] leaves at the start
    of the internal log, and [xfs_admin -U] at every later place.

    A record is a list of stores into a zeroed buffer; the theorem reads the
    header, the unmount record and the cycle stamp of every basic block back
    from it, whatever the stripe unit. *)

From Stdlib Require Import ZArith Lia.
From stdpp Require Import base tactics list numbers.
From coqutil Require Import Byte Word.LittleEndianList.
From S2P Require Import Prelude Bytes.

Definition HEADER_MAGIC : Z := 0xfeedbabe.
Definition BIG_RECORD_BSIZE : Z := 32 * 1024.
Definition HEADER_CYCLE_SIZE : Z := 32 * 1024.
Definition FMT_LINUX_LE : Z := 1.
Definition UNMOUNT_TYPE : Z := 0x556e.
Definition UNMOUNT_TID : Z := 0xb0c0d0d0.
Definition CLIENT_LOG : Z := 0xaa.
Definition UNMOUNT_TRANS : Z := 0x20.
Definition BBSIZE : nat := 512.

(** Field offsets in [struct xlog_rec_header]. *)
Module off.
Definition MAGICNO : nat := 0.
Definition CYCLE : nat := 4.
Definition VERSION : nat := 8.
Definition LEN : nat := 12.
Definition LSN : nat := 16.
Definition TAIL_LSN : nat := 24.
Definition CRC : nat := 32.
Definition PREV_BLOCK : nat := 36.
Definition NUM_LOGOPS : nat := 40.
Definition CYCLE_DATA : nat := 44.
Definition FMT : nat := 300.
Definition FS_UUID : nat := 304.
Definition SIZE : nat := 320.
End off.

Definition clear_sunit (logsunit logsectsize : Z) : Z :=
  if logsunit =? 1 then logsectsize else logsunit.

Definition lsn (cycle block : Z) : Z := Z.lor (shl64 cycle 32) block.

(** How many header blocks a record of [sunit] bytes has, and how many basic
    blocks it is. *)
Definition hdrs (sunit : Z) : Z :=
  if HEADER_CYCLE_SIZE <? sunit then div_ceil sunit HEADER_CYCLE_SIZE else 1.
Definition len_bb (sunit : Z) : Z :=
  Z.max (if 0 <? sunit then div_ceil sunit 512 else 1) (hdrs sunit + 1).

Definition header_stores (uuid : buf) (sunit lsn tail_lsn : Z) : list store :=
  [ P32 off.MAGICNO HEADER_MAGIC;
    P32 off.CYCLE (u32 (shr64 lsn 32));
    P32 off.VERSION 2;
    P32 off.CRC 0;
    P32 off.PREV_BLOCK (2 ^ 32 - 1);
    P32 off.NUM_LOGOPS 1;
    P32 off.FMT FMT_LINUX_LE;
    P32 off.SIZE (Z.max sunit BIG_RECORD_BSIZE);
    P64 off.LSN lsn;
    P64 off.TAIL_LSN tail_lsn;
    PB off.FS_UUID 16 uuid;
    P32 off.LEN (u32 (Z.max (512 * 2) sunit - u32 (hdrs sunit * 512))) ].

(** The word [cycle] at the start of each of the basic blocks [from..to]. *)
Definition stamp_blocks (from to : nat) (cycle : Z) : list store :=
  (fun bb => P32 (bb * BBSIZE) cycle) <$> seq from (to - from).

(** The op header and the unmount format at block [u / 512]. *)
Definition unmount_stores (u : nat) : list store :=
  [ P32 u UNMOUNT_TID;
    P32 (u + 4) 8;
    P8 (u + 8) CLIENT_LOG;
    P8 (u + 9) UNMOUNT_TRANS;
    PB (u + 12) 2 (to_le_bytes 2 UNMOUNT_TYPE) ].

Definition record (uuid : buf) (sunit lsn tail_lsn : Z) : result buf :=
  let cycle := u32 (shr64 lsn 32) in
  let h := Z.to_nat (hdrs sunit) in
  let n := Z.to_nat (len_bb sunit) in
  let u := (h * BBSIZE)%nat in
  rec ← run_stores (header_stores uuid sunit lsn tail_lsn) (zeroes (n * BBSIZE));
  rec ← run_stores (stamp_blocks 1 h cycle) rec;
  rec ← run_stores (unmount_stores u) rec;
  first ← be32 rec u;
  rec ← run_stores [P32 off.CYCLE_DATA first; P32 u cycle] rec;
  run_stores (stamp_blocks (h + 1) n cycle) rec.

Definition first_record (uuid : buf) (sunit : Z) : result buf :=
  let l := lsn 1 0 in record uuid sunit l l.

(** * Lemmas *)

Lemma hdrs_range sunit : 0 <= sunit < 2 ^ 32 -> 1 <= hdrs sunit <= 2 ^ 17 + 1.
Proof.
  intros H. unfold hdrs, HEADER_CYCLE_SIZE. destruct (Z.ltb_spec (32 * 1024) sunit); [|lia].
  pose proof (div_ceil_bounds sunit (32 * 1024) ltac:(lia)). lia.
Qed.

(** All the stores of [record]: the word it reads back is the ticket id it
    has just written. *)
Definition record_stores (uuid : buf) (sunit lsn tail_lsn : Z) : list store :=
  let cycle := u32 (shr64 lsn 32) in
  let h := Z.to_nat (hdrs sunit) in
  let u := (h * BBSIZE)%nat in
  header_stores uuid sunit lsn tail_lsn ++ stamp_blocks 1 h cycle ++ unmount_stores u ++
  [P32 off.CYCLE_DATA UNMOUNT_TID; P32 u cycle] ++
  stamp_blocks (h + 1) (Z.to_nat (len_bb sunit)) cycle.

Lemma stamp_blocks_apart from to cycle lo hi :
  (hi <= from * BBSIZE \/ to * BBSIZE <= lo)%nat ->
  Forall (apart lo hi) (stamp_blocks from to cycle).
Proof.
  unfold BBSIZE. intros H. apply Forall_fmap, Forall_seq. intros bb Hb.
  unfold apart. cbn -[Nat.mul BBSIZE]. unfold BBSIZE. lia.
Qed.

Lemma stamp_blocks_in from to cycle m :
  (to * BBSIZE <= m)%nat -> Forall (store_in m) (stamp_blocks from to cycle).
Proof.
  unfold BBSIZE. intros H. apply Forall_fmap, Forall_seq. intros bb Hb.
  split; [cbn -[Nat.mul BBSIZE]; unfold BBSIZE; lia | apply length_to_be_bytes].
Qed.

Lemma record_stores_in uuid sunit l t :
  0 <= sunit < 2 ^ 32 -> length uuid = 16%nat ->
  Forall (store_in (Z.to_nat (len_bb sunit) * BBSIZE)) (record_stores uuid sunit l t).
Proof.
  intros Hs Hu. pose proof (hdrs_range sunit Hs) as Hh.
  assert (hdrs sunit + 1 <= len_bb sunit) as Hn by (unfold len_bb; lia).
  set (n := (Z.to_nat (len_bb sunit) * BBSIZE)%nat).
  assert (length (zeroes n) = n) as Hz by apply length_zeroes.
  assert (1024 <= n /\ Z.to_nat (hdrs sunit) * BBSIZE + 512 <= n)%nat as [Hn1 Hn2]
    by (subst n; unfold BBSIZE; lia).
  unfold record_stores. repeat (apply Forall_app_2).
  - rewrite <- Hz. apply (stores_in 1024); [reflexivity | lia | repeat constructor; done].
  - apply stamp_blocks_in. lia.
  - unfold unmount_stores. repeat (apply Forall_cons_2; [split; [cbn; lia | done]|]).
    apply Forall_nil_2.
  - repeat (apply Forall_cons_2; [split; [cbn -[Nat.mul]; lia | apply length_to_be_bytes]|]).
    apply Forall_nil_2.
  - apply stamp_blocks_in. subst n. lia.
Qed.

(** The last store to a field is what the field holds. *)
Lemma slice_patches_last pre s post (b : buf) :
  Forall (store_in (length b)) (pre ++ s :: post) ->
  Forall (apart (store_off s) (store_off s + store_len s)) post ->
  slice (patches (pre ++ s :: post) b) (store_off s) (store_off s + store_len s)
    = Ok (store_bytes s).
Proof.
  intros Hi Ha. apply Forall_app in Hi as [Hp Hi]. apply Forall_cons_1 in Hi as [[H1 H2] Hi].
  unfold patches. rewrite foldl_app. fold (patches pre b). cbn [foldl].
  set (b1 := patches pre b).
  assert (length b1 = length b) as L1 by (by apply (run_stores_in pre b)).
  fold (patches post (patch (store_off s) (store_bytes s) b1)).
  rewrite slice_patches_apart; [|rewrite length_patch; rewrite ?L1; done || lia | done].
  apply slice_patch_same; lia.
Qed.

(** [record] is its stores, run on zeroes. *)
Lemma record_eq uuid sunit l t :
  0 <= sunit < 2 ^ 32 -> length uuid = 16%nat ->
  record uuid sunit l t =
    Ok (patches (record_stores uuid sunit l t) (zeroes (Z.to_nat (len_bb sunit) * BBSIZE))).
Proof.
  intros Hs Hu. pose proof (record_stores_in uuid sunit l t Hs Hu) as Hin.
  set (n := (Z.to_nat (len_bb sunit) * BBSIZE)%nat) in *.
  assert (length (zeroes n) = n) as Hz by apply length_zeroes. rewrite <- Hz in Hin.
  pose proof (run_stores_in _ _ Hin) as [Hr _]. rewrite <- Hr. clear Hr.
  unfold record, record_stores in *. fold n. set (u := (Z.to_nat (hdrs sunit) * BBSIZE)%nat) in *.
  set (cycle := u32 (shr64 l 32)) in *. rewrite !run_stores_app.
  apply Forall_app in Hin as [H1 Hin]. destruct (run_stores_in _ _ H1) as [-> L1].
  cbn [mbind result_bind]. apply Forall_app in Hin as [H2 Hin]. rewrite run_stores_app.
  rewrite <- L1 in H2. destruct (run_stores_in _ _ H2) as [-> L2]. cbn [mbind result_bind].
  apply Forall_app in Hin as [H3 Hin]. rewrite run_stores_app.
  rewrite <- L1, <- L2 in H3. destruct (run_stores_in _ _ H3) as [-> L3]. cbn [mbind result_bind].
  set (b2 := patches (stamp_blocks _ _ _) _) in *.
  assert (be32 (patches (unmount_stores u) b2) u = Ok UNMOUNT_TID) as ->.
  { pose proof (slice_patches_last [] (P32 u UNMOUNT_TID) (tail (unmount_stores u)) b2 H3) as S.
    unfold be32. cbn [store_off store_len] in S. cbn [app tail unmount_stores] in S.
    unfold unmount_stores. rewrite S.
    - cbn [mbind result_bind store_bytes]. by rewrite of_to_be_bytes.
    - repeat (apply Forall_cons_2; [left; cbn; lia|]). apply Forall_nil_2. }
  cbn [mbind result_bind]. by rewrite run_stores_app.
Qed.

(** A field of a record, by the store it comes from: [pre] the stores before
    it, [post] those after. *)
Lemma record_field uuid sunit l t r pre s post :
  0 <= sunit < 2 ^ 32 -> length uuid = 16%nat -> record uuid sunit l t = Ok r ->
  record_stores uuid sunit l t = pre ++ s :: post ->
  Forall (apart (store_off s) (store_off s + store_len s)) post ->
  slice r (store_off s) (store_off s + store_len s) = Ok (store_bytes s).
Proof.
  intros Hs Hu Hr E Ha. rewrite record_eq in Hr by done.
  assert (r = patches (record_stores uuid sunit l t)
                (zeroes (Z.to_nat (len_bb sunit) * BBSIZE))) as -> by congruence. clear Hr.
  pose proof (record_stores_in uuid sunit l t Hs Hu) as Hin. rewrite E in Hin |- *.
  apply slice_patches_last; [by rewrite length_zeroes | done].
Qed.

(** The stores after the header's own leave the header's first words. *)
Lemma after_header_apart sunit cycle lo hi :
  0 <= sunit < 2 ^ 32 -> (hi <= 44 \/ (48 <= lo /\ hi <= 512))%nat ->
  let h := Z.to_nat (hdrs sunit) in
  Forall (apart lo hi) (stamp_blocks 1 h cycle ++ unmount_stores (h * BBSIZE) ++
    [P32 off.CYCLE_DATA UNMOUNT_TID; P32 (h * BBSIZE) cycle] ++
    stamp_blocks (h + 1) (Z.to_nat (len_bb sunit)) cycle).
Proof.
  intros Hs Hb h. assert (1 <= h)%nat as Hh by (pose proof (hdrs_range sunit Hs); lia).
  unfold BBSIZE. repeat (apply Forall_app_2).
  - apply stamp_blocks_apart. unfold BBSIZE. lia.
  - unfold unmount_stores. repeat (apply Forall_cons_2; [left; cbn -[Nat.mul]; lia|]).
    apply Forall_nil_2.
  - apply Forall_cons_2; [unfold apart, off.CYCLE_DATA; cbn; lia|].
    apply Forall_cons_2; [left; cbn -[Nat.mul]; lia|]. apply Forall_nil_2.
  - apply stamp_blocks_apart. unfold BBSIZE. lia.
Qed.

(** A header field, [k] stores into [header_stores]. *)
Lemma header_field uuid sunit l t r k s :
  0 <= sunit < 2 ^ 32 -> length uuid = 16%nat -> record uuid sunit l t = Ok r ->
  header_stores uuid sunit l t !! k = Some s ->
  (store_off s + store_len s <= 44 \/
   (48 <= store_off s /\ store_off s + store_len s <= 512))%nat ->
  Forall (apart (store_off s) (store_off s + store_len s))
    (drop (S k) (header_stores uuid sunit l t)) ->
  slice r (store_off s) (store_off s + store_len s) = Ok (store_bytes s).
Proof.
  intros Hs Hu Hr Hk Hlo Hd.
  eapply (record_field uuid sunit l t r (take k (header_stores uuid sunit l t)) s);
    [done..| |].
  - unfold record_stores. rewrite <- (take_drop_middle _ _ _ Hk) at 1.
    by rewrite <- (assoc_L (++)).
  - apply Forall_app_2; [done|]. by apply after_header_apart.
Qed.

(** The same, with the side conditions left to evaluation. *)
Lemma header_field_b uuid sunit l t r k s :
  0 <= sunit < 2 ^ 32 -> length uuid = 16%nat -> record uuid sunit l t = Ok r ->
  header_stores uuid sunit l t !! k = Some s ->
  (store_off s + store_len s <=? 44)%nat ||
    ((48 <=? store_off s)%nat && (store_off s + store_len s <=? 512)%nat) = true ->
  forallb (apartb (store_off s) (store_off s + store_len s))
    (drop (S k) (header_stores uuid sunit l t)) = true ->
  slice r (store_off s) (store_off s + store_len s) = Ok (store_bytes s).
Proof.
  intros Hs Hu Hr Hk Hb Hd. apply (header_field uuid sunit l t r k); auto using forallb_apart.
  apply orb_prop in Hb as [?%Nat.leb_le|[?%Nat.leb_le ?%Nat.leb_le]%andb_prop]; lia.
Qed.

(** * Properties *)

(** Everything the log's readers look at in a record of [sunit] bytes. *)
Record well_formed (uuid : buf) (sunit lsn tail_lsn : Z) (r : buf) : Prop := {
  wf_length : length r = (Z.to_nat (len_bb sunit) * BBSIZE)%nat;
  wf_magic : be32 r off.MAGICNO = Ok HEADER_MAGIC;
  wf_cycle : be32 r off.CYCLE = Ok (u32 (shr64 lsn 32));
  wf_version : be32 r off.VERSION = Ok 2;
  wf_lsn : be64 r off.LSN = Ok lsn;
  wf_tail : be64 r off.TAIL_LSN = Ok tail_lsn;
  wf_ops : be32 r off.NUM_LOGOPS = Ok 1;
  wf_size : be32 r off.SIZE = Ok (Z.max sunit BIG_RECORD_BSIZE);
  wf_len : be32 r off.LEN = Ok (Z.max 1024 sunit - hdrs sunit * 512);
  wf_uuid : slice r off.FS_UUID (off.FS_UUID + 16) = Ok uuid;
  (* the op header's first word moved into the header's cycle data *)
  wf_cycle_data : be32 r off.CYCLE_DATA = Ok UNMOUNT_TID;
  wf_unmount : forall u, u = (Z.to_nat (hdrs sunit) * BBSIZE)%nat ->
    be32 r (u + 4) = Ok 8 /\ index r (u + 8) = Ok CLIENT_LOG /\
    index r (u + 9) = Ok UNMOUNT_TRANS;
  (* every other basic block starts with the cycle *)
  wf_stamped : forall bb, (1 <= bb < Z.to_nat (len_bb sunit))%nat ->
    be32 r (bb * BBSIZE) = Ok (u32 (shr64 lsn 32));
}.

(** One store of [stamp_blocks]. *)
Lemma stamp_blocks_split from to cycle bb : (from <= bb < to)%nat ->
  stamp_blocks from to cycle =
    stamp_blocks from bb cycle ++ P32 (bb * BBSIZE) cycle :: stamp_blocks (bb + 1) to cycle.
Proof.
  intros H. unfold stamp_blocks.
  replace (to - from)%nat with ((bb - from) + S (to - (bb + 1)))%nat by lia.
  rewrite seq_app, fmap_app. cbn [seq fmap list_fmap].
  replace (from + (bb - from))%nat with bb by lia. by rewrite Nat.add_1_r.
Qed.

Section Reads.
Variables (uuid : buf) (sunit l t : Z) (r : buf).
Hypothesis Hs : 0 <= sunit < 2 ^ 32.
Hypothesis Hu : length uuid = 16%nat.
Hypothesis Hr : record uuid sunit l t = Ok r.

Let h := Z.to_nat (hdrs sunit).
Let n := Z.to_nat (len_bb sunit).
Let cycle := u32 (shr64 l 32).

Lemma h_n : (1 <= h /\ h + 1 <= n)%nat.
Proof. pose proof (hdrs_range sunit Hs). subst h n. unfold len_bb. lia. Qed.

Lemma stamped_ext bb : (1 <= bb < h)%nat ->
  slice r (bb * BBSIZE) (bb * BBSIZE + 4) = Ok (to_be_bytes 4 cycle).
Proof.
  intros Hb. eapply (record_field uuid sunit l t r _ (P32 (bb * BBSIZE) cycle)); [done..| |].
  - unfold record_stores. fold h cycle. rewrite (stamp_blocks_split 1 h cycle bb Hb).
    rewrite <- app_assoc, app_comm_cons, (app_assoc (header_stores _ _ _ _)). reflexivity.
  - pose proof h_n. cbn [store_off store_len]. unfold BBSIZE. repeat (apply Forall_app_2).
    + apply stamp_blocks_apart. unfold BBSIZE. lia.
    + unfold unmount_stores. repeat (apply Forall_cons_2; [left; cbn -[Nat.mul]; lia|]).
      apply Forall_nil_2.
    + apply Forall_cons_2; [right; unfold off.CYCLE_DATA; cbn -[Nat.mul]; lia|].
      apply Forall_cons_2; [left; cbn -[Nat.mul]; lia|]. apply Forall_nil_2.
    + apply stamp_blocks_apart. unfold BBSIZE. lia.
Qed.

Lemma stamped_unmount :
  slice r (h * BBSIZE) (h * BBSIZE + 4) = Ok (to_be_bytes 4 cycle).
Proof.
  eapply (record_field uuid sunit l t r
    (header_stores uuid sunit l t ++ stamp_blocks 1 h cycle ++ unmount_stores (h * BBSIZE) ++
     [P32 off.CYCLE_DATA UNMOUNT_TID]) (P32 (h * BBSIZE) cycle)); [done..| |].
  - rewrite <- !app_assoc. reflexivity.
  - apply stamp_blocks_apart. unfold BBSIZE. cbn -[Nat.mul]. lia.
Qed.

Lemma stamped_rest bb : (h + 1 <= bb < n)%nat ->
  slice r (bb * BBSIZE) (bb * BBSIZE + 4) = Ok (to_be_bytes 4 cycle).
Proof.
  intros Hb. eapply (record_field uuid sunit l t r _ (P32 (bb * BBSIZE) cycle)); [done..| |].
  - unfold record_stores. fold h cycle n. rewrite (stamp_blocks_split (h + 1) n cycle bb Hb).
    rewrite !app_assoc. reflexivity.
  - apply stamp_blocks_apart. unfold BBSIZE. cbn -[Nat.mul]. lia.
Qed.

(** The op header's other fields, [k] stores into [unmount_stores]. *)
Lemma unmount_field k s :
  unmount_stores (h * BBSIZE) !! k = Some s -> (h * BBSIZE + 4 <= store_off s)%nat ->
  (store_off s + store_len s <= h * BBSIZE + 512)%nat ->
  Forall (apart (store_off s) (store_off s + store_len s))
    (drop (S k) (unmount_stores (h * BBSIZE))) ->
  slice r (store_off s) (store_off s + store_len s) = Ok (store_bytes s).
Proof.
  intros Hk H1 H2 Hd. pose proof h_n. unfold BBSIZE in H1, H2.
  eapply (record_field uuid sunit l t r _ s); [done..| |].
  - unfold record_stores. fold h cycle n. rewrite <- (take_drop_middle _ _ _ Hk) at 1.
    rewrite <- (app_assoc (take _ _)), <- app_comm_cons.
    rewrite (app_assoc (stamp_blocks 1 h cycle)), (app_assoc (header_stores _ _ _ _)).
    reflexivity.
  - apply Forall_app_2; [done|].
    apply Forall_cons_2; [right; unfold off.CYCLE_DATA; cbn; lia|].
    apply Forall_cons_2; [right; unfold BBSIZE; cbn -[Nat.mul]; lia|].
    apply stamp_blocks_apart. unfold BBSIZE. lia.
Qed.

Lemma cycle_data_field :
  slice r off.CYCLE_DATA (off.CYCLE_DATA + 4) = Ok (to_be_bytes 4 UNMOUNT_TID).
Proof.
  eapply (record_field uuid sunit l t r
    (header_stores uuid sunit l t ++ stamp_blocks 1 h cycle ++ unmount_stores (h * BBSIZE))
    (P32 off.CYCLE_DATA UNMOUNT_TID)); [done..| |].
  - rewrite <- !app_assoc. reflexivity.
  - pose proof h_n. cbn -[Nat.mul]. apply Forall_cons_2.
    + left. unfold BBSIZE, off.CYCLE_DATA. cbn -[Nat.mul]. lia.
    + apply stamp_blocks_apart. left. unfold BBSIZE. lia.
Qed.
End Reads.

Lemma be32_of_slice (r : buf) o v :
  slice r o (o + 4) = Ok (to_be_bytes 4 v) -> be32 r o = Ok (u32 v).
Proof. intros H. unfold be32. rewrite H. cbn [mbind result_bind]. by rewrite of_be_bytes_mod. Qed.

Lemma be64_of_slice (r : buf) o v :
  slice r o (o + 8) = Ok (to_be_bytes 8 v) -> be64 r o = Ok (u64 v).
Proof. intros H. unfold be64. rewrite H. cbn [mbind result_bind]. by rewrite of_be_bytes_mod. Qed.

Lemma index_of_slice (r : buf) o v :
  slice r o (o + 1) = Ok [byte.of_Z v] -> index r o = Ok (u8 v).
Proof. intros H. rewrite index_slice, H. cbn. by rewrite of_be_bytes_1. Qed.

Lemma unmount_op uuid sunit l t r :
  0 <= sunit < 2 ^ 32 -> length uuid = 16%nat -> record uuid sunit l t = Ok r ->
  let u := (Z.to_nat (hdrs sunit) * BBSIZE)%nat in
  be32 r (u + 4) = Ok 8 /\ index r (u + 8) = Ok CLIENT_LOG /\ index r (u + 9) = Ok UNMOUNT_TRANS.
Proof.
  intros Hs Hu Hr u. pose proof (unmount_field uuid sunit l t r Hs Hu Hr) as U. fold u in U.
  assert (forall k s, unmount_stores u !! k = Some s -> (1 <= k <= 3)%nat ->
    slice r (store_off s) (store_off s + store_len s) = Ok (store_bytes s)) as F.
  { intros k s Hk Hr'. destruct k as [|[|[|[|k]]]]; [lia| | | |lia]; pose proof Hk as [= <-];
      (apply (U _ _ Hk); [cbn; lia | cbn; lia|]);
      repeat (apply Forall_cons_2; [left; cbn; lia|]); apply Forall_nil_2. }
  split_and!.
  - rewrite (be32_of_slice r (u + 4) 8); [done|]. by apply (F 1%nat (P32 (u + 4) 8)); [|lia].
  - rewrite (index_of_slice r (u + 8) CLIENT_LOG); [done|].
    by apply (F 2%nat (P8 (u + 8) CLIENT_LOG)); [|lia].
  - rewrite (index_of_slice r (u + 9) UNMOUNT_TRANS); [done|].
    by apply (F 3%nat (P8 (u + 9) UNMOUNT_TRANS)); [|lia].
Qed.

Lemma record_wf uuid sunit l t r :
  0 <= sunit < 2 ^ 32 -> length uuid = 16%nat -> 0 <= l < 2 ^ 64 -> 0 <= t < 2 ^ 64 ->
  record uuid sunit l t = Ok r -> well_formed uuid sunit l t r.
Proof.
  intros Hs Hu Hl Ht Hr.
  pose proof (header_field_b uuid sunit l t r) as F.
  pose proof (hdrs_range sunit Hs) as Hh.
  assert (hdrs sunit * 512 <= Z.max 1024 sunit) as Hlen.
  { unfold hdrs, HEADER_CYCLE_SIZE. destruct (Z.ltb_spec (32 * 1024) sunit); [|lia].
    pose proof (div_ceil_bounds sunit (32 * 1024) ltac:(lia)). lia. }
  split.
  - rewrite record_eq in Hr by done.
    assert (r = patches (record_stores uuid sunit l t)
                  (zeroes (Z.to_nat (len_bb sunit) * BBSIZE))) as -> by congruence.
    rewrite (proj2 (run_stores_in _ _ ltac:(rewrite length_zeroes; by apply record_stores_in))).
    apply length_zeroes.
  - by rewrite (be32_of_slice r off.MAGICNO _ (F 0%nat (P32 _ _) Hs Hu Hr eq_refl eq_refl eq_refl)).
  - rewrite (be32_of_slice r off.CYCLE _ (F 1%nat (P32 _ _) Hs Hu Hr eq_refl eq_refl eq_refl)).
    by rewrite u32_id by apply u32_range.
  - by rewrite (be32_of_slice r off.VERSION _ (F 2%nat (P32 _ _) Hs Hu Hr eq_refl eq_refl eq_refl)).
  - rewrite (be64_of_slice r off.LSN _ (F 8%nat (P64 _ _) Hs Hu Hr eq_refl eq_refl eq_refl)).
    by rewrite u64_id by done.
  - rewrite (be64_of_slice r off.TAIL_LSN _ (F 9%nat (P64 _ _) Hs Hu Hr eq_refl eq_refl eq_refl)).
    by rewrite u64_id by done.
  - by rewrite (be32_of_slice r off.NUM_LOGOPS _ (F 5%nat (P32 _ _) Hs Hu Hr eq_refl eq_refl eq_refl)).
  - rewrite (be32_of_slice r off.SIZE _ (F 7%nat (P32 _ _) Hs Hu Hr eq_refl eq_refl eq_refl)).
    rewrite u32_id; [done|]. unfold BIG_RECORD_BSIZE. lia.
  - rewrite (be32_of_slice r off.LEN _ (F 11%nat (P32 _ _) Hs Hu Hr eq_refl eq_refl eq_refl)).
    change (512 * 2) with 1024. rewrite (u32_id (hdrs sunit * 512)) by lia.
    by rewrite !u32_id by (rewrite ?u32_id; lia).
  - exact (F 10%nat (PB _ _ _) Hs Hu Hr eq_refl eq_refl eq_refl).
  - rewrite (be32_of_slice _ _ _ (cycle_data_field uuid sunit l t r Hs Hu Hr)). done.
  - intros u ->. by apply (unmount_op uuid sunit l t).
  - intros bb Hb. pose proof (hdrs_range sunit Hs) as Hn.
    erewrite be32_of_slice; [by rewrite u32_id by apply u32_range|].
    destruct (decide (bb < Z.to_nat (hdrs sunit))%nat); [apply (stamped_ext uuid sunit l t); auto; lia|].
    destruct (decide (bb = Z.to_nat (hdrs sunit))) as [->|];
      [by apply (stamped_unmount uuid sunit l t) | apply (stamped_rest uuid sunit l t); auto; lia].
Qed.

(** [record] returns a record of [max(BTOBB(sunit), headers + 1)] basic
    blocks for every stripe unit: header, sequence numbers and UUID read
    back, the header's cycle data restores the unmount record's first word,
    and every other block starts with the cycle. *)
Theorem record_well_formed uuid sunit l t :
  0 <= sunit < 2 ^ 32 -> length uuid = 16%nat -> 0 <= l < 2 ^ 64 -> 0 <= t < 2 ^ 64 ->
  exists r, record uuid sunit l t = Ok r /\ well_formed uuid sunit l t r.
Proof.
  intros Hs Hu Hl Ht. eexists. split; [by apply record_eq|].
  apply record_wf; try done. by apply record_eq.
Qed.

Lemma record_well_formed_witness :
  exists r, record (zeroes 16) 4096 (lsn 3 512) (lsn 2 0) = Ok r /\
    well_formed (zeroes 16) 4096 (lsn 3 512) (lsn 2 0) r.
Proof.
  apply (record_well_formed (zeroes 16) 4096 (lsn 3 512) (lsn 2 0));
    [lia | done | vm_compute; done | vm_compute; done].
Defined.
