(* ===== verification/Device.v ===== *)
(** [src/src/device.rs]: the device interface and the sparse memory device.

    [BlockDevice] is the trait, a class of operations on an explicit device
    state; [DeviceSpec] is what a client may rely on: a device is a flat
    array of bytes, and every operation either does its whole effect or
    fails leaving the bytes alone.  [MemDevice] is the in-memory device,
    chunk map and all, and is proved an instance of [DeviceSpec]; the trait's
    default [write_zeroes] is proved to meet the interface it is the default
    of. *)

From Stdlib Require Import ZArith Lia String.
From stdpp Require Import base tactics list numbers gmap sorting strings pretty.
From coqutil Require Import Byte Word.LittleEndianList.
From S2P Require Import Prelude Bytes.


(** * The interface *)

(** [trait BlockDevice].  A read takes the length of its buffer and gives
    the buffer's new contents. *)
Class BlockDevice (D : Type) : Type := {
  dev_size : D -> Z;
  logical_sector_size : D -> Z;
  physical_sector_size : D -> Z;
  read_at : D -> Z -> Z -> result buf;
  write_at : D -> Z -> buf -> D * result unit;
  flush : D -> D * result unit;
  write_zeroes : D -> Z -> Z -> D * result unit;
}.

(** The bytes [f] with [b] laid over them from [off] on. *)
Definition overlay (off : Z) (b : buf) (f : Z -> byte) (i : Z) : byte :=
  if off <=? i then default (f i) (b !! Z.to_nat (i - off)) else f i.

(** The bytes [f] with the range zeroed. *)
Definition zeroed (off len : Z) (f : Z -> byte) (i : Z) : byte :=
  if (off <=? i) && (i <? off + len) then byte.of_Z 0 else f i.

(** The [len] bytes of [f] from [off] on. *)
Definition bytes_of (f : Z -> byte) (off len : Z) : buf := f <$> seqZ off len.

(** [check_bounds]. *)
Definition check_bounds (offset len size : Z) : result unit :=
  match checked_add64 offset len with
  | Some e => if e <=? size then Ok tt else Err (OutOfBounds offset len size)
  | None => Err (OutOfBounds offset len size)
  end.

(** What a device promises. [accepts] says which requests it serves. *)
Class DeviceSpec (D : Type) `{BlockDevice D} : Type := {
  contents : D -> Z -> byte;
  valid : D -> Prop;
  accepts : D -> Z -> Z -> bool;
  accepts_in d off len : accepts d off len = true -> off + len <= dev_size d;
  size_range d : valid d -> 0 <= dev_size d < 2 ^ 64;
  read_spec d off len : valid d -> 0 <= off -> 0 <= len -> accepts d off len = true ->
    read_at d off len = Ok (bytes_of (contents d) off len);
  read_refused d off len : valid d -> 0 <= off -> 0 <= len -> accepts d off len = false ->
    exists e, read_at d off len = Err e;
  write_spec d off b : valid d -> 0 <= off -> accepts d off (Z.of_nat (length b)) = true ->
    exists d', write_at d off b = (d', Ok tt) /\ valid d' /\ dev_size d' = dev_size d /\
      logical_sector_size d' = logical_sector_size d /\
      (forall o n, accepts d' o n = accepts d o n) /\
      forall i, contents d' i = overlay off b (contents d) i;
  write_refused d off b : valid d -> 0 <= off -> accepts d off (Z.of_nat (length b)) = false ->
    exists e, write_at d off b = (d, Err e);
  flush_spec d : valid d -> exists d', flush d = (d', Ok tt) /\ valid d' /\
    dev_size d' = dev_size d /\ logical_sector_size d' = logical_sector_size d /\
    (forall o n, accepts d' o n = accepts d o n) /\ forall i, contents d' i = contents d i;
  zeroes_spec d off len : valid d -> 0 <= off -> 0 <= len -> accepts d off len = true ->
    exists d', write_zeroes d off len = (d', Ok tt) /\ valid d' /\ dev_size d' = dev_size d /\
      logical_sector_size d' = logical_sector_size d /\
      (forall o n, accepts d' o n = accepts d o n) /\
      forall i, contents d' i = zeroed off len (contents d) i;
  zeroes_refused d off len : valid d -> 0 <= off -> 0 <= len -> accepts d off len = false ->
    exists e, write_zeroes d off len = (d, Err e);
}.

(** The default [write_zeroes]: 1 MiB writes of zeroes until the range is
    covered.  One round a write, so [len] rounds and one are enough. *)
Definition WZ_CHUNK : Z := Z.shiftl 1 20.

Section Default.
Context {D : Type} (write_at : D -> Z -> buf -> D * result unit).

Fixpoint write_zeroes_loop (fuel : nat) (zs : Z) (d : D) (offset len done : Z)
    : D * result unit :=
  match fuel with
  | O => (d, OutOfFuel)
  | S fuel =>
      if done <? len then
        let n := Z.min (len - done) zs in
        match write_at d (u64 (offset + done)) (zeroes (Z.to_nat n)) with
        | (d, Ok _) => write_zeroes_loop fuel zs d offset len (u64 (done + n))
        | r => r
        end
      else (d, Ok tt)
  end.

Definition default_write_zeroes (d : D) (offset len : Z) : D * result unit :=
  write_zeroes_loop (S (Z.to_nat len)) (Z.max (Z.min WZ_CHUNK len) 1) d offset len 0.
End Default.

(** * [MemDevice] *)

Definition CHUNK : Z := 64 * 1024.
Definition CHUNK_N : nat := Z.to_nat CHUNK.

Record MemDevice : Type := mkMem {
  chunks : gmap Z buf;
  m_size : Z;
  m_logical : Z;
  m_physical : Z;
  m_strict : bool;
}.

Definition Mem_with_sector_size (size sector_size : Z) : MemDevice :=
  mkMem ∅ size sector_size sector_size false.
Definition Mem_new (size : Z) : MemDevice := Mem_with_sector_size size 512.
Definition Mem_strict (size sector_size : Z) : MemDevice :=
  mkMem ∅ size sector_size sector_size true.

Definition set_chunks (d : MemDevice) (m : gmap Z buf) : MemDevice :=
  mkMem m (m_size d) (m_logical d) (m_physical d) (m_strict d).

(** [check_aligned]; a zero sector panics in the remainder. *)
Definition check_aligned (d : MemDevice) (offset len : Z) : result unit :=
  let sector := m_logical d in
  if m_strict d then
    r ← rem_or_panic offset sector;
    r' ← rem_or_panic len sector;
    bail_if (negb (r =? 0) || negb (r' =? 0))
      (Error_io offset (pretty len +:+ " bytes at offset " +:+ pretty offset
         +:+ " is not whole " +:+ pretty sector +:+ "-byte sectors")%string)
  else Ok tt.

Definition is_zero (b : buf) : bool := forallb (fun x => byte.unsigned x =? 0) b.

(** Chunks in the order of their index. *)
Definition key_le (a b : Z * buf) : Prop := a.1 <= b.1.
#[export] Instance key_le_dec : RelDecision key_le := fun a b => Z_le_dec a.1 b.1.

(** [nonzero_chunks] and [resident]. *)
Definition nonzero_chunks (d : MemDevice) : list (Z * buf) :=
  (fun '(i, c) => (i * CHUNK, c)) <$>
    merge_sort key_le
      (List.filter (fun kc => negb (is_zero kc.2)) (map_to_list (chunks d))).
Definition resident (d : MemDevice) : Z := Z.of_nat (base.size (chunks d)) * CHUNK.

(** How far one step of the loops below goes: to the end of the chunk or of
    the buffer. *)
Definition step_len (pos : Z) (len : nat) : nat :=
  Nat.min len (CHUNK_N - Z.to_nat (pos mod CHUNK)).

(** [copy_out]: the bytes of the buffer from [pos] on, in order. *)
Fixpoint copy_out_loop (fuel : nat) (m : gmap Z buf) (pos : Z) (len : nat) : result buf :=
  match fuel with
  | O => OutOfFuel
  | S fuel =>
      if (len =? 0)%nat then Ok []
      else
        let idx := pos / CHUNK in
        let within := Z.to_nat (pos mod CHUNK) in
        let n := step_len pos len in
        piece ← match m !! idx with
                | Some c => slice c within (within + n)
                | None => Ok (zeroes n)
                end;
        rest ← copy_out_loop fuel m (u64 (pos + Z.of_nat n)) (len - n);
        Ok (piece ++ rest)
  end.
Definition copy_out (m : gmap Z buf) (offset : Z) (len : nat) : result buf :=
  copy_out_loop (S len) m offset len.

(** One round of [copy_in]: [src] into the chunk [idx] at [within]. *)
Definition copy_in_step (m : gmap Z buf) (idx : Z) (within : nat) (src : buf)
    : result (gmap Z buf) :=
  let n := length src in
  if is_zero src then
    if (n =? CHUNK_N)%nat then Ok (delete idx m)
    else match m !! idx with
         | Some c => c' ← copy_into within (within + n) (zeroes n) c; Ok (<[idx := c']> m)
         | None => Ok m
         end
  else
    let c := default (zeroes CHUNK_N) (m !! idx) in
    c' ← copy_into within (within + n) src c;
    Ok (<[idx := c']> m).

Fixpoint copy_in_loop (fuel : nat) (m : gmap Z buf) (pos : Z) (b : buf) : result (gmap Z buf) :=
  match fuel with
  | O => OutOfFuel
  | S fuel =>
      if (length b =? 0)%nat then Ok m
      else
        let n := step_len pos (length b) in
        m ← copy_in_step m (pos / CHUNK) (Z.to_nat (pos mod CHUNK)) (take n b);
        copy_in_loop fuel m (u64 (pos + Z.of_nat n)) (drop n b)
  end.
Definition copy_in (m : gmap Z buf) (offset : Z) (b : buf) : result (gmap Z buf) :=
  copy_in_loop (S (length b)) m offset b.

(** The chunks of [[first, last)] that exist, in order. *)
Definition keys_in (m : gmap Z buf) (first last : Z) : list Z :=
  merge_sort Z.le (elements (filter (fun k => first <= k < last) (dom m))).

Definition zero_chunk (offset e : Z) (m : gmap Z buf) (idx : Z) : result (gmap Z buf) :=
  let cs := idx * CHUNK in
  let ce := u64 ((idx + 1) * CHUNK) in
  let zs := Z.max offset cs in
  let ze := Z.min e ce in
  if (zs =? cs) && (ze =? ce) then Ok (delete idx m)
  else match m !! idx with
       | Some c =>
           c' ← copy_into (Z.to_nat (zs - cs)) (Z.to_nat (ze - cs))
                  (zeroes (Z.to_nat (ze - cs) - Z.to_nat (zs - cs))) c;
           Ok (<[idx := c']> m)
       | None => Ok m
       end.

Definition zero_range (m : gmap Z buf) (offset len : Z) : result (gmap Z buf) :=
  let e := u64 (offset + len) in
  fold_result (zero_chunk offset e) m (keys_in m (offset / CHUNK) (div_ceil e CHUNK)).

(** A request, checked, then run on the chunks. *)
Definition on_chunks (d : MemDevice) (offset len : Z) (f : gmap Z buf -> result (gmap Z buf))
    : MemDevice * result unit :=
  match check_bounds offset len (m_size d);; check_aligned d offset len;; f (chunks d) with
  | Ok m => (set_chunks d m, Ok tt)
  | Err e => (d, Err e)
  | Panic => (d, Panic)
  | OutOfFuel => (d, OutOfFuel)
  end.

Definition Mem_read_at (d : MemDevice) (offset len : Z) : result buf :=
  check_bounds offset len (m_size d);;
  check_aligned d offset len;;
  copy_out (chunks d) offset (Z.to_nat len).

#[export] Instance MemDevice_BlockDevice : BlockDevice MemDevice := {
  dev_size := m_size;
  logical_sector_size := m_logical;
  physical_sector_size := m_physical;
  read_at := Mem_read_at;
  write_at d offset b :=
    on_chunks d offset (Z.of_nat (length b)) (fun m => copy_in m offset b);
  flush d := (d, Ok tt);
  write_zeroes d offset len := on_chunks d offset len (fun m => zero_range m offset len);
}.

(** * Lemmas: bytes laid over bytes *)

Lemma overlay_nil off f i : overlay off [] f i = f i.
Proof. unfold overlay. by destruct (off <=? i). Qed.

Lemma overlay_app off b1 b2 f i :
  overlay off (b1 ++ b2) f i = overlay (off + Z.of_nat (length b1)) b2 (overlay off b1 f) i.
Proof.
  unfold overlay. destruct (Z.leb_spec off i), (Z.leb_spec (off + Z.of_nat (length b1)) i);
    try lia; try done.
  - rewrite lookup_app_r by lia. rewrite (lookup_ge_None_2 b1) by lia. cbn [default].
    replace (Z.to_nat (i - off) - length b1)%nat
      with (Z.to_nat (i - (off + Z.of_nat (length b1)))) by lia. done.
  - by rewrite lookup_app_l by lia.
Qed.

Lemma overlay_zeroes off n f i : overlay off (zeroes n) f i = zeroed off (Z.of_nat n) f i.
Proof.
  unfold overlay, zeroed, zeroes. destruct (Z.leb_spec off i); [|done]. cbn [andb].
  destruct (Z.ltb_spec i (off + Z.of_nat n)).
  - by rewrite lookup_replicate_2 by lia.
  - by rewrite lookup_ge_None_2 by (rewrite length_replicate; lia).
Qed.

Lemma overlay_ext off b f g i : f i = g i -> overlay off b f i = overlay off b g i.
Proof. unfold overlay. by intros ->. Qed.

Lemma overlay_out off b f i : i < off \/ off + Z.of_nat (length b) <= i -> overlay off b f i = f i.
Proof.
  unfold overlay. intros H. destruct (Z.leb_spec off i); [|done].
  by rewrite lookup_ge_None_2 by lia.
Qed.

Lemma overlay_in off b f i x :
  off <= i -> b !! Z.to_nat (i - off) = Some x -> overlay off b f i = x.
Proof. unfold overlay. intros H ->. destruct (Z.leb_spec off i); [done|lia]. Qed.

Lemma zeroed_ext off len f g i : f i = g i -> zeroed off len f i = zeroed off len g i.
Proof. unfold zeroed. by intros ->. Qed.

Lemma length_bytes_of f off len : 0 <= len -> length (bytes_of f off len) = Z.to_nat len.
Proof. intros. unfold bytes_of. by rewrite length_fmap, length_seqZ. Qed.

Lemma bytes_of_app f off n m : 0 <= n -> 0 <= m ->
  bytes_of f off (n + m) = bytes_of f off n ++ bytes_of f (off + n) m.
Proof. intros. unfold bytes_of. by rewrite seqZ_app, fmap_app by lia. Qed.

Lemma lookup_bytes_of f off len i : (i < Z.to_nat len)%nat ->
  bytes_of f off len !! i = Some (f (off + Z.of_nat i)).
Proof.
  intros H. unfold bytes_of. rewrite list_lookup_fmap, lookup_seqZ_lt by lia. done.
Qed.

Lemma bytes_of_eq f off (b : buf) :
  (forall i x, b !! i = Some x -> f (off + Z.of_nat i) = x) ->
  bytes_of f off (Z.of_nat (length b)) = b.
Proof.
  intros H. apply list_eq. intros i. destruct (b !! i) as [x|] eqn:E.
  - pose proof (lookup_lt_Some _ _ _ E). rewrite lookup_bytes_of by lia. f_equal. by apply H.
  - apply lookup_ge_None in E. apply lookup_ge_None. rewrite length_bytes_of by lia. lia.
Qed.

Lemma bytes_of_overlay f off b : bytes_of (overlay off b f) off (Z.of_nat (length b)) = b.
Proof.
  apply bytes_of_eq. intros i x Hx. apply overlay_in; [lia|].
  by replace (Z.to_nat (off + Z.of_nat i - off)) with i by lia.
Qed.

Lemma bytes_of_ext f g off len :
  (forall i, off <= i < off + len -> f i = g i) -> bytes_of f off len = bytes_of g off len.
Proof.
  intros H. unfold bytes_of. apply list_fmap_ext. intros i x Hx.
  apply lookup_seqZ in Hx. apply H. lia.
Qed.

(** * Lemmas: the chunk map *)

(** A byte of the device, and the shape of every chunk. *)
Definition byte_at (m : gmap Z buf) (i : Z) : byte :=
  match m !! (i / CHUNK) with
  | Some c => default (byte.of_Z 0) (c !! Z.to_nat (i mod CHUNK))
  | None => byte.of_Z 0
  end.
Definition chunks_ok (m : gmap Z buf) : Prop := map_Forall (fun _ c => length c = CHUNK_N) m.

Lemma CHUNK_pos : 0 < CHUNK.
Proof. reflexivity. Qed.
Lemma CHUNK_N_Z : Z.of_nat CHUNK_N = CHUNK.
Proof. unfold CHUNK_N. pose proof CHUNK_pos. lia. Qed.
#[local] Opaque CHUNK_N.

Lemma chunk_split i : i = i / CHUNK * CHUNK + i mod CHUNK /\ 0 <= i mod CHUNK < CHUNK.
Proof.
  pose proof CHUNK_pos. pose proof (Z.div_mod i CHUNK ltac:(lia)).
  pose proof (Z.mod_pos_bound i CHUNK ltac:(lia)). lia.
Qed.

Lemma chunk_div idx w : 0 <= w < CHUNK -> (idx * CHUNK + w) / CHUNK = idx.
Proof. intros. rewrite Z.div_add_l by lia. rewrite Z.div_small by lia. lia. Qed.
Lemma chunk_mod idx w : 0 <= w < CHUNK -> (idx * CHUNK + w) mod CHUNK = w.
Proof. intros. rewrite Z.add_comm, Z.mod_add by lia. by apply Z.mod_small. Qed.

(** A chunk's bytes replaced between [within] and [within + length src]. *)
Lemma byte_at_insert m idx within src c i :
  chunks_ok m -> c = default (zeroes CHUNK_N) (m !! idx) ->
  (within + length src <= CHUNK_N)%nat ->
  byte_at (<[idx := patch within src c]> m) i
    = overlay (idx * CHUNK + Z.of_nat within) src (byte_at m) i.
Proof.
  intros Hm Hc Hw. pose proof CHUNK_N_Z as HN. destruct (chunk_split i) as [Hi Hr].
  assert (length c = CHUNK_N) as Lc.
  { subst c. destruct (m !! idx) as [c|] eqn:E; cbn; [by apply (Hm _ _ E) | apply length_zeroes]. }
  unfold byte_at at 1. destruct (decide (i / CHUNK = idx)) as [Ei|Ei].
  - rewrite Ei, lookup_insert_eq. rewrite lookup_patch by lia.
    assert (default (byte.of_Z 0) (c !! Z.to_nat (i mod CHUNK)) = byte_at m i) as Eb.
    { unfold byte_at. rewrite Ei, Hc. destruct (m !! idx); cbn; [done|].
      unfold zeroes. by rewrite lookup_replicate_2 by lia. }
    case_decide as Hd.
    + destruct (lookup_lt_is_Some_2 src (Z.to_nat (i mod CHUNK) - within)) as [x Hx]; [lia|].
      rewrite Hx. cbn. symmetry. apply overlay_in; [lia|].
      replace (Z.to_nat (i - (idx * CHUNK + Z.of_nat within)))
        with (Z.to_nat (i mod CHUNK) - within)%nat by lia. done.
    + rewrite Eb. symmetry. apply overlay_out. lia.
  - rewrite lookup_insert_ne by done. fold (byte_at m i). symmetry. apply overlay_out.
    destruct (Z.lt_ge_cases (i / CHUNK) idx); [left | right]; nia.
Qed.

Lemma byte_at_delete m idx i :
  byte_at (delete idx m) i = zeroed (idx * CHUNK) CHUNK (byte_at m) i.
Proof.
  destruct (chunk_split i) as [Hi Hr]. unfold byte_at at 1, zeroed.
  destruct (decide (i / CHUNK = idx)) as [Ei|Ei].
  - rewrite Ei, lookup_delete_eq.
    destruct (Z.leb_spec (idx * CHUNK) i), (Z.ltb_spec i (idx * CHUNK + CHUNK)); cbn; try done; lia.
  - rewrite lookup_delete_ne by done. fold (byte_at m i).
    destruct (Z.leb_spec (idx * CHUNK) i), (Z.ltb_spec i (idx * CHUNK + CHUNK)); cbn; try done.
    exfalso. apply Ei. nia.
Qed.

Lemma byte_at_absent m idx w : 0 <= w < CHUNK -> m !! idx = None ->
  byte_at m (idx * CHUNK + w) = byte.of_Z 0.
Proof. intros Hw E. unfold byte_at. by rewrite chunk_div, E by done. Qed.

Lemma is_zero_zeroes b : is_zero b = true -> b = zeroes (length b).
Proof.
  unfold is_zero, zeroes. intros H. induction b as [|x b IH]; [done|].
  cbn in H. apply andb_prop in H as [Hx%Z.eqb_eq Hb]. cbn. rewrite <- IH by done. f_equal.
  rewrite <- (byte.of_Z_unsigned x). by rewrite Hx.
Qed.

Lemma chunks_ok_insert m idx c : chunks_ok m -> length c = CHUNK_N -> chunks_ok (<[idx := c]> m).
Proof. intros. by apply map_Forall_insert_2. Qed.
Lemma chunks_ok_delete m idx : chunks_ok m -> chunks_ok (delete idx m).
Proof. intros. by apply map_Forall_delete. Qed.

Lemma chunks_ok_default m idx : chunks_ok m -> length (default (zeroes CHUNK_N) (m !! idx)) = CHUNK_N.
Proof.
  intros Hm. destruct (m !! idx) as [c|] eqn:E; cbn; [by apply (Hm _ _ E) | apply length_zeroes].
Qed.

Lemma copy_in_step_spec m idx within src :
  chunks_ok m -> (within + length src <= CHUNK_N)%nat ->
  exists m', copy_in_step m idx within src = Ok m' /\ chunks_ok m' /\
    forall i, byte_at m' i = overlay (idx * CHUNK + Z.of_nat within) src (byte_at m) i.
Proof.
  intros Hm Hw. pose proof CHUNK_N_Z as HN. pose proof (chunks_ok_default m idx Hm) as Lc.
  unfold copy_in_step. destruct (is_zero src) eqn:Ez.
  - apply is_zero_zeroes in Ez. set (n := length src) in *. rewrite Ez.
    destruct (Nat.eqb_spec n CHUNK_N) as [En|En]; [|destruct (m !! idx) as [c|] eqn:E].
    + eexists. split; [done|]. split; [by apply chunks_ok_delete|]. intros i.
      rewrite byte_at_delete, overlay_zeroes. unfold zeroed.
      by replace (idx * CHUNK + Z.of_nat within) with (idx * CHUNK) by lia; rewrite En, HN.
    + change (length c = CHUNK_N) in Lc.
      rewrite copy_into_in by (rewrite ?length_zeroes; lia). cbn [mbind result_bind].
      eexists. split; [done|]. split.
      * apply chunks_ok_insert; [done|]. by rewrite length_patch by (rewrite length_zeroes; lia).
      * intros i. apply byte_at_insert; [done | by rewrite E | rewrite length_zeroes; lia].
    + eexists. split; [done|]. split; [done|]. intros i. rewrite overlay_zeroes. unfold zeroed.
      destruct ((_ <=? i) && _) eqn:Hi; [|done]. bools.
      replace i with (idx * CHUNK + (i - idx * CHUNK)) by lia. apply byte_at_absent; [lia|done].
  - rewrite copy_into_in by lia. cbn [mbind result_bind].
    eexists. split; [done|]. split.
    + apply chunks_ok_insert; [done|]. by rewrite length_patch by lia.
    + intros i. by apply byte_at_insert.
Qed.

Lemma step_len_bounds pos len : 0 <= pos -> (0 < len)%nat ->
  (0 < step_len pos len <= len)%nat /\
  (Z.to_nat (pos mod CHUNK) + step_len pos len <= CHUNK_N)%nat.
Proof.
  intros Hp Hl. unfold step_len. pose proof CHUNK_N_Z. destruct (chunk_split pos). lia.
Qed.

Lemma copy_in_loop_spec fuel m pos b :
  (length b < fuel)%nat -> chunks_ok m -> 0 <= pos -> pos + Z.of_nat (length b) < 2 ^ 64 ->
  exists m', copy_in_loop fuel m pos b = Ok m' /\ chunks_ok m' /\
    forall i, byte_at m' i = overlay pos b (byte_at m) i.
Proof.
  revert m pos b. induction fuel as [|fuel IH]; intros m pos b Hf Hm Hp Hb; [lia|].
  cbn [copy_in_loop]. destruct (Nat.eqb_spec (length b) 0) as [E|E].
  { apply nil_length_inv in E as ->. exists m. split_and!; [done..|]. intros i.
    by rewrite overlay_nil. }
  destruct (step_len_bounds pos (length b) Hp ltac:(lia)) as [Hn Hw].
  set (n := step_len pos (length b)) in *.
  assert (length (take n b) = n) as Ln by (rewrite length_take; lia).
  destruct (copy_in_step_spec m (pos / CHUNK) (Z.to_nat (pos mod CHUNK)) (take n b) Hm)
    as (m1 & -> & Hm1 & B1); [lia|]. cbn [mbind result_bind].
  rewrite u64_id by lia.
  destruct (IH m1 (pos + Z.of_nat n) (drop n b)) as (m2 & -> & Hm2 & B2);
    [rewrite length_drop; lia | done | lia | rewrite length_drop; lia |].
  exists m2. split_and!; [done..|]. intros i. rewrite B2.
  rewrite <- (take_drop n b) at 2. rewrite overlay_app, Ln. apply overlay_ext. rewrite B1.
  destruct (chunk_split pos) as [Hs Hr].
  by replace (pos / CHUNK * CHUNK + Z.of_nat (Z.to_nat (pos mod CHUNK))) with pos by lia.
Qed.

(** A piece of a chunk, present or not. *)
Lemma piece_spec m pos n :
  chunks_ok m -> 0 <= pos -> (Z.to_nat (pos mod CHUNK) + n <= CHUNK_N)%nat ->
  match m !! (pos / CHUNK) with
  | Some c => slice c (Z.to_nat (pos mod CHUNK)) (Z.to_nat (pos mod CHUNK) + n)
  | None => Ok (zeroes n)
  end = Ok (bytes_of (byte_at m) pos (Z.of_nat n)).
Proof.
  intros Hm Hp Hw. pose proof CHUNK_N_Z. destruct (chunk_split pos) as [Hs Hr].
  set (w := Z.to_nat (pos mod CHUNK)) in *. set (idx := pos / CHUNK) in *.
  destruct (m !! idx) as [c|] eqn:E.
  - assert (length c = CHUNK_N) as Lc by (by apply (Hm _ _ E)).
    rewrite slice_in by lia. f_equal. symmetry.
    replace (w + n - w)%nat with n by lia.
    set (l := take n (drop w c)).
    assert (length l = n) as Ll by (subst l; rewrite length_take, length_drop; lia).
    rewrite <- Ll at 1. apply bytes_of_eq. intros i x Hx.
    pose proof (lookup_lt_Some _ _ _ Hx) as Hi. subst l.
    rewrite lookup_take_lt, lookup_drop in Hx by lia. unfold byte_at.
    replace (pos + Z.of_nat i) with (idx * CHUNK + Z.of_nat (w + i)) by lia.
    rewrite chunk_div, chunk_mod, E, Nat2Z.id by lia. by rewrite Hx.
  - f_equal. symmetry.
    replace (Z.of_nat n) with (Z.of_nat (length (zeroes n))) by (by rewrite length_zeroes).
    apply bytes_of_eq. intros i x [-> Hi]%lookup_replicate.
    replace (pos + Z.of_nat i) with (idx * CHUNK + Z.of_nat (w + i)) by lia.
    apply byte_at_absent; [lia | done].
Qed.

Lemma copy_out_loop_spec fuel m pos len :
  (len < fuel)%nat -> chunks_ok m -> 0 <= pos -> pos + Z.of_nat len < 2 ^ 64 ->
  copy_out_loop fuel m pos len = Ok (bytes_of (byte_at m) pos (Z.of_nat len)).
Proof.
  revert pos len. induction fuel as [|fuel IH]; intros pos len Hf Hm Hp Hb; [lia|].
  cbn [copy_out_loop]. destruct (Nat.eqb_spec len 0) as [->|E]; [done|].
  destruct (step_len_bounds pos len Hp ltac:(lia)) as [Hn Hw].
  set (n := step_len pos len) in *.
  rewrite piece_spec by done. cbn [mbind result_bind].
  rewrite u64_id by lia. rewrite IH by (try done; lia). cbn [mbind result_bind].
  rewrite <- bytes_of_app by lia. repeat f_equal. lia.
Qed.

(** ** Zeroing a range *)

Lemma elem_of_keys_in m a b k :
  k ∈ keys_in m a b <-> (a <= k < b /\ is_Some (m !! k)).
Proof.
  unfold keys_in. rewrite merge_sort_Permutation, elem_of_elements, elem_of_filter, elem_of_dom.
  done.
Qed.

(** Zeroing stays inside one chunk. *)
Definition zeroed_in (idx offset e : Z) (f : Z -> byte) (i : Z) : byte :=
  if decide (i / CHUNK = idx) then zeroed offset (e - offset) f i else f i.

Lemma zeroed_in_cut idx offset e f i :
  offset <= e -> idx * CHUNK < e -> offset < (idx + 1) * CHUNK ->
  let zs := Z.max offset (idx * CHUNK) in
  let ze := Z.min e ((idx + 1) * CHUNK) in
  zeroed zs (ze - zs) f i = zeroed_in idx offset e f i.
Proof.
  intros H1 H2 H3 zs ze. destruct (chunk_split i) as [Hi Hr]. pose proof CHUNK_pos.
  unfold zeroed_in, zeroed. subst zs ze. case_decide as Hd.
  - rewrite <- Hd in *.
    destruct (Z.leb_spec (Z.max offset (i / CHUNK * CHUNK)) i), (Z.leb_spec offset i); try lia;
      cbn [andb]; [|done].
    destruct (Z.ltb_spec i (Z.max offset (i / CHUNK * CHUNK) +
      (Z.min e ((i / CHUNK + 1) * CHUNK) - Z.max offset (i / CHUNK * CHUNK)))),
      (Z.ltb_spec i (offset + (e - offset))); try done; lia.
  - destruct ((_ <=? i) && _) eqn:E; [|done]. bools. exfalso. apply Hd. nia.
Qed.

Lemma zero_chunk_spec m offset e idx :
  chunks_ok m -> 0 <= idx -> offset <= e -> (idx + 1) * CHUNK < 2 ^ 64 -> idx * CHUNK < e ->
  offset < (idx + 1) * CHUNK ->
  exists m', zero_chunk offset e m idx = Ok m' /\ chunks_ok m' /\
    forall i, byte_at m' i = zeroed_in idx offset e (byte_at m) i.
Proof.
  intros Hm Hi0 Hoe Hi H1 H2. pose proof CHUNK_N_Z as HN. pose proof CHUNK_pos as HC.
  pose proof (zeroed_in_cut idx offset e) as Hcut. unfold zero_chunk. rewrite u64_id by nia.
  set (cs := idx * CHUNK) in *. set (zs := Z.max offset cs) in *.
  replace ((idx + 1) * CHUNK) with (cs + CHUNK) in * by lia.
  set (ze := Z.min e (cs + CHUNK)) in *. cbn [Z.max] in Hcut.
  assert (cs <= zs <= ze /\ ze <= cs + CHUNK) as [Hz Hze] by lia.
  destruct ((zs =? cs) && (ze =? cs + CHUNK)) eqn:Ew; [bools|destruct (m !! idx) as [c|] eqn:E].
  - eexists. split; [done|]. split; [by apply chunks_ok_delete|]. intros i.
    rewrite byte_at_delete, <- Hcut by lia. f_equal; lia.
  - assert (length c = CHUNK_N) as Lc by (by apply (Hm _ _ E)).
    rewrite copy_into_in by (rewrite ?length_zeroes; lia). cbn [mbind result_bind].
    eexists. split; [done|]. split.
    + apply chunks_ok_insert; [done|]. by rewrite length_patch by (rewrite length_zeroes; lia).
    + intros i.
      rewrite byte_at_insert; [|exact Hm | by rewrite E | rewrite length_zeroes; lia].
      rewrite overlay_zeroes, <- Hcut by lia. f_equal; lia.
  - eexists. split; [done|]. split; [done|]. intros i. rewrite <- Hcut by lia. unfold zeroed.
    destruct ((zs <=? i) && _) eqn:Hin; [|done]. bools.
    replace i with (idx * CHUNK + (i - cs)) by lia. apply byte_at_absent; [lia|done].
Qed.

Lemma zero_chunks_spec l m offset e :
  chunks_ok m -> offset <= e ->
  Forall (fun idx => 0 <= idx /\ (idx + 1) * CHUNK < 2 ^ 64 /\ idx * CHUNK < e /\
                     offset < (idx + 1) * CHUNK) l ->
  exists m', fold_result (zero_chunk offset e) m l = Ok m' /\ chunks_ok m' /\
    forall i, byte_at m' i =
      if decide (i / CHUNK ∈ l) then zeroed offset (e - offset) (byte_at m) i else byte_at m i.
Proof.
  intros Hm Hoe. revert m Hm. induction l as [|idx l IH]; intros m Hm Hl.
  - exists m. split_and!; [done..|]. intros i. case_decide as H; [by inversion H | done].
  - apply Forall_cons_1 in Hl as [(H0 & H1 & H2 & H3) Hl]. cbn [fold_result].
    destruct (zero_chunk_spec m offset e idx Hm) as (m1 & -> & Hm1 & B1); [lia..|].
    cbn [mbind result_bind]. destruct (IH m1 Hm1 Hl) as (m2 & -> & Hm2 & B2).
    exists m2. split_and!; [done..|]. intros i. rewrite B2.
    assert (forall j, zeroed offset (e - offset) (byte_at m1) j =
              zeroed offset (e - offset) (byte_at m) j) as Hz.
    { intros j. unfold zeroed. destruct ((offset <=? j) && _) eqn:Ej; [done|]. rewrite B1.
      unfold zeroed_in, zeroed. rewrite Ej. by case_decide. }
    rewrite Hz, B1. unfold zeroed_in. repeat case_decide; set_solver.
Qed.

(** [write_zeroes]'s effect: the chunks that are absent read as zero
    already. *)
Lemma zero_range_spec m offset len :
  chunks_ok m -> 0 <= offset -> 0 <= len -> offset + len + CHUNK <= 2 ^ 64 ->
  exists m', zero_range m offset len = Ok m' /\ chunks_ok m' /\
    forall i, byte_at m' i = zeroed offset len (byte_at m) i.
Proof.
  intros Hm Ho Hl Hb. unfold zero_range. pose proof CHUNK_pos as HC. rewrite u64_id by lia.
  set (e := offset + len). pose proof (div_ceil_bounds e CHUNK HC) as He.
  destruct (chunk_split offset) as [Hos Hor].
  assert (0 <= offset / CHUNK) by (by apply Z.div_pos).
  destruct (zero_chunks_spec (keys_in m (offset / CHUNK) (div_ceil e CHUNK)) m offset e)
    as (m' & -> & Hm' & B); [done | lia | |].
  { apply List.Forall_forall. intros k Hk%list_elem_of_In%elem_of_keys_in.
    destruct Hk as [Hk _]. set (q := div_ceil e CHUNK) in *. set (p := offset / CHUNK) in *.
    clearbody p q. clear - Hk He Hos Hor H HC Hb Hl. subst e.
    assert (k * CHUNK <= (q - 1) * CHUNK /\ p * CHUNK <= k * CHUNK) by
      (split; apply Z.mul_le_mono_nonneg_r; lia). lia. }
  exists m'. split_and!; [done..|]. intros i. rewrite B.
  replace (e - offset) with len by lia. case_decide as Hd; [done|].
  rewrite elem_of_keys_in in Hd. unfold zeroed.
  destruct ((offset <=? i) && (i <? offset + len)) eqn:Ei; [|done]. bools.
  destruct (chunk_split i) as [Hi Hr]. unfold byte_at.
  destruct (m !! (i / CHUNK)) eqn:E; [|done]. exfalso. apply Hd.
  split; [|by eexists]. split; [apply Z.div_le_mono; lia|].
  set (q := div_ceil e CHUNK) in *. set (p := i / CHUNK) in *. clearbody p q. nia.
Qed.

(** * [MemDevice] is a device *)

(** A device as its constructors make one: whole chunks, a size whose last
    chunk ends below 2^64, a sector. *)
Definition Mem_valid (d : MemDevice) : Prop :=
  chunks_ok (chunks d) /\ 0 <= m_size d /\ m_size d + CHUNK <= 2 ^ 64 /\ 0 < m_logical d.

Definition aligned (d : MemDevice) (offset len : Z) : bool :=
  negb (m_strict d) || ((offset mod m_logical d =? 0) && (len mod m_logical d =? 0)).
Definition Mem_accepts (d : MemDevice) (offset len : Z) : bool :=
  (offset + len <=? m_size d) && aligned d offset len.

Lemma check_bounds_Ok offset len size u :
  0 <= size < 2 ^ 64 -> check_bounds offset len size = Ok u <-> offset + len <= size.
Proof.
  intros Hs. unfold check_bounds, checked_add64. destruct u.
  destruct (Z.ltb_spec (offset + len) (2 ^ 64)); [destruct (Z.leb_spec (offset + len) size)|];
    split; intros H'; try done; try lia.
Qed.

Lemma check_bounds_answers offset len size : answers (check_bounds offset len size).
Proof.
  unfold check_bounds. destruct (checked_add64 _ _); [|eauto with result].
  destruct (_ <=? _); eauto with result.
Qed.

Lemma check_aligned_eq d offset len : 0 < m_logical d ->
  (aligned d offset len = true /\ check_aligned d offset len = Ok tt) \/
  (aligned d offset len = false /\ exists e, check_aligned d offset len = Err e).
Proof.
  intros Hl. unfold aligned, check_aligned, rem_or_panic. destruct (m_strict d); [|by left].
  destruct (Z.eqb_spec (m_logical d) 0); [lia|]. cbn [mbind result_bind negb orb].
  destruct (_ =? 0), (_ =? 0); cbn; eauto.
Qed.

(** The two checks in front of every operation. *)
Lemma Mem_checks d offset len : Mem_valid d ->
  if Mem_accepts d offset len
  then (check_bounds offset len (m_size d);; check_aligned d offset len) = Ok tt
  else exists e, (check_bounds offset len (m_size d);; check_aligned d offset len) = Err e.
Proof.
  intros (Hc & Hs & Ht & Hl). unfold Mem_accepts. pose proof CHUNK_pos.
  destruct (Z.leb_spec (offset + len) (m_size d)) as [Hb|Hb]; cbn [andb].
  - rewrite (proj2 (check_bounds_Ok offset len (m_size d) tt ltac:(lia))) by done.
    cbn [mbind result_bind].
    destruct (check_aligned_eq d offset len Hl) as [[-> H']|[-> H']]; exact H'.
  - destruct (check_bounds_answers offset len (m_size d)) as [[u Hu]|[e He]].
    + apply check_bounds_Ok in Hu; lia.
    + rewrite He. by exists e.
Qed.

Lemma bind_assoc_unit {A} (a b : result unit) (k : result A) :
  (a;; b;; k) = ((a;; b);; k).
Proof. by destruct a. Qed.

(** A request on the chunks whose function meets [P]. *)
Lemma on_chunks_spec d offset len f (P : gmap Z buf -> Prop) :
  Mem_valid d -> Mem_accepts d offset len = true ->
  (exists m, f (chunks d) = Ok m /\ chunks_ok m /\ P m) ->
  exists m, on_chunks d offset len f = (set_chunks d m, Ok tt) /\ chunks_ok m /\ P m.
Proof.
  intros Hd Ha (m & Hf & Hm & HP). exists m. unfold on_chunks. rewrite bind_assoc_unit.
  pose proof (Mem_checks d offset len Hd) as Hc. rewrite Ha in Hc. rewrite Hc.
  cbn [mbind result_bind]. by rewrite Hf.
Qed.

Lemma on_chunks_refused d offset len f :
  Mem_valid d -> Mem_accepts d offset len = false ->
  exists e, on_chunks d offset len f = (d, Err e).
Proof.
  intros Hd Ha. pose proof (Mem_checks d offset len Hd) as Hc. rewrite Ha in Hc.
  destruct Hc as [e He]. exists e. unfold on_chunks. by rewrite bind_assoc_unit, He.
Qed.

Lemma set_chunks_valid d m : Mem_valid d -> chunks_ok m -> Mem_valid (set_chunks d m).
Proof. intros (? & ? & ? & ?) ?. done. Qed.

#[export] Program Instance MemDevice_spec : DeviceSpec MemDevice := {|
  contents d := byte_at (chunks d);
  valid := Mem_valid;
  accepts := Mem_accepts;
|}.
Next Obligation. intros d off len H. unfold Mem_accepts in H. bools. done. Qed.
Next Obligation. intros d (? & ? & ? & ?). pose proof CHUNK_pos. cbn. lia. Qed.
Next Obligation.
  intros d off len Hd Ho Hl Ha. cbn. unfold Mem_read_at. rewrite bind_assoc_unit.
  pose proof (Mem_checks d off len Hd) as Hc. rewrite Ha in Hc. rewrite Hc.
  cbn [mbind result_bind]. destruct Hd as (Hm & ? & ? & ?). unfold Mem_accepts in Ha. bools.
  pose proof CHUNK_pos. unfold copy_out. rewrite copy_out_loop_spec by (try done; lia).
  by rewrite Z2Nat.id by done.
Qed.
Next Obligation.
  intros d off len Hd Ho Hl Ha. cbn. unfold Mem_read_at. rewrite bind_assoc_unit.
  pose proof (Mem_checks d off len Hd) as Hc. rewrite Ha in Hc. destruct Hc as [e ->]. by exists e.
Qed.
Next Obligation.
  intros d off b Hd Ho Ha. cbn.
  destruct (on_chunks_spec d off (Z.of_nat (length b)) (fun m => copy_in m off b)
    (fun m => forall i, byte_at m i = overlay off b (byte_at (chunks d)) i) Hd Ha)
    as (m & E & Hm & HP).
  - destruct Hd as (Hm & ? & ? & ?). unfold Mem_accepts in Ha. bools. pose proof CHUNK_pos.
    unfold copy_in. apply copy_in_loop_spec; [lia | done | lia | lia].
  - eexists. split; [exact E|]. split; [by apply set_chunks_valid|]. done.
Qed.
Next Obligation. intros d off b Hd Ho Ha. by apply on_chunks_refused. Qed.
Next Obligation. intros d Hd. exists d. done. Qed.
Next Obligation.
  intros d off len Hd Ho Hl Ha. cbn.
  destruct (on_chunks_spec d off len (fun m => zero_range m off len)
    (fun m => forall i, byte_at m i = zeroed off len (byte_at (chunks d)) i) Hd Ha)
    as (m & E & Hm & HP).
  - destruct Hd as (Hm & ? & ? & ?). unfold Mem_accepts in Ha. bools.
    apply zero_range_spec; [done | done | done | lia].
  - eexists. split; [exact E|]. split; [by apply set_chunks_valid|]. done.
Qed.
Next Obligation. intros d off len Hd Ho Hl Ha. by apply on_chunks_refused. Qed.

(** * The default [write_zeroes] *)

(** The loop over any [write_at] that, while [inv] holds, lays its bytes over
    the contents in the ranges [acc] names: [pieces_in] says it names the ranges
    the loop asks for, whole 1 MiB pieces and the remainder. *)
Definition pieces_in (acc : Z -> Z -> bool) (off len : Z) : Prop :=
  forall done n, 0 <= done -> 0 < n -> done + n <= len -> done mod WZ_CHUNK = 0 ->
    (n = WZ_CHUNK \/ done + n = len) -> acc (off + done) n = true.

Section ZeroesLoop.
Context {D : Type} (wr : D -> Z -> buf -> D * result unit).
Context (inv : D -> Prop) (cont : D -> Z -> byte) (acc : Z -> Z -> bool).
Hypothesis Hwr : forall d off b, inv d -> 0 <= off -> acc off (Z.of_nat (length b)) = true ->
  exists d', wr d off b = (d', Ok tt) /\ inv d' /\ forall i, cont d' i = overlay off b (cont d) i.

Lemma write_zeroes_loop_spec fuel zs d off len done :
  inv d -> 0 <= off -> 0 <= done <= len -> off + len < 2 ^ 64 ->
  (Z.to_nat (len - done) < fuel)%nat -> zs = Z.max (Z.min WZ_CHUNK len) 1 ->
  done mod WZ_CHUNK = 0 \/ done = len -> pieces_in acc off len ->
  exists d', write_zeroes_loop wr fuel zs d off len done = (d', Ok tt) /\ inv d' /\
    forall i, cont d' i = zeroed (off + done) (len - done) (cont d) i.
Proof.
  revert d done. induction fuel as [|fuel IH]; intros d done Hv Ho Hd Hb Hf Hz Hm Ha; [lia|].
  assert (0 < WZ_CHUNK) as HW by reflexivity.
  cbn [write_zeroes_loop]. destruct (Z.ltb_spec done len) as [Hlt|Hge].
  2: { exists d. split_and!; [done..|]. intros i. unfold zeroed.
       destruct ((_ <=? i) && _) eqn:E; [|done]. bools. lia. }
  destruct Hm as [Hm|Hm]; [|lia].
  assert (Z.min (len - done) zs = len - done \/
          (Z.min (len - done) zs = WZ_CHUNK /\ zs = WZ_CHUNK)) as Hn by lia.
  set (n := Z.min (len - done) zs) in *.
  assert (0 < n <= len - done) as Hnr by lia.
  rewrite !u64_id by lia.
  assert (Z.of_nat (length (zeroes (Z.to_nat n))) = n) as Ln by (rewrite length_zeroes; lia).
  destruct (Hwr d (off + done) (zeroes (Z.to_nat n)) Hv) as (d1 & -> & Hv1 & C1).
  { lia. }
  { rewrite Ln. apply Ha; try lia. }
  destruct (IH d1 (done + n)) as (d2 & E2 & Hv2 & C2); try (done || lia).
  - destruct Hn as [Hn|[Hn _]]; [right; lia | left].
    rewrite Hn, <- Z.add_mod_idemp_r, Z.mod_same, Z.add_0_r by lia. done.
  - exists d2. split_and!; [done | done |]. intros i. rewrite C2.
    unfold zeroed. rewrite C1, overlay_zeroes. unfold zeroed.
    replace (Z.of_nat (Z.to_nat n)) with n by lia.
    destruct (Z.leb_spec (off + (done + n)) i), (Z.ltb_spec i (off + (done + n) + (len - (done + n)))),
      (Z.leb_spec (off + done) i), (Z.ltb_spec i (off + done + n)),
      (Z.ltb_spec i (off + done + (len - done))); cbn; try done; lia.
Qed.

Lemma default_zeroes_spec d off len : inv d -> 0 <= off -> 0 <= len -> off + len < 2 ^ 64 ->
  pieces_in acc off len ->
  exists d', default_write_zeroes wr d off len = (d', Ok tt) /\ inv d' /\
    forall i, cont d' i = zeroed off len (cont d) i.
Proof.
  intros Hv Ho Hl Hb Ha.
  destruct (write_zeroes_loop_spec (S (Z.to_nat len)) (Z.max (Z.min WZ_CHUNK len) 1)
    d off len 0) as (d' & E & Hv' & C); try (done || lia).
  - left. by apply Z.mod_0_l.
  - exists d'. split_and!; [done..|]. intros i. rewrite C. by rewrite Z.add_0_r, Z.sub_0_r.
Qed.
End ZeroesLoop.

(** * Properties *)

(** C20: the sparse memory device behaves as a flat array of bytes: after a
    write it serves, every read it serves gives the bytes that were there
    with the written ones laid over them, whatever chunks were allocated,
    shared or dropped on the way. *)
Theorem mem_device_is_flat_memory d off b :
  Mem_valid d -> 0 <= off -> Mem_accepts d off (Z.of_nat (length b)) = true ->
  exists d', write_at d off b = (d', Ok tt) /\ Mem_valid d' /\
    forall o n, 0 <= o -> 0 <= n -> Mem_accepts d o n = true ->
      read_at d' o n = Ok (bytes_of (overlay off b (byte_at (chunks d))) o n).
Proof.
  intros Hd Ho Ha. destruct (@write_spec MemDevice _ MemDevice_spec d off b Hd Ho Ha) as (d' & E & Hv & _ & _ & Hacc & C).
  exists d'. split_and!; [done..|]. intros o n Hn Hon Hao.
  rewrite (@read_spec MemDevice _ MemDevice_spec); [|done..|by rewrite <- Hao; apply Hacc]. f_equal. apply bytes_of_ext. intros i _. apply C.
Qed.

Lemma mem_device_is_flat_memory_witness :
  exists d', write_at (Mem_strict (2 ^ 30) 4096) 61440 (zeroes 4096 ++ replicate 4096 (byte.of_Z 7))
      = (d', Ok tt) /\ Mem_valid d' /\
    forall o n, 0 <= o -> 0 <= n -> Mem_accepts (Mem_strict (2 ^ 30) 4096) o n = true ->
      read_at d' o n = Ok (bytes_of (overlay 61440 (zeroes 4096 ++ replicate 4096 (byte.of_Z 7))
        (byte_at (chunks (Mem_strict (2 ^ 30) 4096)))) o n).
Proof.
  apply mem_device_is_flat_memory; [|lia|vm_compute; reflexivity].
  split; [apply map_Forall_empty | vm_compute; done].
Defined.

(** A request outside the device or, on a strict device, not of whole
    sectors is an error and changes nothing; a served [write_zeroes] makes
    exactly its range read as zeroes. *)
Theorem mem_device_refuses_or_zeroes d off len :
  Mem_valid d -> 0 <= off -> 0 <= len ->
  (Mem_accepts d off len = false ->
     (exists e, read_at d off len = Err e) /\ (exists e, write_zeroes d off len = (d, Err e)) /\
     forall b, Z.of_nat (length b) = len -> exists e, write_at d off b = (d, Err e)) /\
  (Mem_accepts d off len = true ->
     exists d', write_zeroes d off len = (d', Ok tt) /\ Mem_valid d' /\
       forall o n, 0 <= o -> 0 <= n -> Mem_accepts d o n = true ->
         read_at d' o n = Ok (bytes_of (zeroed off len (byte_at (chunks d))) o n)).
Proof.
  intros Hd Ho Hl. split; intros Ha.
  - split_and!; [by apply (@read_refused MemDevice _ MemDevice_spec) | by apply (@zeroes_refused MemDevice _ MemDevice_spec) |].
    intros b Hb. apply (@write_refused MemDevice _ MemDevice_spec); [done..|]. by rewrite Hb.
  - destruct (@zeroes_spec MemDevice _ MemDevice_spec d off len Hd Ho Hl Ha) as (d' & E & Hv & _ & _ & Hacc & C).
    exists d'. split_and!; [done..|]. intros o n Hn Hon Hao.
    rewrite (@read_spec MemDevice _ MemDevice_spec); [|done..|by rewrite <- Hao; apply Hacc]. f_equal. apply bytes_of_ext. intros i _. apply C.
Qed.

Lemma mem_device_refuses_or_zeroes_witness :
  exists e, read_at (Mem_strict (2 ^ 30) 4096) 512 4096 = Err e.
Proof.
  apply (mem_device_refuses_or_zeroes (Mem_strict (2 ^ 30) 4096) 512 4096);
    [split; [apply map_Forall_empty | vm_compute; done] | lia | lia | vm_compute; reflexivity].
Defined.

(** Writing zeroes never allocates. *)
Lemma copy_in_zero_dom fuel m pos b m' :
  is_zero b = true -> copy_in_loop fuel m pos b = Ok m' -> dom m' ⊆ dom m.
Proof.
  revert m pos b. induction fuel as [|fuel IH]; intros m pos b Hz H; cbn in H; [done|].
  destruct (length b =? 0)%nat; inv_ok; [done|].
  assert (is_zero (take (step_len pos (length b)) b) = true /\
          is_zero (drop (step_len pos (length b)) b) = true) as [Ht Hd].
  { apply andb_prop. unfold is_zero. rewrite <- forallb_app. by rewrite take_drop. }
  apply IH in H; [|done]. etrans; [exact H|]. unfold copy_in_step in E. rewrite Ht in E.
  destruct (_ =? _)%nat; inv_ok; [by rewrite dom_delete_L; set_solver|].
  destruct (m !! (pos / CHUNK)) eqn:Em; inv_ok; [|done].
  rewrite dom_insert_L. apply elem_of_dom_2 in Em. set_solver.
Qed.

(** Zeroes cost no memory: writing zero bytes, or [write_zeroes], never
    makes the device hold more than it did. *)
Theorem zeroes_need_no_memory d d' off len b :
  (is_zero b = true -> write_at d off b = (d', Ok tt) -> resident d' <= resident d) /\
  (write_zeroes d off len = (d', Ok tt) -> resident d' <= resident d).
Proof.
  assert (forall off len f, on_chunks d off len f = (d', Ok tt) ->
    (forall m, f (chunks d) = Ok m -> dom m ⊆ dom (chunks d)) -> resident d' <= resident d) as G.
  { intros o n f H Hf. unfold on_chunks in H.
    destruct (check_bounds _ _ _;; check_aligned _ _ _;; f (chunks d)) as [m| | |] eqn:E;
      try discriminate. injection H as <-.
    apply bind_Ok in E as (u & _ & E). apply bind_Ok in E as (u' & _ & E).
    apply Hf, subseteq_size in E.
    unfold resident. cbn. rewrite !size_dom in E. pose proof CHUNK_pos. nia. }
  split; intros H.
  - intros Hw. eapply G; [exact Hw|]. intros m Hm. exact (copy_in_zero_dom _ _ _ _ _ H Hm).
  - eapply G; [exact H|]. intros m Hm. unfold zero_range in Hm.
    refine (fold_result_ind (fun m => dom m ⊆ dom (chunks d)) _ _ (chunks d) m _ _ Hm);
      [|set_solver].
    intros m1 k m2 _ Hs Hk. etrans; [|exact Hs]. unfold zero_chunk in Hk.
    destruct (_ && _); inv_ok; [rewrite dom_delete_L; set_solver|].
    destruct (m1 !! k) eqn:Em; inv_ok; [|done].
    rewrite dom_insert_L. apply elem_of_dom_2 in Em. set_solver.
Qed.

Lemma zeroes_need_no_memory_witness :
  exists d', write_at (Mem_new (2 ^ 30)) 4096 (zeroes 4096) = (d', Ok tt) /\
    resident d' <= resident (Mem_new (2 ^ 30)).
Proof.
  eexists. split; [vm_compute; reflexivity|].
  apply (proj1 (zeroes_need_no_memory (Mem_new (2 ^ 30)) _ 4096 0 (zeroes 4096)));
    vm_compute; reflexivity.
Defined.

(** The trait's default [write_zeroes] ends and zeroes exactly its range,
    on any device that keeps the interface's promises and serves the pieces
    it writes. *)
Theorem default_write_zeroes_ok {D : Type} `{DeviceSpec D} (d : D) off len :
  valid d -> 0 <= off -> 0 <= len -> off + len <= dev_size d -> pieces_in (accepts d) off len ->
  exists d', default_write_zeroes write_at d off len = (d', Ok tt) /\ valid d' /\
    dev_size d' = dev_size d /\
    forall i, contents d' i = zeroed off len (contents d) i.
Proof.
  intros Hv Ho Hl Hb Ha. pose proof (size_range d Hv) as Hs.
  destruct (default_zeroes_spec write_at
    (fun d' => valid d' /\ dev_size d' = dev_size d /\ forall o n, accepts d' o n = accepts d o n)
    contents (accepts d)) with (d := d) (off := off) (len := len) as (d' & E & (V & Z & _) & C);
    try (done || lia).
  - intros d1 o b (V1 & Z1 & A1) Hob Hab. rewrite <- A1 in Hab.
    destruct (write_spec d1 o b V1 Hob Hab) as (d2 & E2 & V2 & Z2 & _ & A2 & C2).
    exists d2. split_and!; [done | done | by rewrite Z2 | intros; by rewrite A2 | done].
  - by exists d'.
Qed.

Lemma default_write_zeroes_ok_witness :
  exists d', default_write_zeroes write_at (Mem_strict (2 ^ 30) 4096) 8192 (3 * 2 ^ 20) = (d', Ok tt) /\
    valid d' /\ dev_size d' = dev_size (Mem_strict (2 ^ 30) 4096) /\
    forall i, contents d' i = zeroed 8192 (3 * 2 ^ 20) (contents (Mem_strict (2 ^ 30) 4096)) i.
Proof.
  apply (default_write_zeroes_ok (Mem_strict (2 ^ 30) 4096) 8192 (3 * 2 ^ 20)); [|lia..| |].
  - split; [apply map_Forall_empty | vm_compute; done].
  - vm_compute. done.
  - intros k n Hk Hn Hkn Hm Hd. change WZ_CHUNK with (256 * 4096) in Hm, Hd.
    cbn. unfold Mem_accepts, aligned. cbn [m_size m_logical m_strict Mem_strict negb orb].
    assert (exists q, k = q * 4096) as [q ->].
    { exists (k / (256 * 4096) * 256). pose proof (Z.div_mod k (256 * 4096)). lia. }
    assert (exists p, n = p * 4096) as [p ->].
    { destruct Hd as [->|Hd]; [by exists 256 | exists (768 - q); lia]. }
    replace (8192 + q * 4096) with ((q + 2) * 4096) by lia.
    rewrite !Z.mod_mul by lia. cbn [Z.eqb andb]. rewrite andb_true_r. apply Z.leb_le. lia.
Defined.
