(* ===== verification/FileDevice.v ===== *)
(** [src/src/device.rs], devices over other things: [FileDevice] over a file
    of the operating system, and the borrowed and shared devices.

    What [FileDevice] calls of [std::fs] and [rustix] is the class [FileOps];
    what it relies on of them is [FileSpec]: positional reads and writes
    inside the file do what they say and keep its length, and
    [fallocate(PUNCH_HOLE | KEEP_SIZE)] zeroes its range when it succeeds and
    changes nothing when it does not.  [FileDevice_spec], [Ref_spec] and
    [Arc_spec] prove the devices instances of [DeviceSpec], so that
    everything proved of the formatter and the administrator holds on them;
    [RamFile], a file in memory, shows the promises can be kept. *)

From Stdlib Require Import ZArith Lia String.
From stdpp Require Import base tactics list numbers.
From coqutil Require Import Byte Word.LittleEndianList.
From S2P Require Import Prelude Bytes Device.

(** * The operating system *)

(** [std::io::Result]; the error is kept as its message. *)
Inductive ioresult (A : Type) : Type := IoOk (a : A) | IoErr (msg : string).
Arguments IoOk {A} a.
Arguments IoErr {A} msg.

(** [.map_err(|e| Error::io(offset, e))]. *)
Definition at_offset {A} (offset : Z) (r : ioresult A) : result A :=
  match r with IoOk a => Ok a | IoErr m => Err (Error_io offset m) end.

(** An open file: [set_len], [read_exact_at], [write_all_at], [sync_data],
    whether [fallocate] punched the range out, [metadata] ([is_file] and
    [len]), the end [try_clone] and [seek] give, and the two [ioctl]s. *)
Class FileOps (F : Type) : Type := {
  set_len : F -> Z -> F * ioresult unit;
  read_exact_at : F -> Z -> Z -> ioresult buf;
  write_all_at : F -> Z -> buf -> F * ioresult unit;
  sync_data : F -> F * ioresult unit;
  punch_hole : F -> Z -> Z -> F * bool;
  metadata : F -> ioresult (bool * Z);
  try_clone : F -> ioresult F;
  seek_end : F -> ioresult Z;
  ioctl_blksszget : F -> option Z;
  ioctl_blkpbszget : F -> option Z;
}.

(** * [FileDevice] *)

Record FileDevice (F : Type) : Type := mkFileDevice {
  fd_file : F;
  fd_size : Z;
  fd_logical : Z;
  fd_physical : Z;
  fd_regular : bool;
}.
Arguments mkFileDevice {F} fd_file fd_size fd_logical fd_physical fd_regular.
Arguments fd_file {F} f.
Arguments fd_size {F} f.
Arguments fd_logical {F} f.
Arguments fd_physical {F} f.
Arguments fd_regular {F} f.

Section FileDevice.
Context {F : Type} `{FileOps F}.

Definition with_file (d : FileDevice F) (f : F) : FileDevice F :=
  mkFileDevice f (fd_size d) (fd_logical d) (fd_physical d) (fd_regular d).

Definition seek_size (f : F) : result Z :=
  f ← at_offset 0 (try_clone f); at_offset 0 (seek_end f).

Definition sector_sizes (f : F) (regular : bool) : Z * Z :=
  if negb regular then
    let logical := Z.max (default 512 (ioctl_blksszget f)) 512 in
    let physical := Z.max (default logical (ioctl_blkpbszget f)) logical in
    (logical, physical)
  else (512, 512).

(** [open] and [create].  [joined] is how the blocking task ended, [opened]
    what [OpenOptions::open] gave in it; [create]'s task sizes the file. *)
Definition FileDevice_open (joined : ioresult unit) (opened : ioresult F) : result (FileDevice F) :=
  at_offset 0 joined;;
  file ← at_offset 0 opened;
  '(regular, len) ← at_offset 0 (metadata file);
  size ← (if regular then Ok len else seek_size file);
  let '(logical, physical) := sector_sizes file regular in
  Ok (mkFileDevice file size logical physical regular).

Definition create_task (opened : ioresult F) (size : Z) : ioresult F :=
  match opened with
  | IoOk f => match set_len f size with (f, IoOk _) => IoOk f | (_, IoErr m) => IoErr m end
  | IoErr m => IoErr m
  end.
Definition FileDevice_create (joined : ioresult unit) (opened : ioresult F) (size : Z)
    : result (FileDevice F) :=
  at_offset 0 joined;;
  file ← at_offset 0 (create_task opened size);
  Ok (mkFileDevice file size 512 512 true).
Definition with_sector_size (d : FileDevice F) (sector_size : Z) : FileDevice F :=
  mkFileDevice (fd_file d) (fd_size d) sector_size sector_size (fd_regular d).

Definition File_read_at (d : FileDevice F) (offset len : Z) : result buf :=
  check_bounds offset len (fd_size d);;
  at_offset offset (read_exact_at (fd_file d) offset len).
Definition File_write_at (d : FileDevice F) (offset : Z) (b : buf) : FileDevice F * result unit :=
  match check_bounds offset (Z.of_nat (length b)) (fd_size d) with
  | Ok _ =>
      let '(f, r) := write_all_at (fd_file d) offset b in (with_file d f, at_offset offset r)
  | e => (d, e)
  end.
Definition File_flush (d : FileDevice F) : FileDevice F * result unit :=
  let '(f, r) := sync_data (fd_file d) in (with_file d f, at_offset 0 r).

(** A hole punched, or zeroes written a MiB at a time. *)
Definition File_write_zeroes (d : FileDevice F) (offset len : Z) : FileDevice F * result unit :=
  match check_bounds offset len (fd_size d) with
  | Ok _ =>
      let '(d, punched) :=
        if fd_regular d
        then let '(f, ok) := punch_hole (fd_file d) offset len in (with_file d f, ok)
        else (d, false) in
      if punched : bool then (d, Ok tt) else default_write_zeroes File_write_at d offset len
  | e => (d, e)
  end.

#[export] Instance FileDevice_BlockDevice : BlockDevice (FileDevice F) := {
  dev_size := fd_size;
  logical_sector_size := fd_logical;
  physical_sector_size := fd_physical;
  read_at := File_read_at;
  write_at := File_write_at;
  flush := File_flush;
  write_zeroes := File_write_zeroes;
}.
End FileDevice.

(** * Borrowed and shared devices *)

(** [&D] and [Arc<D>]: another name for a device. *)
Record Ref (D : Type) : Type := mkRef { deref : D }.
Arguments mkRef {D} deref.
Arguments deref {D} r.
Record Arc (D : Type) : Type := mkArc { arc_deref : D }.
Arguments mkArc {D} arc_deref.
Arguments arc_deref {D} a.

Definition forward {D E A} (get : E -> D) (put : D -> E) (op : D -> D * A) (e : E) : E * A :=
  let '(d, r) := op (get e) in (put d, r).

(** Every method asks the device behind. *)
Definition forwarding {D E} `{BlockDevice D} (get : E -> D) (put : D -> E) : BlockDevice E := {|
  dev_size e := dev_size (get e);
  logical_sector_size e := logical_sector_size (get e);
  physical_sector_size e := physical_sector_size (get e);
  read_at e offset len := read_at (get e) offset len;
  write_at e offset b := forward get put (fun d => write_at d offset b) e;
  flush e := forward get put flush e;
  write_zeroes e offset len := forward get put (fun d => write_zeroes d offset len) e;
|}.
#[export] Instance Ref_BlockDevice {D} `{BlockDevice D} : BlockDevice (Ref D) := forwarding deref mkRef.
#[export] Instance Arc_BlockDevice {D} `{BlockDevice D} : BlockDevice (Arc D) := forwarding arc_deref mkArc.

(** * What the operating system promises *)

(** The requests of [FileDevice] inside a file.  A request that may fail for
    reasons of its own ([fallocate] where holes are not supported, [set_len],
    [metadata], [seek]) is only promised to tell the truth. *)
Class FileSpec (F : Type) `{FileOps F} : Type := {
  file_at : F -> Z -> byte;
  file_len : F -> Z;
  healthy : F -> Prop;
  file_len_range f : healthy f -> 0 <= file_len f < 2 ^ 63;
  read_exact_spec f off n : healthy f -> 0 <= off -> 0 <= n -> off + n <= file_len f ->
    read_exact_at f off n = IoOk (bytes_of (file_at f) off n);
  write_all_spec f off b : healthy f -> 0 <= off -> off + Z.of_nat (length b) <= file_len f ->
    exists f', write_all_at f off b = (f', IoOk tt) /\ healthy f' /\ file_len f' = file_len f /\
      forall i, file_at f' i = overlay off b (file_at f) i;
  sync_data_spec f : healthy f ->
    exists f', sync_data f = (f', IoOk tt) /\ healthy f' /\ file_len f' = file_len f /\
      forall i, file_at f' i = file_at f i;
  punch_hole_spec f off n : healthy f -> 0 <= off -> 0 <= n -> off + n <= file_len f ->
    exists f' ok, punch_hole f off n = (f', ok) /\ healthy f' /\ file_len f' = file_len f /\
      forall i, file_at f' i = if ok : bool then zeroed off n (file_at f) i else file_at f i;
  set_len_spec f n f' : healthy f -> 0 <= n -> set_len f n = (f', IoOk tt) ->
    healthy f' /\ file_len f' = n /\
    forall i, file_at f' i = if i <? file_len f then file_at f i else byte.of_Z 0;
  metadata_spec f len : healthy f -> metadata f = IoOk (true, len) -> len = file_len f;
  seek_spec f f' n : healthy f -> try_clone f = IoOk f' -> seek_end f' = IoOk n -> n = file_len f;
}.

(** * [FileDevice] keeps the interface's promises *)

Section FileDeviceSpec.
Context {F : Type} `{FileSpec F}.

Definition File_valid (d : FileDevice F) : Prop :=
  healthy (fd_file d) /\ fd_size d = file_len (fd_file d).
Definition File_accepts (d : FileDevice F) (off len : Z) : bool := off + len <=? fd_size d.

(** A device whose file was changed, its length kept. *)
Definition refiled (d d' : FileDevice F) : Prop :=
  exists f', d' = with_file d f' /\ healthy f' /\ file_len f' = file_len (fd_file d).

Lemma refiled_valid d d' : File_valid d -> refiled d d' ->
  File_valid d' /\ fd_size d' = fd_size d /\ fd_logical d' = fd_logical d /\
  forall o n, File_accepts d' o n = File_accepts d o n.
Proof.
  intros [Hh Hs] (f' & -> & Hf & Hl). unfold File_valid, File_accepts. cbn.
  rewrite Hl. repeat split; done || lia.
Qed.

Lemma refiled_trans d d1 d2 : refiled d d1 -> refiled d1 d2 -> refiled d d2.
Proof.
  intros (f1 & -> & H1 & L1) (f2 & -> & H2 & L2). exists f2. cbn in L2.
  split_and!; [done | done | by rewrite L2].
Qed.

Lemma in_bounds d off len : File_valid d -> 0 <= off -> 0 <= len ->
  check_bounds off len (fd_size d) =
  if File_accepts d off len then Ok tt else Err (OutOfBounds off len (fd_size d)).
Proof.
  intros [Hh Hs] Ho Hl. pose proof (file_len_range _ Hh). unfold check_bounds, checked_add64, File_accepts.
  destruct (Z.ltb_spec (off + len) (2 ^ 64)); destruct (Z.leb_spec (off + len) (fd_size d)); done || lia.
Qed.

Lemma File_write_spec d off b : File_valid d -> 0 <= off ->
  File_accepts d off (Z.of_nat (length b)) = true ->
  exists d', File_write_at d off b = (d', Ok tt) /\ refiled d d' /\
    forall i, file_at (fd_file d') i = overlay off b (file_at (fd_file d)) i.
Proof.
  intros Hv Ho Ha. unfold File_write_at. rewrite in_bounds, Ha by (done || lia).
  unfold File_accepts in Ha. bools. destruct Hv as [Hh Hs].
  destruct (write_all_spec (fd_file d) off b Hh Ho ltac:(lia)) as (f' & -> & Hf & Hl & C).
  eexists. split_and!; [done | by exists f' | done].
Qed.

Lemma File_zeroes_spec d off len : File_valid d -> 0 <= off -> 0 <= len ->
  File_accepts d off len = true ->
  exists d', File_write_zeroes d off len = (d', Ok tt) /\ refiled d d' /\
    forall i, file_at (fd_file d') i = zeroed off len (file_at (fd_file d)) i.
Proof.
  intros Hv Ho Hl Ha. unfold File_write_zeroes. rewrite in_bounds, Ha by done.
  unfold File_accepts in Ha. bools. pose proof Hv as [Hh Hs]. pose proof (file_len_range _ Hh).
  assert (forall d0, refiled d d0 -> (forall i, file_at (fd_file d0) i = file_at (fd_file d) i) ->
    exists d', default_write_zeroes File_write_at d0 off len = (d', Ok tt) /\ refiled d d' /\
      forall i, file_at (fd_file d') i = zeroed off len (file_at (fd_file d)) i) as Hloop.
  { intros d0 R0 C0.
    destruct (default_zeroes_spec File_write_at (refiled d) (fun d => file_at (fd_file d)) (File_accepts d))
      with (d := d0) (off := off) (len := len) as (d' & E & R & C); [| done..| lia | |].
    - intros d1 o b R1 Hob Hab. destruct (refiled_valid d d1 Hv R1) as (V1 & _ & _ & A1).
      rewrite <- A1 in Hab. destruct (File_write_spec d1 o b V1 Hob Hab) as (d2 & E2 & R2 & C2).
      exists d2. split_and!; [done | by eapply refiled_trans | done].
    - intros k n ?????. apply Z.leb_le. lia.
    - exists d'. split_and!; [done..|]. intros i. rewrite C. by apply zeroed_ext. }
  destruct (fd_regular d) eqn:Er.
  - destruct (punch_hole_spec (fd_file d) off len Hh Ho Hl ltac:(lia)) as (f' & ok & -> & Hf & Hn & C).
    destruct ok; [eexists; split_and!; [done | by exists f' | done] |].
    apply Hloop; [by exists f' | done].
  - apply Hloop; [|done]. exists (fd_file d). by destruct d.
Qed.

#[export] Program Instance FileDevice_spec : DeviceSpec (FileDevice F) := {|
  contents d := file_at (fd_file d);
  valid := File_valid;
  accepts := File_accepts;
|}.
Next Obligation. intros d off len Ha. unfold File_accepts in Ha. bools. done. Qed.
Next Obligation. intros d [Hh Hs]. pose proof (file_len_range _ Hh). cbn. lia. Qed.
Next Obligation.
  intros d off len Hv Ho Hl Ha. cbn. unfold File_read_at. rewrite in_bounds, Ha by done.
  unfold File_accepts in Ha. bools. destruct Hv as [Hh Hs]. cbn [mbind result_bind].
  by rewrite read_exact_spec by (done || lia).
Qed.
Next Obligation.
  intros d off len Hv Ho Hl Ha. cbn. unfold File_read_at. rewrite in_bounds, Ha by done. by eexists.
Qed.
Next Obligation.
  intros d off b Hv Ho Ha. destruct (File_write_spec d off b Hv Ho Ha) as (d' & E & R & C).
  destruct (refiled_valid d d' Hv R) as (? & ? & ? & ?). by exists d'.
Qed.
Next Obligation.
  intros d off b Hv Ho Ha. cbn. unfold File_write_at. rewrite in_bounds, Ha by (done || lia). by eexists.
Qed.
Next Obligation.
  intros d Hv. cbn. unfold File_flush.
  destruct (sync_data_spec (fd_file d) (proj1 Hv)) as (f' & -> & Hf & Hl & C).
  destruct (refiled_valid d (with_file d f') Hv) as (? & ? & ? & ?); [by exists f'|].
  by eexists.
Qed.
Next Obligation.
  intros d off len Hv Ho Hl Ha. destruct (File_zeroes_spec d off len Hv Ho Hl Ha) as (d' & E & R & C).
  destruct (refiled_valid d d' Hv R) as (? & ? & ? & ?). by exists d'.
Qed.
Next Obligation.
  intros d off len Hv Ho Hl Ha. cbn. unfold File_write_zeroes. rewrite in_bounds, Ha by done. by eexists.
Qed.
End FileDeviceSpec.

(** * Borrowed and shared devices keep what the device keeps *)

Section ForwardSpec.
Context {D E : Type} `{DeviceSpec D} (get : E -> D) (put : D -> E).
Hypothesis get_put : forall d, get (put d) = d.
Hypothesis put_get : forall e, put (get e) = e.

Lemma forward_kept (op : D -> D * result unit) e (eff : (Z -> byte) -> Z -> byte) :
  (exists d', op (get e) = (d', Ok tt) /\ valid d' /\ dev_size d' = dev_size (get e) /\
    logical_sector_size d' = logical_sector_size (get e) /\
    (forall o n, accepts d' o n = accepts (get e) o n) /\
    forall i, contents d' i = eff (contents (get e)) i) ->
  exists e', forward get put op e = (e', Ok tt) /\ valid (get e') /\ dev_size (get e') = dev_size (get e) /\
    logical_sector_size (get e') = logical_sector_size (get e) /\
    (forall o n, accepts (get e') o n = accepts (get e) o n) /\
    forall i, contents (get e') i = eff (contents (get e)) i.
Proof.
  intros (d' & E' & Hd'). exists (put d'). unfold forward. rewrite E', get_put. by split.
Qed.

Lemma forward_refused (op : D -> D * result unit) e :
  (exists x, op (get e) = (get e, Err x)) -> exists x, forward get put op e = (e, Err x).
Proof. intros [x E']. exists x. unfold forward. by rewrite E', put_get. Qed.

#[local] Instance forwarded : BlockDevice E := forwarding get put.
#[program] Definition forwarding_spec : DeviceSpec E :=
  {| contents e := contents (get e); valid e := valid (get e); accepts e := accepts (get e) |}.
Next Obligation. intros e off len. apply (accepts_in (get e)). Qed.
Next Obligation. intros e. apply (size_range (get e)). Qed.
Next Obligation. intros e off len. apply (read_spec (get e)). Qed.
Next Obligation. intros e off len. apply (read_refused (get e)). Qed.
Next Obligation. intros e off b V O A. by apply (forward_kept _ e (overlay off b)), write_spec. Qed.
Next Obligation. intros e off b V O A. by apply forward_refused, write_refused. Qed.
Next Obligation. intros e V. by apply (forward_kept _ e (fun f => f)), flush_spec. Qed.
Next Obligation. intros e off len V O L A. by apply (forward_kept _ e (zeroed off len)), zeroes_spec. Qed.
Next Obligation. intros e off len V O L A. by apply forward_refused, zeroes_refused. Qed.
End ForwardSpec.

#[export] Instance Ref_spec {D} `{DeviceSpec D} : DeviceSpec (Ref D).
Proof. by apply forwarding_spec; [|intros []]. Defined.
#[export] Instance Arc_spec {D} `{DeviceSpec D} : DeviceSpec (Arc D).
Proof. by apply forwarding_spec; [|intros []]. Defined.

(** * A file in memory *)

(** Its length, its bytes, whether holes can be punched. *)
Record RamFile : Type := mkRam { r_len : Z; r_byte : Z -> byte; r_holes : bool }.

Definition Ram_inside (f : RamFile) (off len : Z) : bool := off + len <=? r_len f.
Definition with_byte (f : RamFile) (g : Z -> byte) : RamFile := mkRam (r_len f) g (r_holes f).

#[export] Instance RamFile_ops : FileOps RamFile := {
  set_len f n :=
    if n <? 2 ^ 63
    then (mkRam n (fun i => if i <? r_len f then r_byte f i else byte.of_Z 0) (r_holes f), IoOk tt)
    else (f, IoErr "File too large");
  read_exact_at f off n :=
    if Ram_inside f off n then IoOk (bytes_of (r_byte f) off n) else IoErr "failed to fill whole buffer";
  write_all_at f off b :=
    if Ram_inside f off (Z.of_nat (length b)) then (with_byte f (overlay off b (r_byte f)), IoOk tt)
    else (f, IoErr "failed to write whole buffer");
  sync_data f := (f, IoOk tt);
  punch_hole f off n :=
    if r_holes f && (0 <? n) then (with_byte f (zeroed off n (r_byte f)), true) else (f, false);
  metadata f := IoOk (true, r_len f);
  try_clone f := IoOk f;
  seek_end f := IoOk (r_len f);
  ioctl_blksszget _ := None;
  ioctl_blkpbszget _ := None;
}.

#[export] Program Instance RamFile_spec : FileSpec RamFile := {|
  file_at := r_byte;
  file_len := r_len;
  healthy f := 0 <= r_len f < 2 ^ 63;
|}.
Next Obligation. done. Qed.
Next Obligation. intros f off n _ _ _ Hn. cbn. unfold Ram_inside. by rewrite (proj2 (Z.leb_le _ _) Hn). Qed.
Next Obligation.
  intros f off b Hf _ Hn. cbn. unfold Ram_inside. rewrite (proj2 (Z.leb_le _ _) Hn). by eexists.
Qed.
Next Obligation. intros f Hf. by exists f. Qed.
Next Obligation.
  intros f off n Hf _ _ _. cbn. destruct (_ && _); eexists _, _; split_and!; done || apply Hf.
Qed.
Next Obligation.
  intros f n f' Hf Hn. cbn. destruct (Z.ltb_spec n (2 ^ 63)); [|done]. intros [= <-]. cbn. split_and!; done.
Qed.
Next Obligation. intros f len _ [= ->]. done. Qed.
Next Obligation. intros f f' n _ [= <-] [= <-]. done. Qed.

(** * Properties *)

(** What a failed [write_zeroes] fails with. *)
Definition zeroes_error {F} `{FileOps F} (off : Z) (e : Error) : Prop :=
  exists k f n m, 0 <= k /\ e = Error_io (off + k * WZ_CHUNK) m /\
    snd (write_all_at f (off + k * WZ_CHUNK) (zeroes n)) = IoErr m.

Section AnyFile.
Context {F : Type} `{FileOps F}.

Lemma File_write_size (d d' : FileDevice F) off b r : File_write_at d off b = (d', r) -> fd_size d' = fd_size d.
Proof.
  unfold File_write_at. destruct (check_bounds _ _ _); [|by intros [= <- _]..].
  destruct (write_all_at _ _ _). by intros [= <- _].
Qed.

Lemma File_write_answers (d : FileDevice F) off b : 0 <= off -> fd_size d < 2 ^ 64 ->
  off + Z.of_nat (length b) <= fd_size d ->
  let '(d', r) := File_write_at d off b in
  r = Ok tt \/ exists m, r = Err (Error_io off m) /\ snd (write_all_at (fd_file d) off b) = IoErr m.
Proof.
  intros Ho Hs Hb. unfold File_write_at.
  rewrite (proj2 (check_bounds_Ok off (Z.of_nat (length b)) (fd_size d) tt ltac:(lia))) by lia.
  destruct (write_all_at (fd_file d) off b) as [f [[]|m]] eqn:E; [by left | right; by exists m].
Qed.

(** The pieces of the loop: it ends, with the first write that fails. *)
Lemma zeroes_loop_answers fuel zs (d : FileDevice F) off len done : 0 <= off -> off + len <= fd_size d ->
  fd_size d < 2 ^ 64 -> 0 <= done <= len -> (Z.to_nat (len - done) < fuel)%nat ->
  zs = Z.max (Z.min WZ_CHUNK len) 1 -> done mod WZ_CHUNK = 0 \/ done = len ->
  let '(d', r) := write_zeroes_loop File_write_at fuel zs d off len done in
  r = Ok tt \/ exists e, r = Err e /\ zeroes_error (F := F) off e.
Proof.
  revert d done. induction fuel as [|fuel IH]; intros d done Ho Hb Hs Hd Hf Hz Hm; [lia|].
  assert (0 < WZ_CHUNK) as HW by reflexivity.
  cbn [write_zeroes_loop]. destruct (Z.ltb_spec done len) as [Hlt|Hge]; [|by left].
  destruct Hm as [Hm|Hm]; [|lia].
  set (n := Z.min (len - done) zs) in *.
  assert (0 < n <= len - done /\ (n = len - done \/ n = WZ_CHUNK)) as [Hnr Hn] by lia.
  rewrite !u64_id by lia. set (b := zeroes (Z.to_nat n)).
  pose proof (File_write_answers d (off + done) b ltac:(lia) Hs) as Ha.
  destruct (File_write_at d (off + done) b) as [d1 r] eqn:E.
  destruct Ha as [->|(m & -> & Em)]; [unfold b; rewrite length_zeroes; lia | |].
  - pose proof (File_write_size _ _ _ _ _ E) as Hz1.
    apply IH; try (rewrite ?Hz1; lia).
    destruct Hn as [Hn|Hn]; [right; lia | left].
    rewrite Hn, <- Z.add_mod_idemp_r, Z.mod_same, Z.add_0_r by lia. exact Hm.
  - right. eexists. split; [done|]. exists (done / WZ_CHUNK), (fd_file d), (Z.to_nat n), m.
    assert (done / WZ_CHUNK * WZ_CHUNK = done) as -> by (pose proof (Z.div_mod done WZ_CHUNK); lia).
    split; [apply Z.div_pos; lia|]. by split.
Qed.
End AnyFile.

(** C22: whatever the operating system does, a request on a file is answered: one
    outside the device is refused before the file is touched, a failed read
    or write is an error at its own offset, and zeroing succeeds or fails
    with the error of one of its writes, at that write's offset. *)
Theorem file_requests_are_answered {F} `{FileOps F} (d : FileDevice F) off len b :
  0 <= off -> 0 <= len -> Z.of_nat (length b) = len -> fd_size d < 2 ^ 64 ->
  (fd_size d < off + len ->
     let e := OutOfBounds off len (fd_size d) in
     read_at d off len = Err e /\ write_at d off b = (d, Err e) /\ write_zeroes d off len = (d, Err e)) /\
  (off + len <= fd_size d ->
     read_at d off len = at_offset off (read_exact_at (fd_file d) off len) /\
     (exists d', write_at d off b = (d', at_offset off (snd (write_all_at (fd_file d) off b)))) /\
     (exists d' r, write_zeroes d off len = (d', r) /\
        (r = Ok tt \/ exists e, r = Err e /\ zeroes_error (F := F) off e))).
Proof.
  intros Ho Hl Eb Hs. split; intros Hb; cbn; unfold File_read_at, File_write_at, File_write_zeroes; rewrite Eb.
  - assert (check_bounds off len (fd_size d) = Err (OutOfBounds off len (fd_size d))) as ->; [|done].
    unfold check_bounds, checked_add64. destruct (_ <? _); [|done].
    by rewrite (proj2 (Z.leb_gt _ _) Hb).
  - rewrite (proj2 (check_bounds_Ok off len (fd_size d) tt ltac:(lia))) by done. split_and!; [done | |].
    + destruct (write_all_at _ _ _). by eexists.
    + assert (forall d0 : FileDevice F, fd_size d0 = fd_size d ->
        exists d' r, default_write_zeroes File_write_at d0 off len = (d', r) /\
          (r = Ok tt \/ exists e, r = Err e /\ zeroes_error (F := F) off e)) as Hloop.
      { intros d0 E0. pose proof (zeroes_loop_answers (S (Z.to_nat len)) (Z.max (Z.min WZ_CHUNK len) 1) d0 off len 0)
          as Hz. unfold default_write_zeroes. destruct (write_zeroes_loop _ _ _ _ _ _ _) as [d' r].
        exists d', r. split; [done|]. apply Hz; try (rewrite ?E0; lia). left. by apply Z.mod_0_l. }
      destruct (fd_regular d); [|by apply Hloop].
      destruct (punch_hole (fd_file d) off len) as [f []]; [|by apply Hloop]. eexists _, _. split; [done|]. by left.
Qed.

(** The same file, taken for a regular one or for a block device. *)
Definition taken_for {F} (regular : bool) (d : FileDevice F) : FileDevice F :=
  mkFileDevice (fd_file d) (fd_size d) (fd_logical d) (fd_physical d) regular.

(** C21: punching a hole and writing zeroes are the same to a reader: zeroing a
    range of a regular file and of a block device over the same bytes both
    succeed, on a system where holes are supported or not, leave the range
    zero and everything else, the length too, as it was. *)
Theorem hole_or_zeroes_read_the_same {F} `{FileSpec F} (d : FileDevice F) off len :
  File_valid d -> 0 <= off -> 0 <= len -> File_accepts d off len = true ->
  exists d1 d2, write_zeroes (taken_for true d) off len = (d1, Ok tt) /\
    write_zeroes (taken_for false d) off len = (d2, Ok tt) /\
    file_len (fd_file d1) = file_len (fd_file d) /\ file_len (fd_file d2) = file_len (fd_file d) /\
    forall i, contents d1 i = zeroed off len (file_at (fd_file d)) i /\ contents d2 i = contents d1 i.
Proof.
  intros Hv Ho Hl Ha.
  destruct (File_zeroes_spec (taken_for true d) off len Hv Ho Hl Ha) as (d1 & E1 & (f1 & -> & _ & L1) & C1).
  destruct (File_zeroes_spec (taken_for false d) off len Hv Ho Hl Ha) as (d2 & E2 & (f2 & -> & _ & L2) & C2).
  eexists _, _. split_and!; [exact E1 | exact E2 | done | done |].
  intros i. split; [apply C1|]. cbn in *. by rewrite C1, C2.
Qed.

(** A file just created is a device of zeroes of the size asked for, with
    512-byte sectors; opening the file again gives a device with the same
    bytes, of the file's size. *)
Theorem created_file_reads_zero {F} `{FileSpec F} (f : F) size (d : FileDevice F) :
  healthy f -> file_len f = 0 -> 0 <= size -> FileDevice_create (IoOk tt) (IoOk f) size = Ok d ->
  valid d /\ dev_size d = size /\ logical_sector_size d = 512 /\ physical_sector_size d = 512 /\
  (forall off len, 0 <= off -> 0 <= len -> off + len <= size -> read_at d off len = Ok (zeroes (Z.to_nat len))) /\
  forall joined d', FileDevice_open joined (IoOk (fd_file d)) = Ok d' ->
    valid d' /\ dev_size d' = size /\ forall i, contents d' i = contents d i.
Proof.
  intros Hf Hl Hs. unfold FileDevice_create, create_task. cbn [at_offset mbind result_bind].
  destruct (set_len f size) as [f' [[]|m]] eqn:E; [|done]. intros [= <-].
  destruct (set_len_spec f size f' Hf Hs E) as (Hf' & Hl' & C).
  assert (valid (mkFileDevice f' size 512 512 true)) as V by (split; cbn; lia || done).
  split_and!; [exact V | done | done | done | |].
  - intros off len Ho Hn Hb. rewrite read_spec; [|done..|by apply Z.leb_le]. f_equal. cbn.
    unfold zeroes. apply list_eq_same_length with (n := Z.to_nat len); [by rewrite length_replicate | by apply length_bytes_of |].
    intros i x y Hi. rewrite lookup_bytes_of, C, lookup_replicate_2 by lia.
    destruct (Z.ltb_spec (off + Z.of_nat i) (file_len f)); [lia|]. by intros [= <-] [= <-].
  - intros joined d'. unfold FileDevice_open. cbn [fd_file at_offset mbind result_bind].
    destruct joined as [[]|m]; [|done]. cbn [at_offset mbind result_bind].
    destruct (metadata f') as [[regular len]|m] eqn:Em; [|done]. cbn [at_offset mbind result_bind].
    intros Ho. apply bind_Ok in Ho as (n & En & Ho).
    assert (n = file_len f') as ->.
    { destruct regular; [injection En as <-; by eapply metadata_spec|].
      unfold seek_size in En. destruct (try_clone f') as [f2|] eqn:Ec; [|done].
      cbn [at_offset mbind result_bind] in En. destruct (seek_end f2) as [k|] eqn:Ek; [|done].
      injection En as <-. by eapply seek_spec. }
    destruct (sector_sizes f' regular). injection Ho as <-.
    split_and!; [split; [done | cbn; lia] | done | done].
Qed.

(** * Witnesses *)

Definition ram0 : RamFile := mkRam 0 (fun _ => byte.of_Z 0) true.
(** A file of 4 MiB of ones, as a device. *)
Definition ones (holes : bool) : FileDevice RamFile :=
  mkFileDevice (mkRam (2 ^ 22) (fun _ => byte.of_Z 1) holes) (2 ^ 22) 512 512 true.

Lemma file_requests_are_answered_witness :
  write_zeroes (ones true) 4096 (2 ^ 22) = (ones true, Err (OutOfBounds 4096 (2 ^ 22) (2 ^ 22))).
Proof.
  apply (proj1 (file_requests_are_answered (ones true) 4096 (2 ^ 22) (zeroes (Z.to_nat (2 ^ 22))) ltac:(lia) ltac:(lia)
    ltac:(rewrite length_zeroes; lia) ltac:(cbn; lia))).
  cbn. lia.
Defined.

Lemma hole_or_zeroes_read_the_same_witness : exists d1 d2,
  write_zeroes (taken_for true (ones false)) 4096 (2 ^ 21) = (d1, Ok tt) /\
  write_zeroes (taken_for false (ones false)) 4096 (2 ^ 21) = (d2, Ok tt) /\
  file_len (fd_file d1) = file_len (fd_file (ones false)) /\ file_len (fd_file d2) = file_len (fd_file (ones false)) /\
  forall i, contents d1 i = zeroed 4096 (2 ^ 21) (file_at (fd_file (ones false))) i /\ contents d2 i = contents d1 i.
Proof.
  apply (hole_or_zeroes_read_the_same (ones false) 4096 (2 ^ 21)); [split; cbn; lia | lia | lia | reflexivity].
Defined.

Lemma created_file_reads_zero_witness : exists d : FileDevice RamFile,
  FileDevice_create (IoOk tt) (IoOk ram0) (2 ^ 40) = Ok d /\ valid d /\ dev_size d = 2 ^ 40 /\
  logical_sector_size d = 512 /\ physical_sector_size d = 512 /\
  (forall off len, 0 <= off -> 0 <= len -> off + len <= 2 ^ 40 -> read_at d off len = Ok (zeroes (Z.to_nat len))) /\
  forall joined d', FileDevice_open joined (IoOk (fd_file d)) = Ok d' ->
    valid d' /\ dev_size d' = 2 ^ 40 /\ forall i, contents d' i = contents d i.
Proof.
  eexists. split; [reflexivity|].
  refine (created_file_reads_zero ram0 (2 ^ 40) _ _ _ _ _); [cbn; lia | reflexivity | lia | reflexivity].
Defined.
