(* ===== verification/Plan.v ===== *)
(** [src/src/format.rs], the planning half: [AgPlan], [rmap_insert], [take]
    and [plan_ag], which work out the end state of one allocation group
    before anything is written.  Its correctness is in [PlanFacts.v]. *)

From Stdlib Require Import ZArith Lia String.
From stdpp Require Import base tactics list numbers strings pretty.
From coqutil Require Import Byte.
From S2P Require Import Prelude Bytes Geometry Structs Btree.

Record AgPlan : Type := mkAgPlan {
  p_agno : Z;
  p_length : Z;
  p_free : list AllocRec;
  p_agfl : list Z;
  p_rmap : list RmapRec;
  p_chunk : option Z;
}.

(** [AgPlan::freeblks]: the sum wraps as [u64]. *)
Definition freeblks (p : AgPlan) : Z := foldl (fun s r => u64 (s + a_count r)) 0 (p_free p).
(** [AgPlan::longest]. *)
Definition longest (p : AgPlan) : Z := foldr (fun r m => Z.max (a_count r) m) 0 (p_free p).

(** * [rmap_insert] *)

(** [slice::partition_point], on a slice partitioned by [f] as it requires. *)
Fixpoint partition_point {A} (f : A -> bool) (l : list A) : nat :=
  match l with
  | [] => 0
  | x :: l => if f x then S (partition_point f l) else 0
  end.

(** [Vec::remove] and [Vec::insert] within the list. *)
Definition remove_at {A} (i : nat) (l : list A) : list A := take i l ++ drop (S i) l.
Definition insert_at {A} (i : nat) (x : A) (l : list A) : list A := take i l ++ x :: drop i l.

(** The contiguous neighbours of the same owner: [left] and [right]. *)
Definition rmap_left (rmap : list RmapRec) (pos : nat) (rec : RmapRec) : option (nat * RmapRec) :=
  match pos with
  | O => None
  | S i =>
      l ← rmap !! i;
      if (r_owner l =? r_owner rec) && (u32 (r_start l + r_count l) =? r_start rec)
      then Some (i, l) else None
  end.
Definition rmap_right (rmap : list RmapRec) (pos : nat) (rec : RmapRec) : option RmapRec :=
  r ← rmap !! pos;
  if (r_owner r =? r_owner rec) && (u32 (r_start rec + r_count rec) =? r_start r)
  then Some r else None.

Definition rmap_insert (rmap : list RmapRec) (rec : RmapRec) : list RmapRec :=
  let pos := partition_point (fun r => r_start r <? r_start rec) rmap in
  match rmap_left rmap pos rec, rmap_right rmap pos rec with
  | Some (i, l), Some r =>
      remove_at pos (<[i := mkRmapRec (r_start l) (u32 (r_count l + u32 (r_count rec + r_count r)))
                              (r_owner l)]> rmap)
  | Some (i, l), None =>
      <[i := mkRmapRec (r_start l) (u32 (r_count l + r_count rec)) (r_owner l)]> rmap
  | None, Some r =>
      <[pos := mkRmapRec (r_start rec) (u32 (r_count r + r_count rec)) (r_owner r)]> rmap
  | None, None => insert_at pos rec rmap
  end.

(** * [take] *)

Definition covers (start len : Z) (r : AllocRec) : bool :=
  (a_start r <=? start) && (u64 (start + len) <=? a_start r + a_count r).

(** [iter().position]. *)
Fixpoint position {A} (f : A -> bool) (l : list A) : option nat :=
  match l with
  | [] => None
  | x :: l => if f x then Some 0%nat else S <$> position f l
  end.

(** What is left of an extent once [[start, start + len)] is taken out. *)
Definition leftovers (r : AllocRec) (start len : Z) : list AllocRec :=
  let rs := a_start r in
  let re := rs + a_count r in
  (if rs <? start then [mkAllocRec (u32 rs) (u32 (start - rs))] else []) ++
  (if u64 (start + len) <? re
   then [mkAllocRec (u32 (start + len)) (u32 (u64 (re - start - len)))] else []).

Definition take_blocks (free : list AllocRec) (start len : Z) : result (list AllocRec) :=
  i ← ok_or (position (covers start len) free)
        (InvalidParams ("blocks " +:+ pretty start +:+ "+" +:+ pretty len +:+ " are not free")%string);
  r ← unwrap (free !! i);
  Ok (take i free ++ leftovers r start len ++ drop (S i) free).

(** * [plan_ag] *)

(** The smallest extent of at least [want] blocks: [min_by_key] of
    [(count, start)], the first of equals. *)
Definition key_lt (a b : AllocRec) : bool :=
  (a_count a <? a_count b) || ((a_count a =? a_count b) && (a_start a <? a_start b)).
Fixpoint min_by_key (best : option AllocRec) (l : list AllocRec) : option AllocRec :=
  match l with
  | [] => best
  | r :: l =>
      min_by_key (match best with
                  | Some b => if key_lt r b then Some r else Some b
                  | None => Some r
                  end) l
  end.

(** The largest extent, the earliest of equal counts: [max_by_key] of
    [(count, Reverse(start))], the last of equal keys. *)
Definition rev_key_le (a b : AllocRec) : bool :=
  (a_count a <? a_count b) || ((a_count a =? a_count b) && (a_start b <=? a_start a)).
Fixpoint max_by_key (best : option AllocRec) (l : list AllocRec) : option AllocRec :=
  match l with
  | [] => best
  | r :: l =>
      max_by_key (match best with
                  | Some b => if rev_key_le b r then Some r else Some b
                  | None => Some r
                  end) l
  end.

Definition pick (free : list AllocRec) (want : Z) : option AllocRec :=
  match min_by_key None (List.filter (fun r => want <=? a_count r) free) with
  | Some r => Some r
  | None => max_by_key None free
  end.

(** The loop that fills the free list.  Each round of a sane plan adds a
    block, so [need] rounds and one are enough. *)
Fixpoint fill_agfl (fuel : nat) (with_rmap : bool) (agno need : Z)
    (s : list AllocRec * list Z * list RmapRec)
    : result (list AllocRec * list Z * list RmapRec) :=
  match fuel with
  | O => OutOfFuel
  | S fuel =>
      let '(free, agfl, rmap) := s in
      if Z.of_nat (length agfl) <? need then
        let want := need - Z.of_nat (length agfl) in
        pick ← ok_or (pick free want)
          (InvalidParams ("AG " +:+ pretty agno +:+ " has no space for its free list")%string);
        let len := Z.min want (a_count pick) in
        free ← take_blocks free (a_start pick) len;
        let agfl := agfl ++ ((fun i => u32 (a_start pick + i)) <$> seqZ 0 len) in
        let rmap :=
          if with_rmap then rmap_insert rmap (mkRmapRec (a_start pick) (u32 len) owner.AG)
          else rmap in
        fill_agfl fuel with_rmap agno need (free, agfl, rmap)
      else Ok s
  end.

Section PlanAg.
Variable g : Geometry.

(** The static reverse mappings of [xfs_rmaproot_init]. *)
Definition static_rmap : list RmapRec :=
  if rmapbt (features g) then
    [ mkRmapRec 0 (u32 (bno_block g)) owner.FS;
      mkRmapRec (u32 (bno_block g)) 2 owner.AG;
      mkRmapRec (u32 (ibt_block g)) (u32 (u64 (rmap_block g - ibt_block g))) owner.INOBT;
      mkRmapRec (u32 (rmap_block g)) 1 owner.AG ] ++
    (if reflink (features g) then [mkRmapRec (u32 (refc_block g)) 1 owner.REFC] else [])
  else [].

(** [xfs_freesp_init_recs]: free space and mappings before the free list is
    filled. *)
Definition initial_free (agno length : Z) : list AllocRec :=
  let p := prealloc_blocks g in
  if agno =? logagno g then
    let ls := log_agbno g in
    let le := u64 (log_agbno g + logblocks g) in
    (if p <? ls then [mkAllocRec (u32 p) (u32 (ls - p))] else []) ++
    (if le <? length then [mkAllocRec (u32 le) (u32 (length - le))] else [])
  else [mkAllocRec (u32 p) (u32 (length - p))].

Definition initial_rmap (agno : Z) : list RmapRec :=
  static_rmap ++
  (if (agno =? logagno g) && rmapbt (features g)
   then [mkRmapRec (u32 (log_agbno g)) (u32 (logblocks g)) owner.LOG] else []).

(** The root inode chunk, in AG 0. *)
Definition take_chunk (agno : Z) (free : list AllocRec) (rmap : list RmapRec)
    : result (list AllocRec * list RmapRec * option Z) :=
  if agno =? 0 then
    let at_ := root_chunk_agbno g in
    free ← map_err (InvalidParams ("the root inode chunk at block " +:+ pretty at_
                      +:+ " of AG 0 is not free")%string)
             (take_blocks free at_ (chunk_blocks g));
    let rmap :=
      if rmapbt (features g)
      then rmap_insert rmap (mkRmapRec (u32 at_) (u32 (chunk_blocks g)) owner.INODES)
      else rmap in
    Ok (free, rmap, Some at_)
  else Ok (free, rmap, None).

Definition plan_ag (agno : Z) : result AgPlan :=
  let length := ag_blocks g agno in
  let need := min_freelist g in
  '(free, agfl, rmap) ←
    fill_agfl (S (Z.to_nat need)) (rmapbt (features g)) agno need
      (initial_free agno length, [], initial_rmap agno);
  '(free, rmap, chunk) ← take_chunk agno free rmap;
  Ok (mkAgPlan agno length free agfl rmap chunk).
End PlanAg.

(** The plans of every AG, as [format] collects them before writing, and the
    free block count they add up to. *)
Definition plans (g : Geometry) : result (list AgPlan) :=
  collect (plan_ag g) (seqZ 0 (agcount g)).
Definition planned_fdblocks (ps : list AgPlan) : Z :=
  foldl (fun s p => u64 (s + u64 (freeblks p + Z.of_nat (length (p_agfl p))))) 0 ps.
