(* ===== verification/PlanFacts.v ===== *)
(** The correctness of [Plan.v]: extents taken out of the free space and
    mappings inserted keep both lists sorted and disjoint and change exactly
    the blocks they name; a plan partitions its AG; its reverse mappings
    name the owner of every block that is not free; and the plans of a whole
    filesystem add up to the block count in the superblock. *)

From Stdlib Require Import ZArith Lia String.
From stdpp Require Import base tactics list numbers strings pretty.
From coqutil Require Import Byte.
From S2P Require Import Prelude Bytes Geometry GeometryFacts Structs Btree Plan.

(** * Sorted, disjoint extents *)

(** The extents [(start, count)] are nonempty, in order, apart, and inside
    [[lo, hi)]. *)
Fixpoint spaced (lo hi : Z) (l : list (Z * Z)) : Prop :=
  match l with
  | [] => lo <= hi
  | (s, n) :: l => lo <= s /\ 0 < n /\ spaced (s + n) hi l
  end.

Definition exts (free : list AllocRec) : list (Z * Z) :=
  (fun r => (a_start r, a_count r)) <$> free.
Definition rexts (rmap : list RmapRec) : list (Z * Z) :=
  (fun r => (r_start r, r_count r)) <$> rmap.

(** The blocks of some extents; the mappings of a reverse map. *)
Definition free_in (free : list AllocRec) (b : Z) : Prop :=
  exists r, r ∈ free /\ a_start r <= b < a_start r + a_count r.
Definition maps (rmap : list RmapRec) (b o : Z) : Prop :=
  exists r, r ∈ rmap /\ r_start r <= b < r_start r + r_count r /\ r_owner r = o.

Lemma spaced_le lo hi l : spaced lo hi l -> lo <= hi.
Proof. revert lo. induction l as [|[s n] l IH]; intros lo; cbn; [done|]. intros (? & ? & Hl%IH). lia. Qed.

Lemma spaced_weaken lo lo' hi hi' l : lo' <= lo -> hi <= hi' -> spaced lo hi l -> spaced lo' hi' l.
Proof.
  revert lo lo'. induction l as [|[s n] l IH]; intros lo lo' H1 H2; cbn; [lia|].
  intros (? & ? & Hl). split_and!; [lia|done|]. eapply IH; [|done|exact Hl]. lia.
Qed.

Lemma spaced_app lo hi l1 l2 :
  spaced lo hi (l1 ++ l2) <-> exists mid, spaced lo mid l1 /\ spaced mid hi l2.
Proof.
  revert lo. induction l1 as [|[s n] l1 IH]; intros lo; cbn.
  - split; [intros H; exists lo; split; [lia|done] | intros (mid & Hm & H)].
    by eapply spaced_weaken; [| |exact H].
  - rewrite IH. naive_solver.
Qed.

Lemma spaced_in lo hi l s n : spaced lo hi l -> (s, n) ∈ l -> lo <= s /\ 0 < n /\ s + n <= hi.
Proof.
  revert lo. induction l as [|[s' n'] l IH]; intros lo; cbn; [by intros _ H; inversion H|].
  intros (? & ? & Hl) [[= -> ->]|Hin]%elem_of_cons.
  - apply spaced_le in Hl. lia.
  - destruct (IH _ Hl Hin). lia.
Qed.

Lemma free_in_app f1 f2 b : free_in (f1 ++ f2) b <-> free_in f1 b \/ free_in f2 b.
Proof. unfold free_in. setoid_rewrite elem_of_app. naive_solver. Qed.
Lemma free_in_cons r f b :
  free_in (r :: f) b <-> a_start r <= b < a_start r + a_count r \/ free_in f b.
Proof. unfold free_in. setoid_rewrite elem_of_cons. naive_solver. Qed.
Lemma free_in_nil b : ~ free_in [] b.
Proof. intros (? & H & _). inversion H. Qed.
Lemma maps_app m1 m2 b o : maps (m1 ++ m2) b o <-> maps m1 b o \/ maps m2 b o.
Proof. unfold maps. setoid_rewrite elem_of_app. naive_solver. Qed.
Lemma maps_cons r m b o :
  maps (r :: m) b o <->
  (r_start r <= b < r_start r + r_count r /\ r_owner r = o) \/ maps m b o.
Proof. unfold maps. setoid_rewrite elem_of_cons. naive_solver. Qed.
Lemma maps_nil b o : ~ maps [] b o.
Proof. intros (? & H & _). inversion H. Qed.

Lemma spaced_rcons lo hi r l : spaced lo hi (rexts (r :: l)) ->
  lo <= r_start r /\ 0 < r_count r /\ spaced (r_start r + r_count r) hi (rexts l).
Proof. done. Qed.
Lemma spaced_rsnoc lo hi r l : spaced lo hi (rexts (l ++ [r])) ->
  spaced lo (r_start r) (rexts l) /\ 0 < r_count r /\ r_start r + r_count r <= hi.
Proof.
  unfold rexts. rewrite fmap_app. intros (mid & H & H1 & H2 & H3)%spaced_app.
  split_and!; [by eapply spaced_weaken; [| |exact H] | done..].
Qed.

Lemma free_in_range lo hi f b : spaced lo hi (exts f) -> free_in f b -> lo <= b < hi.
Proof.
  intros H (r & Hr & Hb).
  destruct (spaced_in lo hi (exts f) (a_start r) (a_count r) H); [|lia].
  apply list_elem_of_fmap. by exists r.
Qed.
Lemma maps_range lo hi m b o : spaced lo hi (rexts m) -> maps m b o -> lo <= b < hi.
Proof.
  intros H (r & Hr & Hb & _).
  destruct (spaced_in lo hi (rexts m) (r_start r) (r_count r) H); [|lia].
  apply list_elem_of_fmap. by exists r.
Qed.

(** * [take] *)

Lemma position_Some {A} (f : A -> bool) l i :
  position f l = Some i -> exists x, l !! i = Some x /\ f x = true.
Proof.
  revert i. induction l as [|x l IH]; intros i; cbn; [done|]. destruct (f x) eqn:E.
  - intros [= <-]. by exists x.
  - destruct (position f l) as [j|]; cbn; [|done]. intros [= <-]. destruct (IH j eq_refl). naive_solver.
Qed.

Lemma position_None {A} (f : A -> bool) l : position f l = None -> Forall (fun x => f x = false) l.
Proof.
  induction l as [|x l IH]; cbn; [by constructor|]. destruct (f x) eqn:E; [done|].
  destruct (position f l); cbn; [done|]. constructor; auto.
Qed.

Definition sum_counts (f : list AllocRec) : Z := foldr (fun r s => a_count r + s) 0 f.

Lemma sum_counts_app f1 f2 : sum_counts (f1 ++ f2) = sum_counts f1 + sum_counts f2.
Proof. unfold sum_counts. induction f1 as [|r f1 IH]; cbn; lia. Qed.

(** Taking out of an extent what it holds. *)
Lemma leftovers_spec lo hi r start len :
  0 <= lo -> hi < 2 ^ 32 -> lo <= a_start r -> a_start r + a_count r <= hi ->
  0 < len -> a_start r <= start -> start + len <= a_start r + a_count r ->
  spaced (a_start r) (a_start r + a_count r) (exts (leftovers r start len)) /\
  sum_counts (leftovers r start len) = a_count r - len /\
  forall b, free_in (leftovers r start len) b <->
    a_start r <= b < a_start r + a_count r /\ ~ (start <= b < start + len).
Proof.
  intros Hlo Hhi Hr1 Hr2 Hl H1 H2. unfold leftovers. no_wrap_with ltac:(rewrite ?u64_id; lia).
  destruct (Z.ltb_spec (a_start r) start), (Z.ltb_spec (start + len) (a_start r + a_count r));
    cbn [app exts fmap list_fmap spaced a_start a_count sum_counts foldr];
    (split_and!; [lia .. |]); intros b;
    rewrite ?free_in_cons; cbn [a_start a_count];
    (split; [intros [?|[?|[]%free_in_nil]] || intros [?|[]%free_in_nil] || intros []%free_in_nil; lia|]);
    intros [? ?]; lia.
Qed.

Lemma take_blocks_spec lo hi free start len :
  0 <= lo -> hi < 2 ^ 32 -> spaced lo hi (exts free) -> 0 <= start -> 0 < len ->
  start + len < 2 ^ 64 ->
  (forall free', take_blocks free start len = Ok free' ->
     spaced lo hi (exts free') /\ sum_counts free' = sum_counts free - len /\
     (forall b, start <= b < start + len -> free_in free b) /\
     forall b, free_in free' b <-> free_in free b /\ ~ (start <= b < start + len)) /\
  ((exists r, r ∈ free /\ a_start r <= start /\ start + len <= a_start r + a_count r) ->
     exists free', take_blocks free start len = Ok free').
Proof.
  intros Hlo Hhi Hsp Hs Hl Hb. unfold take_blocks.
  destruct (position (covers start len) free) as [i|] eqn:Ep; cbn [ok_or mbind result_bind].
  2: { split; [done|]. intros (r & Hr & H1 & H2). exfalso.
       apply position_None in Ep. rewrite List.Forall_forall in Ep.
       specialize (Ep r (proj1 (list_elem_of_In _ _) Hr)). unfold covers in Ep.
       rewrite u64_id in Ep by lia. bools. lia. }
  apply position_Some in Ep as (r & Hr & Hc). rewrite Hr. cbn [unwrap mbind result_bind].
  unfold covers in Hc. rewrite u64_id in Hc by lia. bools. split; [|by eexists].
  intros free' [= <-]. pose proof (take_drop_middle free i r Hr) as E.
  set (f1 := take i free) in *. set (f2 := drop (S i) free) in *. rewrite <- E in Hsp |- *.
  unfold exts in *. rewrite fmap_app, fmap_cons in Hsp. rewrite !fmap_app.
  apply spaced_app in Hsp as (mid & Hf1 & H3 & H4 & Hf2).
  pose proof (spaced_le _ _ _ Hf1) as Hle1. pose proof (spaced_le _ _ _ Hf2) as Hle2.
  destruct (leftovers_spec lo hi r start len) as (S1 & S2 & S3); [lia..|].
  split_and!.
  - apply spaced_app. exists (a_start r). split; [by eapply spaced_weaken; [| |exact Hf1]|].
    apply spaced_app. by exists (a_start r + a_count r).
  - rewrite !sum_counts_app. cbn [sum_counts foldr] in *. rewrite S2. unfold sum_counts. lia.
  - intros b Hbr. rewrite free_in_app, free_in_cons. lia.
  - intros b. rewrite !free_in_app, free_in_cons, S3.
    assert (free_in f1 b -> b < start) by (intros Hb'; eapply free_in_range in Hb'; [|exact Hf1]; lia).
    assert (free_in f2 b -> start + len <= b)
      by (intros Hb'; eapply free_in_range in Hb'; [|exact Hf2]; lia).
    split; [intros [?|[?|?]] | intros [[?|[?|?]] ?]]; intuition lia.
Qed.

(** * [rmap_insert] *)

Definition in_rec (rec : RmapRec) (b : Z) : Prop := r_start rec <= b < r_start rec + r_count rec.

(** Where [partition_point] splits a reverse map that leaves the new record's
    blocks alone. *)
Lemma partition_point_split rmap lo hi rec :
  spaced lo hi (rexts rmap) -> (forall b o, in_rec rec b -> ~ maps rmap b o) ->
  0 < r_count rec -> lo <= r_start rec -> r_start rec + r_count rec <= hi ->
  exists l1 l2, rmap = l1 ++ l2 /\
    partition_point (fun r => r_start r <? r_start rec) rmap = length l1 /\
    spaced lo (r_start rec) (rexts l1) /\ spaced (r_start rec + r_count rec) hi (rexts l2).
Proof.
  unfold in_rec. intros Hsp Hdis Hn. revert lo Hsp.
  induction rmap as [|r rmap IH]; intros lo Hsp Hlo Hhi.
  - exists [], []. split_and!; done || lia.
  - cbn [rexts fmap list_fmap spaced] in Hsp. destruct Hsp as (H1 & H2 & Hsp).
    cbn [partition_point]. destruct (Z.ltb_spec (r_start r) (r_start rec)) as [Hlt|Hge].
    + assert (r_start r + r_count r <= r_start rec) as He.
      { destruct (Z.le_gt_cases (r_start r + r_count r) (r_start rec)); [done|]. exfalso.
        apply (Hdis (r_start rec) (r_owner r)); [lia|]. apply maps_cons. left. lia. }
      destruct (IH ltac:(intros b o Hb Hm; apply (Hdis b o Hb); apply maps_cons; by right)
                   _ Hsp He Hhi) as (l1 & l2 & E & Ep & S1 & S2).
      exists (r :: l1), l2. cbn [length app]. split_and!; [by rewrite E | by rewrite Ep | | done].
      cbn [rexts fmap list_fmap spaced]. done.
    + exists [], (r :: rmap). split_and!; [done | done | exact Hlo |].
      assert (r_start rec + r_count rec <= r_start r).
      { destruct (Z.le_gt_cases (r_start rec + r_count rec) (r_start r)); [done|]. exfalso.
        apply (Hdis (r_start r) (r_owner r)); [lia|]. apply maps_cons. left. lia. }
      cbn [rexts fmap list_fmap spaced]. done.
Qed.

(** The neighbours, found in the two halves. *)
Lemma rmap_left_split l1 l2 lo rec :
  0 <= lo -> r_start rec < 2 ^ 32 -> spaced lo (r_start rec) (rexts l1) ->
  (rmap_left (l1 ++ l2) (length l1) rec = None) \/
  exists l1' l, l1 = l1' ++ [l] /\ rmap_left (l1 ++ l2) (length l1) rec = Some (length l1', l) /\
    r_owner l = r_owner rec /\ r_start l + r_count l = r_start rec.
Proof.
  intros Hlo Hr Hsp. destruct l1 as [|l l1' _] using rev_ind; [by left|].
  rewrite length_app, Nat.add_1_r. cbn [rmap_left].
  rewrite <- app_assoc. cbn [app]. rewrite list_lookup_middle by done. cbn [mbind option_bind].
  destruct ((r_owner l =? r_owner rec) && _) eqn:E; [right | by left].
  unfold rexts in Hsp. rewrite fmap_app in Hsp. apply spaced_app in Hsp as (mid & H1 & H2).
  apply spaced_le in H1. cbn in H2. destruct H2 as (? & ? & ?).
  bools. match goal with H : u32 _ = _ |- _ => rewrite u32_id in H by lia end. by exists l1', l.
Qed.

Lemma rmap_right_split l1 l2 hi rec :
  0 <= r_start rec -> hi < 2 ^ 32 -> spaced (r_start rec + r_count rec) hi (rexts l2) ->
  0 < r_count rec ->
  (rmap_right (l1 ++ l2) (length l1) rec = None) \/
  exists r l2', l2 = r :: l2' /\ rmap_right (l1 ++ l2) (length l1) rec = Some r /\
    r_owner r = r_owner rec /\ r_start rec + r_count rec = r_start r.
Proof.
  intros Hr Hhi Hsp Hn. unfold rmap_right. destruct l2 as [|r l2'].
  - left. by rewrite app_nil_r, lookup_ge_None_2.
  - rewrite list_lookup_middle by done. cbn [mbind option_bind].
    destruct ((r_owner r =? r_owner rec) && _) eqn:E; [right | by left].
    apply spaced_le in Hsp. bools.
    match goal with H : u32 _ = _ |- _ => rewrite u32_id in H by lia end. by exists r, l2'.
Qed.

Lemma insert_middle {A} (l1 : list A) x y l2 : <[length l1 := y]> (l1 ++ x :: l2) = l1 ++ y :: l2.
Proof. rewrite insert_app_r_alt by lia. by rewrite Nat.sub_diag. Qed.

Lemma merge_middle {A} (l1 : list A) x y z l2 :
  remove_at (length (l1 ++ [x])) (<[length l1 := z]> (l1 ++ x :: y :: l2)) = l1 ++ z :: l2.
Proof.
  rewrite insert_middle. unfold remove_at. rewrite length_app. cbn [length].
  rewrite take_app_ge, drop_app_ge by lia.
  replace (length l1 + 1 - length l1)%nat with 1%nat by lia.
  replace (S (length l1 + 1) - length l1)%nat with 2%nat by lia.
  cbn [take drop]. by rewrite ?drop_0, ?firstn_O, <- app_assoc.
Qed.

(** What an insertion of [rec] does to a list [l1 ++ old ++ l2]: [x] takes the
    place of [old], and has its blocks and those of [rec]. *)
Record splice (lo hi : Z) (rec : RmapRec) (l1 old : list RmapRec) (x : RmapRec)
    (l2 : list RmapRec) : Prop := {
  sp_before : spaced lo (r_start x) (rexts l1);
  sp_after : spaced (r_start x + r_count x) hi (rexts l2);
  sp_count : 0 < r_count x;
  sp_blocks : forall b o, (in_rec x b /\ r_owner x = o) <-> maps old b o \/ (in_rec rec b /\ o = r_owner rec);
}.

Lemma splice_spec lo hi rec l1 old x l2 : splice lo hi rec l1 old x l2 ->
  spaced lo hi (rexts (l1 ++ x :: l2)) /\
  (length (l1 ++ x :: l2) <= S (length (l1 ++ old ++ l2)))%nat /\
  forall b o, maps (l1 ++ x :: l2) b o <->
    maps (l1 ++ old ++ l2) b o \/ (in_rec rec b /\ o = r_owner rec).
Proof.
  intros [H1 H2 H3 Hb]. split_and!.
  - unfold rexts in *. rewrite fmap_app. apply spaced_app. by exists (r_start x).
  - rewrite !length_app. cbn. lia.
  - intros b o. specialize (Hb b o). rewrite !maps_app, maps_cons. unfold in_rec in *. tauto.
Qed.

(** [sp_blocks], record by record. *)
Ltac joined :=
  let b := fresh "b" in let o := fresh "o" in
  intros b o; pose proof (maps_nil b o); rewrite ?maps_cons; unfold in_rec;
  cbn [r_start r_count r_owner]; intuition (congruence || lia).

Lemma rmap_insert_splice rmap lo hi rec :
  0 <= lo -> hi < 2 ^ 32 -> spaced lo hi (rexts rmap) ->
  (forall b o, in_rec rec b -> ~ maps rmap b o) ->
  0 < r_count rec -> lo <= r_start rec -> r_start rec + r_count rec <= hi ->
  exists l1 old x l2, rmap = l1 ++ old ++ l2 /\ rmap_insert rmap rec = l1 ++ x :: l2 /\
    splice lo hi rec l1 old x l2.
Proof.
  intros Hlo Hhi Hsp Hdis Hn H1 H2.
  destruct (partition_point_split rmap lo hi rec Hsp Hdis Hn H1 H2)
    as (l1 & l2 & -> & Ep & S1 & S2).
  unfold rmap_insert. rewrite Ep.
  pose proof (rmap_left_split l1 l2 lo rec Hlo ltac:(lia) S1) as HL.
  pose proof (rmap_right_split l1 l2 hi rec ltac:(lia) Hhi S2 Hn) as HR.
  clear Ep Hsp Hdis.
  destruct HL as [->|(l1' & l & -> & -> & Eo & Ee)];
  destruct HR as [->|(r & l2' & -> & -> & Fo & Fe)].
  - exists l1, [], rec, l2. unfold insert_at. rewrite take_app_length, drop_app_length.
    split_and!; [done..|]. split; [done | done | done | joined].
  - apply spaced_rcons in S2 as (A1 & A2 & A3). pose proof (spaced_le _ _ _ A3).
    rewrite insert_middle, u32_id by lia. eexists l1, [r], _, l2'.
    split_and!; [done..|]. split; cbn [r_start r_count r_owner]; [done | | lia | joined].
    by replace (r_start rec + (r_count r + r_count rec)) with (r_start r + r_count r) by lia.
  - apply spaced_rsnoc in S1 as (A1 & A2 & A3). pose proof (spaced_le _ _ _ A1).
    pose proof (spaced_le _ _ _ S2).
    rewrite <- app_assoc. cbn [app]. rewrite insert_middle, u32_id by lia. eexists l1', [l], _, l2.
    split_and!; [done..|]. split; cbn [r_start r_count r_owner]; [done | | lia | joined].
    by replace (r_start l + (r_count l + r_count rec)) with (r_start rec + r_count rec) by lia.
  - apply spaced_rsnoc in S1 as (A1 & A2 & A3). apply spaced_rcons in S2 as (B1 & B2 & B3).
    pose proof (spaced_le _ _ _ A1). pose proof (spaced_le _ _ _ B3).
    rewrite <- app_assoc. cbn [app]. rewrite merge_middle, !u32_id by (rewrite ?u32_id; lia).
    eexists l1', [l; r], _, l2'.
    split_and!; [done..|]. split; cbn [r_start r_count r_owner]; [done | | lia | joined].
    by replace (r_start l + (r_count l + (r_count rec + r_count r))) with (r_start r + r_count r) by lia.
Qed.

Lemma rmap_insert_spec rmap lo hi rec :
  0 <= lo -> hi < 2 ^ 32 -> spaced lo hi (rexts rmap) ->
  (forall b o, in_rec rec b -> ~ maps rmap b o) ->
  0 < r_count rec -> lo <= r_start rec -> r_start rec + r_count rec <= hi ->
  spaced lo hi (rexts (rmap_insert rmap rec)) /\
  (length (rmap_insert rmap rec) <= S (length rmap))%nat /\
  forall b o, maps (rmap_insert rmap rec) b o <->
    maps rmap b o \/ (in_rec rec b /\ o = r_owner rec).
Proof.
  intros Hlo Hhi Hsp Hdis Hn H1 H2.
  destruct (rmap_insert_splice rmap lo hi rec) as (l1 & old & x & l2 & -> & -> & S); [done..|].
  by apply splice_spec.
Qed.

(** * Filling the free list *)

Lemma min_by_key_in best l r :
  min_by_key best l = Some r -> best = Some r \/ r ∈ l.
Proof.
  revert best. induction l as [|x l IH]; intros best H; cbn in H; [by left|].
  apply IH in H as [H|H]; [|right; by right].
  destruct best as [b|]; [destruct (key_lt x b)|]; simplify_eq; auto; right; by left.
Qed.

Lemma max_by_key_in best l r :
  max_by_key best l = Some r -> best = Some r \/ r ∈ l.
Proof.
  revert best. induction l as [|x l IH]; intros best H; cbn in H; [by left|].
  apply IH in H as [H|H]; [|right; by right].
  destruct best as [b|]; [destruct (rev_key_le b x)|]; simplify_eq; auto; right; by left.
Qed.

Lemma min_by_key_is_Some best l : is_Some best \/ l <> [] -> is_Some (min_by_key best l).
Proof.
  revert best. induction l as [|x l IH]; intros best [H|H]; cbn; [done|done|..];
    apply IH; left; destruct best as [b|]; try destruct (key_lt x b); eauto.
Qed.

Lemma pick_in free want r : pick free want = Some r -> r ∈ free.
Proof.
  unfold pick. destruct (min_by_key None _) as [x|] eqn:E.
  - intros [= <-]. apply min_by_key_in in E as [E|E]; [done|].
    apply list_elem_of_In, filter_In in E as [E _]. by apply list_elem_of_In.
  - intros H. by apply max_by_key_in in H as [H|H].
Qed.

(** An extent that is big enough is what gets picked. *)
Lemma pick_enough free want r :
  r ∈ free -> want <= a_count r -> exists x, pick free want = Some x /\ want <= a_count x.
Proof.
  intros Hr Hw. unfold pick.
  destruct (min_by_key_is_Some None (List.filter (fun r => want <=? a_count r) free)) as [x E].
  - right. intros E. assert (In r []) as []. rewrite <- E. apply filter_In.
    split; [by apply list_elem_of_In | by apply Z.leb_le].
  - rewrite E. exists x. split; [done|]. apply min_by_key_in in E as [E|E]; [done|].
    apply list_elem_of_In, filter_In in E as [_ E]. by apply Z.leb_le.
Qed.

(** What has moved from the free space [free0] to the list, and its
    mappings. *)
Record filled (lo hi : Z) (with_rmap : bool) (need : Z) (free0 : list AllocRec)
    (rmap0 : list RmapRec) (s : list AllocRec * list Z * list RmapRec) : Prop := {
  f_spaced : spaced lo hi (exts s.1.1);
  f_nodup : NoDup s.1.2;
  f_from : forall b, b ∈ s.1.2 -> free_in free0 b;
  f_free : forall b, free_in s.1.1 b <-> free_in free0 b /\ b ∉ s.1.2;
  f_sum : sum_counts s.1.1 = sum_counts free0 - Z.of_nat (length s.1.2);
  f_need : Z.of_nat (length s.1.2) <= need;
  f_rspaced : with_rmap = true -> spaced 0 hi (rexts s.2);
  f_rmap : with_rmap = true ->
    forall b o, maps s.2 b o <-> maps rmap0 b o \/ (b ∈ s.1.2 /\ o = owner.AG);
  f_rlen : (length s.2 <= length rmap0 + length s.1.2)%nat;
  f_rnone : with_rmap = false -> s.2 = rmap0;
}.

Lemma length_agfl_run p len : 0 <= len ->
  length ((fun i => u32 (p + i)) <$> seqZ 0 len) = Z.to_nat len.
Proof. intros. by rewrite length_fmap, length_seqZ. Qed.

Lemma elem_of_agfl_run p len b : 0 <= p -> p + len <= 2 ^ 32 ->
  b ∈ ((fun i => u32 (p + i)) <$> seqZ 0 len) <-> p <= b < p + len.
Proof.
  intros Hp Hl. rewrite list_elem_of_fmap. split.
  - intros (i & -> & Hi%elem_of_seqZ). rewrite u32_id by lia. lia.
  - intros Hb. exists (b - p). rewrite u32_id by lia. split; [lia|]. apply elem_of_seqZ. lia.
Qed.

Lemma NoDup_agfl_run p len : 0 <= p -> p + len <= 2 ^ 32 ->
  NoDup ((fun i => u32 (p + i)) <$> seqZ 0 len).
Proof.
  intros Hp Hl. apply NoDup_fmap_2_strong; [|apply NoDup_seqZ].
  intros x y Hx%elem_of_seqZ Hy%elem_of_seqZ. rewrite !u32_id by lia. lia.
Qed.

(** One round of the loop. *)
Lemma filled_step lo hi with_rmap need free0 rmap0 free agfl rmap r free' len :
  0 <= lo -> hi < 2 ^ 32 ->
  (forall b o, maps rmap0 b o -> ~ free_in free0 b) ->
  filled lo hi with_rmap need free0 rmap0 (free, agfl, rmap) ->
  r ∈ free -> len = Z.min (need - Z.of_nat (length agfl)) (a_count r) ->
  Z.of_nat (length agfl) < need ->
  take_blocks free (a_start r) len = Ok free' ->
  filled lo hi with_rmap need free0 rmap0
    (free', agfl ++ ((fun i => u32 (a_start r + i)) <$> seqZ 0 len),
     if with_rmap then rmap_insert rmap (mkRmapRec (a_start r) (u32 len) owner.AG) else rmap).
Proof.
  intros Hlo Hhi Hdis [F1 F2 F3 F4 F5 F6 F7 F8 F9 F10] Hr Hlen Hneed Ht. cbn [fst snd] in *.
  destruct (spaced_in lo hi (exts free) (a_start r) (a_count r) F1) as (G1 & G2 & G3).
  { apply list_elem_of_fmap. by exists r. }
  destruct (take_blocks_spec lo hi free (a_start r) len Hlo Hhi F1) as [T _]; [lia..|].
  destruct (T _ Ht) as (T1 & T2 & T3 & T4). clear T.
  pose proof (elem_of_agfl_run (a_start r) len) as HE.
  assert (forall b, a_start r <= b < a_start r + len -> ~ maps rmap0 b owner.AG /\ b ∉ agfl) as Hnew.
  { intros b Hb. apply T3, F4 in Hb as [Hb Hn]. split; [|done]. intros Hm. by eapply Hdis. }
  set (rec := mkRmapRec (a_start r) (u32 len) owner.AG).
  assert (forall b, in_rec rec b <-> a_start r <= b < a_start r + len) as Hrec.
  { intros b. unfold in_rec. cbn [rec r_start r_count]. by rewrite u32_id by lia. }
  assert (with_rmap = true ->
    spaced 0 hi (rexts (rmap_insert rmap rec)) /\
    (length (rmap_insert rmap rec) <= S (length rmap))%nat /\
    forall b o, maps (rmap_insert rmap rec) b o <->
      maps rmap b o \/ (in_rec rec b /\ o = owner.AG)) as Hins.
  { intros Hw. apply (rmap_insert_spec rmap 0 hi rec); cbn [rec r_start r_count];
      rewrite ?u32_id by lia; try lia; [by apply F7|].
    intros b o Hb Hm. apply Hrec in Hb. apply (F8 Hw) in Hm as [Hm|[Hm _]].
    - eapply Hdis; [exact Hm|]. by apply F4, T3.
    - by apply (Hnew b Hb). }
  split; cbn [fst snd].
  - done.
  - apply NoDup_app. split_and!; [done| |apply NoDup_agfl_run; lia].
    intros b Hb. rewrite HE by lia. intros Hb'. by apply Hnew in Hb' as [_ ?].
  - intros b. rewrite elem_of_app, HE by lia. intros [Hb|Hb]; [by apply F3|]. by apply F4, T3.
  - intros b. rewrite T4, F4, elem_of_app, HE by lia. tauto.
  - rewrite T2, F5, length_app, length_agfl_run by lia. lia.
  - rewrite length_app, length_agfl_run by lia. lia.
  - intros Hw. rewrite Hw. by apply Hins.
  - intros Hw b o. rewrite Hw. destruct (Hins Hw) as (_ & _ & R).
    rewrite R, (F8 Hw), elem_of_app, HE, Hrec by lia. tauto.
  - rewrite length_app, length_agfl_run by lia. destruct with_rmap; [|lia].
    destruct (Hins eq_refl) as (_ & R & _). lia.
  - intros Hw. rewrite Hw. auto.
Qed.

Lemma fill_agfl_filled fuel lo hi with_rmap agno need free0 rmap0 s s' :
  0 <= lo -> hi < 2 ^ 32 -> (forall b o, maps rmap0 b o -> ~ free_in free0 b) ->
  filled lo hi with_rmap need free0 rmap0 s -> fill_agfl fuel with_rmap agno need s = Ok s' ->
  filled lo hi with_rmap need free0 rmap0 s' /\ Z.of_nat (length s'.1.2) = need.
Proof.
  intros Hlo Hhi Hdis. revert s. induction fuel as [|fuel IH]; intros [[free agfl] rmap] Hs H;
    cbn [fill_agfl] in H; [done|].
  destruct (Z.ltb_spec (Z.of_nat (length agfl)) need) as [Hlt|Hge].
  - inv_ok. apply pick_in in E. eapply IH; [|exact H]. by eapply filled_step.
  - inv_ok. split; [done|]. cbn. pose proof (f_need _ _ _ _ _ _ _ Hs). cbn in *. lia.
Qed.

(** Where one extent holds the whole list, one round fills it. *)
Lemma fill_agfl_succeeds fuel lo hi with_rmap agno need free rmap r :
  0 <= lo -> hi < 2 ^ 32 -> spaced lo hi (exts free) -> r ∈ free -> 0 < need <= a_count r ->
  exists s, fill_agfl (S (S fuel)) with_rmap agno need (free, [], rmap) = Ok s.
Proof.
  intros Hlo Hhi Hsp Hr Hn. destruct (pick_enough free need r Hr) as (x & Hp & Hx); [lia|].
  pose proof (pick_in _ _ _ Hp) as Hin.
  destruct (spaced_in lo hi (exts free) (a_start x) (a_count x) Hsp) as (G1 & G2 & G3).
  { apply list_elem_of_fmap. by exists x. }
  destruct (take_blocks_spec lo hi free (a_start x) need) as [_ T]; try (done || lia).
  destruct T as [free' Ht]; [exists x; split_and!; [done | lia | lia]|].
  cbn [fill_agfl length]. change (Z.of_nat 0) with 0.
  destruct (Z.ltb_spec 0 need); [|lia]. rewrite Z.sub_0_r, Hp. cbn [ok_or mbind result_bind].
  rewrite Z.min_l, Ht by lia. cbn [mbind result_bind app].
  rewrite length_agfl_run, Z2Nat.id by lia. rewrite Z.ltb_irrefl. by eexists.
Qed.

(** One extent that holds the whole list: the list is its first blocks. *)
Lemma fill_agfl_one fuel with_rmap agno need s c rmap :
  0 <= s -> s + c < 2 ^ 32 -> 0 < need <= c ->
  fill_agfl (S (S fuel)) with_rmap agno need ([mkAllocRec s c], [], rmap) =
    Ok (leftovers (mkAllocRec s c) s need, (fun i => u32 (s + i)) <$> seqZ 0 need,
        if with_rmap then rmap_insert rmap (mkRmapRec s (u32 need) owner.AG) else rmap).
Proof.
  intros Hs Hc Hn. cbn [fill_agfl length]. change (Z.of_nat 0) with 0.
  destruct (Z.ltb_spec 0 need); [|lia]. rewrite Z.sub_0_r.
  assert (pick [mkAllocRec s c] need = Some (mkAllocRec s c)) as ->.
  { unfold pick. cbn. destruct (Z.leb_spec need c); [done|lia]. }
  cbn [ok_or mbind result_bind a_start a_count]. rewrite Z.min_l by lia.
  assert (take_blocks [mkAllocRec s c] s need = Ok (leftovers (mkAllocRec s c) s need)) as ->.
  { unfold take_blocks, covers. cbn [position a_start a_count]. rewrite u64_id by lia.
    destruct (Z.leb_spec s s), (Z.leb_spec (s + need) (s + c)); try lia.
    cbn [andb ok_or mbind result_bind lookup list_lookup unwrap take drop app].
    by rewrite app_nil_r. }
  cbn [mbind result_bind app]. rewrite length_agfl_run, Z2Nat.id by lia.
  by rewrite Z.ltb_irrefl.
Qed.

(** The error of an AG without room for the list. *)
Definition no_space (agno : Z) : Error :=
  InvalidParams ("AG " +:+ pretty agno +:+ " has no space for its free list")%string.

Lemma fill_agfl_none fuel with_rmap agno need agfl rmap : Z.of_nat (length agfl) < need ->
  fill_agfl (S fuel) with_rmap agno need ([], agfl, rmap) = Err (no_space agno).
Proof. intros Hl. cbn [fill_agfl]. by rewrite (proj2 (Z.ltb_lt _ _) Hl). Qed.

(** One extent too short: the list takes all of it and looks for more. *)
Lemma fill_agfl_short fuel with_rmap agno need s c rmap :
  0 <= s -> s + c < 2 ^ 32 -> 0 < c < need ->
  fill_agfl (S (S fuel)) with_rmap agno need ([mkAllocRec s c], [], rmap) = Err (no_space agno).
Proof.
  intros Hs Hc Hn. remember (S fuel) as fuel' eqn:Ef. cbn [fill_agfl length]. change (Z.of_nat 0) with 0.
  destruct (Z.ltb_spec 0 need); [|lia]. rewrite Z.sub_0_r.
  assert (pick [mkAllocRec s c] need = Some (mkAllocRec s c)) as ->.
  { unfold pick. cbn. by destruct (Z.leb_spec need c); [lia|]. }
  cbn [ok_or mbind result_bind a_start a_count]. rewrite Z.min_r by lia.
  assert (take_blocks [mkAllocRec s c] s c = Ok []) as ->.
  { unfold take_blocks, covers, leftovers. cbn [position a_start a_count]. rewrite u64_id by lia.
    rewrite Z.leb_refl, Z.leb_refl. cbn [andb ok_or mbind result_bind lookup list_lookup unwrap a_start a_count].
    rewrite Z.ltb_irrefl, u64_id by lia. by rewrite Z.ltb_irrefl. }
  cbn [mbind result_bind app]. subst fuel'. apply fill_agfl_none. rewrite length_agfl_run; lia.
Qed.


(** * The plan of one AG *)

Section Plan.
Variable g : Geometry.
Hypothesis W : wf g.

(** The owner of each of the blocks before the log or the free list. *)
Definition static_owner (b : Z) : option Z :=
  if b <? 0 then None
  else if b <? bno_block g then Some owner.FS
  else if b <? ibt_block g then Some owner.AG
  else if b <? rmap_block g then Some owner.INOBT
  else if b <? rmap_block g + 1 then Some owner.AG
  else if b <? prealloc_blocks g then Some owner.REFC
  else None.

(** The first block that starts free: after the log in its AG, after the
    btree roots elsewhere. *)
Definition free_start (agno : Z) : Z :=
  prealloc_blocks g + (if agno =? logagno g then logblocks g else 0).

(** The owner of each block of a planned AG that is not free. *)
Definition owner_of (agno : Z) (agfl : list Z) (b : Z) : option Z :=
  match static_owner b with
  | Some o => Some o
  | None =>
      if (prealloc_blocks g <=? b) && (b <? free_start agno) then Some owner.LOG
      else if bool_decide (b ∈ agfl) then Some owner.AG
      else if (agno =? 0) && (root_chunk_agbno g <=? b)
              && (b <? root_chunk_agbno g + chunk_blocks g) then Some owner.INODES
      else None
  end.

Lemma static_layout :
  1 <= bno_block g <= 4 /\ ibt_block g = bno_block g + 2 /\
  ibt_block g + 1 <= rmap_block g <= ibt_block g + 2 /\
  (rmapbt (features g) = true ->
     prealloc_blocks g = rmap_block g + 1 + Z.b2z (reflink (features g)) /\
     (reflink (features g) = true -> refc_block g = rmap_block g + 1)) /\
  prealloc_blocks g <= 10.
Proof.
  pose proof (wf_header g W) as Hh. pose proof (wf_prealloc g W).
  destruct (layout_blocks g ltac:(lia)) as (? & ? & ? & ? & ? & ? & ?).
  assert (rmap_block g = ibt_block g + 1 + Z.b2z (finobt (features g))) as Er.
  { unfold rmap_block, fibt_block, ibt_block, cnt_block, bno_block.
    destruct (finobt (features g)); no_wrap_with ltac:(rewrite ?u64_id; lia); cbn [Z.b2z]; lia. }
  destruct (finobt (features g)), (rmapbt (features g)), (reflink (features g)); cbn [Z.b2z] in *;
    split_and!; try lia; intros; split_and!; try lia; auto; try discriminate.
Qed.

Lemma static_rmap_spec : rmapbt (features g) = true ->
  spaced 0 (prealloc_blocks g) (rexts (static_rmap g)) /\ (length (static_rmap g) <= 5)%nat /\
  forall b o, maps (static_rmap g) b o <-> static_owner b = Some o.
Proof.
  intros Hr. destruct static_layout as (L1 & L2 & L3 & L4 & L5). destruct (L4 Hr) as [L6 L7].
  unfold static_rmap, static_owner. rewrite Hr.
  no_wrap_with ltac:(rewrite ?u64_id; lia).
  destruct (reflink (features g)); cbn [Z.b2z] in L6;
    [rewrite (L7 eq_refl); no_wrap_with ltac:(rewrite ?u64_id; lia)|];
    cbn [app rexts fmap list_fmap spaced r_start r_count length]; (split_and!; [lia..|]);
    intros b o; rewrite ?maps_cons; cbn [r_start r_count r_owner];
    (destruct (Z.ltb_spec b 0); [split; [|done]; intros Hm; repeat destruct Hm as [Hm|Hm]; try lia; by apply maps_nil in Hm|]);
    repeat match goal with |- context [if ?x <? ?y then _ else _] => destruct (Z.ltb_spec x y) end;
    (split; [intros Hm; repeat (destruct Hm as [Hm|Hm]); try lia; try (by destruct Hm; congruence);
              by apply maps_nil in Hm
            | intros [= <-] || intros [=]; intuition lia]).
Qed.

Lemma static_owner_total b : 0 <= b < prealloc_blocks g -> is_Some (static_owner b).
Proof.
  intros Hb. unfold static_owner. destruct (Z.ltb_spec b 0); [lia|].
  destruct (Z.ltb_spec b (prealloc_blocks g)); [|lia].
  repeat (destruct (b <? _); eauto).
Qed.

Section Ag.
Variable agno : Z.
Hypothesis Ha : 0 <= agno < agcount g.
Let L := ag_blocks g agno.
Let P := prealloc_blocks g.

Lemma ag_bounds : 2 ^ 10 <= L < 2 ^ 30 /\ 4 <= P <= 10 /\ P <= free_start agno < 2 ^ 30.
Proof.
  pose proof (ag_blocks_range g W agno Ha) as [Hr _]. pose proof (wf_agsize_range g W).
  pose proof (wf_prealloc g W). pose proof (wf_header g W). destruct static_layout as (_ & _ & _ & _ & ?).
  pose proof (wf_log_usable g W). pose proof (wf_logblocks g W).
  pose proof (pow2_pos (26 - blocklog g)). pose proof (wf_blocklog g W).
  subst L P. unfold free_start. destruct (agno =? logagno g); lia.
Qed.

Lemma initial_free_eq :
  initial_free g agno L =
    if free_start agno <? L then [mkAllocRec (free_start agno) (L - free_start agno)] else [].
Proof.
  destruct ag_bounds as (H1 & H2 & H3). unfold initial_free, free_start in *. fold P in H3 |- *.
  rewrite (wf_log_agbno g W). fold P. destruct (agno =? logagno g).
  - rewrite Z.ltb_irrefl. cbn [app]. rewrite u64_id by lia.
    destruct (Z.ltb_spec (P + logblocks g) L); [|done]. no_wrap. done.
  - rewrite Z.add_0_r in *. destruct (Z.ltb_spec P L); [|lia]. no_wrap. done.
Qed.

Lemma initial_rmap_spec : rmapbt (features g) = true ->
  spaced 0 (free_start agno) (rexts (initial_rmap g agno)) /\
  forall b o, maps (initial_rmap g agno) b o <->
    static_owner b = Some o \/ (P <= b < free_start agno /\ o = owner.LOG).
Proof.
  intros Hr. destruct ag_bounds as (H1 & H2 & H3).
  destruct (static_rmap_spec Hr) as (S1 & _ & S2).
  pose proof (wf_logblocks g W). pose proof (pow2_pos (26 - blocklog g)).
  pose proof (wf_blocklog g W). unfold initial_rmap, free_start in *. rewrite Hr.
  rewrite (wf_log_agbno g W). fold P in S1, H3 |- *. rewrite andb_true_r.
  destruct (agno =? logagno g).
  - no_wrap. split.
    + unfold rexts. rewrite fmap_app. apply spaced_app. exists P. split; [exact S1|].
      cbn. lia.
    + intros b o. rewrite maps_app, maps_cons, S2. cbn [r_start r_count r_owner].
      split; [intros [?|[?|[]%maps_nil]]|intros [?|?]]; intuition.
  - rewrite app_nil_r, Z.add_0_r. split; [done|]. intros b o. rewrite S2. intuition lia.
Qed.

Lemma initial_rmap_length : (length (initial_rmap g agno) <= 6)%nat.
Proof.
  unfold initial_rmap, static_rmap. destruct (rmapbt (features g)), (reflink (features g)),
    (agno =? logagno g); cbn; lia.
Qed.

Lemma static_owner_range b o : rmapbt (features g) = true ->
  static_owner b = Some o -> 0 <= b < P.
Proof.
  intros Hr. destruct static_layout as (L1 & L2 & L3 & L4 & L5). destruct (L4 Hr) as [L6 _].
  assert (0 <= Z.b2z (reflink (features g)) <= 1) by (destruct (reflink (features g)); cbn; lia).
  unfold static_owner. subst P.
  repeat match goal with |- context [if ?x <? ?y then _ else _] => destruct (Z.ltb_spec x y) end;
    try done; intros _; lia.
Qed.

(** Everything [plan_ag] promises about its result. *)
Record planned (p : AgPlan) : Prop := {
  pl_agno : p_agno p = agno;
  pl_length : p_length p = L;
  pl_free_start : free_start agno < L;
  pl_spaced : spaced (free_start agno) L (exts (p_free p));
  pl_nodup : NoDup (p_agfl p);
  pl_agfl : forall b, b ∈ p_agfl p -> free_start agno <= b < L;
  pl_agfl_length : Z.of_nat (length (p_agfl p)) = min_freelist g;
  pl_chunk : p_chunk p = (if agno =? 0 then Some (root_chunk_agbno g) else None);
  pl_chunk_in : agno = 0 -> forall b, root_chunk_agbno g <= b < root_chunk_agbno g + chunk_blocks g ->
    free_start agno <= b < L /\ b ∉ p_agfl p;
  pl_free : forall b, free_in (p_free p) b <->
    free_start agno <= b < L /\ (b ∉ p_agfl p) /\
    ~ (agno = 0 /\ root_chunk_agbno g <= b < root_chunk_agbno g + chunk_blocks g);
  pl_sum : sum_counts (p_free p) =
    L - free_start agno - min_freelist g - (if agno =? 0 then chunk_blocks g else 0);
  pl_rspaced : rmapbt (features g) = true -> spaced 0 L (rexts (p_rmap p));
  pl_rmap : rmapbt (features g) = true ->
    forall b o, maps (p_rmap p) b o <-> owner_of agno (p_agfl p) b = Some o;
  pl_rlen : (length (p_rmap p) <= 13)%nat;
}.

Lemma initial_filled : free_start agno < L ->
  filled (free_start agno) L (rmapbt (features g)) (min_freelist g)
    [mkAllocRec (free_start agno) (L - free_start agno)] (initial_rmap g agno)
    ([mkAllocRec (free_start agno) (L - free_start agno)], [], initial_rmap g agno).
Proof.
  intros Hf. destruct ag_bounds as (H1 & H2 & H3). pose proof (min_freelist_range g).
  split; cbn [fst snd length].
  - cbn. lia.
  - constructor.
  - intros b Hb. inversion Hb.
  - intros b. split; [intros ?; split; [done | by intros Hb; inversion Hb] | by intros [? _]].
  - lia.
  - lia.
  - intros Hr. destruct (initial_rmap_spec Hr) as [S _]. eapply spaced_weaken; [| |exact S]; lia.
  - intros _ b o. split; [by left | by intros [?|[Hb _]]; [|inversion Hb]].
  - lia.
  - done.
Qed.

Lemma initial_disjoint :
  forall b o, maps (initial_rmap g agno) b o ->
    ~ free_in [mkAllocRec (free_start agno) (L - free_start agno)] b.
Proof.
  intros b o Hm Hf. destruct (rmapbt (features g)) eqn:Hr.
  2: { unfold initial_rmap, static_rmap in Hm. rewrite Hr, andb_false_r in Hm.
       by apply maps_nil in Hm. }
  destruct (initial_rmap_spec Hr) as [S _].
  apply (maps_range _ _ _ _ _ S) in Hm. apply free_in_cons in Hf as [Hf|Hf]; [|by apply free_in_nil in Hf].
  cbn in Hf. lia.
Qed.

Lemma chunk_bounds : agno = 0 ->
  free_start agno = P /\ P <= root_chunk_agbno g /\ root_chunk_agbno g + chunk_blocks g <= L /\
  2 <= chunk_blocks g <= 64.
Proof.
  intros E. destruct ag_bounds as (H1 & H2 & H3). pose proof (logagno_range g W).
  destruct (root_chunk_agbno_bounds g W) as [Hr _]. pose proof (chunk_blocks_range g W).
  pose proof (inoalignmt_range g W). pose proof (min_freelist_range g).
  unfold free_start. destruct (Z.eqb_spec agno (logagno g)); [lia|]. subst P. split_and!; lia.
Qed.

(** [owner_of] as the union of its disjoint cases. *)
Lemma owner_of_iff agfl b o :
  (forall o, static_owner b = Some o -> b < P) ->
  (b ∈ agfl -> free_start agno <= b) ->
  (agno = 0 -> root_chunk_agbno g <= b < root_chunk_agbno g + chunk_blocks g ->
     free_start agno <= b /\ b ∉ agfl) ->
  owner_of agno agfl b = Some o <->
    ((static_owner b = Some o \/ (P <= b < free_start agno /\ o = owner.LOG)) \/
     (b ∈ agfl /\ o = owner.AG)) \/
    ((agno = 0 /\ root_chunk_agbno g <= b < root_chunk_agbno g + chunk_blocks g) /\
     o = owner.INODES).
Proof.
  intros H1 H2 H3. destruct ag_bounds as (B1 & B2 & B3). unfold owner_of. fold P.
  destruct (static_owner b) as [o'|] eqn:Es.
  { specialize (H1 _ eq_refl). split; [by intros [= ->]; left; left; left|].
    intros [[[[= ->]|?]|[Hb _]]|[[E Hb] _]]; [done | lia | apply H2 in Hb; lia|].
    destruct (H3 E Hb). lia. }
  destruct ((P <=? b) && (b <? free_start agno)) eqn:El; bools.
  { split; [intros [= <-]; left; left; right; done|].
    intros [[[?|[_ ->]]|[Hb _]]|[[E Hb] _]]; [done | done | apply H2 in Hb; lia|].
    destruct (H3 E Hb). lia. }
  case_bool_decide as Hb.
  { split; [intros [= <-]; left; by right|].
    intros [[[?|[? _]]|[_ ->]]|[[E Hc] _]]; [done | lia | done|]. by destruct (H3 E Hc). }
  destruct (Z.eqb_spec agno 0), (Z.leb_spec (root_chunk_agbno g) b),
    (Z.ltb_spec b (root_chunk_agbno g + chunk_blocks g)); cbn [andb];
    (split; [first [intros [= <-]; right; split_and!; done || lia | done]
            | intros [[[?|[? _]]|[? _]]|[[? ?] ->]]; done || lia]).
Qed.

(** The plan before the root inode chunk is taken out. *)
Record listed (free : list AllocRec) (agfl : list Z) (rmap : list RmapRec) : Prop := {
  li_start : free_start agno < L;
  li_spaced : spaced (free_start agno) L (exts free);
  li_nodup : NoDup agfl;
  li_agfl : forall b, b ∈ agfl -> free_start agno <= b < L;
  li_length : Z.of_nat (length agfl) = min_freelist g;
  li_free : forall b, free_in free b <-> free_start agno <= b < L /\ b ∉ agfl;
  li_sum : sum_counts free = L - free_start agno - min_freelist g;
  li_rspaced : rmapbt (features g) = true -> spaced 0 L (rexts rmap);
  li_rmap : rmapbt (features g) = true -> forall b o, maps rmap b o <->
    (static_owner b = Some o \/ (P <= b < free_start agno /\ o = owner.LOG)) \/ (b ∈ agfl /\ o = owner.AG);
  li_rlen : (length rmap <= 12)%nat;
}.

Lemma fill_listed fuel free agfl rmap :
  fill_agfl fuel (rmapbt (features g)) agno (min_freelist g)
    (initial_free g agno L, [], initial_rmap g agno) = Ok (free, agfl, rmap) ->
  listed free agfl rmap.
Proof.
  intros Ef. destruct ag_bounds as (H1 & H2 & H3). pose proof (min_freelist_range g) as Hm.
  rewrite initial_free_eq in Ef. destruct (Z.ltb_spec (free_start agno) L) as [Hf|Hf].
  2: { exfalso. destruct fuel; cbn [fill_agfl length] in Ef; [done|].
       destruct (Z.ltb_spec (Z.of_nat 0) (min_freelist g)); [|lia].
       cbn in Ef. discriminate. }
  destruct (fill_agfl_filled _ (free_start agno) L _ agno _ _ _ _ _ ltac:(lia) ltac:(lia)
              initial_disjoint (initial_filled Hf) Ef)
    as ([F1 F2 F3 F4 F5 F6 F7 F8 F9 F10] & Fn). cbn [fst snd] in *.
  assert (forall b, free_in [mkAllocRec (free_start agno) (L - free_start agno)] b <->
            free_start agno <= b < L) as HF0.
  { intros b. rewrite free_in_cons. cbn [a_start a_count].
    split; [intros [?|[]%free_in_nil]; lia | intros ?; left; lia]. }
  pose proof initial_rmap_length as Hlen. cbn [sum_counts foldr a_count] in F5.
  split; try done.
  - intros b Hb. by apply HF0, F3.
  - intros b. by rewrite F4, HF0.
  - lia.
  - intros Hr b o. destruct (initial_rmap_spec Hr) as [_ I]. by rewrite (F8 Hr), I.
  - lia.
Qed.

(** What the reverse map says of the free list is what [owner_of] says. *)
Lemma listed_owner free agfl rmap b o : listed free agfl rmap -> rmapbt (features g) = true ->
  (agno = 0 -> root_chunk_agbno g <= b < root_chunk_agbno g + chunk_blocks g ->
    free_start agno <= b < L /\ b ∉ agfl) ->
  owner_of agno agfl b = Some o <->
    maps rmap b o \/ ((agno = 0 /\ root_chunk_agbno g <= b < root_chunk_agbno g + chunk_blocks g) /\
                       o = owner.INODES).
Proof.
  intros Li Hr Hc. destruct ag_bounds as (H1 & H2 & H3).
  rewrite (li_rmap _ _ _ Li Hr), owner_of_iff; [done | | |].
  - intros o' Ho. apply static_owner_range in Ho; [lia|done].
  - intros Hb. by apply (li_agfl _ _ _ Li).
  - intros E Hb. by destruct (Hc E Hb) as [[? _] ?].
Qed.

Lemma listed_whole free agfl rmap : agno <> 0 -> listed free agfl rmap ->
  planned (mkAgPlan agno L free agfl rmap None).
Proof.
  intros E0 Li. pose proof (fun b o Hr => listed_owner free agfl rmap b o Li Hr) as HO.
  destruct Li as [I1 I2 I3 I4 I5 I6 I7 I8 I9 I10].
  split; cbn [p_agno p_length p_free p_agfl p_rmap p_chunk]; try done.
  - by rewrite (proj2 (Z.eqb_neq agno 0) E0).
  - intros b. rewrite I6. intuition.
  - rewrite (proj2 (Z.eqb_neq agno 0) E0). lia.
  - intros Hr b o. rewrite (HO b o Hr) by (intros; lia). intuition.
  - lia.
Qed.

(** The chunk's blocks are still free in the plan's last step: its [take]
    would fail otherwise. *)
Lemma listed_chunk free agfl rmap free' :
  let rec := mkRmapRec (u32 (root_chunk_agbno g)) (u32 (chunk_blocks g)) owner.INODES in
  agno = 0 -> listed free agfl rmap ->
  take_blocks free (root_chunk_agbno g) (chunk_blocks g) = Ok free' ->
  planned (mkAgPlan agno L free' agfl (if rmapbt (features g) then rmap_insert rmap rec else rmap)
    (Some (root_chunk_agbno g))).
Proof.
  intros rec E0 Li Et. pose proof (chunk_bounds E0) as (C1 & C2 & C3 & C4). destruct ag_bounds as (H1 & H2 & H3).
  pose proof (fun b o Hr => listed_owner free agfl rmap b o Li Hr) as HO.
  destruct Li as [I1 I2 I3 I4 I5 I6 I7 I8 I9 I10].
  destruct (take_blocks_spec (free_start agno) L free (root_chunk_agbno g) (chunk_blocks g))
    as [T _]; [lia | lia | done | lia..|].
  destruct (T _ Et) as (T1 & T2 & T3 & T4).
  assert (forall b, root_chunk_agbno g <= b < root_chunk_agbno g + chunk_blocks g ->
            free_start agno <= b < L /\ b ∉ agfl) as Hin by (intros b Hb; by apply I6, T3).
  assert (forall b, in_rec rec b <->
            root_chunk_agbno g <= b < root_chunk_agbno g + chunk_blocks g) as Hrec.
  { intros b. unfold in_rec. cbn [rec r_start r_count]. by rewrite !u32_id by lia. }
  assert (rmapbt (features g) = true -> spaced 0 L (rexts (rmap_insert rmap rec)) /\
    (length (rmap_insert rmap rec) <= S (length rmap))%nat /\
    forall b o, maps (rmap_insert rmap rec) b o <-> maps rmap b o \/ (in_rec rec b /\ o = r_owner rec)) as HR.
  { intros Hr. apply rmap_insert_spec; cbn [rec r_start r_count];
      rewrite ?u32_id by lia; try lia; [by apply I8|].
    intros b o Hb Hmp. apply Hrec, Hin in Hb as [Hb Hn].
    apply (I9 Hr) in Hmp as [Hmp|[Hmp _]]; [|done].
    destruct (initial_rmap_spec Hr) as [S I]. apply I in Hmp.
    apply (maps_range _ _ _ _ _ S) in Hmp. lia. }
  split; cbn [p_agno p_length p_free p_agfl p_rmap p_chunk]; try done.
  - by rewrite E0.
  - intros b. rewrite T4, I6. intuition.
  - rewrite (proj2 (Z.eqb_eq agno 0) E0), T2, I7. lia.
  - intros Hr. rewrite Hr. by apply HR.
  - intros Hr b o. rewrite Hr, (HO b o Hr) by (intros _; apply Hin).
    destruct (HR Hr) as (_ & _ & R). rewrite R, Hrec. cbn [rec r_owner]. tauto.
  - destruct (rmapbt (features g)); [|lia]. destruct (HR eq_refl) as (_ & R & _). lia.
Qed.

Lemma plan_ag_planned p : plan_ag g agno = Ok p -> planned p.
Proof.
  intros Hp. unfold plan_ag in Hp. fold L in Hp.
  apply bind_Ok in Hp as ([[free agfl] rmap] & Li%fill_listed & Hp).
  apply bind_Ok in Hp as ([[free' rmap'] chunk] & Ec & [= <-]). unfold take_chunk in Ec.
  destruct (Z.eqb_spec agno 0) as [E0|E0].
  - apply bind_Ok in Ec as (free2 & Et%map_err_Ok & [= <- <- <-]). by eapply listed_chunk.
  - injection Ec as <- <- <-. by apply listed_whole.
Qed.

(** No plan exists where it does not. *)
Lemma plan_ag_full : L < free_start agno + min_freelist g -> plan_ag g agno = Err (no_space agno).
Proof.
  intros Hfit. destruct ag_bounds as (H1 & H2 & H3). pose proof (min_freelist_range g) as Hm.
  unfold plan_ag. fold L. rewrite initial_free_eq. set (m := min_freelist g) in *.
  replace (S (Z.to_nat m)) with (S (S (Z.to_nat m - 1)))%nat by lia.
  destruct (Z.ltb_spec (free_start agno) L).
  - by rewrite fill_agfl_short by lia.
  - by rewrite fill_agfl_none by (cbn; lia).
Qed.

(** A plan exists wherever the free list fits after the log, and has at most
    two free extents. *)
Lemma plan_ag_exists : free_start agno + min_freelist g <= L ->
  exists p, plan_ag g agno = Ok p /\ (length (p_free p) <= 2)%nat.
Proof.
  intros Hfit. destruct ag_bounds as (H1 & H2 & H3). pose proof (min_freelist_range g) as Hm.
  unfold plan_ag. fold L. rewrite initial_free_eq.
  destruct (Z.ltb_spec (free_start agno) L); [|lia].
  set (s := free_start agno) in *. set (m := min_freelist g) in *.
  replace (S (Z.to_nat m)) with (S (S (Z.to_nat m - 1)))%nat by lia.
  rewrite fill_agfl_one by lia. cbn [mbind result_bind].
  destruct (leftovers_spec s L (mkAllocRec s (L - s)) s m) as (S1 & S2 & S3);
    cbn [a_start a_count] in *; try lia.
  assert (length (leftovers (mkAllocRec s (L - s)) s m) <= 1)%nat as Hl1.
  { unfold leftovers. cbn [a_start]. rewrite Z.ltb_irrefl. destruct (_ <? _); cbn; lia. }
  unfold take_chunk. destruct (Z.eqb_spec agno 0) as [E0|E0]; [|eexists; split; [reflexivity | cbn; lia]].
  destruct (chunk_bounds E0) as (C1 & C2 & C3 & C4).
  destruct (root_chunk_agbno_bounds g W) as [Hrc _]. fold P m in Hrc.
  assert (s + m < L) by lia.
  set (r := mkAllocRec (s + m) (L - s - m)).
  assert (leftovers (mkAllocRec s (L - s)) s m = [r]) as ->.
  { unfold leftovers. cbn [a_start a_count]. rewrite Z.ltb_irrefl. rewrite !u64_id by lia.
    destruct (Z.ltb_spec (s + m) (s + (L - s))); [|lia]. cbn [app]. no_wrap.
    subst r. repeat f_equal. lia. }
  destruct (take_blocks_spec (s + m) L [r] (root_chunk_agbno g) (chunk_blocks g))
    as [_ T]; try (cbn; lia).
  destruct T as [free' Ht]; [exists r; split; [by left | cbn; lia]|].
  rewrite Ht. cbn [map_err mbind result_bind]. eexists. split; [done|]. cbn [p_free].
  unfold take_blocks in Ht. cbn [position] in Ht. destruct (covers _ _ r); [|done].
  cbn in Ht. injection Ht as <-. rewrite app_nil_r. unfold leftovers.
  destruct (_ <? _), (_ <? _); cbn; lia.
Qed.
End Ag.
End Plan.

(** * All the plans *)

Lemma sum_u64 (f : AllocRec -> Z) l acc :
  Forall (fun r => 0 <= f r) l -> 0 <= acc -> acc + foldr (fun r s => f r + s) 0 l < 2 ^ 64 ->
  foldl (fun s r => u64 (s + f r)) acc l = acc + foldr (fun r s => f r + s) 0 l.
Proof.
  intros Hl. revert acc. induction Hl as [|r l Hr Hl IH]; intros acc Ha Hs; cbn in *; [lia|].
  assert (0 <= foldr (fun r s => f r + s) 0 l) by (clear - Hl; induction Hl; cbn; lia).
  rewrite u64_id, IH by lia. lia.
Qed.

Lemma spaced_counts lo hi f : spaced lo hi (exts f) -> Forall (fun r => 0 <= a_count r) f.
Proof.
  revert lo. induction f as [|r f IH]; intros lo H; [constructor|].
  cbn in H. destruct H as (? & ? & H). constructor; [lia | by eapply IH].
Qed.

Lemma spaced_sum lo hi f : spaced lo hi (exts f) -> 0 <= sum_counts f <= hi - lo.
Proof.
  revert lo. induction f as [|r f IH]; intros lo H; cbn in *; [lia|].
  destruct H as (? & ? & H). apply IH in H. unfold sum_counts in H. lia.
Qed.

Lemma planned_freeblks g agno p : wf g -> 0 <= agno < agcount g -> planned g agno p ->
  freeblks p = sum_counts (p_free p) /\ 0 <= sum_counts (p_free p) < 2 ^ 30.
Proof.
  intros W Ha Hp. pose proof (pl_spaced _ _ _ Hp) as Hs.
  pose proof (spaced_sum _ _ _ Hs). destruct (ag_bounds g W agno Ha) as (? & ? & ?).
  pose proof (spaced_counts _ _ _ Hs). unfold freeblks. unfold sum_counts in *.
  rewrite sum_u64; [|done|lia..]. lia.
Qed.

(** What the first [k] AGs contribute. *)
Definition prefix_blocks (g : Geometry) (k : Z) : Z :=
  Z.min (k * agsize g) (dblocks g) - k * prealloc_blocks g
  - (if logagno g <? k then logblocks g else 0) - (if 0 <? k then chunk_blocks g else 0).

Lemma prefix_blocks_S g k : wf g -> 0 <= k < agcount g ->
  prefix_blocks g (k + 1) = prefix_blocks g k + (ag_blocks g k - free_start g k
    - (if k =? 0 then chunk_blocks g else 0)).
Proof.
  intros W Hk. rewrite (ag_blocks_eq g W k Hk). unfold prefix_blocks, free_start.
  pose proof (wf_ag_start g W k Hk). pose proof (wf_agsize_range g W).
  pose proof (logagno_range g W).
  destruct (Z.eqb_spec k 0), (Z.eqb_spec k (logagno g)), (Z.ltb_spec (logagno g) (k + 1)),
    (Z.ltb_spec (logagno g) k), (Z.ltb_spec 0 (k + 1)), (Z.ltb_spec 0 k); lia.
Qed.

Lemma planned_fdblocks_prefix g k ps : wf g -> (Z.of_nat k <= agcount g) ->
  collect (plan_ag g) (seqZ 0 (Z.of_nat k)) = Ok ps ->
  planned_fdblocks ps = prefix_blocks g (Z.of_nat k) /\ 0 <= prefix_blocks g (Z.of_nat k) < 2 ^ 54.
Proof.
  intros W. revert ps. induction k as [|k IH]; intros ps Hk Hps.
  - cbn in Hps. injection Hps as <-. unfold prefix_blocks. pose proof (wf_dblocks g W).
    pose proof (logagno_range g W). change (Z.of_nat 0) with 0.
    rewrite !Z.mul_0_l, Z.ltb_irrefl. destruct (Z.ltb_spec (logagno g) 0); [lia|].
    change (planned_fdblocks []) with 0. lia.
  - rewrite Nat2Z.inj_succ, <- Z.add_1_r, seqZ_app in Hps by lia.
    apply collect_Ok, Forall2_app_inv_l in Hps as (ps1 & ps2 & H1 & H2 & ->).
    apply collect_Ok in H1. destruct (IH ps1 ltac:(lia) H1) as [E1 R1].
    cbn in H2. apply Forall2_cons_inv_l in H2 as (p & ps3 & Hp & H3 & ->).
    apply Forall2_nil_inv_l in H3 as ->.
    rewrite Z.add_0_l in Hp. set (a := Z.of_nat k) in *.
    pose proof (plan_ag_planned g W a ltac:(lia) p Hp) as Hpl.
    destruct (planned_freeblks g a p W ltac:(lia) Hpl) as [Ef Rf].
    pose proof (pl_sum _ _ _ Hpl). pose proof (pl_agfl_length _ _ _ Hpl) as El.
    pose proof (min_freelist_range g). pose proof (wf_dblocks g W).
    pose proof (prefix_blocks_S g a W ltac:(lia)) as Es.
    assert (prefix_blocks g (a + 1) < 2 ^ 54).
    { unfold prefix_blocks. pose proof (wf_prealloc g W). pose proof (wf_header g W).
      pose proof (chunk_blocks_range g W). pose proof (wf_logblocks g W).
      pose proof (wf_blocklog g W). pose proof (pow2_pos (26 - blocklog g)).
      assert (0 <= (a + 1) * prealloc_blocks g) by (apply Z.mul_nonneg_nonneg; lia).
      pose proof (Z.le_min_r ((a + 1) * agsize g) (dblocks g)).
      set (x := Z.min _ _) in *. set (y := (a + 1) * _) in *.
      destruct (logagno g <? a + 1), (0 <? a + 1); lia. }
    unfold planned_fdblocks in *. rewrite foldl_app. cbn [foldl]. rewrite E1, Ef, El.
    rewrite Nat2Z.inj_succ, <- Z.add_1_r. fold a.
    rewrite (u64_id (_ + min_freelist g)), u64_id by lia. lia.
Qed.

(** * Properties *)

(** The blocks of a mapping or an extent at [b], as tests. *)
Definition free_at (free : list AllocRec) (b : Z) : bool :=
  existsb (fun r => (a_start r <=? b) && (b <? a_start r + a_count r)) free.

Lemma free_at_spec free b : free_at free b = true <-> free_in free b.
Proof.
  unfold free_at, free_in. rewrite existsb_exists. split.
  - intros (r & Hr & Hb). bools. exists r. split; [by apply list_elem_of_In | lia].
  - intros (r & Hr & Hb). exists r. split; [by apply list_elem_of_In|].
    apply andb_true_intro. split; [apply Z.leb_le | apply Z.ltb_lt]; lia.
Qed.

(** The block has one use, of the five an AG's blocks are put to. *)
Definition uses (g : Geometry) (agno : Z) (p : AgPlan) (b : Z) : Z :=
  Z.b2z (b <? prealloc_blocks g)
  + Z.b2z ((prealloc_blocks g <=? b) && (b <? free_start g agno))
  + Z.b2z (bool_decide (b ∈ p_agfl p))
  + Z.b2z (match p_chunk p with
           | Some at_ => (at_ <=? b) && (b <? at_ + chunk_blocks g)
           | None => false
           end)
  + Z.b2z (free_at (p_free p) b).

Lemma b2z_in lo b hi :
  Z.b2z ((lo <=? b) && (b <? hi)) = if decide (lo <= b < hi) then 1 else 0.
Proof. destruct (Z.leb_spec lo b), (Z.ltb_spec b hi); case_decide; cbn; lia. Qed.
Lemma b2z_lt b hi : Z.b2z (b <? hi) = if decide (b < hi) then 1 else 0.
Proof. destruct (Z.ltb_spec b hi); case_decide; cbn; lia. Qed.

(** C3: a plan partitions its AG: every block is a header or btree root, in
    the log, on the free list, in the root inode chunk, or in exactly one
    free extent, and is only one of these; nothing lies outside the AG. *)
Theorem plan_partitions_the_ag g agno p b :
  wf g -> 0 <= agno < agcount g -> plan_ag g agno = Ok p -> 0 <= b ->
  uses g agno p b = (if b <? ag_blocks g agno then 1 else 0).
Proof.
  intros W Ha Hp Hb. pose proof (plan_ag_planned g W agno Ha p Hp) as Hpl.
  destruct (ag_bounds g W agno Ha) as (B1 & B2 & B3). pose proof (pl_free_start _ _ _ Hpl) as B4.
  pose proof (pl_agfl _ _ _ Hpl b) as Hagfl. pose proof (pl_free _ _ _ Hpl b) as Hfree.
  pose proof (fun E => pl_chunk_in _ _ _ Hpl E b) as Hck.
  rewrite <- free_at_spec in Hfree. unfold uses. rewrite (pl_chunk _ _ _ Hpl).
  rewrite b2z_lt, b2z_in.
  assert (Z.b2z match (if agno =? 0 then Some (root_chunk_agbno g) else None) with
            | Some at_ => (at_ <=? b) && (b <? at_ + chunk_blocks g) | None => false end =
          if decide (agno = 0 /\ root_chunk_agbno g <= b < root_chunk_agbno g + chunk_blocks g)
          then 1 else 0) as ->.
  { destruct (Z.eqb_spec agno 0); [rewrite b2z_in; repeat case_decide; tauto|].
    by case_decide as Hd; [destruct Hd|]. }
  destruct (free_at (p_free p) b); cbn [Z.b2z];
    [destruct (proj1 Hfree eq_refl) as (F1 & F2 & F3); rewrite (decide_False _ _ F3);
     rewrite bool_decide_eq_false_2 by done |
     assert (~ (free_start g agno <= b < ag_blocks g agno /\ (b ∉ p_agfl p) /\
       ~ (agno = 0 /\ root_chunk_agbno g <= b < root_chunk_agbno g + chunk_blocks g))) as F
       by (intros F; by apply Hfree in F); case_bool_decide as Hd;
     [specialize (Hagfl Hd); destruct (decide (agno = 0 /\ _)) as [[E Hc]|Hc]; [by destruct (Hck E Hc)|] |
      destruct (decide (agno = 0 /\ _)) as [[E Hc]|Hc]; [destruct (Hck E Hc) as [Hc1 _]|]]];
    cbn [Z.b2z]; clear Hck Ha Hp Hpl W;
    destruct (Z.ltb_spec b (ag_blocks g agno)), (decide (b < prealloc_blocks g)),
      (decide (prealloc_blocks g <= b < free_start g agno));
    first [reflexivity | exfalso; (lia || (apply F; split_and!; done || lia))].
Qed.

Definition plan0 : AgPlan := Eval vm_compute in
  match plan_ag geo512m 0 with Ok p => p | _ => mkAgPlan 0 0 [] [] [] None end.

Lemma plan_partitions_the_ag_witness :
  uses geo512m 0 plan0 16 = (if 16 <? ag_blocks geo512m 0 then 1 else 0).
Proof.
  apply (plan_partitions_the_ag geo512m 0 plan0 16 geo512m_wf);
    [vm_compute; done | vm_compute; reflexivity | lia].
Defined.

(** C18: the reverse mappings of a plan are sorted, disjoint and inside the
    AG, and name the owner of every block that is not free, and of no
    other. *)
Theorem rmap_names_every_owner g agno p :
  wf g -> 0 <= agno < agcount g -> rmapbt (features g) = true -> plan_ag g agno = Ok p ->
  spaced 0 (ag_blocks g agno) (rexts (p_rmap p)) /\
  (forall b o, maps (p_rmap p) b o <-> owner_of g agno (p_agfl p) b = Some o) /\
  forall b, 0 <= b < ag_blocks g agno ->
    free_in (p_free p) b <-> owner_of g agno (p_agfl p) b = None.
Proof.
  intros W Ha Hr Hp. pose proof (plan_ag_planned g W agno Ha p Hp) as Hpl.
  split_and!; [by apply (pl_rspaced _ _ _ Hpl) | by apply (pl_rmap _ _ _ Hpl) |].
  intros b Hb. rewrite (pl_free _ _ _ Hpl b).
  pose proof (owner_of_iff g W agno Ha (p_agfl p) b) as Ho.
  destruct (ag_bounds g W agno Ha) as (B1 & B2 & B3).
  assert (forall o, static_owner g b = Some o -> b < prealloc_blocks g) as Hst.
  { intros o H. pose proof (static_owner_range g W agno b o Hr H). lia. }
  specialize (fun o => Ho o Hst (fun H => proj1 (pl_agfl _ _ _ Hpl b H))
    (fun E Hc => let '(conj x y) := pl_chunk_in _ _ _ Hpl E b Hc in conj (proj1 x) y)).
  destruct (owner_of g agno (p_agfl p) b) as [o|] eqn:E.
  - split; [|done]. intros (F1 & F2 & F3). pose proof (proj1 (Ho o) eq_refl) as E'.
    destruct E' as [[[E'|E']|E']|E']; [apply Hst in E'; lia | lia | tauto | tauto].
  - split; [done|]. intros _. split_and!.
    + destruct (Z.lt_ge_cases b (free_start g agno)) as [Hlt|]; [exfalso|lia].
      destruct (Z.lt_ge_cases b (prealloc_blocks g)) as [Hp'|].
      * destruct (static_owner_total g b) as [o Ho']; [lia|].
        assert (None = Some o) by (apply Ho; auto). done.
      * assert (None = Some owner.LOG) by (apply Ho; left; left; right; split; [lia | done]). done.
    + lia.
    + intros Hin. assert (None = Some owner.AG) by (apply Ho; left; by right). done.
    + intros Hin. assert (None = Some owner.INODES) by (apply Ho; by right). done.
Qed.

Lemma rmap_names_every_owner_witness :
  spaced 0 (ag_blocks geo512m 0) (rexts (p_rmap plan0)) /\
  (forall b o, maps (p_rmap plan0) b o <-> owner_of geo512m 0 (p_agfl plan0) b = Some o) /\
  forall b, 0 <= b < ag_blocks geo512m 0 ->
    free_in (p_free plan0) b <-> owner_of geo512m 0 (p_agfl plan0) b = None.
Proof.
  apply (rmap_names_every_owner geo512m 0 plan0 geo512m_wf);
    [vm_compute; done | reflexivity | vm_compute; reflexivity].
Defined.

(** Taking blocks out of sorted free space removes exactly those blocks,
    keeps it sorted and disjoint, and succeeds exactly when one extent holds
    them all; otherwise it is an error naming the range. *)
Theorem take_removes_exactly lo hi free start len :
  0 <= lo -> hi < 2 ^ 32 -> spaced lo hi (exts free) -> 0 <= start -> 0 < len ->
  start + len < 2 ^ 64 ->
  (forall free', take_blocks free start len = Ok free' ->
     spaced lo hi (exts free') /\ sum_counts free' = sum_counts free - len /\
     forall b, free_in free' b <-> free_in free b /\ ~ (start <= b < start + len)) /\
  ((exists r, r ∈ free /\ a_start r <= start /\ start + len <= a_start r + a_count r) <->
   exists free', take_blocks free start len = Ok free') /\
  answers (take_blocks free start len).
Proof.
  intros Hlo Hhi Hsp Hs Hl Hb.
  destruct (take_blocks_spec lo hi free start len Hlo Hhi Hsp Hs Hl Hb) as [T1 T2].
  split; [|split].
  - intros free' H. by destruct (T1 _ H) as (? & ? & _ & ?).
  - split; [exact T2|]. intros [free' H]. unfold take_blocks in H.
    destruct (position _ _) as [i|] eqn:Ep; [|done]. apply position_Some in Ep as (r & Hr & Hc).
    unfold covers in Hc. rewrite u64_id in Hc by lia. bools.
    exists r. split; [by apply list_elem_of_lookup_2 in Hr | done].
  - unfold take_blocks. destruct (position _ _) as [i|] eqn:Ep; [|cbn; eauto with result].
    apply position_Some in Ep as (r & Hr & _). cbn. rewrite Hr. cbn. eauto with result.
Qed.

Lemma take_removes_exactly_witness :
  (exists r, r ∈ [mkAllocRec 13 32755] /\ a_start r <= 16 /\ 16 + 8 <= a_start r + a_count r) <->
  exists free', take_blocks [mkAllocRec 13 32755] 16 8 = Ok free'.
Proof. apply (take_removes_exactly 7 32768 [mkAllocRec 13 32755] 16 8); cbn; lia. Defined.

(** Inserting a mapping for blocks nobody owns adds exactly that owner
    for exactly those blocks, however it merges with its neighbours, and
    keeps the map sorted and disjoint. *)
Theorem rmap_insert_adds_exactly rmap lo hi rec :
  0 <= lo -> hi < 2 ^ 32 -> spaced lo hi (rexts rmap) ->
  (forall b o, in_rec rec b -> ~ maps rmap b o) ->
  0 < r_count rec -> lo <= r_start rec -> r_start rec + r_count rec <= hi ->
  spaced lo hi (rexts (rmap_insert rmap rec)) /\
  forall b o, maps (rmap_insert rmap rec) b o <->
    maps rmap b o \/ (in_rec rec b /\ o = r_owner rec).
Proof.
  intros. edestruct (rmap_insert_spec rmap lo hi rec) as (? & _ & ?); eauto.
Qed.

Lemma rmap_insert_adds_exactly_witness :
  rmap_insert [mkRmapRec 5 1 owner.AG; mkRmapRec 8 3 owner.AG] (mkRmapRec 6 2 owner.AG)
    = [mkRmapRec 5 6 owner.AG] /\
  forall b o, maps (rmap_insert [mkRmapRec 5 1 owner.AG; mkRmapRec 8 3 owner.AG]
                      (mkRmapRec 6 2 owner.AG)) b o <->
    maps [mkRmapRec 5 1 owner.AG; mkRmapRec 8 3 owner.AG] b o \/
    (in_rec (mkRmapRec 6 2 owner.AG) b /\ o = owner.AG).
Proof.
  split; [vm_compute; reflexivity|].
  apply (rmap_insert_adds_exactly [mkRmapRec 5 1 owner.AG; mkRmapRec 8 3 owner.AG] 0 100
           (mkRmapRec 6 2 owner.AG)); try (cbn; lia).
  intros b o Hb Hm. unfold in_rec in Hb. cbn in Hb.
  apply maps_cons in Hm as [Hm|[Hm|Hm]%maps_cons]; cbn in Hm; [lia | lia | by apply maps_nil in Hm].
Defined.

(** C27: every AG of a well-formed geometry can be planned, with at most two
    free extents, but one: the AG of the log cannot where it does not hold its
    headers, the log and a free list of the minimum length, and [format] then
    stops with an error that names it. *)
Theorem every_ag_can_be_planned g agno :
  wf g -> 0 <= agno < agcount g ->
  if (agno =? logagno g) &&
     (ag_blocks g agno <? prealloc_blocks g + logblocks g + min_freelist g)
  then plan_ag g agno =
    Err (InvalidParams ("AG " +:+ pretty agno +:+ " has no space for its free list")%string)
  else exists p, plan_ag g agno = Ok p /\ (length (p_free p) <= 2)%nat /\
    (length (p_rmap p) <= 13)%nat.
Proof.
  intros W Ha. destruct (ag_bounds g W agno Ha) as (B1 & B2 & B3).
  pose proof (min_freelist_range g). pose proof (plan_ag_full g W agno Ha) as Hfull.
  pose proof (plan_ag_exists g W agno Ha) as Hex. unfold free_start in *.
  destruct (Z.eqb_spec agno (logagno g)); cbn [andb].
  1: destruct (Z.ltb_spec (ag_blocks g agno) (prealloc_blocks g + logblocks g + min_freelist g));
    [apply Hfull; lia|].
  all: destruct Hex as (p & Hp & Hl); [lia|]; exists p; split_and!; [done..|];
    by apply (pl_rlen _ _ _ (plan_ag_planned g W agno Ha p Hp)).
Qed.

Lemma every_ag_can_be_planned_witness :
  (exists p, plan_ag geo512m 2 = Ok p /\ (length (p_free p) <= 2)%nat /\
    (length (p_rmap p) <= 13)%nat) /\
  (exists p, plan_ag geo512m 3 = Ok p /\ (length (p_free p) <= 2)%nat /\
    (length (p_rmap p) <= 13)%nat).
Proof.
  split; [apply (every_ag_can_be_planned geo512m 2) | apply (every_ag_can_be_planned geo512m 3)];
    [apply geo512m_wf | vm_compute; done | apply geo512m_wf | vm_compute; done].
Defined.

(** C31: [compute] checks the log against the AG size and not against the AG
    the log goes to: with [-d agsize=1g] a 1088 MiB device passes, and its
    plan then finds no room for the free list after the log in the short
    second AG. *)
Theorem compute_accepts_a_log_its_ag_cannot_hold :
  let params := mkParams None None None None None (Some (2 ^ 30)) None None None None None
                  Features_default in
  exists g, compute params (1088 * 2 ^ 20) 512 512 = Ok g /\ wf g /\
    ag_blocks g (logagno g) = logblocks g /\
    plans g = Err (InvalidParams "AG 1 has no space for its free list").
Proof.
  eexists. split; [vm_compute; reflexivity|]. split_and!; [|vm_compute; reflexivity..].
  eapply (compute_wf_lemma (mkParams None None None None None (Some (2 ^ 30)) None None
    None None None Features_default) (1088 * 2 ^ 20) 512 512);
    [split; cbn; unfold u64_opt, u32_opt; intros ? [=]; subst; lia | lia | vm_compute; reflexivity | by left].
Qed.

(** C30: the free block count the primary superblock gets is what is left of
    the data area once every AG's static blocks, the log and the root inode
    chunk are taken out. *)
Theorem fdblocks_is_what_is_left g ps :
  wf g -> plans g = Ok ps ->
  planned_fdblocks ps =
    dblocks g - agcount g * prealloc_blocks g - logblocks g - chunk_blocks g /\
  planned_fdblocks ps = initial_fdblocks g - chunk_blocks g.
Proof.
  intros W Hps. pose proof (wf_agcount g W). unfold plans in Hps.
  replace (agcount g) with (Z.of_nat (Z.to_nat (agcount g))) in Hps at 1 by lia.
  apply planned_fdblocks_prefix in Hps as [E R]; [|done|lia].
  rewrite Z2Nat.id in E, R by lia.
  pose proof (wf_covered g W). pose proof (logagno_range g W).
  assert (prefix_blocks g (agcount g) =
    dblocks g - agcount g * prealloc_blocks g - logblocks g - chunk_blocks g) as Ep.
  { unfold prefix_blocks. destruct (Z.ltb_spec (logagno g) (agcount g)), (Z.ltb_spec 0 (agcount g)); lia. }
  rewrite Ep in *. split; [done|]. rewrite E. unfold initial_fdblocks.
  pose proof (wf_dblocks g W). pose proof (chunk_blocks_range g W).
  pose proof (wf_logblocks g W). pose proof (wf_blocklog g W).
  pose proof (pow2_pos (26 - blocklog g)). pose proof (wf_prealloc g W). pose proof (wf_header g W).
  assert (0 <= agcount g * prealloc_blocks g) by (apply Z.mul_nonneg_nonneg; lia).
  rewrite (u64_id (agcount g * _)), (u64_id (dblocks g - _)), u64_id by lia. lia.
Qed.

Lemma fdblocks_is_what_is_left_witness :
  exists ps, plans geo512m = Ok ps /\ planned_fdblocks ps = 114652 /\
    planned_fdblocks ps = initial_fdblocks geo512m - chunk_blocks geo512m.
Proof.
  eexists. split; [vm_compute; reflexivity|]. split; [vm_compute; reflexivity|].
  apply (fdblocks_is_what_is_left geo512m _ geo512m_wf). vm_compute. reflexivity.
Defined.
