(* ===== verification/Io.v ===== *)
(** Code that runs on a device, and what a run leaves.

    An [async fn] taking a [&D] threads the device's state: [io D A].  Its
    requests that change the device are [op]s; a sequence of them that the
    device serves leaves, at every byte, what the last request to touch it
    wrote ([run_ops_ok]).  Requests to disjoint ranges therefore commute
    ([last_written_perm]), which is what lets the formatter write the
    allocation groups in whatever order they complete. *)

From Stdlib Require Import ZArith Lia.
From stdpp Require Import base tactics list numbers sorting.
From coqutil Require Import Byte Word.LittleEndianList.
From S2P Require Import Prelude Bytes Device.

(** * The monad *)

Definition io (D A : Type) : Type := D -> D * result A.

#[export] Instance io_ret {D} : MRet (io D) := fun A a d => (d, Ok a).
#[export] Instance io_bind {D} : MBind (io D) := fun A B f m d =>
  match m d with
  | (d, Ok a) => f a d
  | (d, Err e) => (d, Err e)
  | (d, Panic) => (d, Panic)
  | (d, OutOfFuel) => (d, OutOfFuel)
  end.

(** Code that leaves the device alone, and a question to the device. *)
Definition lift {D A} (r : result A) : io D A := fun d => (d, r).
Definition asks {D A} (f : D -> A) : io D A := fun d => (d, Ok (f d)).

(** [dev.write_at(off, b).await], [dev.write_zeroes(off, len).await],
    [dev.flush().await]. *)
Definition io_write {D} `{BlockDevice D} (off : Z) (b : buf) : io D unit :=
  fun d => write_at d off b.
Definition io_zeroes {D} `{BlockDevice D} (off len : Z) : io D unit :=
  fun d => write_zeroes d off len.
Definition io_flush {D} `{BlockDevice D} : io D unit := fun d => flush d.

(** [for x in l { f(x)?; }]. *)
Fixpoint io_for {D A} (f : A -> io D unit) (l : list A) : io D unit :=
  match l with
  | [] => mret tt
  | x :: l => f x;; io_for f l
  end.

(** * Requests *)

Inductive op : Type :=
| OpZeroes (off len : Z)
| OpWrite (off : Z) (b : buf)
| OpFlush.

Definition op_off (o : op) : Z :=
  match o with OpZeroes off _ => off | OpWrite off _ => off | OpFlush => 0 end.
Definition op_len (o : op) : Z :=
  match o with OpZeroes _ len => len | OpWrite _ b => Z.of_nat (length b) | OpFlush => 0 end.

Definition run_op {D} `{BlockDevice D} (o : op) : io D unit :=
  match o with
  | OpZeroes off len => io_zeroes off len
  | OpWrite off b => io_write off b
  | OpFlush => io_flush
  end.
Definition run_ops {D} `{BlockDevice D} (ops : list op) : io D unit := io_for run_op ops.

(** The byte a request writes at [i], and the last byte a sequence writes
    there. *)
Definition written (o : op) (i : Z) : option byte :=
  match o with
  | OpZeroes off len =>
      if (off <=? i) && (i <? off + len) then Some (byte.of_Z 0) else None
  | OpWrite off b => if off <=? i then b !! Z.to_nat (i - off) else None
  | OpFlush => None
  end.
Fixpoint last_written (ops : list op) (i : Z) : option byte :=
  match ops with
  | [] => None
  | o :: ops => match last_written ops i with Some b => Some b | None => written o i end
  end.

(** A request the device serves. *)
Definition served {D} `{DeviceSpec D} (d : D) (o : op) : Prop :=
  0 <= op_off o /\ 0 <= op_len o /\
  (o = OpFlush \/ accepts d (op_off o) (op_len o) = true).

(** A request clear of the bytes [[lo, hi)], and requests clear of each
    other. *)
Definition clear (lo hi : Z) (o : op) : Prop :=
  hi <= op_off o \/ op_off o + op_len o <= lo \/ op_len o = 0.
Definition clear_of_each_other (o o' : op) : Prop :=
  op_len o = 0 \/ clear (op_off o) (op_off o + op_len o) o'.

(** * Lemmas *)

Lemma io_bind_eq {D A B} (f : A -> io D B) (m : io D A) d :
  (m ≫= f) d = match m d with
               | (d, Ok a) => f a d
               | (d, Err e) => (d, Err e)
               | (d, Panic) => (d, Panic)
               | (d, OutOfFuel) => (d, OutOfFuel)
               end.
Proof. reflexivity. Qed.

Lemma lift_bind {D A B} (a : A) (f : A -> io D B) d : (lift (Ok a) ≫= f) d = f a d.
Proof. reflexivity. Qed.

Lemma io_bind_step {D A B} (f : A -> io D B) (m : io D A) d d' a :
  m d = (d', Ok a) -> (m ≫= f) d = f a d'.
Proof. intros E. by rewrite io_bind_eq, E. Qed.

Lemma io_for_app {D A} (f : A -> io D unit) l1 l2 d :
  io_for f (l1 ++ l2) d = (io_for f l1;; io_for f l2) d.
Proof.
  revert d. induction l1 as [|x l1 IH]; intros d; [done|]. cbn [io_for app].
  rewrite !io_bind_eq. destruct (f x d) as [d' []]; [|done..]. by rewrite IH, io_bind_eq.
Qed.

(** A run that keeps an invariant of the state it runs on and answers, with a
    value that satisfies [P] if it has one. *)
Definition safe {D A} (I : D -> Prop) (P : A -> Prop) (m : io D A) : Prop :=
  forall d, I d -> exists d' r, m d = (d', r) /\ I d' /\ good P r.

Section Safe.
Context {D : Type} {I : D -> Prop}.

Lemma safe_lift {A} (P : A -> Prop) (r : result A) : good P r -> safe I P (lift r).
Proof. intros Hr d Hd. by exists d, r. Qed.
Lemma safe_ret {A} (P : A -> Prop) (a : A) : P a -> safe I P (mret a).
Proof. intros HP d Hd. by exists d, (Ok a). Qed.
Lemma safe_err {A} (P : A -> Prop) e : safe I P (lift (Err e)).
Proof. by apply safe_lift. Qed.
Lemma safe_weaken {A} (P Q : A -> Prop) (m : io D A) :
  (forall a, P a -> Q a) -> safe I P m -> safe I Q m.
Proof.
  intros Hq Hm d Hd. destruct (Hm d Hd) as (d' & r & E & Hi & Hr). exists d', r.
  split_and!; [done..|]. by eapply good_weaken.
Qed.
Lemma safe_bind {A B} (P : A -> Prop) (Q : B -> Prop) (m : io D A) (f : A -> io D B) :
  safe I P m -> (forall a, P a -> safe I Q (f a)) -> safe I Q (m ≫= f).
Proof.
  intros Hm Hf d Hd. destruct (Hm d Hd) as (d1 & r & E & H1 & HP). rewrite io_bind_eq, E.
  destruct r as [a|e| |]; [by apply Hf | by exists d1, (Err e) | done..].
Qed.
End Safe.

Lemma written_in o i b : written o i = Some b -> op_off o <= i < op_off o + op_len o.
Proof.
  destruct o as [off len|off bs|]; cbn; [|destruct (Z.leb_spec off i)|done]; [|intros Hl|done].
  - destruct (Z.leb_spec off i), (Z.ltb_spec i (off + len)); cbn; intros; simplify_eq; lia.
  - apply lookup_lt_Some in Hl. lia.
Qed.

Lemma written_within o i :
  o <> OpFlush -> op_off o <= i < op_off o + op_len o -> is_Some (written o i).
Proof.
  destruct o as [off len|off bs|]; cbn; intros Ho Hi; [| |done].
  - destruct (Z.leb_spec off i), (Z.ltb_spec i (off + len)); try lia. by eexists.
  - destruct (Z.leb_spec off i); [|lia]. apply lookup_lt_is_Some. lia.
Qed.

Lemma clear_written lo hi o i : clear lo hi o -> lo <= i < hi -> written o i = None.
Proof.
  unfold clear. destruct (written o i) as [b|] eqn:E; [|done]. apply written_in in E. lia.
Qed.

Lemma last_written_app ops1 ops2 i :
  last_written (ops1 ++ ops2) i =
    match last_written ops2 i with Some b => Some b | None => last_written ops1 i end.
Proof.
  induction ops1 as [|o ops1 IH]; cbn; [by destruct (last_written ops2 i)|].
  rewrite IH. by destruct (last_written ops2 i).
Qed.

Lemma last_written_clear lo hi ops i :
  Forall (clear lo hi) ops -> lo <= i < hi -> last_written ops i = None.
Proof.
  intros Hc Hi. induction Hc as [|o ops Ho _ IH]; [done|]. cbn. rewrite IH.
  by apply (clear_written lo hi).
Qed.

(** The bytes of the last request to touch a range. *)
Lemma last_written_at lo hi ops1 o ops2 i :
  lo <= i < hi -> op_off o <= i < op_off o + op_len o -> o <> OpFlush ->
  Forall (clear lo hi) ops2 -> last_written (ops1 ++ o :: ops2) i = written o i.
Proof.
  intros Hi Hr Ho Hc. rewrite last_written_app. cbn.
  rewrite (last_written_clear _ _ _ i Hc Hi).
  by destruct (written_within o i Ho Hr) as [b ->].
Qed.

Lemma clear_flush lo hi : clear lo hi OpFlush.
Proof. by right; right. Qed.

Lemma pairwise_fmap {A} (R : op -> op -> Prop) (f : A -> op) (l : list A) :
  NoDup l -> (forall a b, a ∈ l -> b ∈ l -> a <> b -> R (f a) (f b)) ->
  ForallOrdPairs R (f <$> l).
Proof.
  induction 1 as [|a l Ha Hl IH]; intros HR; [constructor|]. cbn. constructor.
  - apply Forall_fmap, List.Forall_forall. intros b Hb%list_elem_of_In. cbn.
    apply HR; [by left | by right | by intros ->].
  - apply IH. intros b c Hb Hc. apply HR; by right.
Qed.

Lemma clear_symm o o' : clear_of_each_other o o' -> clear_of_each_other o' o.
Proof. unfold clear_of_each_other, clear. lia. Qed.

Lemma clear_one_writes o o' i :
  clear_of_each_other o o' -> written o i = None \/ written o' i = None.
Proof.
  unfold clear_of_each_other, clear. intros Hc.
  destruct (written o i) eqn:E; [|by left]. destruct (written o' i) eqn:E'; [|by right].
  apply written_in in E, E'. lia.
Qed.

Lemma last_written_perm ops ops' i :
  ops ≡ₚ ops' -> ForallOrdPairs clear_of_each_other ops ->
  last_written ops i = last_written ops' i.
Proof.
  induction 1 as [|o ops ops' Hp IH|o o' ops|ops ops' ops'' Hp1 IH1 Hp2 IH2]; intros Hc;
    [done|..].
  - inversion Hc; subst. cbn. by rewrite IH.
  - inversion Hc as [|? ? Ho _]; subst. cbn. destruct (last_written ops i); [done|].
    inversion Ho as [|? ? Hoo _]; subst.
    destruct (clear_one_writes o' o i Hoo) as [-> | ->]; by repeat case_match.
  - rewrite IH1 by done. apply IH2.
    revert Hc. clear -Hp1.
    induction Hp1 as [|o ops ops' Hp IH|o o' ops|? ? ? _ IH1 _ IH2]; intros Hc; [done|..|by eauto].
    + inversion Hc as [|? ? Ho Hr]; subst. constructor; [|by apply IH].
      by rewrite <- Hp.
    + inversion Hc as [|? ? Ho Hr]; subst. inversion Hr as [|? ? Ho' Hr']; subst.
      inversion Ho as [|? ? Hoo Hor]; subst.
      constructor; [constructor; [by apply clear_symm | done] | by constructor].
Qed.

(** * Runs on a device that meets its contract *)

Section Runs.
Context {D : Type} `{DeviceSpec D}.

(** The device serves every request of whole blocks inside it. *)
Definition serves_blocks (d : D) (bsz : Z) : Prop :=
  forall off len, 0 <= off -> 0 <= len -> off mod bsz = 0 -> len mod bsz = 0 ->
    off + len <= dev_size d -> accepts d off len = true.

(** [d'] is [d] after some requests: what it promises is unchanged. *)
Record later (d d' : D) : Prop := {
  lt_valid : valid d';
  lt_size : dev_size d' = dev_size d;
  lt_sector : logical_sector_size d' = logical_sector_size d;
  lt_accepts : forall off len, accepts d' off len = accepts d off len;
}.

Lemma later_refl d : valid d -> later d d.
Proof. by split. Qed.
Lemma later_trans d d1 d2 : later d d1 -> later d1 d2 -> later d d2.
Proof.
  intros [V1 S1 L1 A1] [V2 S2 L2 A2]. split; [done | by rewrite S2 | by rewrite L2|].
  intros. by rewrite A2.
Qed.

Lemma later_serves d d' bsz : later d d' -> serves_blocks d bsz -> serves_blocks d' bsz.
Proof. intros [_ S _ A] Hs off len. rewrite A, S. apply Hs. Qed.

Lemma io_write_ok d off b : valid d -> 0 <= off -> accepts d off (Z.of_nat (length b)) = true ->
  exists d', io_write off b d = (d', Ok tt) /\ later d d' /\
    forall i, contents d' i = overlay off b (contents d) i.
Proof.
  intros Hv Ho Ha. destruct (write_spec d off b Hv Ho Ha) as (d' & E & V & S & L & A & C).
  by exists d'.
Qed.

Lemma io_zeroes_ok d off len : valid d -> 0 <= off -> 0 <= len -> accepts d off len = true ->
  exists d', io_zeroes off len d = (d', Ok tt) /\ later d d' /\
    forall i, contents d' i = zeroed off len (contents d) i.
Proof.
  intros Hv Ho Hl Ha. destruct (zeroes_spec d off len Hv Ho Hl Ha) as (d' & E & V & S & L & A & C).
  by exists d'.
Qed.

Lemma io_flush_ok d : valid d -> exists d', io_flush d = (d', Ok tt) /\ later d d' /\
  forall i, contents d' i = contents d i.
Proof.
  intros Hv. destruct (flush_spec d Hv) as (d' & E & V & S & L & A & C). by exists d'.
Qed.

Lemma run_op_later d o : valid d -> served d o ->
  exists d', run_op o d = (d', Ok tt) /\ later d d' /\
    forall i, contents d' i = default (contents d i) (written o i).
Proof.
  intros Hv (Ho & Hl & Ha). destruct o as [off len|off b|]; cbn in *.
  - destruct Ha as [|Ha]; [done|].
    destruct (io_zeroes_ok d off len Hv Ho Hl Ha) as (d' & E & L & C).
    exists d'. split_and!; [done..|]. intros i. rewrite C. unfold zeroed.
    by destruct ((off <=? i) && (i <? off + len)).
  - destruct Ha as [|Ha]; [done|].
    destruct (io_write_ok d off b Hv Ho Ha) as (d' & E & L & C).
    exists d'. split_and!; [done..|]. intros i. rewrite C. unfold overlay.
    by destruct (off <=? i).
  - destruct (io_flush_ok d Hv) as (d' & E & L & C).
    exists d'. split_and!; [done..|]. intros i. by rewrite C.
Qed.

Lemma served_same d d' o :
  (forall off len, accepts d' off len = accepts d off len) -> served d o -> served d' o.
Proof. intros Ha (? & ? & ?). split_and!; [done..|]. by rewrite Ha. Qed.

Lemma run_ops_later d ops : valid d -> Forall (served d) ops ->
  exists d', run_ops ops d = (d', Ok tt) /\ later d d' /\
    forall i, contents d' i = default (contents d i) (last_written ops i).
Proof.
  revert d. induction ops as [|o ops IH]; intros d Hv Hs.
  - exists d. split_and!; [done | by apply later_refl | done].
  - inversion Hs as [|? ? Ho Hr]; subst.
    destruct (run_op_later d o Hv Ho) as (d1 & E1 & L1 & C1).
    destruct (IH d1 (lt_valid _ _ L1)) as (d2 & E2 & L2 & C2).
    { eapply Forall_impl; [exact Hr|]. intros. eapply served_same; [apply L1 | done]. }
    exists d2. split_and!; [|by eapply later_trans|].
    + unfold run_ops in *. cbn [io_for]. by rewrite (io_bind_step _ _ _ _ _ E1).
    + intros i. rewrite C2. cbn. destruct (last_written ops i); [done|]. cbn. by rewrite C1.
Qed.

Lemma run_ops_ok d ops : valid d -> Forall (served d) ops ->
  exists d', run_ops ops d = (d', Ok tt) /\ valid d' /\ dev_size d' = dev_size d /\
    (forall off len, accepts d' off len = accepts d off len) /\
    forall i, contents d' i = default (contents d i) (last_written ops i).
Proof.
  intros Hv Hs. destruct (run_ops_later d ops Hv Hs) as (d' & E & [V S _ A] & C). by exists d'.
Qed.
End Runs.
