(* ===== verification/Format.v ===== *)
(** [src/src/format.rs], the writing half: the inode generation numbers, the
    root inode chunk, the head of an allocation group, and [format].

    [format] runs on a device in the [io] monad.  What it takes from outside
    the program is an [Env]: the two random UUIDs, the clock, and the order
    in which the concurrent allocation group writes take effect.  Its
    theorems are in [FormatFacts.v]. *)

From Stdlib Require Import ZArith Lia String.
From stdpp Require Import base tactics list numbers sorting.
From coqutil Require Import Byte Word.LittleEndianList.
From S2P Require Import Prelude Bytes Geometry Structs Superblock AgHeaders Btree Inode.
From S2P Require Import LogRecord Device Plan Io.

Definition WHACK_SIZE : Z := 128 * 1024.

Record Report : Type := mkReport {
  rep_geometry : Geometry;
  rep_uuid : buf;
  rep_rootino : Z;
  rep_fdblocks : Z;
}.

(** * Generation numbers *)

(** [Gen::next], the splitmix64 generator: the number and the new state. *)
Definition Gen_next (s : Z) : Z * Z :=
  let s := u64 (s + 0x9e3779b97f4a7c15) in
  let z := s in
  let z := u64 (Z.lxor z (shr64 z 30) * 0xbf58476d1ce4e5b9) in
  let z := u64 (Z.lxor z (shr64 z 27) * 0x94d049bb133111eb) in
  (u32 (Z.lxor z (shr64 z 31)), s).

(** * The root inode chunk *)

Definition size_from_data (d : Dinode) : Dinode :=
  mkDinode (d_ino d) (mode d) (d_format d) (nlink d) (Z.of_nat (length (data d))) (flags d)
    (flags2 d) (Inode.gen d) (changecount d) (atime d) (mtime d) (ctime d) (crtime d) (data d).

(** Every slot of the chunk initialised free: [buf.chunks_mut(isz)], the
    last chunk cut at the end of the buffer. *)
Definition free_slot (first chunk_gen : Z) (uuid : buf) (isz : nat) (b : buf) (i : nat)
    : result buf :=
  with_slice (i * isz) (Nat.min ((i + 1) * isz) (length b))
    (encode_free (u64 (first + Z.of_nat i)) chunk_gen uuid) b.
Definition free_slots (first chunk_gen : Z) (uuid : buf) (isz : nat) (b : buf) : result buf :=
  if (isz =? 0)%nat then Panic
  else fold_result (free_slot first chunk_gen uuid isz) b
         (seq 0 (Z.to_nat (div_ceil (Z.of_nat (length b)) (Z.of_nat isz)))).

Section Chunk.
Variable (g : Geometry).

Definition chunk_flags2 : Z :=
  let f := features g in
  or_if (nrext64 f) DIFLAG2_NREXT64 (or_if (bigtime f) DIFLAG2_BIGTIME 0).

(** The modes [0o040755] and [0o100000]. *)
Definition DIR_0755 : Z := 0x41ed.
Definition REG_0 : Z := 0x8000.

(** [base], and the three inodes made of it. *)
Definition base_inode (n_ino n_mode n_format n_nlink n_flags n_gen : Z) (at_ t : Timestamp)
    (d : buf) : Dinode :=
  mkDinode n_ino n_mode n_format n_nlink 0 n_flags chunk_flags2 n_gen 2 at_ t t t d.
Definition root_inode (first : Z) (t : Timestamp) (d : buf) : Dinode :=
  size_from_data (base_inode first DIR_0755 format.LOCAL 2 0 0 t t d).
Definition rbm_inode (first n_gen : Z) (t : Timestamp) : Dinode :=
  base_inode (u64 (first + 1)) REG_0 format.EXTENTS 1 DIFLAG_NEWRTBM n_gen
    (mkTimestamp 0 0) t [].
Definition rsum_inode (first n_gen : Z) (t : Timestamp) : Dinode :=
  base_inode (u64 (first + 2)) REG_0 format.EXTENTS 1 0 n_gen t t [].

Definition root_chunk (agbno : Z) (uuid : buf) (t : Timestamp) (gen : Z) : result (buf * Z) :=
  let isz := Z.to_nat (inodesize g) in
  let b := zeroes (Z.to_nat (u64 (chunk_blocks g * bs g))) in
  let first := ino g 0 agbno 0 in
  let '(chunk_gen, gen) := Gen_next gen in
  b ← free_slots first chunk_gen uuid isz b;
  d ← empty_sf_dir first;
  b ← with_slice 0 isz (Dinode_encode (root_inode first t d) uuid) b;
  let '(rbm_gen, gen) := Gen_next gen in
  b ← with_slice isz (2 * isz) (Dinode_encode (rbm_inode first rbm_gen t) uuid) b;
  let '(rsum_gen, gen) := Gen_next gen in
  b ← with_slice (2 * isz) (3 * isz) (Dinode_encode (rsum_inode first rsum_gen t) uuid) b;
  Ok (b, gen).
End Chunk.

(** * The head of an allocation group *)

Section Head.
Variable (g : Geometry) (plan : AgPlan) (uuid : buf).

Definition head_agf : Agf :=
  let f := features g in
  let agfl_len := u32 (Z.of_nat (length (p_agfl plan))) in
  {| f_seqno := u32 (p_agno plan);
     f_length := u32 (p_length plan);
     bno_root := u32 (bno_block g);
     bno_level := 1;
     cnt_root := u32 (cnt_block g);
     cnt_level := 1;
     rmap_root := if rmapbt f then u32 (rmap_block g) else 0;
     rmap_level := Z.b2z (rmapbt f);
     rmap_blocks := Z.b2z (rmapbt f);
     refcount_root := if reflink f then u32 (refc_block g) else 0;
     refcount_level := Z.b2z (reflink f);
     refcount_blocks := Z.b2z (reflink f);
     flfirst := 1;
     fllast := agfl_len mod agfl_size g;
     flcount := agfl_len;
     AgHeaders.freeblks := u32 (Plan.freeblks plan);
     AgHeaders.longest := u32 (Plan.longest plan);
     btreeblks := 0 |}.

(** The root chunk's first inode in the AG. *)
Definition head_chunk : option Z := (fun c => u32 (shl64 c (inopblog g))) <$> p_chunk plan.

Definition head_agi : Agi :=
  let f := features g in
  {| i_seqno := u32 (p_agno plan);
     i_length := u32 (p_length plan);
     AgHeaders.count := if head_chunk is Some _ then 64 else 0;
     root := u32 (ibt_block g);
     level := 1;
     freecount := if head_chunk is Some _ then 61 else 0;
     newino := default NULL32 head_chunk;
     free_root := if finobt f then u32 (fibt_block g) else 0;
     free_level := Z.b2z (finobt f);
     iblocks := Z.b2z (inobtcount f);
     fblocks := Z.b2z (inobtcount f && finobt f) |}.

(** The inode records: every inode of the chunk but the first three free. *)
Definition head_inodes : list InobtRec :=
  match head_chunk with
  | Some c => [mkInobtRec c 0 64 61 (u64 (Z.lnot 7))]
  | None => []
  end.

(** Free extents by size. *)
Definition size_le (a b : AllocRec) : Prop :=
  a_count a < a_count b \/ (a_count a = a_count b /\ a_start a <= a_start b).
#[export] Instance size_le_dec : RelDecision size_le.
Proof. intros a b. unfold size_le. apply _. Defined.
Definition by_size : list AllocRec := merge_sort size_le (p_free plan).

(** [leaf], and [buf[block(agbno)].copy_from_slice(..)]. *)
Definition leaf (magic agbno : Z) (recs : buf) (n : nat) : result buf :=
  leaf_block magic (agb_to_daddr g (p_agno plan) agbno) (u32 (p_agno plan)) uuid recs
    (u16 (Z.of_nat n)) (Z.to_nat (bs g)).
Definition put_block (agbno : Z) (x b : buf) : result buf :=
  let n := Z.to_nat (bs g) in
  copy_into (Z.to_nat agbno * n) ((Z.to_nat agbno + 1) * n) x b.

(** The four header sectors, then the btree roots. *)
Definition head_sectors (sbs : SbState) (b : buf) : result buf :=
  let ss := Z.to_nat (sectsize g) in
  b ← with_slice 0 ss (Superblock.encode g sbs) b;
  b ← with_slice ss (2 * ss) (Agf_encode head_agf uuid) b;
  b ← with_slice (2 * ss) (3 * ss) (Agi_encode head_agi uuid) b;
  with_slice (3 * ss) (4 * ss) (encode_agfl (u32 (p_agno plan)) uuid 1 (p_agfl plan)) b.

Definition head_roots (b : buf) : result buf :=
  let f := features g in
  recs ← alloc_recs (p_free plan);
  bno ← leaf magic.BNO (bno_block g) recs (length (p_free plan));
  b ← put_block (bno_block g) bno b;
  recs ← alloc_recs by_size;
  cnt ← leaf magic.CNT (cnt_block g) recs (length by_size);
  b ← put_block (cnt_block g) cnt b;
  recs ← inobt_recs head_inodes (sparse f);
  ibt ← leaf magic.INO (ibt_block g) recs (length head_inodes);
  b ← put_block (ibt_block g) ibt b;
  b ← (if finobt f then
         fino ← leaf magic.FINO (fibt_block g) recs (length head_inodes);
         put_block (fibt_block g) fino b
       else Ok b);
  b ← (if rmapbt f then
         recs ← rmap_recs (p_rmap plan);
         rmap ← leaf magic.RMAP (rmap_block g) recs (length (p_rmap plan));
         put_block (rmap_block g) rmap b
       else Ok b);
  if reflink f then
    refc ← leaf magic.REFC (refc_block g) [] 0;
    put_block (refc_block g) refc b
  else Ok b.

Definition ag_head (sbs : SbState) : result buf :=
  b ← head_sectors sbs (zeroes (Z.to_nat (u64 (prealloc_blocks g * bs g))));
  head_roots b.
End Head.

(** * [format] *)

(** What a run takes from outside the program. [e_order] is the order in
    which the writes of the allocation groups take effect: up to 32 of them
    are in flight at once, and they complete in any order. *)
Record Env : Type := mkEnv {
  e_uuid : buf;
  e_seed : buf;
  e_now : Timestamp;
  e_order : list Z;
}.

Section Format.
Context {D : Type} `{BlockDevice D}.
Variable (env : Env) (params : Params).

Definition secondary (g : Geometry) (uuid : buf) : SbState :=
  mkSbState uuid NULL64 NULL64 NULL64 0 0 (initial_fdblocks g) true.
Definition finished (g : Geometry) (uuid : buf) (fdblocks : Z) : SbState :=
  let r := rootino g in
  mkSbState uuid r (u64 (r + 1)) (u64 (r + 2)) 64 61 fdblocks false.

Definition set_inprogress (s : SbState) (b : bool) : SbState :=
  mkSbState (Superblock.uuid s) (s_rootino s) (s_rbmino s) (s_rsumino s) (icount s) (ifree s)
    (Superblock.fdblocks s) b.
Definition set_rootino (s : SbState) (r : Z) : SbState :=
  mkSbState (Superblock.uuid s) r (s_rbmino s) (s_rsumino s) (icount s) (ifree s)
    (Superblock.fdblocks s) (inprogress s).

(** The superblock an AG is first written with: the primary finished but for
    its flag, the last and the middle one with the root inode. *)
Definition ag_sbs (g : Geometry) (uuid : buf) (fdblocks agno : Z) : SbState :=
  let middle := if 2 <? agcount g then Some (u64 (agcount g - 1) / 2) else None in
  let sbs := secondary g uuid in
  if agno =? 0 then set_inprogress (finished g uuid fdblocks) true
  else if (agno =? u64 (agcount g - 1)) || bool_decide (Some agno = middle)
  then set_rootino sbs (rootino g)
  else sbs.

(** The clean log: its block holds the first record, padded with zeroes. *)
Definition log_block (g : Geometry) (uuid : buf) : result buf :=
  let logsectsize := if 512 <? sectsize g then lsectsize g else 0 in
  rec ← first_record uuid (clear_sunit (logsunit g) logsectsize);
  copy_into 0 (length rec) rec (zeroes (Z.to_nat (bs g))).

(** One of the concurrent allocation group writes. *)
Definition write_ag (g : Geometry) (plans : list AgPlan) (uuid : buf) (fdblocks agno : Z)
    : io D unit :=
  plan ← lift (unwrap (plans !! Z.to_nat agno));
  head ← lift (ag_head g plan uuid (ag_sbs g uuid fdblocks agno));
  io_write (agb_to_byte g agno 0) head.

Definition format : io D Report :=
  dev ← asks (fun d => d);
  g ← lift (compute params (dev_size dev) (logical_sector_size dev) (physical_sector_size dev));
  let uuid := default (e_uuid env) (p_uuid params) in
  let time := default (e_now env) (p_time params) in
  let gen := default (of_le_bytes (take 8 (e_seed env))) (p_gen_seed params) in
  let bs := bs g in
  plans ← lift (Plan.plans g);
  let rootino := rootino g in
  let fdblocks := planned_fdblocks plans in
  (* zero the ends of the device, whole blocks only *)
  let dev_blocks_end := dev_size dev / bs * bs in
  io_zeroes 0 (Z.min WHACK_SIZE dev_blocks_end);;
  let tail := saturating_sub dev_blocks_end WHACK_SIZE / bs * bs in
  io_zeroes tail (dev_blocks_end - tail);;
  (* zero the log, then its first record *)
  let log_at := agb_to_byte g (logagno g) (log_agbno g) in
  io_zeroes log_at (u64 (logblocks g * bs));;
  first ← lift (log_block g uuid);
  io_write log_at first;;
  (* every AG, then the root inode chunk *)
  io_for (write_ag g plans uuid fdblocks) (e_order env);;
  plan0 ← lift (unwrap (plans !! 0%nat));
  chunk ← lift (unwrap (p_chunk plan0));
  '(inodes, _) ← lift (root_chunk g chunk uuid time gen);
  io_write (agb_to_byte g 0 chunk) inodes;;
  io_flush;;
  (* mark the filesystem finished *)
  head ← lift (ag_head g plan0 uuid (finished g uuid fdblocks));
  let hb := Z.to_nat (u64 (header_blocks g * bs)) in
  head ← lift (slice head 0 hb);
  io_write 0 head;;
  io_flush;;
  mret (mkReport g uuid rootino fdblocks).
End Format.
