(* ===== verification/HeadFacts.v ===== *)
(** What [format.rs] builds in memory: the head of an allocation group, the
    root inode chunk and the log's first block.

    [head_spec] reads the buffer of [ag_head] structure by structure and
    relates each to what the plan is encoded as; [HeadProps.v] says what the
    fields are in numbers. *)

From Stdlib Require Import ZArith Lia.
From stdpp Require Import base tactics list numbers sorting.
From coqutil Require Import Byte Word.LittleEndianList.
From S2P Require Import Prelude Bytes Crc Geometry GeometryFacts Structs Superblock AgHeaders.
From S2P Require Import Btree Inode LogRecord Device Plan PlanFacts Io Format.

(** * What a head holds *)

(** A btree root block: a verified leaf of the given kind and address, whose
    records parse to [recs]. *)
Definition leaf_holds {A} (g : Geometry) (agno : Z) (x : buf) (magic agbno : Z) (rec : nat)
    (parse : buf -> result A) (recs : list A) : Prop :=
  verify x Btree.off.CRC = Ok true /\ be32 x Btree.off.MAGIC = Ok magic /\
  be16 x Btree.off.LEVEL = Ok 0 /\ be16 x Btree.off.NUMRECS = Ok (Z.of_nat (length recs)) /\
  be64 x Btree.off.BLKNO = Ok (agb_to_daddr g agno agbno) /\
  parse_recs rec parse Btree.off.RECS (length recs) x = Ok recs.

(** The block [agbno] of the head [b] is such a root: the leaf with the
    records' bytes [out]. *)
Definition leaf_at {A} (g : Geometry) (p : AgPlan) (uuid b : buf) (magic agbno : Z) (out : buf)
    (rec : nat) (parse : buf -> result A) (recs : list A) : Prop :=
  let n := Z.to_nat (bs g) in
  exists x, slice b (Z.to_nat agbno * n) (Z.to_nat agbno * n + n) = Ok x /\
    leaf g p uuid magic agbno out (length recs) = Ok x /\
    leaf_holds g (p_agno p) x magic agbno rec parse recs.

(** A sector of the head: what [enc] makes of a zeroed one, verified, and read
    by [read] as [v]. *)
Definition sector_at {A} (g : Geometry) (b : buf) (k crc : nat) (enc : buf -> result buf)
    (read : buf -> result A) (v : A) : Prop :=
  let ss := Z.to_nat (sectsize g) in
  exists x, slice b (k * ss) (k * ss + ss) = Ok x /\ enc (zeroes ss) = Ok x /\
    verify x crc = Ok true /\ read x = Ok v.

(** The slots of a free list sector, once its magic is right. *)
Definition agfl_read (slots : nat) (x : buf) : result (list Z) :=
  m ← be32 x agfl.MAGICNUM;
  if m =? AGFL_MAGIC then collect (fun j => be32 x (slot_at j)) (seq 0 slots)
  else Panic.
(** A list of blocks from slot 1 on, going round, in [slots] slots. *)
Definition agfl_slots_of (slots : nat) (l : list Z) : list Z :=
  (fun j => default NULL32 (l !! slot_pos 1 slots j)) <$> seq 0 slots.
Definition head_slots (g : Geometry) : nat := ((Z.to_nat (sectsize g) - agfl.BNO) / 4)%nat.

Record head_spec (g : Geometry) (p : AgPlan) (uuid : buf) (sbs : SbState) (b : buf) : Prop := {
  hs_length : length b = Z.to_nat (prealloc_blocks g * bs g);
  hs_sb : exists x, slice b 0 (Z.to_nat (sectsize g)) = Ok x /\
    Superblock.encode g sbs (zeroes (Z.to_nat (sectsize g))) = Ok x;
  hs_agf : sector_at g b 1 agf.CRC (Agf_encode (head_agf g p) uuid) Agf_read (head_agf g p);
  hs_agi : sector_at g b 2 agi.CRC (Agi_encode (head_agi g p) uuid) Agi_read (head_agi g p);
  hs_agfl : sector_at g b 3 agfl.CRC (encode_agfl (u32 (p_agno p)) uuid 1 (p_agfl p))
    (agfl_read (head_slots g)) (agfl_slots_of (head_slots g) (p_agfl p));
  hs_bno : leaf_at g p uuid b magic.BNO (bno_block g) (p_free p ≫= rec_bytes alloc_stores)
    ALLOC_REC alloc_parse (p_free p);
  hs_cnt : leaf_at g p uuid b magic.CNT (cnt_block g) (by_size p ≫= rec_bytes alloc_stores)
    ALLOC_REC alloc_parse (by_size p);
  hs_ino : leaf_at g p uuid b magic.INO (ibt_block g)
    (head_inodes g p ≫= rec_bytes (inobt_stores (sparse (features g)))) INOBT_REC inobt_parse
    (inobt_kept (sparse (features g)) <$> head_inodes g p);
  hs_fino : finobt (features g) = true -> leaf_at g p uuid b magic.FINO (fibt_block g)
    (head_inodes g p ≫= rec_bytes (inobt_stores (sparse (features g)))) INOBT_REC inobt_parse
    (inobt_kept (sparse (features g)) <$> head_inodes g p);
  hs_rmap : rmapbt (features g) = true -> leaf_at g p uuid b magic.RMAP (rmap_block g)
    (p_rmap p ≫= rec_bytes rmap_stores) RMAP_REC rmap_parse (p_rmap p);
  hs_refc : reflink (features g) = true ->
    leaf_at g p uuid b magic.REFC (refc_block g) [] ALLOC_REC alloc_parse [];
}.

(** * Values a plan leaves in range *)

Lemma spaced_ok lo hi free : 0 <= lo -> hi < 2 ^ 32 -> spaced lo hi (exts free) ->
  Forall AllocRec_ok free.
Proof.
  intros Hlo Hhi. revert lo Hlo. induction free as [|r free IH]; intros lo Hlo Hs; [constructor|].
  cbn in Hs. destruct Hs as (H1 & H2 & H3). pose proof (spaced_le _ _ _ H3).
  constructor; [split; lia|]. apply (IH (a_start r + a_count r)); [lia | done].
Qed.

Lemma static_owner_u64 g b o : static_owner g b = Some o -> 0 <= o < 2 ^ 64.
Proof.
  unfold static_owner. repeat case_match; intros; simplify_eq; vm_compute; done.
Qed.

Lemma owner_of_u64 g agno l b o : owner_of g agno l b = Some o -> 0 <= o < 2 ^ 64.
Proof.
  unfold owner_of. destruct (static_owner g b) eqn:E.
  - intros [= <-]. by eapply static_owner_u64.
  - repeat case_match; intros; simplify_eq; vm_compute; done.
Qed.

Section Planned.
Variables (g : Geometry) (agno : Z) (p : AgPlan).
Hypothesis W : wf g.
Hypothesis Ha : 0 <= agno < agcount g.
Hypothesis Hp : plan_ag g agno = Ok p.

Lemma plan_planned : planned g agno p.
Proof. by apply plan_ag_planned. Qed.

Lemma plan_agno_u32 : 0 <= agno < 2 ^ 32.
Proof. pose proof (wf_agcount g W) as H. unfold MAX_AGNUMBER in H. lia. Qed.

Lemma plan_free_le : (length (p_free p) <= 2)%nat.
Proof.
  pose proof plan_planned as Hpl. pose proof (pl_sum _ _ _ Hpl) as Hs.
  pose proof (spaced_sum _ _ _ (pl_spaced _ _ _ Hpl)) as Hge.
  pose proof (chunk_blocks_range g W).
  destruct (plan_ag_exists g W agno Ha) as (p' & E & Hl).
  - destruct (agno =? 0); lia.
  - rewrite Hp in E. by injection E as <-.
Qed.

Lemma plan_free_ok : Forall AllocRec_ok (p_free p).
Proof.
  destruct (ag_bounds g W agno Ha) as (B1 & B2 & B3).
  eapply spaced_ok; [| |apply (pl_spaced _ _ _ plan_planned)]; lia.
Qed.

Lemma plan_agfl_ok : Forall is_u32 (p_agfl p).
Proof.
  destruct (ag_bounds g W agno Ha) as (B1 & B2 & B3).
  apply List.Forall_forall. intros b Hb%list_elem_of_In.
  apply (pl_agfl _ _ _ plan_planned) in Hb. unfold is_u32. lia.
Qed.

Lemma plan_rmap_ok : rmapbt (features g) = true -> Forall RmapRec_ok (p_rmap p).
Proof.
  intros Hr. destruct (ag_bounds g W agno Ha) as (B1 & B2 & B3).
  pose proof (pl_rspaced _ _ _ plan_planned Hr) as Hs.
  apply List.Forall_forall. intros r Hin%list_elem_of_In.
  destruct (spaced_in _ _ _ (r_start r) (r_count r) Hs) as (H1 & H2 & H3).
  { unfold rexts. apply list_elem_of_fmap. by exists r. }
  split_and!; try lia; apply (owner_of_u64 g agno (p_agfl p) (r_start r));
    apply (pl_rmap _ _ _ plan_planned Hr); exists r; split_and!; (done || lia).
Qed.

Lemma plan_inodes_ok : Forall InobtRec_ok (head_inodes g p) /\ (length (head_inodes g p) <= 1)%nat.
Proof.
  unfold head_inodes, head_chunk. destruct (p_chunk p); cbn [fmap option_fmap option_map];
    [|split; [constructor | cbn; lia]].
  split; [|cbn; lia]. apply Forall_cons_2; [|constructor].
  split; [apply u32_range|]. cbn. split_and!; vm_compute; done.
Qed.

Lemma head_agf_ok : Agf_ok (head_agf g p).
Proof.
  assert (0 <= agfl_size g < 2 ^ 32 /\ 0 < agfl_size g) as [Hs1 Hs2].
  { unfold agfl_size, AGFL_HEADER. rewrite (wf_sectsize g W). pose proof (wf_sectlog g W).
    pose proof (wf_blocklog g W). pose proof (pow2_le 9 (sectlog g)). 
    pose proof (pow2_le (sectlog g) 14). rewrite u32_id by lia.
    split; [split|]; [apply Z.div_pos; lia | apply Z.div_lt_upper_bound; lia |].
    apply Z.div_str_pos. lia. }
  pose proof (u32_range (Z.of_nat (length (p_agfl p)))) as Hl.
  pose proof (Z.mod_pos_bound (u32 (Z.of_nat (length (p_agfl p)))) (agfl_size g) Hs2).
  unfold Agf_ok, head_agf, is_u32. cbn.
  repeat apply Forall_cons_2; try apply Forall_nil_2; try apply u32_range; try lia;
    try (destruct (rmapbt (features g)), (reflink (features g)); cbn [Z.b2z];
         first [apply u32_range | lia]).
Qed.

Lemma head_agi_ok : Agi_ok (head_agi g p).
Proof.
  unfold Agi_ok, head_agi, is_u32. cbn. unfold head_chunk.
  destruct (finobt (features g)), (inobtcount (features g)), (p_chunk p);
    cbn [Z.b2z andb fmap option_fmap option_map default];
    repeat apply Forall_cons_2; try apply Forall_nil_2; try apply u32_range;
    try lia; vm_compute; done.
Qed.
End Planned.

(** * Assembling the head *)

Lemma bind_nil {A B} (f : A -> list B) : [] ≫= f = [].
Proof. reflexivity. Qed.

(** A header is four sectors, at most four blocks. *)
Lemma block_bytes_of g : wf g ->
  let n := Z.to_nat (bs g) in
  let ss := Z.to_nat (sectsize g) in
  let h := Z.to_nat (header_blocks g) in
  (1024 <= n)%nat /\ (512 <= ss)%nat /\ (4 * ss <= h * n)%nat /\ (1 <= h <= 4)%nat.
Proof.
  intros W n ss h. pose proof (wf_header g W) as Hh. pose proof (wf_blocklog g W).
  pose proof (wf_sectlog g W).
  subst n ss h. unfold bs in *. unfold header_blocks in *. unfold bs in *.
  rewrite (wf_blocksize g W), (wf_sectsize g W) in *.
  pose proof (pow2_le 10 (blocklog g)). pose proof (pow2_le 9 (sectlog g)).
  pose proof (pow2_le (sectlog g) 14). pose proof (pow2_pos (blocklog g)).
  revert Hh. no_wrap. intros Hh.
  pose proof (div_ceil_bounds (4 * 2 ^ sectlog g) (2 ^ blocklog g) ltac:(lia)). nia.
Qed.

Section Pieces.
Variables (g : Geometry) (agno : Z) (p : AgPlan) (uuid : buf).
Hypothesis W : wf g.
Hypothesis Ha : 0 <= agno < agcount g.
Hypothesis Hp : plan_ag g agno = Ok p.
Hypothesis Hu : length uuid = 16%nat.

Let n := Z.to_nat (bs g).
Let ss := Z.to_nat (sectsize g).
Let h := Z.to_nat (header_blocks g).
Let N := Z.to_nat (u64 (prealloc_blocks g * bs g)).

Lemma p_agno_eq : p_agno p = agno.
Proof. apply (pl_agno _ _ _ (plan_planned g agno p W Ha Hp)). Qed.

Let block_bytes := block_bytes_of g W.

(** The blocks of the roots, and the length of the head. *)
Lemma root_blocks :
  let f := features g in
  Z.to_nat (bno_block g) = h /\ Z.to_nat (cnt_block g) = (h + 1)%nat /\
  Z.to_nat (ibt_block g) = (h + 2)%nat /\ Z.to_nat (fibt_block g) = (h + 3)%nat /\
  Z.to_nat (rmap_block g) = (h + 3 + Nat.b2n (finobt f))%nat /\
  Z.to_nat (refc_block g) = (h + 3 + Nat.b2n (finobt f) + Nat.b2n (rmapbt f))%nat /\
  N = ((h + 3 + Nat.b2n (finobt f) + Nat.b2n (rmapbt f) + Nat.b2n (reflink f)) * n)%nat /\
  Z.of_nat N = prealloc_blocks g * bs g.
Proof.
  intros f. pose proof (wf_header g W) as Hh. pose proof (wf_prealloc g W).
  destruct (layout_blocks g ltac:(lia)) as (E1 & E2 & E3 & E4 & E5 & E6 & E7).
  assert (0 < bs g <= 2 ^ 14) as Hb.
  { unfold bs. rewrite (wf_blocksize g W). pose proof (wf_blocklog g W).
    pose proof (pow2_pos (blocklog g)). pose proof (pow2_le (blocklog g) 14). lia. }
  assert (Z.of_nat N = prealloc_blocks g * bs g) as HN by (subst N; rewrite u64_id by nia; nia).
  rewrite E1, E2, E3, E4, E5, E6. fold f in E5, E6, E7 |- *. subst h n.
  destruct (finobt f), (rmapbt f), (reflink f); cbn [Z.b2z Nat.b2n] in *;
    split_and!; try lia; nia.
Qed.

(** A leaf, built and read back. *)
Lemma leaf_exists {A B} rec (stores : nat -> A -> list store) parse (P : A -> Prop) (k : A -> B)
    magic agbno recs :
  (forall r, length (rec_bytes stores r) = rec) ->
  (forall r, P r -> parse (rec_bytes stores r) = Ok (k r)) -> Forall P recs ->
  (Btree.off.RECS + length recs * rec <= n)%nat -> (length recs <= 100)%nat ->
  0 <= magic < 2 ^ 32 -> exists x,
    leaf g p uuid magic agbno (recs ≫= rec_bytes stores) (length recs) = Ok x /\
    length x = n /\ leaf_holds g agno x magic agbno rec parse (k <$> recs).
Proof.
  intros Hl Hpr HP Hfit Hc Hm. unfold leaf.
  destruct (leaf_reads rec stores parse P k magic (agb_to_daddr g (p_agno p) agbno)
    (u32 (p_agno p)) uuid (u16 (Z.of_nat (length recs))) n recs)
    as (x & E & L & V & M & Lv & C & D & R); [done..|].
  exists x. split; [done|]. split; [done|]. unfold leaf_holds.
  rewrite length_fmap, M, Lv, C, D, R, p_agno_eq, u32_id by done.
  assert (0 <= Z.of_nat (length recs) < 2 ^ 16) by lia. rewrite !u16_id by (rewrite ?u16_id; done).
  unfold agb_to_daddr. unfold shl64 at 1. by rewrite u64_id by apply u64_range.
Qed.

(** Copying a root into its block. *)
Lemma put_block_built hi l agbno x :
  built N hi l -> (hi <= Z.to_nat agbno * n)%nat -> (Z.to_nat agbno * n + n <= N)%nat ->
  length x = n ->
  put_block g agbno x (patches l (zeroes N)) =
    Ok (patches (l ++ [PB (Z.to_nat agbno * n) n x]) (zeroes N)) /\
  built N (Z.to_nat agbno * n + n) (l ++ [PB (Z.to_nat agbno * n) n x]).
Proof.
  intros Hb Hhi HN Hx. unfold put_block. fold n.
  replace ((Z.to_nat agbno + 1) * n)%nat with (Z.to_nat agbno * n + n)%nat by lia.
  destruct (built_copy (n:=N) hi l (Z.to_nat agbno * n) (Z.to_nat agbno * n + n) x) as [E B];
    [done | done | lia | lia |].
  replace (Z.to_nat agbno * n + n - Z.to_nat agbno * n)%nat with n in E, B by lia. done.
Qed.

(** The root of the given kind among some pieces. *)
Definition root_in {A} (l : list store) (magic agbno : Z) (rec : nat)
    (parse : buf -> result A) (recs : list A) : Prop :=
  exists x, PB (Z.to_nat agbno * n) n x ∈ l /\ leaf_holds g agno x magic agbno rec parse recs.

Lemma root_in_mono {A} l l' magic agbno rec (parse : buf -> result A) recs :
  (forall s, s ∈ l -> s ∈ l') -> root_in l magic agbno rec parse recs ->
  root_in l' magic agbno rec parse recs.
Proof. intros Hl (x & Hx & Hh). exists x. split; [by apply Hl | done]. Qed.

Lemma by_size_perm : by_size p ≡ₚ p_free p.
Proof. apply merge_sort_Permutation. Qed.

(** The leaves of each kind. *)
Lemma alloc_leaf magic agbno recs :
  Forall AllocRec_ok recs -> (length recs <= 2)%nat -> 0 <= magic < 2 ^ 32 -> exists x,
    leaf g p uuid magic agbno (recs ≫= rec_bytes alloc_stores) (length recs) = Ok x /\
    length x = n /\ leaf_holds g agno x magic agbno ALLOC_REC alloc_parse recs.
Proof.
  intros Hok Hl Hm. pose proof (proj1 block_bytes) as Hn.
  destruct (leaf_exists ALLOC_REC alloc_stores alloc_parse AllocRec_ok id magic agbno recs)
    as (x & E & L & R);
    [reflexivity | exact alloc_parse_rec | done | | | done |
     rewrite list_fmap_id in R; by exists x]; clear - Hl Hn;
    unfold Btree.off.RECS, ALLOC_REC in *; lia.
Qed.

Lemma inode_leaf magic agbno : 0 <= magic < 2 ^ 32 -> exists x,
    leaf g p uuid magic agbno (head_inodes g p ≫= rec_bytes (inobt_stores (sparse (features g))))
      (length (head_inodes g p)) = Ok x /\
    length x = n /\ leaf_holds g agno x magic agbno INOBT_REC inobt_parse
      (inobt_kept (sparse (features g)) <$> head_inodes g p).
Proof.
  intros Hm. pose proof (proj1 block_bytes) as Hn. destruct (plan_inodes_ok g p) as [Hok Hl].
  apply (leaf_exists INOBT_REC _ inobt_parse InobtRec_ok);
    [by destruct (sparse (features g)) | exact (inobt_kept_rec _) | done | | | done];
    clear - Hl Hn; unfold Btree.off.RECS, INOBT_REC in *; lia.
Qed.

Lemma rmap_leaf : rmapbt (features g) = true -> exists x,
    leaf g p uuid magic.RMAP (rmap_block g) (p_rmap p ≫= rec_bytes rmap_stores)
      (length (p_rmap p)) = Ok x /\
    length x = n /\ leaf_holds g agno x magic.RMAP (rmap_block g) RMAP_REC rmap_parse (p_rmap p).
Proof.
  intros Hr. pose proof (proj1 block_bytes) as Hn.
  pose proof (pl_rlen _ _ _ (plan_planned g agno p W Ha Hp)) as Hl.
  destruct (leaf_exists RMAP_REC rmap_stores rmap_parse RmapRec_ok id magic.RMAP (rmap_block g)
    (p_rmap p)) as (x & E & L & R);
    [reflexivity | exact rmap_parse_rec | by apply (plan_rmap_ok g agno) | | | done |
     rewrite list_fmap_id in R; by exists x];
    clear - Hl Hn; unfold Btree.off.RECS, RMAP_REC in *; lia.
Qed.

(** The roots of a head, each built. *)
Record leaves (x1 x2 x3 x4 x5 x6 : buf) : Prop := {
  lv_bno : leaf g p uuid magic.BNO (bno_block g) (p_free p ≫= rec_bytes alloc_stores)
             (length (p_free p)) = Ok x1;
  lv_cnt : leaf g p uuid magic.CNT (cnt_block g) (by_size p ≫= rec_bytes alloc_stores)
             (length (by_size p)) = Ok x2;
  lv_ino : leaf g p uuid magic.INO (ibt_block g)
             (head_inodes g p ≫= rec_bytes (inobt_stores (sparse (features g))))
             (length (head_inodes g p)) = Ok x3;
  lv_fino : leaf g p uuid magic.FINO (fibt_block g)
             (head_inodes g p ≫= rec_bytes (inobt_stores (sparse (features g))))
             (length (head_inodes g p)) = Ok x4;
  lv_rmap : rmapbt (features g) = true ->
    leaf g p uuid magic.RMAP (rmap_block g) (p_rmap p ≫= rec_bytes rmap_stores)
      (length (p_rmap p)) = Ok x5 /\ length x5 = n;
  lv_refc : leaf g p uuid magic.REFC (refc_block g) [] 0 = Ok x6;
  lv_lengths : Forall (fun x => length x = n) [x1; x2; x3; x4; x6];
}.

(** The pieces they make of the head's buffer. *)
Definition root_pieces (x1 x2 x3 x4 x5 x6 : buf) : list store :=
  let f := features g in
  let at_ agbno x := PB (Z.to_nat agbno * n) n x in
  [at_ (bno_block g) x1; at_ (cnt_block g) x2; at_ (ibt_block g) x3] ++
  (if finobt f then [at_ (fibt_block g) x4] else []) ++
  (if rmapbt f then [at_ (rmap_block g) x5] else []) ++
  (if reflink f then [at_ (refc_block g) x6] else []).

(** Writing a root that is there only with its feature. *)
Lemma optional_root (c : bool) agbno x (f : buf -> result buf) hi l :
  (c = true -> length x = n /\ forall b, f b = put_block g agbno x b) ->
  built N hi l -> (hi <= Z.to_nat agbno * n)%nat -> ((Z.to_nat agbno + Nat.b2n c) * n <= N)%nat ->
  let l' := l ++ (if c then [PB (Z.to_nat agbno * n) n x] else []) in
  (if c then f (patches l (zeroes N)) else Ok (patches l (zeroes N))) =
    Ok (patches l' (zeroes N)) /\
  exists hi', built N hi' l' /\ (hi' <= (Z.to_nat agbno + Nat.b2n c) * n)%nat.
Proof.
  intros Hc Hb Hhi HN l'. subst l'. destruct c; cbn [Nat.b2n] in *.
  - destruct (Hc eq_refl) as [Hx Hf].
    destruct (put_block_built hi l agbno x Hb Hhi ltac:(lia) Hx) as [E B].
    rewrite Hf. split; [done|]. eexists. split; [exact B | lia].
  - rewrite app_nil_r. split; [done|]. exists hi. split; [done | lia].
Qed.

Lemma first_roots_written x1 x2 x3 x4 x5 x6 hi l :
  leaves x1 x2 x3 x4 x5 x6 -> built N hi l -> (hi <= h * n)%nat -> ((h + 3) * n <= N)%nat ->
  let at_ agbno x := PB (Z.to_nat agbno * n) n x in
  let l' := l ++ [at_ (bno_block g) x1; at_ (cnt_block g) x2; at_ (ibt_block g) x3] in
  built N ((h + 3) * n) l' /\
  forall (k : buf -> result buf),
    (b ← put_block g (bno_block g) x1 (patches l (zeroes N));
     b ← put_block g (cnt_block g) x2 b; b ← put_block g (ibt_block g) x3 b; k b) =
    k (patches l' (zeroes N)).
Proof.
  intros [_ _ _ _ _ _ Hl] Hb Hhi HN at_ l'. subst l' at_.
  repeat (apply Forall_cons_1 in Hl as [? Hl]).
  destruct root_blocks as (R1 & R2 & R3 & _).
  pose proof (put_block_built hi l (bno_block g) x1 Hb) as S1.
  rewrite R1 in S1. destruct S1 as [P1 B1]; [lia..| done |].
  pose proof (put_block_built _ _ (cnt_block g) x2 B1) as S2.
  rewrite R2 in S2. destruct S2 as [P2 B2]; [lia..| done |].
  pose proof (put_block_built _ _ (ibt_block g) x3 B2) as S3.
  rewrite R3 in S3. destruct S3 as [P3 B3]; [lia..| done |].
  rewrite R1, R2, R3. split.
  - rewrite <- !app_assoc in B3. cbn [app] in B3.
    by replace ((h + 3) * n)%nat with ((h + 2) * n + n)%nat by lia.
  - intros k. rewrite P1. cbn [mbind result_bind]. rewrite P2. cbn [mbind result_bind].
    rewrite P3. cbn [mbind result_bind]. by rewrite <- !app_assoc.
Qed.

Lemma roots_written x1 x2 x3 x4 x5 x6 hi l :
  leaves x1 x2 x3 x4 x5 x6 -> built N hi l -> (hi <= h * n)%nat ->
  let l' := l ++ root_pieces x1 x2 x3 x4 x5 x6 in
  head_roots g p uuid (patches l (zeroes N)) = Ok (patches l' (zeroes N)) /\
  exists hi', built N hi' l'.
Proof.
  intros Hlv Hb Hhi l'. pose proof Hlv as [E1 E2 E3 E4 E5 E6 Hl].
  repeat (apply Forall_cons_1 in Hl as [? Hl]).
  destruct root_blocks as (_ & _ & _ & R4 & R5 & R6 & R7 & _).
  unfold head_roots. rewrite !alloc_recs_bytes, inobt_recs_bytes. cbn [mbind result_bind].
  rewrite E1. cbn [mbind result_bind].
  destruct (first_roots_written x1 x2 x3 x4 x5 x6 hi l Hlv Hb Hhi) as [B3 K3];
    [rewrite R7; clear; destruct (finobt _), (rmapbt _), (reflink _); cbn; lia|].
  rewrite E2, E3. cbn [mbind result_bind] in K3 |- *. rewrite K3. clear K3.
  destruct (optional_root (finobt (features g)) (fibt_block g) x4
    (fun b => fino ← leaf g p uuid magic.FINO (fibt_block g)
       (head_inodes g p ≫= rec_bytes (inobt_stores (sparse (features g))))
       (length (head_inodes g p)); put_block g (fibt_block g) fino b) _ _
       ltac:(intros _; split; [done | intros b; by rewrite E4]) B3)
    as (Q4 & h4 & B4 & U4); [rewrite R4; lia | rewrite R4, R7; clear; lia |].
  rewrite Q4. cbn [mbind result_bind].
  destruct (optional_root (rmapbt (features g)) (rmap_block g) x5
    (fun b => recs ← rmap_recs (p_rmap p);
       rmap ← leaf g p uuid magic.RMAP (rmap_block g) recs (length (p_rmap p));
       put_block g (rmap_block g) rmap b) h4
       _ ltac:(intros Hr; destruct (E5 Hr) as [E5' L5]; split; [done | intros b;
         rewrite rmap_recs_bytes; cbn [mbind result_bind]; by rewrite E5']) B4)
    as (Q5 & h5 & B5 & U5); [rewrite R4 in U4; rewrite R5; lia | rewrite R5, R7; clear; lia |].
  rewrite Q5. cbn [mbind result_bind].
  destruct (optional_root (reflink (features g)) (refc_block g) x6
    (fun b => refc ← leaf g p uuid magic.REFC (refc_block g) [] 0;
       put_block g (refc_block g) refc b) h5 _
       ltac:(intros _; split; [done | intros b; by rewrite E6]) B5)
    as (Q6 & h6 & B6 & U6); [rewrite R5 in U5; rewrite R6; lia | rewrite R6, R7; clear; lia |].
  rewrite Q6. subst l'. unfold root_pieces. rewrite !app_assoc.
  split; [done|]. by exists h6.
Qed.

Lemma leaves_exist : exists x1 x2 x3 x4 x5 x6,
  leaves x1 x2 x3 x4 x5 x6 /\
  leaf_holds g agno x1 magic.BNO (bno_block g) ALLOC_REC alloc_parse (p_free p) /\
  leaf_holds g agno x2 magic.CNT (cnt_block g) ALLOC_REC alloc_parse (by_size p) /\
  leaf_holds g agno x3 magic.INO (ibt_block g) INOBT_REC inobt_parse
    (inobt_kept (sparse (features g)) <$> head_inodes g p) /\
  leaf_holds g agno x4 magic.FINO (fibt_block g) INOBT_REC inobt_parse
    (inobt_kept (sparse (features g)) <$> head_inodes g p) /\
  (rmapbt (features g) = true ->
     leaf_holds g agno x5 magic.RMAP (rmap_block g) RMAP_REC rmap_parse (p_rmap p)) /\
  leaf_holds g agno x6 magic.REFC (refc_block g) ALLOC_REC alloc_parse [].
Proof.
  pose proof (plan_free_le g agno p W Ha Hp) as Lf. pose proof (plan_free_ok g agno p W Ha Hp) as Of.
  pose proof by_size_perm as Pb.
  assert (Forall AllocRec_ok (by_size p)) as Ob by (by rewrite Pb).
  pose proof (Permutation_length Pb) as Lb.
  destruct (alloc_leaf magic.BNO (bno_block g) _ Of Lf) as (x1 & E1 & L1 & H1); [done|].
  destruct (alloc_leaf magic.CNT (cnt_block g) _ Ob) as (x2 & E2 & L2 & H2); [lia | done |].
  destruct (inode_leaf magic.INO (ibt_block g)) as (x3 & E3 & L3 & H3); [done|].
  destruct (inode_leaf magic.FINO (fibt_block g)) as (x4 & E4 & L4 & H4); [done|].
  destruct (alloc_leaf magic.REFC (refc_block g) []) as (x6 & E6 & L6 & H6);
    [constructor | cbn; lia | done |].
  assert (exists x5, rmapbt (features g) = true ->
    leaf g p uuid magic.RMAP (rmap_block g) (p_rmap p ≫= rec_bytes rmap_stores)
      (length (p_rmap p)) = Ok x5 /\ length x5 = n /\
    leaf_holds g agno x5 magic.RMAP (rmap_block g) RMAP_REC rmap_parse (p_rmap p)) as (x5 & H5).
  { destruct (rmapbt (features g)) eqn:Hr; [|by exists []].
    destruct (rmap_leaf Hr) as (x5 & ?). by exists x5. }
  exists x1, x2, x3, x4, x5, x6.
  split; [split; [done..| | done | by repeat constructor]; intros Hr;
          by destruct (H5 Hr) as (? & ? & _)|].
  split_and!; [done..| |done]. intros Hr. by apply H5.
Qed.
(** The header sectors after the superblock's. *)
Lemma sectors_exist : exists x1 x2 x3,
  (length x1 = ss /\ Agf_encode (head_agf g p) uuid (zeroes ss) = Ok x1 /\
   verify x1 agf.CRC = Ok true /\ Agf_read x1 = Ok (head_agf g p)) /\
  (length x2 = ss /\ Agi_encode (head_agi g p) uuid (zeroes ss) = Ok x2 /\
   verify x2 agi.CRC = Ok true /\ Agi_read x2 = Ok (head_agi g p)) /\
  (length x3 = ss /\ encode_agfl (u32 (p_agno p)) uuid 1 (p_agfl p) (zeroes ss) = Ok x3 /\
   verify x3 agfl.CRC = Ok true /\
   agfl_read (head_slots g) x3 = Ok (agfl_slots_of (head_slots g) (p_agfl p))).
Proof.
  destruct block_bytes as (_ & K & _). pose proof (length_zeroes ss) as Lz.
  destruct (Agf_encode_reads (head_agf g p) uuid (zeroes ss)) as (x1 & E1 & L1 & R1);
    [lia | done | by apply head_agf_ok |].
  destruct (Agi_encode_reads (head_agi g p) uuid (zeroes ss)) as (x2 & E2 & L2 & R2);
    [lia | done | by apply head_agi_ok |].
  pose proof (pl_agfl_length _ _ _ (plan_planned g agno p W Ha Hp)) as Hl.
  pose proof (min_freelist_range g).
  assert (100 <= head_slots g)%nat as Hs.
  { unfold head_slots. fold ss. unfold agfl.BNO. apply Nat.div_le_lower_bound; lia. }
  destruct (encode_agfl_spec (u32 (p_agno p)) uuid 1 (p_agfl p) (zeroes ss))
    as (x3 & E3 & L3 & V3 & M3 & _ & _ & S3);
    rewrite ?Lz in *; [lia | done | | | by apply (plan_agfl_ok g agno) | apply u32_range |].
  1, 2: change (((ss - agfl.BNO) / 4)%nat) with (head_slots g); lia.
  exists x1, x2, x3. split_and!; try done; try apply R1; try apply R2.
  unfold agfl_read. rewrite M3. cbn [mbind result_bind]. rewrite Z.eqb_refl. apply collect_Ok, Forall2_fmap_r, Forall_Forall2_diag.
  apply List.Forall_forall. intros j Hj%in_seq. apply S3. cbn in Hj. apply Hj.
Qed.

Lemma superblock_exists sbs : length (Superblock.uuid sbs) = 16%nat -> exists x,
  Superblock.encode g sbs (zeroes ss) = Ok x /\
  sealed ss Superblock.off.CRC (fields g sbs) (zeroes ss) x /\ length x = ss.
Proof.
  intros Hs. destruct block_bytes as (_ & K & _).
  destruct (encode_sealed g sbs (zeroes ss)) as (x & E & S); rewrite ?length_zeroes;
    [lia | subst ss; lia | done | apply (wf_label g W) |].
  exists x. split; [done|]. split; [done|]. rewrite (sealed_length _ _ _ _ _ S).
  apply length_zeroes.
Qed.

Lemma sectors_written sbs x0 x1 x2 x3 :
  Superblock.encode g sbs (zeroes ss) = Ok x0 ->
  Agf_encode (head_agf g p) uuid (zeroes ss) = Ok x1 ->
  Agi_encode (head_agi g p) uuid (zeroes ss) = Ok x2 ->
  encode_agfl (u32 (p_agno p)) uuid 1 (p_agfl p) (zeroes ss) = Ok x3 ->
  Forall (fun x => length x = ss) [x0; x1; x2; x3] -> (4 * ss <= N)%nat ->
  let l := [PB 0 ss x0; PB (1 * ss) ss x1; PB (2 * ss) ss x2; PB (3 * ss) ss x3] in
  head_sectors g p uuid sbs (zeroes N) = Ok (patches l (zeroes N)) /\ built N (4 * ss) l.
Proof.
  intros E0 E1 E2 E3 Hl HN l. repeat (apply Forall_cons_1 in Hl as [? Hl]).
  unfold head_sectors. fold ss.
  change (zeroes N) with (patches [] (zeroes N)) at 1.
  destruct (built_with_slice (n:=N) 0 [] 0 ss (Superblock.encode g sbs) x0) as [W0 B0];
    rewrite ?Nat.sub_0_r; [constructor | lia | lia | done | lia |].
  rewrite W0. cbn [mbind result_bind].
  destruct (built_with_slice _ _ ss (2 * ss) (Agf_encode (head_agf g p) uuid) x1 B0) as [W1 B1];
    replace (2 * ss - ss)%nat with ss by lia; [lia | lia | done | lia |].
  rewrite W1. cbn [mbind result_bind].
  destruct (built_with_slice _ _ (2 * ss) (3 * ss) (Agi_encode (head_agi g p) uuid) x2 B1)
    as [W2 B2]; replace (3 * ss - 2 * ss)%nat with ss by lia; [lia | lia | done | lia |].
  rewrite W2. cbn [mbind result_bind].
  destruct (built_with_slice _ _ (3 * ss) (4 * ss)
    (encode_agfl (u32 (p_agno p)) uuid 1 (p_agfl p)) x3 B2)
    as [W3 B3]; replace (4 * ss - 3 * ss)%nat with ss by lia; [lia | lia | done | lia |].
  rewrite W3. subst l. cbn [app] in B3 |- *. rewrite Nat.sub_0_r in *.
  replace (2 * ss - ss)%nat with ss in * by lia. replace (3 * ss - 2 * ss)%nat with ss in * by lia.
  replace (4 * ss - 3 * ss)%nat with ss in * by lia. rewrite Nat.mul_1_l. done.
Qed.

(** The head as pieces: only the first depends on the superblock. *)
Lemma ag_head_pieces : exists rest,
  forall sbs x0, Superblock.encode g sbs (zeroes ss) = Ok x0 -> length x0 = ss ->
    ag_head g p uuid sbs = Ok (patches (PB 0 ss x0 :: rest) (zeroes N)) /\
    (exists hi, built N hi (PB 0 ss x0 :: rest)) /\
    head_spec g p uuid sbs (patches (PB 0 ss x0 :: rest) (zeroes N)).
Proof.
  destruct sectors_exist as (x1 & x2 & x3 & (L1 & R1) & (L2 & R2) & (L3 & R3)).
  destruct leaves_exist as (y1 & y2 & y3 & y4 & y5 & y6 & Hy & H1 & H2 & H3 & H4 & H5 & H6).
  set (secs := [PB (1 * ss) ss x1; PB (2 * ss) ss x2; PB (3 * ss) ss x3]).
  set (roots := root_pieces y1 y2 y3 y4 y5 y6).
  exists (secs ++ roots). intros sbs x0 E0 L0.
  destruct block_bytes as (K1 & K2 & K3 & K4).
  destruct root_blocks as (_ & _ & _ & _ & _ & _ & R7 & R8).
  assert (4 * ss <= N)%nat as HN by (rewrite R7; clear - K3; nia).
  destruct (sectors_written sbs x0 x1 x2 x3) as [W1 B1]; [done | apply R1 | apply R2 | apply R3 | by repeat constructor | done |].
  destruct (roots_written y1 y2 y3 y4 y5 y6 _ _ Hy B1 K3) as [W2 (hi & B2)].
  change (_ ++ _) with (PB 0 ss x0 :: secs ++ roots) in W2, B2.
  split; [|split; [by exists hi|]].
  - unfold ag_head. fold N. rewrite W1. cbn [mbind result_bind]. done.
  - pose proof (built_slice hi _ 0 ss x0 B2 ltac:(by left)) as S0.
    assert (forall lo k x, PB lo k x ∈ secs ++ roots ->
      slice (patches (PB 0 ss x0 :: secs ++ roots) (zeroes N)) lo (lo + k) = Ok x) as S.
    { intros lo k x Hx. apply (built_slice hi); [done | by right]. }
    assert (forall lo k x, PB lo k x ∈ roots ->
      slice (patches (PB 0 ss x0 :: secs ++ roots) (zeroes N)) lo (lo + k) = Ok x) as Sr.
    { intros lo k x Hx. apply S. apply elem_of_app. by right. }
    unfold roots, root_pieces in Sr. rewrite p_agno_eq in *.
    split; rewrite ?p_agno_eq.
    + by rewrite (length_built _ _ B2), <- R8, Nat2Z.id.
    + exists x0. done.
    + exists x1. split; [apply S; by left | done].
    + exists x2. split; [apply S; right; by left | done].
    + exists x3. split; [apply S; right; right; by left | done].
    + exists y1. split_and!; [apply Sr; by left | apply Hy | by rewrite p_agno_eq].
    + exists y2. split_and!; [apply Sr; right; by left | apply Hy | by rewrite p_agno_eq].
    + exists y3. rewrite length_fmap.
      split_and!; [apply Sr; right; right; by left | apply Hy | by rewrite p_agno_eq].
    + intros Hf. exists y4. rewrite length_fmap.
      split_and!; [|apply Hy | by rewrite p_agno_eq].
      apply Sr. rewrite Hf, !elem_of_app. right. left. by left.
    + intros Hf. exists y5. split_and!; [|by apply Hy | rewrite p_agno_eq; by apply H5].
      apply Sr. rewrite Hf, !elem_of_app. right. right. left. by left.
    + intros Hf. exists y6. split_and!; [|apply Hy | by rewrite p_agno_eq].
      apply Sr. rewrite Hf, !elem_of_app. do 3 right. by left.
Qed.

Lemma ag_head_ok sbs : length (Superblock.uuid sbs) = 16%nat ->
  exists b, ag_head g p uuid sbs = Ok b /\ head_spec g p uuid sbs b.
Proof.
  intros Hs. destruct ag_head_pieces as (rest & R).
  destruct (superblock_exists sbs Hs) as (x0 & E0 & _ & L0).
  destruct (R sbs x0 E0 L0) as (E & _ & S). eauto.
Qed.

(** Heads of one plan with different superblocks agree after the first
    sector. *)
Lemma ag_head_same_rest sbs sbs' b b' i :
  length (Superblock.uuid sbs) = 16%nat -> length (Superblock.uuid sbs') = 16%nat ->
  ag_head g p uuid sbs = Ok b -> ag_head g p uuid sbs' = Ok b' -> (ss <= i)%nat -> b !! i = b' !! i.
Proof.
  intros Hs Hs' E E' Hi. destruct ag_head_pieces as (rest & R).
  destruct (superblock_exists sbs Hs) as (x0 & E0 & _ & L0).
  destruct (superblock_exists sbs' Hs') as (x0' & E0' & _ & L0').
  destruct (R sbs x0 E0 L0) as (E1 & (hi & B) & _).
  destruct (R sbs' x0' E0' L0') as (E1' & _ & _).
  rewrite E in E1. rewrite E' in E1'. injection E1 as ->. injection E1' as ->.
  pose proof (built_in _ _ B) as Hin. inversion_clear Hin as [|? ? [H0 _] Hr]. cbn in H0.
  cbn [patches foldl store_off store_bytes].
  apply patches_agree.
  - by rewrite length_patch; rewrite length_zeroes; [|lia].
  - rewrite !length_patch; rewrite ?length_zeroes; lia.
  - left. rewrite !lookup_patch by (rewrite length_zeroes; lia).
    by rewrite !decide_False by lia.
Qed.
End Pieces.
