(* ===== verification/HeadProps.v ===== *)
(** The head of an allocation group in numbers.

    [HeadFacts.v] relates the buffer of [ag_head] to the structures the code
    fills; this file says what a reader that knows the geometry and the plan
    finds at each offset, and proves that it does. *)

From Stdlib Require Import ZArith Lia.
From stdpp Require Import base tactics list numbers sorting.
From coqutil Require Import Byte.
From S2P Require Import Prelude Bytes Crc Geometry GeometryFacts Structs Superblock AgHeaders Btree.
From S2P Require Import Plan PlanFacts Format HeadFacts.

(** * What a reader finds

    The same head in numbers: what the fields at their offsets say, and in
    which block each btree is, for a reader that knows the geometry alone. *)

(** Fields of 32 bits, by offset. *)
Definition fields32 (x : buf) (l : list (nat * Z)) : Prop :=
  Forall (fun '(o, v) => be32 x o = Ok v) l.

Section Reading.
Context (g : Geometry) (agno : Z) (p : AgPlan) (uuid : buf) (sbs : SbState).

Let h := header_blocks g.
Let f := features g.
Let ss := Z.to_nat (sectsize g).

(** The blocks of the roots after the first three. *)
Definition rmap_at : Z := h + 3 + Z.b2z (finobt f).
Definition refc_at : Z := rmap_at + Z.b2z (rmapbt f).

Definition sb_numbers : list (nat * Z) :=
  [(Superblock.off.MAGICNUM, 0x58465342); (Superblock.off.BLOCKSIZE, blocksize g);
   (Superblock.off.AGBLOCKS, agsize g); (Superblock.off.AGCOUNT, agcount g);
   (Superblock.off.LOGBLOCKS, logblocks g)].

Definition agf_numbers (longest : Z) : list (nat * Z) :=
  [(agf.MAGICNUM, 0x58414746); (agf.VERSIONNUM, 1); (agf.SEQNO, agno); (agf.LENGTH, ag_blocks g agno);
   (agf.BNO_ROOT, h); (agf.BNO_LEVEL, 1); (agf.CNT_ROOT, h + 1); (agf.CNT_LEVEL, 1);
   (agf.RMAP_ROOT, if rmapbt f then rmap_at else 0); (agf.RMAP_LEVEL, Z.b2z (rmapbt f));
   (agf.RMAP_BLOCKS, Z.b2z (rmapbt f));
   (agf.REFCOUNT_ROOT, if reflink f then refc_at else 0); (agf.REFCOUNT_LEVEL, Z.b2z (reflink f));
   (agf.REFCOUNT_BLOCKS, Z.b2z (reflink f));
   (agf.FLFIRST, 1); (agf.FLLAST, min_freelist g); (agf.FLCOUNT, min_freelist g);
   (agf.FREEBLKS, sum_counts (p_free p)); (agf.LONGEST, longest); (agf.BTREEBLKS, 0)].

(** The greatest length of an extent, 0 when there is none. *)
Definition longest_of (longest : Z) : Prop :=
  Forall (fun r => a_count r <= longest) (p_free p) /\
  (p_free p = [] /\ longest = 0 \/ exists r, r ∈ p_free p /\ a_count r = longest).

(** The first inode of the root chunk, numbered in its AG. *)
Definition chunk_agino : Z := root_chunk_agbno g * 2 ^ inopblog g.

Definition agi_numbers : list (nat * Z) :=
  [(agi.MAGICNUM, 0x58414749); (agi.VERSIONNUM, 1); (agi.SEQNO, agno); (agi.LENGTH, ag_blocks g agno);
   (agi.COUNT, if agno =? 0 then 64 else 0); (agi.FREECOUNT, if agno =? 0 then 61 else 0);
   (agi.NEWINO, if agno =? 0 then chunk_agino else 2 ^ 32 - 1); (agi.DIRINO, 2 ^ 32 - 1);
   (agi.ROOT, h + 2); (agi.LEVEL, 1);
   (agi.FREE_ROOT, if finobt f then h + 3 else 0); (agi.FREE_LEVEL, Z.b2z (finobt f));
   (agi.IBLOCKS, Z.b2z (inobtcount f)); (agi.FBLOCKS, Z.b2z (inobtcount f && finobt f))].

(** The root chunk's record: 64 inodes, 61 of them free, all but the first
    three; without sparse inodes the count is not on disk. *)
Definition chunk_record : list InobtRec :=
  if agno =? 0 then [mkInobtRec chunk_agino 0 (if sparse f then 64 else 0) 61 (2 ^ 64 - 8)] else [].

(** A leaf in the block [agbno]. *)
Definition tree_at {A} (b : buf) (magic agbno : Z) (rec : nat) (parse : buf -> result A)
    (recs : list A) : Prop :=
  exists x, slice b (Z.to_nat (agbno * bs g)) (Z.to_nat (agbno * bs g) + Z.to_nat (bs g)) = Ok x /\
    verify x Btree.off.CRC = Ok true /\ be32 x Btree.off.MAGIC = Ok magic /\
    be16 x Btree.off.LEVEL = Ok 0 /\ be16 x Btree.off.NUMRECS = Ok (Z.of_nat (length recs)) /\
    be64 x Btree.off.BLKNO = Ok ((agno * agsize g + agbno) * bs g / 512) /\
    parse_recs rec parse Btree.off.RECS (length recs) x = Ok recs.

Definition sector_reads (b : buf) (k crc : nat) (P : buf -> Prop) : Prop :=
  exists x, slice b (k * ss) (k * ss + ss) = Ok x /\ verify x crc = Ok true /\ P x.

Record head_reads (b : buf) : Prop := {
  hv_length : length b = Z.to_nat ((refc_at + Z.b2z (reflink f)) * bs g);
  hv_sb : sector_reads b 0 Superblock.off.CRC (fun x => fields32 x sb_numbers /\
    be64 x Superblock.off.DBLOCKS = Ok (dblocks g) /\
    slice x Superblock.off.UUID (Superblock.off.UUID + 16) = Ok (Superblock.uuid sbs) /\
    be64 x Superblock.off.ROOTINO = Ok (u64 (s_rootino sbs)) /\
    be64 x Superblock.off.ICOUNT = Ok (u64 (icount sbs)) /\
    be64 x Superblock.off.IFREE = Ok (u64 (ifree sbs)) /\
    be64 x Superblock.off.FDBLOCKS = Ok (u64 (Superblock.fdblocks sbs)) /\
    index x Superblock.off.INPROGRESS = Ok (Z.b2z (inprogress sbs)));
  hv_agf : sector_reads b 1 agf.CRC (fun x =>
    slice x agf.UUID (agf.UUID + 16) = Ok uuid /\
    exists longest, longest_of longest /\ fields32 x (agf_numbers longest));
  hv_agi : sector_reads b 2 agi.CRC (fun x =>
    slice x agi.UUID (agi.UUID + 16) = Ok uuid /\ fields32 x agi_numbers /\
    forall i, (i < 64)%nat -> be32 x (agi.UNLINKED + 4 * i) = Ok (2 ^ 32 - 1));
  hv_agfl : sector_reads b 3 agfl.CRC (fun x =>
    be32 x agfl.MAGICNUM = Ok 0x5841464c /\
    length (p_agfl p) = Z.to_nat (min_freelist g) /\
    forall i a, p_agfl p !! i = Some a -> be32 x (agfl.BNO + 4 * (1 + i)) = Ok a);
  hv_bno : tree_at b 0x41423342 h ALLOC_REC alloc_parse (p_free p);
  hv_cnt : exists recs, recs ≡ₚ p_free p /\
    StronglySorted (fun r r' => a_count r < a_count r' \/
      a_count r = a_count r' /\ a_start r <= a_start r') recs /\
    tree_at b 0x41423343 (h + 1) ALLOC_REC alloc_parse recs;
  hv_ino : tree_at b 0x49414233 (h + 2) INOBT_REC inobt_parse chunk_record;
  hv_fino : finobt f = true -> tree_at b 0x46494233 (h + 3) INOBT_REC inobt_parse chunk_record;
  hv_rmap : rmapbt f = true -> tree_at b 0x524d4233 rmap_at RMAP_REC rmap_parse (p_rmap p);
  hv_refc : reflink f = true -> tree_at b 0x52334643 refc_at ALLOC_REC alloc_parse [];
}.
End Reading.

(** * The values of the structures *)

#[export] Instance size_le_trans : Transitive size_le.
Proof. intros x y z. unfold size_le. lia. Qed.
#[export] Instance size_le_total : Total size_le.
Proof. intros x y. unfold size_le. lia. Qed.

Lemma by_size_sorted p : StronglySorted size_le (by_size p).
Proof. apply (StronglySorted_merge_sort _). Qed.

Section Values.
Variables (g : Geometry) (agno : Z) (p : AgPlan) (uuid : buf) (sbs : SbState).
Hypothesis W : wf g.
Hypothesis Ha : 0 <= agno < agcount g.
Hypothesis Hp : plan_ag g agno = Ok p.
Hypothesis Hu : length uuid = 16%nat.

Let Hpl := plan_planned g agno p W Ha Hp.

(** The root chunk lies right after the free list of the first AG, so its
    inode numbers are small. *)
Lemma chunk_agino_eq : u32 (shl64 (root_chunk_agbno g) (inopblog g)) = chunk_agino g.
Proof.
  pose proof (root_chunk_agbno_bounds g W) as [[R1 R2] _]. pose proof (wf_prealloc g W). pose proof (wf_header g W).
  pose proof (min_freelist_range g). pose proof (inoalignmt_range g W). pose proof (wf_inopblog g W).
  pose proof (wf_inodelog g W). pose proof (wf_blocklog g W). pose proof (wf_inode_block g W).
  assert (0 <= inopblog g <= 5) as Hr by lia. pose proof (pow2_le (inopblog g) 5 ltac:(lia)).
  pose proof (pow2_pos (inopblog g) ltac:(lia)).
  unfold chunk_agino. rewrite shl64_mul by nia. apply u32_id. nia.
Qed.

Lemma head_chunk_eq : head_chunk g p = if agno =? 0 then Some (chunk_agino g) else None.
Proof.
  unfold head_chunk. rewrite (pl_chunk _ _ _ Hpl). destruct (agno =? 0); [|done].
  cbn. by rewrite chunk_agino_eq.
Qed.

Lemma head_inodes_eq : inobt_kept (sparse (features g)) <$> head_inodes g p = chunk_record g agno.
Proof.
  unfold head_inodes, chunk_record. rewrite head_chunk_eq. destruct (agno =? 0); [|done].
  by destruct (sparse (features g)).
Qed.

Lemma longest_is : longest_of p (longest p) /\ 0 <= longest p <= sum_counts (p_free p).
Proof.
  unfold longest_of, longest, sum_counts.
  pose proof (plan_free_ok g agno p W Ha Hp) as Ok. revert Ok.
  induction (p_free p) as [|r l IH]; intros Ok; cbn [foldr].
  { split; [split; [constructor | by left] | lia]. }
  apply Forall_cons in Ok as [[_ Hr] Ok]. destruct (IH Ok) as ([Hle Hmax] & Hs).
  set (m := foldr _ 0 l) in *. split; [|lia]. split.
  - constructor; [lia|]. eapply Forall_impl; [exact Hle|]. cbn. lia.
  - right. destruct (Z.max_spec (a_count r) m) as [[Hlt ->]|[Hge ->]].
    + destruct Hmax as [[_ E]|(r' & Hin & E)]; [lia|]. exists r'. split; [by right | done].
    + exists r. split; [by left | done].
Qed.

Lemma head_agf_eq : let f := features g in
  head_agf g p = mkAgf agno (ag_blocks g agno) (header_blocks g) 1 (header_blocks g + 1) 1
    (if rmapbt f then rmap_at g else 0) (Z.b2z (rmapbt f)) (Z.b2z (rmapbt f))
    (if reflink f then refc_at g else 0) (Z.b2z (reflink f)) (Z.b2z (reflink f))
    1 (min_freelist g) (min_freelist g) (sum_counts (p_free p)) (longest p) 0.
Proof.
  intros f. pose proof (wf_header g W). destruct (layout_blocks g ltac:(lia)) as (B1 & B2 & _ & _ & B5 & B6 & _).
  destruct (planned_freeblks g agno p W Ha Hpl) as [F1 F2]. destruct longest_is as [_ L2].
  destruct (ag_bounds g W agno Ha) as (A1 & _ & _). pose proof (min_freelist_range g).
  pose proof (plan_agno_u32 g agno W Ha).
  assert (min_freelist g < agfl_size g) as Hs.
  { unfold agfl_size, AGFL_HEADER. rewrite (wf_sectsize g W). pose proof (wf_sectlog g W).
    pose proof (wf_blocklog g W). pose proof (pow2_le 9 (sectlog g)). pose proof (pow2_le (sectlog g) 14).
    rewrite u32_id by lia. apply Z.lt_le_trans with 119; [lia|].
    apply Z.div_le_lower_bound; lia. }
  unfold head_agf. rewrite (pl_agno _ _ _ Hpl), (pl_length _ _ _ Hpl), (pl_agfl_length _ _ _ Hpl), F1, B1, B2, B5, B6.
  fold f. unfold refc_at, rmap_at. fold f.
  assert (0 <= Z.b2z (finobt f) <= 1 /\ 0 <= Z.b2z (rmapbt f) <= 1) as [? ?]
    by (destruct (finobt f), (rmapbt f); cbn; lia).
  by rewrite !u32_id, Z.mod_small by lia.
Qed.

Lemma head_agi_eq : let f := features g in
  head_agi g p = mkAgi agno (ag_blocks g agno) (if agno =? 0 then 64 else 0) (header_blocks g + 2) 1
    (if agno =? 0 then 61 else 0) (if agno =? 0 then chunk_agino g else 2 ^ 32 - 1)
    (if finobt f then header_blocks g + 3 else 0) (Z.b2z (finobt f)) (Z.b2z (inobtcount f))
    (Z.b2z (inobtcount f && finobt f)).
Proof.
  intros f. pose proof (wf_header g W). destruct (layout_blocks g ltac:(lia)) as (_ & _ & B3 & B4 & _).
  destruct (ag_bounds g W agno Ha) as (A1 & _ & _). pose proof (plan_agno_u32 g agno W Ha).
  unfold head_agi. rewrite head_chunk_eq, (pl_agno _ _ _ Hpl), (pl_length _ _ _ Hpl), B3, B4. fold f.
  rewrite !u32_id by lia. by destruct (agno =? 0).
Qed.

(** * The structures at their places *)

Lemma tree_of {A} b magic agbno out rec (parse : buf -> result A) recs :
  leaf_at g p uuid b magic agbno out rec parse recs -> 0 <= agbno < ag_blocks g agno ->
  tree_at g agno b magic agbno rec parse recs.
Proof.
  intros (x & Hx & _ & V & M & L & N & B & R) Hb.
  destruct (fsb_roundtrip g agno agbno W Ha Hb) as (_ & _ & E1 & E2).
  exists x. split_and!; try done.
  - rewrite Z2Nat.inj_mul; [done | lia |]. unfold bs. rewrite (wf_blocksize g W).
    apply Z.pow_nonneg. lia.
  - rewrite B, (pl_agno _ _ _ Hpl), E2, E1. done.
Qed.

Lemma agf_of b : sector_at g b 1 agf.CRC (Agf_encode (head_agf g p) uuid) Agf_read (head_agf g p) ->
  sector_reads g b 1 agf.CRC (fun x => slice x agf.UUID (agf.UUID + 16) = Ok uuid /\
    exists longest, longest_of p longest /\ fields32 x (agf_numbers g agno p longest)).
Proof.
  intros (x & Hx & E & V & R). destruct (block_bytes_of g W) as (_ & K & _).
  destruct (Agf_encode_sealed (head_agf g p) uuid (zeroes (Z.to_nat (sectsize g)))) as (x' & E' & S);
    rewrite ?length_zeroes; [lia | done |]. rewrite E in E'. injection E' as <-.
  exists x. split_and!; [done | done | by rewrite (sealed_bytes S agf.UUID 16 _ eq_refl eq_refl) |].
  exists (longest p). split; [apply longest_is|]. rewrite head_agf_eq in R. unfold Agf_read in R. inv_ok.
  assert (be32 x agf.MAGICNUM = Ok 0x58414746) by (by read_sealed S).
  assert (be32 x agf.VERSIONNUM = Ok 1) by (by read_sealed S).
  unfold fields32, agf_numbers. repeat constructor; assumption.
Qed.

Lemma agi_of b : sector_at g b 2 agi.CRC (Agi_encode (head_agi g p) uuid) Agi_read (head_agi g p) ->
  sector_reads g b 2 agi.CRC (fun x => slice x agi.UUID (agi.UUID + 16) = Ok uuid /\
    fields32 x (agi_numbers g agno) /\
    forall i, (i < 64)%nat -> be32 x (agi.UNLINKED + 4 * i) = Ok (2 ^ 32 - 1)).
Proof.
  intros (x & Hx & E & V & R). destruct (block_bytes_of g W) as (_ & K & _).
  destruct (Agi_encode_sealed (head_agi g p) uuid (zeroes (Z.to_nat (sectsize g)))) as (x' & E' & S);
    rewrite ?length_zeroes; [lia | done |]. rewrite E in E'. injection E' as <-.
  exists x. split_and!; [done | done | by rewrite (sealed_bytes S agi.UUID 16 _ eq_refl eq_refl) | |].
  - rewrite head_agi_eq in R. unfold Agi_read in R. inv_ok.
    assert (be32 x agi.MAGICNUM = Ok 0x58414749) by (by read_sealed S).
    assert (be32 x agi.VERSIONNUM = Ok 1) by (by read_sealed S).
    assert (be32 x agi.DIRINO = Ok (2 ^ 32 - 1)) by (by read_sealed S).
    unfold fields32, agi_numbers. repeat constructor; assumption.
  - intros i Hi. do 64 (destruct i as [|i]; [by read_sealed S|]). lia.
Qed.

Lemma agfl_of b : sector_at g b 3 agfl.CRC (encode_agfl (u32 (p_agno p)) uuid 1 (p_agfl p))
    (agfl_read (head_slots g)) (agfl_slots_of (head_slots g) (p_agfl p)) ->
  sector_reads g b 3 agfl.CRC (fun x => be32 x agfl.MAGICNUM = Ok 0x5841464c /\
    length (p_agfl p) = Z.to_nat (min_freelist g) /\
    forall i a, p_agfl p !! i = Some a -> be32 x (agfl.BNO + 4 * (1 + i)) = Ok a).
Proof.
  intros (x & Hx & _ & V & R). destruct (block_bytes_of g W) as (_ & K & _).
  pose proof (pl_agfl_length _ _ _ Hpl) as Hl. pose proof (min_freelist_range g).
  assert (100 <= head_slots g)%nat as Hs.
  { unfold head_slots, agfl.BNO. apply Nat.div_le_lower_bound; lia. }
  unfold agfl_read in R. destruct (be32 x agfl.MAGICNUM) as [m| | |] eqn:M; try done. cbn [mbind result_bind] in R.
  destruct (Z.eqb_spec m AGFL_MAGIC) as [->|]; [|done].
  exists x. split_and!; [done | done | done | lia |]. intros i a Hi.
  pose proof (lookup_lt_Some _ _ _ Hi) as Hlt. apply collect_Ok in R.
  destruct (Forall2_lookup_l _ _ _ (1 + i)%nat (1 + i)%nat R) as (v & Hv & Ev).
  { rewrite lookup_seq. lia. }
  unfold agfl_slots_of in Hv. rewrite list_lookup_fmap, lookup_seq_lt in Hv by lia. injection Hv as <-.
  unfold slot_at in Ev. rewrite Ev. do 2 f_equal.
  change (S i) with (1 + i)%nat.
  rewrite (proj1 (slot_pos_inv 1 (head_slots g) i (1 + i) ltac:(lia) ltac:(lia) ltac:(lia))); [by rewrite Hi|].
  apply Nat.mod_small. lia.
Qed.

Lemma sb_of b x : slice b 0 (Z.to_nat (sectsize g)) = Ok x ->
  Superblock.encode g sbs (zeroes (Z.to_nat (sectsize g))) = Ok x -> length (Superblock.uuid sbs) = 16%nat ->
  sector_reads g b 0 Superblock.off.CRC (fun x => fields32 x (sb_numbers g) /\
    be64 x Superblock.off.DBLOCKS = Ok (dblocks g) /\
    slice x Superblock.off.UUID (Superblock.off.UUID + 16) = Ok (Superblock.uuid sbs) /\
    be64 x Superblock.off.ROOTINO = Ok (u64 (s_rootino sbs)) /\
    be64 x Superblock.off.ICOUNT = Ok (u64 (icount sbs)) /\
    be64 x Superblock.off.IFREE = Ok (u64 (ifree sbs)) /\
    be64 x Superblock.off.FDBLOCKS = Ok (u64 (Superblock.fdblocks sbs)) /\
    index x Superblock.off.INPROGRESS = Ok (Z.b2z (inprogress sbs))).
Proof.
  intros Hx E Hs. destruct (superblock_exists g uuid W Hu sbs Hs) as (x' & E' & S & L).
  rewrite E in E'. injection E' as <-.
  pose proof (wf_agsize_range g W). pose proof (wf_agcount g W) as [C1 C2]. unfold MAX_AGNUMBER in C2.
  pose proof (wf_dblocks g W). pose proof (wf_logblocks g W) as [L1 L2]. unfold MAX_LOG_BLOCKS in L2.
  pose proof (wf_blocklog g W). pose proof (pow2_le (blocklog g) 14 ltac:(lia)). pose proof (pow2_pos (blocklog g) ltac:(lia)).
  pose proof (pow2_pos (26 - blocklog g) ltac:(lia)).
  exists x. split_and!; [done | apply (sealed_verify_all S); by rewrite length_zeroes | ..];
    unfold Superblock.fields, log_sector_fields in S; destruct (big_sectors g).
  all: try (read_sealed S; rewrite ?u64_id by lia; done).
  all: try by rewrite (sealed_bytes S Superblock.off.UUID 16 _ eq_refl eq_refl).
  all: try (read_sealed S; by destruct (inprogress sbs)).
  all: unfold fields32, sb_numbers; repeat apply Forall_cons_2; try apply Forall_nil_2;
    read_sealed S; rewrite ?u32_id; try done; rewrite ?(wf_blocksize g W); try lia; rewrite ?u32_id; lia.
Qed.
End Values.

(** * Property *)

(** C23: [ag_head] never fails on a planned AG, and a reader that knows the
    geometry finds in it: the superblock's numbers; an AGF that names the AG,
    its length, the block of each free space, reverse map and reference count
    root with its level, the free list from slot 1, the free blocks and the
    longest extent; an AGI that names the inode roots and the root chunk's 64
    inodes, 61 of them free, in the first AG; the free list's blocks; in each
    named block a leaf of that kind with the plan's free extents by start and
    by size, the root chunk's record, the plan's reverse map, and no reference
    counts; every checksum good. *)
Theorem ag_head_holds_the_plan g agno p uuid sbs :
  wf g -> 0 <= agno < agcount g -> plan_ag g agno = Ok p ->
  length uuid = 16%nat -> length (Superblock.uuid sbs) = 16%nat ->
  exists b, ag_head g p uuid sbs = Ok b /\ head_reads g agno p uuid sbs b.
Proof.
  intros W Ha Hp Hu Hs. destruct (ag_head_ok g agno p uuid W Ha Hp Hu sbs Hs) as (b & E & S).
  exists b. split; [done|]. destruct S as [L (x & X1 & X2) S1 S2 S3 T1 T2 T3 T4 T5 T6].
  pose proof (wf_header g W). destruct (layout_blocks g ltac:(lia)) as (B1 & B2 & B3 & B4 & B5 & B6 & B7).
  destruct (ag_bounds g W agno Ha) as (A1 & _ & _).
  assert (0 <= Z.b2z (finobt (features g)) <= 1 /\ 0 <= Z.b2z (rmapbt (features g)) <= 1) as [? ?]
    by (destruct (finobt _), (rmapbt _); cbn; lia).
  rewrite B1 in T1. rewrite B2 in T2. rewrite B3 in T3. rewrite B4 in T4. rewrite B5 in T5. rewrite B6 in T6.
  rewrite (head_inodes_eq g agno p uuid W Ha Hp Hu) in T3, T4. unfold refc_at, rmap_at.
  assert (forall {A} m k o r (q : buf -> result A) l, 0 <= k < 10 -> leaf_at g p uuid b m k o r q l ->
    tree_at g agno b m k r q l) as Ht by 
      (intros; eapply (tree_of g agno p uuid W Ha Hp); try eassumption; lia).
  split.
  - rewrite L, B7. unfold refc_at, rmap_at. do 2 f_equal.
  - eapply sb_of; eassumption.
  - by eapply (agf_of g agno p uuid).
  - by eapply (agi_of g agno p uuid).
  - by eapply (agfl_of g agno p uuid).
  - eapply Ht; [lia | exact T1].
  - exists (by_size p). split; [apply by_size_perm|]. split; [|eapply Ht; [lia | exact T2]].
    by apply by_size_sorted.
  - eapply Ht; [lia | exact T3].
  - intros Hf. eapply Ht; [lia | by apply T4].
  - intros Hf. eapply Ht; [unfold rmap_at; lia | by apply T5].
  - intros Hf. eapply Ht; [unfold refc_at, rmap_at; lia | by apply T6].
Qed.

Lemma ag_head_holds_the_plan_witness : exists b,
  ag_head geo512m plan0 (replicate 16 (byte.of_Z 7))
    (finished geo512m (replicate 16 (byte.of_Z 7)) 5) = Ok b /\
  head_reads geo512m 0 plan0 (replicate 16 (byte.of_Z 7))
    (finished geo512m (replicate 16 (byte.of_Z 7)) 5) b.
Proof.
  apply (ag_head_holds_the_plan geo512m 0 plan0);
    [apply geo512m_wf | vm_compute; done | vm_compute; reflexivity | reflexivity | reflexivity].
Defined.
