(* ===== verification/ChunkFacts.v ===== *)
(** The root inode chunk and the log's first block, as [format.rs] builds
    them in memory.

    The chunk is written twice over: every slot free, then three inodes over
    the first slots.  [chunk_spec] reads the result slot by slot. *)

From Stdlib Require Import ZArith Lia.
From stdpp Require Import base tactics list numbers.
From coqutil Require Import Byte Word.LittleEndianList.
From S2P Require Import Prelude Bytes Crc Geometry GeometryFacts Structs Superblock.
From S2P Require Import Btree Inode LogRecord Plan Format.

(** * What the chunk holds *)

Definition SLOTS : nat := 64.

(** The inode in a slot: its encoding, verified, and read with its length of
    data fork. *)
Definition inode_at (isz : nat) (uuid b : buf) (i : nat) (d : Dinode) : Prop :=
  exists x, slice b (i * isz) (i * isz + isz) = Ok x /\
    Dinode_encode d uuid (zeroes isz) = Ok x /\ verify x Inode.off.CRC = Ok true /\
    Dinode_read (length (data d)) x = Ok d.

(** A free slot: verified, with its number and generation and no type. *)
Definition free_at_slot (isz : nat) (uuid b : buf) (i : nat) (n_ino n_gen : Z) : Prop :=
  exists x, slice b (i * isz) (i * isz + isz) = Ok x /\
    encode_free n_ino n_gen uuid (zeroes isz) = Ok x /\ verify x Inode.off.CRC = Ok true /\
    be16 x Inode.off.MAGIC = Ok Inode.MAGIC /\ be16 x Inode.off.MODE = Ok 0 /\
    be32 x Inode.off.GEN = Ok n_gen /\ be64 x Inode.off.INO = Ok n_ino.

(** The parent an empty short-form directory names, as [xfs_dir2_sf] is
    read: eight bytes when the [i8count] is set. *)
Definition sf_parent (d : buf) : result Z :=
  n ← index d 0; i8 ← index d 1;
  if n =? 0 then (if i8 =? 0 then be32 d 2 else be64 d 2) else Panic.

Record chunk_spec (g : Geometry) (agbno : Z) (uuid : buf) (t : Timestamp) (gen : Z) (b : buf)
    : Prop := {
  cs_length : length b = Z.to_nat (chunk_blocks g * bs g);
  cs_slots : length b = (SLOTS * Z.to_nat (inodesize g))%nat;
  cs_root : exists d, empty_sf_dir (ino g 0 agbno 0) = Ok d /\
    sf_parent d = Ok (ino g 0 agbno 0) /\
    inode_at (Z.to_nat (inodesize g)) uuid b 0 (root_inode g (ino g 0 agbno 0) t d);
  cs_rbm : inode_at (Z.to_nat (inodesize g)) uuid b 1
    (rbm_inode g (ino g 0 agbno 0) (fst (Gen_next (snd (Gen_next gen)))) t);
  cs_rsum : inode_at (Z.to_nat (inodesize g)) uuid b 2
    (rsum_inode g (ino g 0 agbno 0) (fst (Gen_next (snd (Gen_next (snd (Gen_next gen)))))) t);
  cs_free : forall i, (3 <= i < SLOTS)%nat ->
    free_at_slot (Z.to_nat (inodesize g)) uuid b i (ino g 0 agbno 0 + Z.of_nat i)
      (fst (Gen_next gen));
}.

(** * Lemmas *)

Lemma Gen_next_range s : 0 <= fst (Gen_next s) < 2 ^ 32.
Proof. apply u32_range. Qed.

Lemma empty_sf_dir_ok parent : 0 <= parent < 2 ^ 64 ->
  exists d, empty_sf_dir parent = Ok d /\ (length d <= 10)%nat /\ sf_parent d = Ok parent.
Proof.
  intros Hp. unfold empty_sf_dir. destruct (Z.ltb_spec (2 ^ 32 - 1) parent).
  - set (l := [P8 1 1; PB 2 8 (to_be_bytes 8 parent)]).
    assert (Forall (store_in (length (zeroes 10))) l) as Hin.
    { apply (stores_in 10); [reflexivity | done | repeat constructor]. }
    destruct (run_stores_in _ _ Hin) as [-> L]. eexists. split; [done|].
    rewrite L. split; [cbn; lia|]. unfold sf_parent.
    rewrite (index_slice _ 0), (slice_patches_untouched l (zeroes 10) 0 1 Hin eq_refl).
    cbn [slice fmap result_fmap]. rewrite (index_stored _ l 1 1 Hin eq_refl).
    rewrite (be64_stored _ l 2 parent Hin eq_refl), u64_id by done. reflexivity.
  - set (l := [PB 2 4 (to_be_bytes 4 (u32 parent))]).
    assert (Forall (store_in (length (zeroes 6))) l) as Hin.
    { apply (stores_in 6); [reflexivity | done | repeat constructor]. }
    destruct (run_stores_in _ _ Hin) as [-> L]. eexists. split; [done|].
    rewrite L. split; [cbn; lia|]. unfold sf_parent.
    rewrite !(index_slice (patches _ _)), (slice_patches_untouched l (zeroes 6) 0 1 Hin eq_refl).
    rewrite (slice_patches_untouched l (zeroes 6) 1 1 Hin eq_refl).
    rewrite (be32_stored _ l 2 (u32 parent) Hin eq_refl), !u32_id by (rewrite ?u32_id; lia).
    reflexivity.
Qed.

Section Chunk.
Variables (g : Geometry) (agbno : Z) (uuid : buf) (t : Timestamp) (gen : Z).
Hypothesis W : wf g.
Hypothesis Hu : length uuid = 16%nat.
Hypothesis Hb : 0 <= agbno < 2 ^ 30.
Hypothesis Ht : time_in (bigtime (features g)) t.

Let isz := Z.to_nat (inodesize g).
Let first := ino g 0 agbno 0.
Let N := (SLOTS * isz)%nat.

Lemma isz_facts : (512 <= isz)%nat /\ Z.to_nat (u64 (chunk_blocks g * bs g)) = N /\
  Z.to_nat (chunk_blocks g * bs g) = N /\ Z.of_nat isz = inodesize g.
Proof.
  pose proof (wf_inodelog g W) as Hi. pose proof (wf_blocklog g W) as Hbl.
  pose proof (wf_inode_block g W). pose proof (pow2_le 9 (inodelog g)).
  pose proof (pow2_le (inodelog g) 11).
  assert (chunk_blocks g * bs g = 64 * inodesize g) as E.
  { rewrite (chunk_blocks_eq g W). unfold bs. rewrite (wf_blocksize g W), (wf_inodesize g W).
    rewrite <- Z.pow_add_r by lia. change 64 with (2 ^ 6). rewrite <- Z.pow_add_r by lia.
    f_equal. lia. }
  subst isz N. unfold SLOTS. rewrite E, u64_id; rewrite (wf_inodesize g W) in *; split_and!; lia.
Qed.

Lemma first_eq : first = agbno * 2 ^ inopblog g /\ 0 <= first < 2 ^ 36.
Proof using W Hb.
  clear Hu Ht.
  pose proof (wf_inopblog g W) as Hl. pose proof (wf_inodelog g W) as Hi.
  pose proof (wf_blocklog g W) as Hbl. pose proof (wf_inode_block g W).
  assert (0 <= inopblog g <= 5) as Hr by lia. pose proof (pow2_le (inopblog g) 5).
  pose proof (pow2_pos (inopblog g)).
  assert (first = agbno * 2 ^ inopblog g) as E.
  { subst first. unfold ino. rewrite Z.lor_0_r. unfold shl64 at 1. rewrite Z.shiftl_0_l.
    change (u64 0) with 0. rewrite Z.lor_0_l. apply shl64_mul; nia. }
  split; [done|]. nia.
Qed.

(** ** The free slots *)

Definition slot_bytes (chunk_gen : Z) (i : nat) (x : buf) : Prop :=
  encode_free (u64 (first + Z.of_nat i)) chunk_gen uuid (zeroes isz) = Ok x /\ length x = isz.

Lemma free_slots_built chunk_gen k i l :
  0 <= chunk_gen < 2 ^ 32 -> (i + k <= SLOTS)%nat -> built N (i * isz) l ->
  exists l', fold_result (free_slot first chunk_gen uuid isz) (patches l (zeroes N)) (seq i k)
      = Ok (patches (l ++ l') (zeroes N)) /\ built N ((i + k) * isz) (l ++ l') /\
    forall j, (i <= j < i + k)%nat -> exists x, PB (j * isz) isz x ∈ l' /\ slot_bytes chunk_gen j x.
Proof.
  intros Hg. destruct isz_facts as (I1 & _). revert i l. induction k as [|k IH]; intros i l Hk Hl.
  - exists []. rewrite app_nil_r, Nat.add_0_r. split_and!; [done..|]. intros; lia.
  - cbn [seq fold_result].
    destruct (encode_free_reads (u64 (first + Z.of_nat i)) chunk_gen uuid isz)
      as (x & E & L & _); [unfold CORE_SIZE; lia | done | apply u64_range | done |].
    pose proof (length_built _ _ Hl) as LN.
    assert ((i + 1) * isz <= N)%nat as HN by (subst N; apply Nat.mul_le_mono_r; lia).
    destruct (built_with_slice _ l (i * isz) ((i + 1) * isz)
      (encode_free (u64 (first + Z.of_nat i)) chunk_gen uuid) x Hl) as [HS B];
      replace ((i + 1) * isz - i * isz)%nat with isz by lia; [lia | lia | done | done |].
    replace ((i + 1) * isz - i * isz)%nat with isz in HS, B by lia.
    assert (free_slot first chunk_gen uuid isz (patches l (zeroes N)) i =
      Ok (patches (l ++ [PB (i * isz) isz x]) (zeroes N))) as ->.
    { unfold free_slot. by rewrite LN, Nat.min_l by done. }
    cbn [mbind result_bind]. rewrite Nat.add_1_r in B.
    destruct (IH (S i) _ ltac:(lia) B) as (l' & F & B' & H'). rewrite F.
    exists (PB (i * isz) isz x :: l'). rewrite <- app_assoc in *. cbn [app] in *.
    split; [done|]. replace (i + S k)%nat with (S i + k)%nat by lia. split; [done|].
    intros j Hj. destruct (decide (j = i)) as [->|]; [exists x; split; [by left | done]|].
    destruct (H' j ltac:(lia)) as (y & Hy & ?). exists y. split; [by right | done].
Qed.

Lemma free_slots_ok chunk_gen : 0 <= chunk_gen < 2 ^ 32 ->
  exists b, free_slots first chunk_gen uuid isz (zeroes N) = Ok b /\ length b = N /\
    forall i, (i < SLOTS)%nat -> exists x,
      slice b (i * isz) (i * isz + isz) = Ok x /\ slot_bytes chunk_gen i x.
Proof.
  intros Hg. destruct isz_facts as (I1 & _). unfold free_slots.
  destruct (Nat.eqb_spec isz 0); [lia|]. rewrite length_zeroes.
  assert (Z.to_nat (div_ceil (Z.of_nat N) (Z.of_nat isz)) = SLOTS) as ->.
  { subst N. rewrite (div_ceil_unique _ _ (Z.of_nat SLOTS)) by lia. lia. }
  destruct (free_slots_built chunk_gen SLOTS 0 [] Hg) as (l & F & B & H); [lia | constructor |].
  cbn [app Nat.add] in *. change (patches [] (zeroes N)) with (zeroes N) in F. rewrite F.
  eexists. split; [done|]. split; [by apply (length_built _ _ B)|].
  intros i Hi. destruct (H i ltac:(lia)) as (x & Hx & Hs). exists x. split; [|done].
  by apply (built_slice _ _ _ _ _ B).
Qed.
(** ** Inodes over free slots *)

Lemma overwrite_slot k f (b x y : buf) :
  length b = N -> (k < SLOTS)%nat -> slice b (k * isz) (k * isz + isz) = Ok x ->
  f x = Ok y -> length y = isz ->
  exists b', with_slice (k * isz) (k * isz + isz) f b = Ok b' /\ length b' = N /\
    slice b' (k * isz) (k * isz + isz) = Ok y /\
    forall j, j <> k -> slice b' (j * isz) (j * isz + isz) = slice b (j * isz) (j * isz + isz).
Proof.
  intros Hl Hk Hx Hf Hy.
  assert (k * isz + isz <= length b)%nat as HN.
  { rewrite Hl. subst N. assert (S k <= SLOTS)%nat as H by lia.
    apply (Nat.mul_le_mono_r _ _ isz) in H. lia. }
  exists (patch (k * isz) y b). unfold with_slice. rewrite Hx. cbn [mbind result_bind].
  rewrite Hf. cbn [mbind result_bind]. rewrite copy_into_in by lia.
  split_and!; [done | rewrite length_patch; lia | apply slice_patch_same; lia |].
  intros j Hj. apply slice_patch_other; [lia|].
  assert (S j <= k \/ S k <= j)%nat as [H|H] by lia; apply (Nat.mul_le_mono_r _ _ isz) in H; lia.
Qed.

Lemma inode_over_slot chunk_gen i x d :
  slot_bytes chunk_gen i x -> Dinode_ok d -> (length (data d) <= 10)%nat ->
  exists y, Dinode_encode d uuid x = Ok y /\ length y = isz /\
    Dinode_encode d uuid (zeroes isz) = Ok y /\ verify y Inode.off.CRC = Ok true /\ Dinode_read (length (data d)) y = Ok d.
Proof.
  intros [Hx Lx] Hd Hl. destruct isz_facts as (I1 & _).
  rewrite (Dinode_over_free d uuid _ _ uuid isz x) by (try done; unfold CORE_SIZE; lia).
  destruct (Dinode_encode_reads d uuid (zeroes isz)) as (y & E & L & V & R);
    [rewrite length_zeroes; unfold CORE_SIZE; lia | done..|].
  rewrite length_zeroes in L. by exists y.
Qed.

Lemma has_bigtime_flags2 : has_bigtime (chunk_flags2 g) = bigtime (features g) /\
  0 <= chunk_flags2 g < 2 ^ 64.
Proof.
  unfold chunk_flags2. destruct (nrext64 (features g)), (bigtime (features g)); vm_compute; done.
Qed.

Lemma base_inode_ok n_ino n_mode n_format n_nlink n_flags n_gen at_ d :
  0 <= n_ino < 2 ^ 64 -> 0 <= n_mode < 2 ^ 16 -> 0 <= n_format < 2 ^ 8 -> 0 <= n_nlink < 2 ^ 32 ->
  0 <= n_flags < 2 ^ 16 -> 0 <= n_gen < 2 ^ 32 -> time_in (bigtime (features g)) at_ ->
  (length d <= 10)%nat ->
  Dinode_ok (base_inode g n_ino n_mode n_format n_nlink n_flags n_gen at_ t d) /\
  Dinode_ok (size_from_data (base_inode g n_ino n_mode n_format n_nlink n_flags n_gen at_ t d)).
Proof.
  intros. destruct has_bigtime_flags2 as [Hbt Hf].
  unfold size_from_data, base_inode, Dinode_ok.
  cbn [d_ino mode d_format nlink Inode.size flags flags2 Inode.gen changecount atime mtime ctime
    crtime data]. rewrite Hbt.
  split; (split_and!; try lia; repeat constructor; done).
Qed.

Lemma zero_time_in bt : time_in bt (mkTimestamp 0 0).
Proof. destruct bt; cbn; lia. Qed.

Ltac inode_values :=
  first [done | apply u64_range | apply zero_time_in | lia | cbn; lia | vm_compute; done].

(** One inode written over its free slot; the other slots stay. *)
Lemma put_inode k b chunk_gen d :
  length b = N -> (k < SLOTS)%nat ->
  (exists x, slice b (k * isz) (k * isz + isz) = Ok x /\ slot_bytes chunk_gen k x) ->
  Dinode_ok d -> (length (data d) <= 10)%nat ->
  exists b', with_slice (k * isz) (k * isz + isz) (Dinode_encode d uuid) b = Ok b' /\
    length b' = N /\ inode_at isz uuid b' k d /\
    forall j, j <> k -> slice b' (j * isz) (j * isz + isz) = slice b (j * isz) (j * isz + isz).
Proof.
  intros Lb Hk (x & X & S) Hd Hl.
  destruct (inode_over_slot chunk_gen k x d S Hd Hl) as (y & Y & L & R).
  destruct (overwrite_slot k _ b x y Lb Hk X Y L) as (b' & B & Lb' & A & O).
  exists b'. split_and!; try done. by exists y.
Qed.

Lemma free_slot_reads b chunk_gen i :
  0 <= chunk_gen < 2 ^ 32 -> (i < SLOTS)%nat ->
  (exists x, slice b (i * isz) (i * isz + isz) = Ok x /\ slot_bytes chunk_gen i x) ->
  free_at_slot isz uuid b i (first + Z.of_nat i) chunk_gen.
Proof.
  intros G0 Hi (x & X & E & L). destruct isz_facts as (I1 & _). destruct first_eq as [_ F2].
  assert (0 <= Z.of_nat i < 64) by (unfold SLOTS in Hi; lia).
  destruct (encode_free_reads (u64 (first + Z.of_nat i)) chunk_gen uuid isz)
    as (x' & E' & R'); [unfold CORE_SIZE; lia | done | apply u64_range | done |].
  rewrite E in E'. injection E' as <-. rewrite u64_id in E, R' by lia.
  exists x. split_and!; [done | done | apply R'..].
Qed.

Lemma root_chunk_ok :
  exists b gen', root_chunk g agbno uuid t gen = Ok (b, gen') /\ chunk_spec g agbno uuid t gen b.
Proof.
  destruct isz_facts as (I1 & I2 & I3 & I4). destruct first_eq as [F1 F2].
  pose proof (Gen_next_range gen) as G0.
  destruct (Gen_next gen) as [g0 s0] eqn:E0. cbn [fst] in G0.
  pose proof (Gen_next_range s0) as G1. destruct (Gen_next s0) as [g1 s1] eqn:E1.
  pose proof (Gen_next_range s1) as G2. destruct (Gen_next s1) as [g2 s2] eqn:E2.
  cbn [fst] in G1, G2.
  destruct (free_slots_ok g0 G0) as (b0 & Eb & Lb & Sb).
  destruct (empty_sf_dir_ok first) as (d & Ed & Ld & Pd); [lia|].
  destruct (put_inode 0 b0 g0 (root_inode g first t d) Lb ltac:(unfold SLOTS; lia)) as
    (b1 & W1 & L1 & A1 & O1);
    [apply Sb; unfold SLOTS; lia | apply base_inode_ok; inode_values | done |].
  destruct (put_inode 1 b1 g0 (rbm_inode g first g1 t) L1 ltac:(unfold SLOTS; lia)) as
    (b2 & W2 & L2 & A2 & O2);
    [rewrite O1 by done; apply Sb; unfold SLOTS; lia | apply base_inode_ok; inode_values
    | cbn; lia |].
  destruct (put_inode 2 b2 g0 (rsum_inode g first g2 t) L2 ltac:(unfold SLOTS; lia)) as
    (b3 & W3 & L3 & A3 & O3);
    [rewrite O2, O1 by done; apply Sb; unfold SLOTS; lia | apply base_inode_ok; inode_values
    | cbn; lia |].
  exists b3, s2. split.
  - unfold root_chunk. fold isz first. rewrite I2, E0, Eb. cbn [mbind result_bind].
    rewrite Ed. cbn [mbind result_bind]. cbn [Nat.mul Nat.add] in W1. rewrite W1.
    cbn [mbind result_bind]. rewrite E1.
    replace (1 * isz)%nat with isz in W2 by lia. replace (2 * isz)%nat with (isz + isz)%nat by lia.
    rewrite W2. cbn [mbind result_bind]. rewrite E2.
    replace (2 * isz + isz)%nat with (3 * isz)%nat in W3 by lia.
    replace (2 * isz)%nat with (isz + isz)%nat in W3 by lia. by rewrite W3.
  - unfold inode_at in *. split; fold isz first; [by rewrite L3, I3 | done | | | |].
    + exists d. split_and!; [done..|]. unfold inode_at. by rewrite O3, O2 by done.
    + rewrite E0. cbn [snd]. rewrite E1. cbn [fst]. unfold inode_at. by rewrite O3 by done.
    + rewrite E0. cbn [snd]. rewrite E1. cbn [snd]. rewrite E2. exact A3.
    + intros i Hi. rewrite E0. apply free_slot_reads; [done | lia |].
      rewrite O3, O2, O1 by lia. apply Sb. lia.
Qed.
End Chunk.

(** * The log's first block *)

Definition log_sunit (g : Geometry) : Z :=
  clear_sunit (logsunit g) (if 512 <? sectsize g then lsectsize g else 0).

Record log_spec (g : Geometry) (uuid b : buf) : Prop := {
  ls_block : log_block g uuid = Ok b;
  ls_length : length b = Z.to_nat (bs g);
  ls_record : exists r, slice b 0 (length r) = Ok r /\
    well_formed uuid (log_sunit g) (lsn 1 0) (lsn 1 0) r;
  ls_rest : forall lo, (Z.to_nat (len_bb (log_sunit g)) * BBSIZE <= lo <= length b)%nat ->
    slice b lo (length b) = Ok (zeroes (length b - lo));
}.

(** The record fits the block: two sectors with 512-byte ones, else the
    whole block. *)
Lemma log_sunit_fits g : wf g ->
  0 <= log_sunit g < 2 ^ 32 /\ len_bb (log_sunit g) * 512 <= bs g.
Proof.
  intros W. pose proof (wf_blocklog g W) as Hb. pose proof (wf_sectlog g W) as Hs.
  unfold log_sunit, logsunit, lsunit_bytes, clear_sunit, bs.
  rewrite (wf_lsectsize g W), (wf_blocksize g W).
  pose proof (pow2_le 10 (blocklog g)). pose proof (pow2_le (blocklog g) 14).
  destruct (Z.ltb_spec 512 (sectsize g)); cbn [Z.eqb].
  - destruct (Z.eqb_spec (2 ^ blocklog g) 0); [lia|]. destruct (Z.eqb_spec (2 ^ blocklog g) 1); [lia|].
    split; [lia|]. unfold len_bb, hdrs, HEADER_CYCLE_SIZE.
    destruct (Z.ltb_spec (32 * 1024) (2 ^ blocklog g)); [lia|].
    destruct (Z.ltb_spec 0 (2 ^ blocklog g)); [|lia].
    rewrite (div_ceil_unique _ 512 (2 ^ (blocklog g - 9))).
    + pose proof (pow2_le 1 (blocklog g - 9)). rewrite Z.max_l by lia.
      change 512 with (2 ^ 9). rewrite <- Z.pow_add_r by lia.
      replace (blocklog g - 9 + 9) with (blocklog g) by lia. lia.
    + lia.
    + change 512 with (2 ^ 9). rewrite <- Z.pow_add_r by lia.
      replace (blocklog g - 9 + 9) with (blocklog g) by lia. lia.
  - cbn [Pos.eqb]. split; [lia|]. change (len_bb 0) with 2. lia.
Qed.

Lemma log_block_ok g uuid : wf g -> length uuid = 16%nat ->
  exists b, log_block g uuid = Ok b /\ log_spec g uuid b.
Proof.
  intros W Hu. destruct (log_sunit_fits g W) as [Hs Hfit].
  assert (0 < bs g) as Hbs.
  { unfold bs. rewrite (wf_blocksize g W). apply pow2_pos. pose proof (wf_blocklog g W). lia. }
  pose proof (record_eq uuid (log_sunit g) (lsn 1 0) (lsn 1 0) Hs Hu) as E.
  pose proof (record_wf uuid (log_sunit g) (lsn 1 0) (lsn 1 0) _ Hs Hu
    ltac:(vm_compute; done) ltac:(vm_compute; done) E) as Hwf.
  set (r := patches _ _) in *.
  pose proof (wf_length _ _ _ _ _ Hwf) as Lr.
  assert (length r <= Z.to_nat (bs g))%nat as Hr by (rewrite Lr; unfold BBSIZE; lia).
  assert (log_block g uuid = Ok (patch 0 r (zeroes (Z.to_nat (bs g))))) as Eb.
  { unfold log_block. fold (log_sunit g). unfold first_record. rewrite E. cbn [mbind result_bind].
    by rewrite copy_into_in by (rewrite ?length_zeroes; lia). }
  eexists. split; [exact Eb|].
  assert (length (patch 0 r (zeroes (Z.to_nat (bs g)))) = Z.to_nat (bs g)) as L
    by (rewrite length_patch; rewrite length_zeroes; lia).
  split; [done | done | |].
  - exists r. split; [|done]. apply slice_patch_same; rewrite ?length_zeroes; lia.
  - rewrite L. intros lo Hlo. rewrite slice_patch_other by (rewrite ?length_zeroes; lia).
    apply slice_zeroes. lia.
Qed.

(** * Properties *)

(** The log's first block is one whole block holding a well-formed record
    of an unmounted log at cycle 1, block 0, and zeroes after it; the record
    fits the block whatever the log's stripe unit and sector size. *)
Theorem log_block_holds_a_clean_record g uuid : wf g -> length uuid = 16%nat ->
  exists b, log_block g uuid = Ok b /\ log_spec g uuid b.
Proof. apply log_block_ok. Qed.

Lemma log_block_holds_a_clean_record_witness : exists b,
  log_block geo512m (replicate 16 (byte.of_Z 7)) = Ok b /\
  log_spec geo512m (replicate 16 (byte.of_Z 7)) b.
Proof. apply log_block_holds_a_clean_record; [apply geo512m_wf | reflexivity]. Defined.
