(* ===== verification/ChunkProps.v ===== *)
(** The root inode chunk in numbers.

    [ChunkFacts.v] relates the buffer of [root_chunk] to the inodes the code
    fills; this file says what a reader finds at each offset of the three
    inodes and of the 61 free slots, and proves that it does. *)

From Stdlib Require Import ZArith Lia.
From stdpp Require Import base tactics list numbers.
From coqutil Require Import Byte.
From S2P Require Import Prelude Bytes Crc Geometry GeometryFacts Structs Inode Format ChunkFacts.

(** * What a reader finds *)

(** A timestamp on disk: nanoseconds since 2^31 seconds before the epoch, or
    the 32 bits of the seconds over the nanoseconds. *)
Definition time_word (is_bigtime : bool) (t : Timestamp) : Z :=
  if is_bigtime then (secs t + 2 ^ 31) * 1000000000 + nsecs t
  else secs t mod 2 ^ 32 * 2 ^ 32 + nsecs t.

(** An allocated inode: number, mode, format, links, flags, generation, time
    of the last access and the other times, data fork. *)
Record inode_reads (g : Geometry) (uuid x : buf) (n m fmt links fl gn : Z) (at_ t : Timestamp)
    (d : buf) : Prop := {
  iv_verify : verify x Inode.off.CRC = Ok true;
  iv_magic : be16 x Inode.off.MAGIC = Ok 0x494e;
  iv_version : index x Inode.off.VERSION = Ok 3;
  iv_uuid : slice x Inode.off.UUID (Inode.off.UUID + 16) = Ok uuid;
  iv_ino : be64 x Inode.off.INO = Ok n;
  iv_mode : be16 x Inode.off.MODE = Ok m;
  iv_format : index x Inode.off.FORMAT = Ok fmt;
  iv_nlink : be32 x Inode.off.NLINK = Ok links;
  iv_flags : be16 x Inode.off.FLAGS = Ok fl;
  iv_flags2 : be64 x Inode.off.FLAGS2 =
    Ok ((if bigtime (features g) then 8 else 0) + (if nrext64 (features g) then 16 else 0));
  iv_gen : be32 x Inode.off.GEN = Ok gn;
  iv_change : be64 x Inode.off.CHANGECOUNT = Ok 2;
  iv_unlinked : be32 x Inode.off.NEXT_UNLINKED = Ok (2 ^ 32 - 1);
  iv_times : Forall (fun '(o, time) => be64 x o = Ok (time_word (bigtime (features g)) time))
    [(Inode.off.ATIME, at_); (Inode.off.MTIME, t); (Inode.off.CTIME, t); (Inode.off.CRTIME, t)];
  iv_size : be64 x Inode.off.SIZE = Ok (Z.of_nat (length d));
  iv_data : slice x 176 (176 + length d) = Ok d;
}.

(** A free inode: number and generation, no type and no links. *)
Record free_reads (uuid x : buf) (n gn : Z) : Prop := {
  fv_verify : verify x Inode.off.CRC = Ok true;
  fv_magic : be16 x Inode.off.MAGIC = Ok 0x494e;
  fv_version : index x Inode.off.VERSION = Ok 3;
  fv_uuid : slice x Inode.off.UUID (Inode.off.UUID + 16) = Ok uuid;
  fv_ino : be64 x Inode.off.INO = Ok n;
  fv_gen : be32 x Inode.off.GEN = Ok gn;
  fv_unlinked : be32 x Inode.off.NEXT_UNLINKED = Ok (2 ^ 32 - 1);
  fv_mode : be16 x Inode.off.MODE = Ok 0;
  fv_nlink : be32 x Inode.off.NLINK = Ok 0;
  fv_size : be64 x Inode.off.SIZE = Ok 0;
}.

(** A slot of the chunk. *)
Definition slot_reads (g : Geometry) (b : buf) (i : nat) (P : buf -> Prop) : Prop :=
  let isz := Z.to_nat (inodesize g) in
  exists x, slice b (i * isz) (i * isz + isz) = Ok x /\ P x.

(** The [k]th number drawn from a generator. *)
Definition draw (gen : Z) (k : nat) : Z := fst (Gen_next (Nat.iter k (fun s => snd (Gen_next s)) gen)).

(** The chunk at the block [agbno] of the first AG: the root directory, which
    is its own parent and empty; the realtime bitmap's inode, a regular file
    without extents under the flag of the new bitmap format and with an access
    time of zero; the summary's; and the free slots.  The free slots' generation
    is the first drawn from the generator, the two inodes' the next two. *)
Record chunk_reads (g : Geometry) (agbno : Z) (uuid : buf) (t : Timestamp) (gen : Z) (b : buf)
    : Prop := {
  cv_length : length b = (64 * Z.to_nat (inodesize g))%nat;
  cv_root : exists d, sf_parent d = Ok (agbno * 2 ^ inopblog g) /\
    length d = (if 2 ^ 32 <=? agbno * 2 ^ inopblog g then 10%nat else 6%nat) /\
    slot_reads g b 0 (fun x =>
      inode_reads g uuid x (agbno * 2 ^ inopblog g) 0x41ed 1 2 0 0 t t d);
  cv_rbm : slot_reads g b 1 (fun x =>
    inode_reads g uuid x (agbno * 2 ^ inopblog g + 1) 0x8000 2 1 4 (draw gen 1) (mkTimestamp 0 0) t []);
  cv_rsum : slot_reads g b 2 (fun x =>
    inode_reads g uuid x (agbno * 2 ^ inopblog g + 2) 0x8000 2 1 0 (draw gen 2) t t []);
  cv_free : forall i, (3 <= i < 64)%nat -> slot_reads g b i (fun x =>
    free_reads uuid x (agbno * 2 ^ inopblog g + Z.of_nat i) (draw gen 0));
}.

(** * Proof *)

Lemma time_word_eq bt t : time_in bt t -> encode_time t bt = time_word bt t.
Proof.
  unfold time_in, encode_time, time_word, BIGTIME_EPOCH_OFFSET. change (Z.shiftl 1 31) with (2 ^ 31).
  destruct bt; intros [Hs Hn].
  - rewrite i64_id by lia. by rewrite (u64_id (_ + 2 ^ 31)), (u64_id (_ * _)), u64_id by lia.
  - pose proof (u32_range (secs t)). rewrite shl64_mul, lor_add_shift by lia. done.
Qed.

Section Chunk.
Variables (g : Geometry) (uuid : buf).
Hypothesis W : wf g.
Hypothesis Hu : length uuid = 16%nat.
Let isz := Z.to_nat (inodesize g).

Lemma chunk_flags2_eq : chunk_flags2 g =
  (if bigtime (features g) then 8 else 0) + (if nrext64 (features g) then 16 else 0).
Proof. unfold chunk_flags2. by destruct (bigtime _), (nrext64 _). Qed.

Lemma flags2_bigtime : has_bigtime (chunk_flags2 g) = bigtime (features g).
Proof. unfold chunk_flags2. by destruct (bigtime _), (nrext64 _). Qed.

Lemma isz_ge : (512 <= isz)%nat.
Proof.
  unfold isz. rewrite (wf_inodesize g W). pose proof (wf_inodelog g W). pose proof (pow2_le 9 (inodelog g)). lia.
Qed.

Lemma inode_in_slot b i n m fmt links fl gn at_ t d :
  let x := mkDinode n m fmt links (Z.of_nat (length d)) fl (chunk_flags2 g) gn 2 at_ t t t d in
  Dinode_ok x -> (length d <= 10)%nat -> inode_at isz uuid b i x ->
  slot_reads g b i (fun x => inode_reads g uuid x n m fmt links fl gn at_ t d).
Proof.
  intros dn Hd Hl (x & Hx & E & V & _). pose proof isz_ge.
  destruct (Dinode_sealed dn uuid (zeroes isz)) as (x' & E' & S);
    [rewrite length_zeroes; unfold CORE_SIZE; cbn [Inode.data dn]; unfold isz; lia | done |].
  rewrite E in E'. injection E' as <-.
  destruct Hd as (H1 & H2 & H3 & H4 & H5 & H6 & H7 & H8 & H9 & HT).
  pose proof flags2_bigtime as Hb.
  exists x. split; [done|]. split; [done | ..]; try (by read_sealed S).
  - by rewrite (sealed_bytes S Inode.off.UUID 16 _ eq_refl eq_refl).
  - read_sealed S. by rewrite u64_id.
  - read_sealed S. by rewrite u16_id.
  - read_sealed S. by rewrite u8_id.
  - read_sealed S. by rewrite u32_id.
  - read_sealed S. by rewrite u16_id.
  - read_sealed S. rewrite u64_id by done. by rewrite <- chunk_flags2_eq.
  - read_sealed S. by rewrite u32_id.
  - repeat (apply Forall_cons_1 in HT as [? HT]). cbn [dn flags2 atime mtime ctime crtime] in *. rewrite Hb in *.
    repeat apply Forall_cons_2; try apply Forall_nil_2; read_sealed S;
      rewrite u64_id by (apply encode_time_range; cbn [dn flags2]; by rewrite Hb);
      cbn [dn flags2 atime mtime ctime crtime]; by rewrite Hb, time_word_eq.
  - read_sealed S. by rewrite u64_id.
  - apply (sealed_bytes S 176 (length d) d); [done|]. cbn -[Nat.eqb]. by rewrite !Nat.eqb_refl.
Qed.

Lemma base_in_slot b i n m fmt links fl gn at_ t d :
  0 <= n < 2 ^ 64 -> 0 <= m < 2 ^ 16 -> 0 <= fmt < 2 ^ 8 -> 0 <= links < 2 ^ 32 -> 0 <= fl < 2 ^ 16 ->
  0 <= gn < 2 ^ 32 -> time_in (bigtime (features g)) at_ -> time_in (bigtime (features g)) t ->
  (length d <= 10)%nat ->
  inode_at isz uuid b i (size_from_data (base_inode g n m fmt links fl gn at_ t d)) ->
  slot_reads g b i (fun x => inode_reads g uuid x n m fmt links fl gn at_ t d).
Proof.
  intros Hn Hm Hf Hk Hl Hg Ha Ht Hd I. apply inode_in_slot; [|done | exact I].
  exact (proj2 (base_inode_ok g 0 uuid t Hu Ht n m fmt links fl gn at_ d Hn Hm Hf Hk Hl Hg Ha Hd)).
Qed.

Lemma free_in_slot b i n gn : 0 <= n < 2 ^ 64 -> 0 <= gn < 2 ^ 32 -> free_at_slot isz uuid b i n gn ->
  slot_reads g b i (fun x => free_reads uuid x n gn).
Proof.
  intros Hn Hg (x & Hx & E & V & M & Mo & G & I). pose proof isz_ge as Hi.
  destruct (free_sealed n gn uuid (zeroes isz)) as (x' & E' & S);
    [rewrite length_zeroes; unfold CORE_SIZE; lia | done |]. rewrite E in E'. injection E' as <-.
  assert (forall o k, clear_of Inode.off.CRC o k = true -> find_store o k (free_fields n gn uuid) = Untouched ->
    (o + k <= 176)%nat -> slice x o (o + k) = Ok (zeroes k)) as Z0.
  { intros o k Hc Hf Ho. rewrite (sealed_untouched S o k Hc Hf), slice_zeroes by lia. f_equal. f_equal. lia. }
  exists x. split; [done|]. split; try done; try (by read_sealed S).
  - by rewrite (sealed_bytes S Inode.off.UUID 16 _ eq_refl eq_refl).
  - unfold be32. by rewrite (Z0 Inode.off.NLINK 4%nat) by done || (cbv; lia).
  - unfold be64. by rewrite (Z0 Inode.off.SIZE 8%nat) by done || (cbv; lia).
Qed.
End Chunk.

Lemma sf_dir_length parent d : empty_sf_dir parent = Ok d ->
  length d = (if 2 ^ 32 <=? parent then 10%nat else 6%nat).
Proof.
  unfold empty_sf_dir. intros E. destruct (Z.ltb_spec (2 ^ 32 - 1) parent), (Z.leb_spec (2 ^ 32) parent); try lia;
    apply run_stores_length in E; by rewrite E, length_zeroes.
Qed.

(** * Property *)

(** C24: [root_chunk] never fails on a block of the first AG, and a reader finds
    in the chunk 64 slots under good checksums: the root directory, mode 755,
    empty and its own parent, with two links and generation 0; the realtime
    bitmap and summary inodes after it, regular files with one link, the
    bitmap's under the flag of the new format and with an access time of 0;
    every time the one given and the flags those of the features; and 61
    inodes without a type, each with its number and the chunk's generation. *)
Theorem root_chunk_holds_the_root g agbno uuid t gen :
  wf g -> length uuid = 16%nat -> 0 <= agbno < 2 ^ 30 -> time_in (bigtime (features g)) t ->
  exists b gen', root_chunk g agbno uuid t gen = Ok (b, gen') /\ chunk_reads g agbno uuid t gen b.
Proof.
  intros W Hu Hb Ht. destruct (root_chunk_ok g agbno uuid t gen W Hu Hb Ht) as (b & gen' & E & S).
  exists b, gen'. split; [done|]. destruct (first_eq g agbno W Hb) as [F1 F2].
  destruct S as [_ L (d & D1 & D2 & S0) S1 S2 S3].
  pose proof (sf_dir_length _ _ D1) as Ld.
  assert (length d <= 10)%nat as Ld' by (rewrite Ld; destruct (_ <=? _); lia).
  assert (forall k, 0 <= draw gen k < 2 ^ 32) as G by (intros k; apply Gen_next_range).
  unfold root_inode, rbm_inode, rsum_inode in S0, S1, S2. rewrite F1 in *. rewrite u64_id in S1, S2 by lia.
  assert (time_in (bigtime (features g)) (mkTimestamp 0 0)) as H0 by (destruct (bigtime _); cbn; lia).
  assert (forall n m fmt links fl gn at_, size_from_data (base_inode g n m fmt links fl gn at_ t []) =
    base_inode g n m fmt links fl gn at_ t []) as Es by reflexivity.
  rewrite <- Es in S1, S2.
  split; [done | | | |].
  - exists d. split_and!; [done | done |]. apply base_in_slot; [done | done | lia | lia.. | done | done | done | exact S0].
  - apply base_in_slot; [done | done | lia | lia.. | apply (G 1%nat) | done | done | cbn; lia | exact S1].
  - apply base_in_slot; [done | done | lia | lia.. | apply (G 2%nat) | done | done | cbn; lia | exact S2].
  - intros i Hi. apply free_in_slot; [done | done | lia | apply (G 0%nat) |]. by apply S3.
Qed.

Lemma root_chunk_holds_the_root_witness : exists b gen',
  root_chunk geo512m (root_chunk_agbno geo512m) (replicate 16 (byte.of_Z 7))
    (mkTimestamp 1700000000 5) 42 = Ok (b, gen') /\
  chunk_reads geo512m (root_chunk_agbno geo512m) (replicate 16 (byte.of_Z 7))
    (mkTimestamp 1700000000 5) 42 b.
Proof.
  apply (root_chunk_holds_the_root geo512m);
    [apply geo512m_wf | reflexivity | vm_compute; done | vm_compute; done].
Defined.
