(* ===== verification/FormatFacts.v ===== *)
(** [format] on a device: which requests it makes, in which order, and what
    they leave.

    [format_ops] is the sequence of requests of a run; [format_runs] says
    [format] is that sequence and nothing else.  Everything after is about
    the sequence: it is whole blocks inside the device, the order of the
    allocation groups does not matter, it leaves every structure in its
    place, and no prefix of it looks finished. *)

From Stdlib Require Import ZArith Lia.
From stdpp Require Import base tactics list numbers sorting fin_maps gmap.
From coqutil Require Import Byte Word.LittleEndianList.
From S2P Require Import Prelude Bytes Crc Geometry GeometryFacts Structs Superblock AgHeaders.
From S2P Require Import Btree Inode LogRecord Device Plan PlanFacts Io Format HeadFacts ChunkFacts.

(** * The requests of a run *)

(** What a run builds in memory before it writes. *)
Record built_by (g : Geometry) (ps : list AgPlan) (uuid : buf) (t : Timestamp) (gen : Z)
    (logb : buf) (heads : Z -> buf) (chunk : buf) (last : buf) : Prop := {
  bb_log : log_block g uuid = Ok logb;
  bb_heads : forall a, 0 <= a < agcount g -> exists p,
    ps !! Z.to_nat a = Some p /\
    ag_head g p uuid (ag_sbs g uuid (planned_fdblocks ps) a) = Ok (heads a);
  bb_chunk : exists p gen', ps !! 0%nat = Some p /\ p_chunk p = Some (root_chunk_agbno g) /\
    root_chunk g (root_chunk_agbno g) uuid t gen = Ok (chunk, gen');
  bb_last : exists p b, ps !! 0%nat = Some p /\
    ag_head g p uuid (finished g uuid (planned_fdblocks ps)) = Ok b /\
    slice b 0 (Z.to_nat (u64 (header_blocks g * bs g))) = Ok last;
}.

Section Ops.
Variables (g : Geometry) (size : Z) (order : list Z).
Variables (logb : buf) (heads : Z -> buf) (chunk last : buf).

(** The ends of the device and the log. *)
Definition prepare_ops : list op :=
  let e := size / bs g * bs g in
  let tail := saturating_sub e WHACK_SIZE / bs g * bs g in
  let log_at := agb_to_byte g (logagno g) (log_agbno g) in
  [ OpZeroes 0 (Z.min WHACK_SIZE e);
    OpZeroes tail (e - tail);
    OpZeroes log_at (u64 (logblocks g * bs g));
    OpWrite log_at logb ].

Definition ag_op (a : Z) : op := OpWrite (agb_to_byte g a 0) (heads a).
Definition chunk_op : op := OpWrite (agb_to_byte g 0 (root_chunk_agbno g)) chunk.

Definition unfinished_ops : list op := prepare_ops ++ (ag_op <$> order) ++ [chunk_op; OpFlush].
Definition format_ops : list op := unfinished_ops ++ [OpWrite 0 last; OpFlush].
End Ops.

(** * [format] makes exactly these requests *)

Section Runs.
Context {D : Type} `{BlockDevice D}.

Lemma run_ops_cons {A} o ops (r : A) (k : io D A) d :
  (forall d, k d = (run_ops ops;; mret r) d) ->
  (run_op o;; k) d = (run_ops (o :: ops);; mret r) d.
Proof.
  intros Hk. unfold run_ops. cbn [io_for]. rewrite !io_bind_eq.
  destruct (run_op o d) as [d1 [[]| | |]]; [|done..]. apply Hk.
Qed.

Lemma run_ops_app {A} (f : Z -> op) (w : Z -> io D unit) l ops (r : A) (k : io D A) d :
  (forall a, a ∈ l -> forall d, w a d = run_op (f a) d) ->
  (forall d, k d = (run_ops ops;; mret r) d) ->
  (io_for w l;; k) d = (run_ops ((f <$> l) ++ ops);; mret r) d.
Proof.
  intros Hw Hk. revert d. induction l as [|a l IH]; intros d; [apply Hk|].
  cbn [fmap list_fmap app]. rewrite <- (run_ops_cons (f a) ((f <$> l) ++ ops) r (io_for w l;; k)).
  - cbn [io_for]. rewrite !io_bind_eq. rewrite Hw by (by left).
    destruct (run_op (f a) d) as [d1 [[]| | |]]; done.
  - apply IH. intros a' Ha'. apply Hw. by right.
Qed.

Lemma write_ag_op g ps uuid fdb a p head d :
  ps !! Z.to_nat a = Some p -> ag_head g p uuid (ag_sbs g uuid fdb a) = Ok head ->
  write_ag g ps uuid fdb a d = run_op (OpWrite (agb_to_byte g a 0) head) d.
Proof. intros Hp Hh. unfold write_ag. rewrite Hp. cbn [unwrap]. by rewrite lift_bind, Hh. Qed.

Lemma format_runs env params d g ps uuid t gen logb heads chunk last :
  compute params (dev_size d) (logical_sector_size d) (physical_sector_size d) = Ok g ->
  plans g = Ok ps -> uuid = default (e_uuid env) (p_uuid params) ->
  t = default (e_now env) (p_time params) ->
  gen = default (of_le_bytes (take 8 (e_seed env))) (p_gen_seed params) ->
  (forall a, a ∈ e_order env -> 0 <= a < agcount g) ->
  built_by g ps uuid t gen logb heads chunk last ->
  format env params d =
    (run_ops (format_ops g (dev_size d) (e_order env) logb heads chunk last);;
     mret (mkReport g uuid (rootino g) (planned_fdblocks ps))) d.
Proof.
  intros Ec Ep Eu Et Eg Ho [Bl Bh (p0 & gen' & P0 & C0 & Bc) (p1 & b1 & P1 & B1 & Bf)].
  rewrite P0 in P1. injection P1 as <-.
  unfold format, asks. rewrite io_bind_eq. rewrite Ec, lift_bind.
  rewrite <- Eu, <- Et, <- Eg, Ep, lift_bind.
  unfold format_ops, unfinished_ops, prepare_ops. rewrite <- !app_assoc. cbn [app].
  clear Ec. generalize (dev_size d) as size. intros size.
  apply (run_ops_cons (OpZeroes _ _)). clear d. intros d.
  apply (run_ops_cons (OpZeroes _ _)). clear d. intros d.
  apply (run_ops_cons (OpZeroes _ _)). clear d. intros d. rewrite Bl, lift_bind.
  apply (run_ops_cons (OpWrite _ _)). clear d. intros d.
  apply run_ops_app; [|clear d; intros d].
  { intros a Ha d'. destruct (Bh a (Ho a Ha)) as (p & Hp & Hh). by eapply write_ag_op. }
  rewrite P0. cbn [unwrap]. rewrite lift_bind, C0. cbn [unwrap]. rewrite lift_bind, Bc, lift_bind.
  apply (run_ops_cons (OpWrite _ _)). clear d. intros d.
  apply (run_ops_cons OpFlush). clear d. intros d.
  rewrite B1, lift_bind, Bf, lift_bind.
  apply (run_ops_cons (OpWrite _ _)). clear d. intros d.
  apply (run_ops_cons OpFlush). done.
Qed.
End Runs.

(** * What is built in memory *)

Definition head_of (g : Geometry) (ps : list AgPlan) (uuid : buf) (a : Z) : buf :=
  match ps !! Z.to_nat a with
  | Some p =>
      match ag_head g p uuid (ag_sbs g uuid (planned_fdblocks ps) a) with Ok b => b | _ => [] end
  | None => []
  end.

(** The pieces of a run, each meeting its description. *)
Record pieces_ok (g : Geometry) (ps : list AgPlan) (uuid : buf) (t : Timestamp) (gen : Z)
    (logb : buf) (heads : Z -> buf) (chunk last : buf) : Prop := {
  po_log : log_spec g uuid logb;
  po_heads : forall a, 0 <= a < agcount g -> exists p, plan_ag g a = Ok p /\
    head_spec g p uuid (ag_sbs g uuid (planned_fdblocks ps) a) (heads a);
  po_chunk : chunk_spec g (root_chunk_agbno g) uuid t gen chunk;
  po_last : exists p b, plan_ag g 0 = Ok p /\
    head_spec g p uuid (finished g uuid (planned_fdblocks ps)) b /\
    slice b 0 (Z.to_nat (header_blocks g * bs g)) = Ok last /\
    forall i, (Z.to_nat (sectsize g) <= i)%nat -> heads 0 !! i = b !! i;
}.

Section Sizes.
Variable (g : Geometry).
Hypothesis W : wf g.

Lemma agcount_pos : 2 <= agcount g.
Proof. apply (wf_agcount g W). Qed.

Lemma chunk_in_ag0 : 0 <= root_chunk_agbno g < 2 ^ 30 /\
  prealloc_blocks g <= root_chunk_agbno g /\
  root_chunk_agbno g + chunk_blocks g <= ag_blocks g 0 /\ 2 <= chunk_blocks g <= 64.
Proof.
  pose proof agcount_pos. destruct (chunk_bounds g W 0 ltac:(lia) eq_refl) as (_ & C1 & C2 & C3).
  destruct (ag_bounds g W 0 ltac:(lia)) as (B1 & B2 & _). lia.
Qed.

Lemma header_bytes : Z.to_nat (u64 (header_blocks g * bs g)) = Z.to_nat (header_blocks g * bs g) /\
  0 < bs g <= 2 ^ 14 /\ 0 <= header_blocks g * bs g <= prealloc_blocks g * bs g.
Proof.
  pose proof (wf_header g W) as Hh. pose proof (wf_blocklog g W).
  pose proof (wf_prealloc g W).
  assert (0 < bs g <= 2 ^ 14) as Hb.
  { unfold bs. rewrite (wf_blocksize g W). pose proof (pow2_pos (blocklog g)).
    pose proof (pow2_le (blocklog g) 14). lia. }
  rewrite u64_id by nia. nia.
Qed.

End Sizes.

Section Build.
Variables (g : Geometry) (ps : list AgPlan) (uuid : buf) (t : Timestamp) (gen : Z).
Hypothesis W : wf g.
Hypothesis Hps : plans g = Ok ps.
Hypothesis Hu : length uuid = 16%nat.
Hypothesis Ht : time_in (bigtime (features g)) t.

Lemma plans_lookup a : 0 <= a < agcount g ->
  exists p, ps !! Z.to_nat a = Some p /\ plan_ag g a = Ok p.
Proof.
  intros Ha. unfold plans in Hps. apply collect_Ok in Hps.
  destruct (Forall2_lookup_l _ _ _ (Z.to_nat a) a Hps) as (p & Hp & E).
  - rewrite lookup_seqZ. lia.
  - by exists p.
Qed.

Lemma sbs_uuid fdb a : length (Superblock.uuid (ag_sbs g uuid fdb a)) = 16%nat /\
  length (Superblock.uuid (finished g uuid fdb)) = 16%nat.
Proof.
  split; [|done]. unfold ag_sbs. destruct (a =? 0); [done|]. by destruct (_ || _).
Qed.

Lemma pieces_exist : exists logb chunk last,
  built_by g ps uuid t gen logb (head_of g ps uuid) chunk last /\
  pieces_ok g ps uuid t gen logb (head_of g ps uuid) chunk last.
Proof.
  pose proof (agcount_pos g W) as Hc.
  destruct (log_block_ok g uuid W Hu) as (logb & El & Sl).
  destruct (root_chunk_ok g (root_chunk_agbno g) uuid t gen W Hu) as (chunk & gen' & Er & Sr);
    [apply (chunk_in_ag0 g W) | done |].
  set (fdb := planned_fdblocks ps).
  assert (forall a p, 0 <= a < agcount g -> plan_ag g a = Ok p -> ps !! Z.to_nat a = Some p ->
    ag_head g p uuid (ag_sbs g uuid fdb a) = Ok (head_of g ps uuid a) /\
    head_spec g p uuid (ag_sbs g uuid fdb a) (head_of g ps uuid a)) as Hh.
  { intros a p Ha Hp Hl. destruct (ag_head_ok g a p uuid W Ha Hp Hu (ag_sbs g uuid fdb a))
      as (b & E & S); [apply (proj1 (sbs_uuid fdb a))|].
    unfold head_of. rewrite Hl. fold fdb. by rewrite E. }
  destruct (plans_lookup 0 ltac:(lia)) as (p0 & L0 & P0).
  destruct (Hh 0 p0 ltac:(lia) P0 L0) as [E0 S0].
  destruct (ag_head_ok g 0 p0 uuid W ltac:(lia) P0 Hu (finished g uuid fdb)) as (b & Eb & Sb);
    [apply (proj2 (sbs_uuid fdb 0))|].
  destruct (header_bytes g W) as (B1 & B2 & B3).
  exists logb, chunk, (take (Z.to_nat (header_blocks g * bs g)) b).
  assert (slice b 0 (Z.to_nat (header_blocks g * bs g)) =
    Ok (take (Z.to_nat (header_blocks g * bs g)) b)) as Es.
  { rewrite slice_in by (rewrite (hs_length _ _ _ _ _ Sb); lia). by rewrite Nat.sub_0_r, drop_0. }
  split; split; try done.
  - intros a Ha. destruct (plans_lookup a Ha) as (p & Hl & Hp). exists p. split; [done|].
    by apply (Hh a p).
  - exists p0, gen'. split; [done|]. split; [|done].
    rewrite (pl_chunk _ _ _ (plan_planned g 0 p0 W ltac:(lia) P0)). done.
  - exists p0, b. split; [done|]. split; [done|]. by rewrite B1.
  - intros a Ha. destruct (plans_lookup a Ha) as (p & Hl & Hp). exists p. split; [done|].
    by apply (Hh a p).
  - exists p0, b. split_and!; [done..|]. intros i Hi.
    eapply (ag_head_same_rest g 0 p0 uuid W ltac:(lia) P0 Hu);
      [apply (proj1 (sbs_uuid fdb 0)) | apply (proj2 (sbs_uuid fdb 0)) | done..].
Qed.
End Build.

(** * Requests in blocks *)

Definition blocks_of (g : Geometry) (lo cnt : Z) (o : op) : Prop :=
  op_off o = lo * bs g /\ op_len o = cnt * bs g.

(** A whole number of blocks inside the device. *)
Definition whole_blocks (g : Geometry) (size : Z) (o : op) : Prop :=
  exists lo cnt, 0 <= lo /\ 0 <= cnt /\ lo + cnt <= size / bs g /\ blocks_of g lo cnt o.

Lemma blocks_clear g lo cnt lo' cnt' o : 0 < bs g -> blocks_of g lo' cnt' o ->
  lo + cnt <= lo' \/ lo' + cnt' <= lo \/ cnt' = 0 -> clear (lo * bs g) ((lo + cnt) * bs g) o.
Proof. intros Hb [Ho Hl] Hd. unfold clear. rewrite Ho, Hl. nia. Qed.

Lemma blocks_clear_ops g lo cnt lo' cnt' o o' : 0 < bs g ->
  blocks_of g lo cnt o -> blocks_of g lo' cnt' o' ->
  lo + cnt <= lo' \/ lo' + cnt' <= lo -> clear_of_each_other o o'.
Proof.
  intros Hb [Ho Hl] H' Hd. right. rewrite Ho, Hl.
  replace (lo * bs g + cnt * bs g) with ((lo + cnt) * bs g) by lia.
  eapply (blocks_clear g); [done..|]. destruct Hd; auto.
Qed.

Section Blocks.
Variables (g : Geometry) (size : Z).
Hypothesis W : wf g.
Hypothesis Hsize : dblocks g * bs g <= size.

Let E := size / bs g.
Let whack := 2 ^ (17 - blocklog g).
Let log_lo := logagno g * agsize g + prealloc_blocks g.

Lemma size_blocks : dblocks g <= E /\ 0 <= E /\ E * bs g <= size /\ 0 < whack /\
  WHACK_SIZE = whack * bs g.
Proof.
  destruct (header_bytes g W) as (_ & Hb & _). pose proof (wf_dblocks g W).
  pose proof (wf_blocklog g W). subst E whack.
  split_and!; [apply Z.div_le_lower_bound; lia | apply Z.div_pos; nia
    | rewrite Z.mul_comm; apply Z.mul_div_le; lia | apply pow2_pos; lia |].
  unfold bs. rewrite (wf_blocksize g W), <- Z.pow_add_r by lia.
  replace (17 - blocklog g + blocklog g) with 17 by lia. done.
Qed.

Lemma head_byte a : 0 <= a < agcount g -> agb_to_byte g a 0 = a * agsize g * bs g /\
  a * agsize g + ag_blocks g a <= dblocks g /\ prealloc_blocks g <= ag_blocks g a.
Proof using W.
  clear E Hsize.
  intros Ha. pose proof (ag_blocks_range g W a Ha) as [H1 H2].
  pose proof (wf_prealloc g W). pose proof (wf_header g W).
  destruct (agb_to_byte_eq g W a 0 Ha) as [-> _]; [lia|]. unfold bs. lia.
Qed.

(** The log lies in its AG when its plan exists. *)
Lemma log_in_ag p : plan_ag g (logagno g) = Ok p ->
  agb_to_byte g (logagno g) (log_agbno g) = log_lo * bs g /\
  prealloc_blocks g + logblocks g <= ag_blocks g (logagno g) /\ 0 < logblocks g /\
  u64 (logblocks g * bs g) = logblocks g * bs g.
Proof using W.
  clear E Hsize.
  intros Hp. pose proof (logagno_range g W) as Hl. destruct (header_bytes g W) as (_ & Hb & _).
  pose proof (plan_ag_planned g W (logagno g) ltac:(lia) p Hp) as Hpl.
  pose proof (pl_free_start _ _ _ Hpl) as Hf. unfold free_start in Hf. rewrite Z.eqb_refl in Hf.
  pose proof (wf_logblocks g W). pose proof (pow2_pos (26 - blocklog g)).
  pose proof (wf_blocklog g W). pose proof (wf_prealloc g W). pose proof (wf_header g W).
  rewrite (wf_log_agbno g W).
  destruct (agb_to_byte_eq g W (logagno g) (prealloc_blocks g)) as [-> _]; [lia..|].
  pose proof (wf_log_bytes g W) as Hm. assert (MAX_LOG_BYTES < 2 ^ 31) by (vm_compute; done).
  split_and!; [done | lia | lia |]. unfold bs in *. apply u64_id. nia.
Qed.

Lemma prepare_blocks logb p : plan_ag g (logagno g) = Ok p ->
  Z.of_nat (length logb) = bs g -> exists o1 o2 o3 o4,
  prepare_ops g size logb = [o1; o2; o3; o4] /\
  blocks_of g 0 (Z.min whack E) o1 /\
  blocks_of g (Z.max 0 (E - whack)) (E - Z.max 0 (E - whack)) o2 /\
  blocks_of g log_lo (logblocks g) o3 /\ blocks_of g log_lo 1 o4.
Proof.
  intros Hp Hl. destruct size_blocks as (S1 & S2 & S3 & S4 & S5).
  destruct (header_bytes g W) as (_ & Hb & _). destruct (log_in_ag p Hp) as (L1 & L2 & L3 & L4).
  do 4 eexists. split; [reflexivity|].
  assert (saturating_sub (E * bs g) WHACK_SIZE / bs g = Z.max 0 (E - whack)) as Et.
  { unfold saturating_sub. rewrite S5.
    replace (Z.max 0 (E * bs g - whack * bs g)) with (Z.max 0 (E - whack) * bs g) by nia.
    apply Z.div_mul. lia. }
  fold E. rewrite Et, L1, L4. unfold blocks_of. cbn [op_off op_len]. rewrite Hl.
  split_and!; try lia. rewrite S5. nia.
Qed.

Lemma ag_op_blocks heads a : 0 <= a < agcount g ->
  Z.of_nat (length (heads a)) = prealloc_blocks g * bs g ->
  blocks_of g (a * agsize g) (prealloc_blocks g) (ag_op g heads a).
Proof using W.
  clear E Hsize. intros Ha Hl. destruct (head_byte a Ha) as [Hb _]. by split. Qed.

Lemma chunk_op_blocks chunk : Z.of_nat (length chunk) = chunk_blocks g * bs g ->
  blocks_of g (root_chunk_agbno g) (chunk_blocks g) (chunk_op g chunk).
Proof using W.
  clear E Hsize.
  intros Hl. pose proof (wf_agcount g W). destruct (chunk_in_ag0 g W) as (C1 & C2 & C3 & C4).
  split; [|done]. cbn [op_off chunk_op].
  destruct (agb_to_byte_eq g W 0 (root_chunk_agbno g)) as [-> _]; [lia..|]. unfold bs. lia.
Qed.
End Blocks.

(** * What the requests leave *)

Section Sequence.
Variables (g : Geometry) (ps : list AgPlan) (uuid : buf) (t : Timestamp) (gen size : Z).
Variables (order : list Z) (logb : buf) (heads : Z -> buf) (chunk last : buf).
Hypothesis W : wf g.
Hypothesis Hsize : dblocks g * bs g <= size.
Hypothesis Hord : order ≡ₚ seqZ 0 (agcount g).
Hypothesis Hpo : pieces_ok g ps uuid t gen logb heads chunk last.

Let ops := format_ops g size order logb heads chunk last.
Let log_lo := logagno g * agsize g + prealloc_blocks g.

Lemma order_in a : a ∈ order <-> 0 <= a < agcount g.
Proof using Hord. rewrite Hord, elem_of_seqZ. clear. lia. Qed.

Lemma heads_length a : 0 <= a < agcount g ->
  Z.of_nat (length (heads a)) = prealloc_blocks g * bs g.
Proof.
  intros Ha. destruct (po_heads _ _ _ _ _ _ _ _ _ Hpo a Ha) as (p & _ & S).
  rewrite (hs_length _ _ _ _ _ S). destruct (header_bytes g W). lia.
Qed.

Lemma pieces_lengths :
  Z.of_nat (length logb) = bs g /\ Z.of_nat (length chunk) = chunk_blocks g * bs g /\
  Z.of_nat (length last) = header_blocks g * bs g.
Proof.
  destruct (header_bytes g W) as (_ & Hb & Hh). destruct (chunk_in_ag0 g W) as (_ & _ & _ & Hc).
  split_and!.
  - rewrite (ls_length _ _ _ (po_log _ _ _ _ _ _ _ _ _ Hpo)). lia.
  - rewrite (cs_length _ _ _ _ _ _ (po_chunk _ _ _ _ _ _ _ _ _ Hpo)). nia.
  - destruct (po_last _ _ _ _ _ _ _ _ _ Hpo) as (p & b & _ & _ & Hs & _).
    rewrite (slice_length _ _ _ _ Hs). lia.
Qed.

(** Every request, placed: the whacks, the log's two, the heads, the chunk
    and the last write. *)
Lemma ops_placed : exists o1 o2 o3 o4,
  prepare_ops g size logb = [o1; o2; o3; o4] /\
  blocks_of g 0 (Z.min (2 ^ (17 - blocklog g)) (size / bs g)) o1 /\
  blocks_of g (Z.max 0 (size / bs g - 2 ^ (17 - blocklog g)))
    (size / bs g - Z.max 0 (size / bs g - 2 ^ (17 - blocklog g))) o2 /\
  blocks_of g log_lo (logblocks g) o3 /\ blocks_of g log_lo 1 o4 /\
  (forall a, 0 <= a < agcount g -> blocks_of g (a * agsize g) (prealloc_blocks g) (ag_op g heads a)) /\
  blocks_of g (root_chunk_agbno g) (chunk_blocks g) (chunk_op g chunk) /\
  blocks_of g 0 (header_blocks g) (OpWrite 0 last) /\
  prealloc_blocks g + logblocks g <= ag_blocks g (logagno g) /\ 0 < logblocks g.
Proof.
  destruct pieces_lengths as (P1 & P2 & P3). pose proof (logagno_range g W) as Hl.
  destruct (po_heads _ _ _ _ _ _ _ _ _ Hpo (logagno g) ltac:(lia)) as (p & Hp & _).
  destruct (prepare_blocks g size W Hsize logb p Hp P1) as (o1 & o2 & o3 & o4 & E & B).
  destruct (log_in_ag g W p Hp) as (_ & L2 & L3 & _).
  exists o1, o2, o3, o4. split; [done|]. destruct B as (B1 & B2 & B3 & B4).
  split_and!; try done.
  - intros a Ha. apply ag_op_blocks; [done..|]. by apply heads_length.
  - by apply chunk_op_blocks.
Qed.

(** AGs, and the log and the chunk inside theirs, do not overlap. *)
Lemma ag_apart a a' : 0 <= a < agcount g -> 0 <= a' < agcount g -> a <> a' ->
  a * agsize g + ag_blocks g a <= a' * agsize g \/ a' * agsize g + ag_blocks g a' <= a * agsize g.
Proof.
  intros Ha Ha' Hn. pose proof (ag_blocks_range g W a Ha). pose proof (ag_blocks_range g W a' Ha').
  destruct (Z.lt_total a a') as [?|[?|?]]; [left; nia | done | right; nia].
Qed.

Lemma block_positions a : 0 <= a < agcount g ->
  (* heads against the log and the chunk *)
  (log_lo + logblocks g <= a * agsize g \/ a * agsize g + prealloc_blocks g <= log_lo) /\
  (root_chunk_agbno g + chunk_blocks g <= a * agsize g \/
   a * agsize g + prealloc_blocks g <= root_chunk_agbno g) /\
  (* the log against the chunk and the primary head *)
  root_chunk_agbno g + chunk_blocks g <= log_lo /\ prealloc_blocks g <= log_lo /\
  0 < header_blocks g <= prealloc_blocks g /\
  a * agsize g + prealloc_blocks g <= size / bs g /\
  log_lo + logblocks g <= size / bs g /\ root_chunk_agbno g + chunk_blocks g <= size / bs g /\
  0 <= a * agsize g.
Proof.
  intros Ha. pose proof (logagno_range g W) as Hl. pose proof (wf_agcount g W) as Hc.
  destruct ops_placed as (_ & _ & _ & _ & _ & _ & _ & _ & _ & _ & _ & _ & L1 & L2).
  destruct (chunk_in_ag0 g W) as (C1 & C2 & C3 & C4). destruct (size_blocks g size W Hsize) as (S1 & _).
  pose proof (wf_prealloc g W) as Hpr. pose proof (wf_header g W) as Hh.
  destruct (head_byte g W a Ha) as (_ & A1 & A2).
  destruct (head_byte g W (logagno g) ltac:(lia)) as (_ & A3 & A4).
  destruct (wf_ag_start g W a Ha) as [A5 _].
  destruct (wf_ag_start g W (logagno g) ltac:(lia)) as [A6 _].
  pose proof (ag_apart (logagno g) 0 ltac:(lia) ltac:(lia) ltac:(lia)) as A7.
  assert (a = logagno g \/ a * agsize g + ag_blocks g a <= logagno g * agsize g \/
    logagno g * agsize g + ag_blocks g (logagno g) <= a * agsize g) as A8.
  { destruct (Z.eq_dec a (logagno g)); [by left | right; apply ag_apart; lia]. }
  assert (a = 0 \/ ag_blocks g 0 <= a * agsize g) as A9.
  { destruct (Z.eq_dec a 0) as [|Hn]; [by left|]. right.
    pose proof (ag_apart a 0 Ha ltac:(lia) Hn). lia. }
  subst log_lo. clear ops Hord Hpo W Hsize. rewrite ?Z.mul_0_l in *.
  destruct A8 as [->|A8]; [|destruct A9 as [->|A9]]; rewrite ?Z.mul_0_l in *; split_and!; lia.
Qed.

Lemma flush_whole : whole_blocks g size OpFlush.
Proof.
  exists 0, 0. destruct (size_blocks g size W Hsize) as (_ & S2 & _).
  split_and!; [lia | lia | lia |]. split; cbn; lia.
Qed.

Lemma ops_whole : Forall (whole_blocks g size) ops.
Proof.
  destruct ops_placed as (o1 & o2 & o3 & o4 & E & B1 & B2 & B3 & B4 & Ba & Bc & Bl & L1 & L2).
  pose proof (wf_agcount g W). destruct (block_positions 0 ltac:(lia)) as (_ & _ & _ & _ & P5 & P6 & P7 & P8 & _).
  destruct (chunk_in_ag0 g W) as (C1 & C2 & C3 & C4).
  destruct (size_blocks g size W Hsize) as (S1 & S2 & _ & S4 & _).
  destruct (block_positions (logagno g) ltac:(pose proof (logagno_range g W); lia))
    as (_ & _ & _ & _ & _ & P9 & _ & _ & P10).
  subst ops. unfold format_ops, unfinished_ops. rewrite E.
  pose proof (wf_header g W). pose proof (wf_prealloc g W).
  repeat (apply Forall_app_2).
  - repeat apply Forall_cons_2; try apply Forall_nil_2; do 2 eexists; (split_and!; [| | | eassumption]); lia.
  - apply Forall_fmap, List.Forall_forall. intros a Ha%list_elem_of_In%order_in.
    destruct (block_positions a Ha) as (_ & _ & _ & _ & _ & Q1 & _ & _ & Q2).
    do 2 eexists. split_and!; [| | |by apply Ba]; lia.
  - repeat apply Forall_cons_2; try apply Forall_nil_2; [|apply flush_whole].
    do 2 eexists; (split_and!; [| | | eassumption]); lia.
  - repeat apply Forall_cons_2; try apply Forall_nil_2; [|apply flush_whole].
    do 2 eexists; (split_and!; [| | | eassumption]); lia.
Qed.

Lemma heads_disjoint : ForallOrdPairs clear_of_each_other (ag_op g heads <$> order).
Proof.
  destruct ops_placed as (o1 & o2 & o3 & o4 & E & B1 & B2 & B3 & B4 & Ba & _).
  destruct (header_bytes g W) as (_ & Hb & _).
  apply pairwise_fmap; [rewrite Hord; apply NoDup_seqZ|].
  intros a b Ha%order_in Hb'%order_in Hn.
  eapply (blocks_clear_ops g); [lia | by apply Ba | by apply Ba |].
  destruct (head_byte g W a Ha) as (_ & _ & H1). destruct (head_byte g W b Hb') as (_ & _ & H2).
  destruct (ag_apart a b Ha Hb' Hn); lia.
Qed.

(** ** Where each byte comes from *)

Lemma heads_clear lo cnt l :
  (forall a, a ∈ l -> 0 <= a < agcount g /\
     (lo + cnt <= a * agsize g \/ a * agsize g + prealloc_blocks g <= lo)) ->
  Forall (clear (lo * bs g) ((lo + cnt) * bs g)) (ag_op g heads <$> l).
Proof.
  intros H. destruct ops_placed as (_ & _ & _ & _ & _ & _ & _ & _ & _ & Ba & _).
  destruct (header_bytes g W) as (_ & Hb & _).
  apply Forall_fmap, List.Forall_forall. intros a Ha%list_elem_of_In. cbn.
  destruct (H a Ha) as [Hr Hd]. eapply (blocks_clear g); [lia | by apply Ba |]. lia.
Qed.

(** The first sector belongs to the primary head until the last write. *)
Lemma tail_clear lo cnt :
  (root_chunk_agbno g + chunk_blocks g <= lo \/ lo + cnt <= root_chunk_agbno g) ->
  header_blocks g <= lo ->
  Forall (clear (lo * bs g) ((lo + cnt) * bs g)) [chunk_op g chunk; OpFlush; OpWrite 0 last; OpFlush].
Proof.
  intros H1 H2. destruct ops_placed as (_ & _ & _ & _ & _ & _ & _ & _ & _ & _ & Bc & Bl & _).
  destruct (header_bytes g W) as (_ & Hb & _).
  repeat apply Forall_cons_2; try apply Forall_nil_2; try apply clear_flush;
    (eapply (blocks_clear g); [lia | eassumption | lia]).
Qed.

Lemma head_written a i : 0 <= a < agcount g ->
  (if a =? 0 then header_blocks g else a * agsize g) * bs g <= i
    < (a * agsize g + prealloc_blocks g) * bs g ->
  last_written ops i = heads a !! Z.to_nat (i - a * agsize g * bs g).
Proof.
  intros Ha Hi. destruct (header_bytes g W) as (_ & Hb & _). pose proof (wf_header g W) as Hh.
  pose proof (wf_prealloc g W) as Hpr.
  destruct (list_elem_of_split order a) as (l1 & l2 & El); [by apply order_in|].
  assert (NoDup order) as Hnd by (rewrite Hord; apply NoDup_seqZ).
  rewrite El in Hnd. apply NoDup_app in Hnd as (_ & _ & Hnd). apply NoDup_cons in Hnd as [Hnd _].
  destruct (block_positions a Ha) as (_ & P2 & _ & _ & _ & _ & _ & _ & P9).
  destruct (head_byte g W a Ha) as (Eb & _ & A2).
  subst ops. unfold format_ops, unfinished_ops. rewrite El, fmap_app, fmap_cons.
  rewrite <- !app_assoc. cbn [app]. rewrite (app_assoc (prepare_ops _ _ _)).
  set (lo := if a =? 0 then header_blocks g else a * agsize g) in *.
  set (cnt := a * agsize g + prealloc_blocks g - lo) in *.
  assert (a * agsize g <= lo /\ header_blocks g <= lo /\ 0 <= cnt <= prealloc_blocks g) as (K1 & K2 & K3).
  { subst lo cnt. destruct (Z.eqb_spec a 0) as [->|Hn]; [lia|].
    pose proof (wf_agcount g W). pose proof (ag_apart a 0 Ha ltac:(lia) Hn).
    destruct (head_byte g W 0 ltac:(lia)) as (_ & _ & A3). lia. }
  rewrite (last_written_at (lo * bs g) ((lo + cnt) * bs g)).
  - cbn [ag_op written]. rewrite Eb. destruct (Z.leb_spec (a * agsize g * bs g) i); [done | nia].
  - subst cnt. replace (lo + (a * agsize g + prealloc_blocks g - lo))
      with (a * agsize g + prealloc_blocks g) by lia. done.
  - cbn [ag_op op_off op_len]. rewrite Eb, heads_length by done. nia.
  - done.
  - apply Forall_app_2; [|apply tail_clear; lia].
    apply heads_clear. intros a' Ha'.
    assert (0 <= a' < agcount g) as Hr.
    { apply order_in. rewrite El. apply elem_of_app. right. by right. }
    split; [done|]. assert (a <> a') as Hn by (by intros ->).
    destruct (head_byte g W a' Hr) as (_ & _ & A3). pose proof (ag_apart a a' Ha Hr Hn). lia.
Qed.

(** The log: its record, and zeroes after. *)
Lemma log_written i : log_lo * bs g <= i < (log_lo + logblocks g) * bs g ->
  last_written ops i =
    if i <? (log_lo + 1) * bs g then logb !! Z.to_nat (i - log_lo * bs g)
    else Some (byte.of_Z 0).
Proof.
  intros Hi. pose proof (logagno_range g W) as Hl.
  destruct ops_placed as (o1 & o2 & o3 & o4 & E & B1 & B2 & B3 & B4 & Ba & Bc & Bl & L1 & L2).
  destruct (header_bytes g W) as (_ & Hb & _). destruct pieces_lengths as (P1 & _).
  pose proof (wf_agcount g W). destruct (block_positions 0 ltac:(lia)) as (_ & _ & Q3 & Q4 & Q5 & _).
  assert (Forall (clear (log_lo * bs g) ((log_lo + logblocks g) * bs g))
    ((ag_op g heads <$> order) ++ [chunk_op g chunk; OpFlush; OpWrite 0 last; OpFlush])) as Hc.
  { apply Forall_app_2; [|apply tail_clear; lia]. apply heads_clear. intros a Ha%order_in.
    split; [done|]. by destruct (block_positions a Ha) as (? & _). }
  assert (o3 = OpZeroes (log_lo * bs g) (logblocks g * bs g) /\ o4 = OpWrite (log_lo * bs g) logb)
    as [-> ->].
  { destruct B3 as [O3 N3], B4 as [O4 N4]. unfold prepare_ops in E. injection E as _ _ <- <-.
    cbn [op_off op_len] in *. by rewrite N3, O3. }
  subst ops. unfold format_ops, unfinished_ops. rewrite E. rewrite <- !app_assoc. cbn [app].
  set (rest := (ag_op g heads <$> order) ++ _) in *.
  destruct (Z.ltb_spec i ((log_lo + 1) * bs g)).
  - pose proof (last_written_at _ _ [o1; o2; OpZeroes (log_lo * bs g) (logblocks g * bs g)]
      (OpWrite (log_lo * bs g) logb) rest i Hi) as X.
    cbn [op_off op_len app] in X. rewrite X; [|lia|done|done].
    cbn [written]. destruct (Z.leb_spec (log_lo * bs g) i); [done|lia].
  - pose proof (last_written_at ((log_lo + 1) * bs g) ((log_lo + logblocks g) * bs g) [o1; o2]
      (OpZeroes (log_lo * bs g) (logblocks g * bs g)) (OpWrite (log_lo * bs g) logb :: rest) i) as X.
    cbn [op_off op_len app] in X. rewrite X; [|lia|lia|done|].
    + cbn [written]. destruct (Z.leb_spec (log_lo * bs g) i),
        (Z.ltb_spec i (log_lo * bs g + logblocks g * bs g)); (done || lia).
    + apply Forall_cons_2; [|eapply List.Forall_impl; [|exact Hc]; unfold clear; intros; lia].
      right. left. cbn [op_off op_len]. lia.
Qed.

Lemma chunk_written i :
  root_chunk_agbno g * bs g <= i < (root_chunk_agbno g + chunk_blocks g) * bs g ->
  last_written ops i = chunk !! Z.to_nat (i - root_chunk_agbno g * bs g).
Proof.
  intros Hi. destruct ops_placed as (_ & _ & _ & _ & _ & _ & _ & _ & _ & _ & Bc & Bl & _).
  destruct (header_bytes g W) as (_ & Hb & _). destruct Bc as [Oc Nc].
  pose proof (wf_agcount g W). destruct (block_positions 0 ltac:(lia)) as (_ & Q2 & _ & _ & Q5 & _).
  destruct (chunk_in_ag0 g W) as (C1 & C2 & C3 & C4).
  subst ops. unfold format_ops, unfinished_ops. rewrite <- !app_assoc. cbn [app].
  rewrite app_assoc. rewrite (last_written_at _ _ _ (chunk_op g chunk) _ i Hi).
  - cbn [chunk_op op_off] in Oc. cbn [chunk_op written]. rewrite Oc.
    destruct (Z.leb_spec (root_chunk_agbno g * bs g) i); [done|lia].
  - rewrite Oc, Nc. lia.
  - done.
  - repeat apply Forall_cons_2; try apply Forall_nil_2; try apply clear_flush.
    eapply (blocks_clear g); [lia | exact Bl | lia].
Qed.

Lemma last_written_first i : 0 <= i < header_blocks g * bs g ->
  last_written ops i = last !! Z.to_nat i.
Proof.
  intros Hi. destruct pieces_lengths as (_ & _ & P3).
  subst ops. unfold format_ops.
  rewrite (last_written_at _ _ _ (OpWrite 0 last) _ i Hi); cbn [op_off op_len];
    [|lia|done|repeat apply Forall_cons_2; try apply Forall_nil_2; apply clear_flush].
  cbn [written]. destruct (Z.leb_spec 0 i); [|lia]. by rewrite Z.sub_0_r.
Qed.

(** Until the last write, the first blocks are zeroed, then hold the
    unfinished primary head. *)
(** The first request zeroes AG 0's header blocks, and more. *)
Lemma first_zeroes : exists o2 o3 o4,
  prepare_ops g size logb =
    [OpZeroes 0 (Z.min (2 ^ (17 - blocklog g)) (size / bs g) * bs g); o2; o3; o4] /\
  header_blocks g <= Z.min (2 ^ (17 - blocklog g)) (size / bs g) /\
  Forall (clear (0 * bs g) ((0 + header_blocks g) * bs g)) [o2; o3; o4].
Proof.
  destruct ops_placed as (o1 & o2 & o3 & o4 & E & [B0 B1] & B2 & B3 & B4 & Ba & Bc & Bl & L1 & L2).
  destruct (header_bytes g W) as (_ & Hb & _). destruct (size_blocks g size W Hsize) as (S1 & S2 & _ & S4 & S5).
  pose proof (wf_agcount g W). destruct (block_positions 0 ltac:(lia)) as (_ & _ & Q3 & Q4 & Q5 & _).
  pose proof (wf_header g W) as Hh. pose proof (GeometryFacts.wf_size g W) as Hmin.
  assert (2 ^ (17 - blocklog g) + header_blocks g <= size / bs g) as Hfar.
  { apply (Z.mul_le_mono_pos_r _ _ (bs g)); [lia|]. rewrite Z.mul_add_distr_r, <- S5.
    fold (bs g) in Hmin. assert (WHACK_SIZE + 4 * 2 ^ 14 <= 300 * MIB) by (vm_compute; done). nia. }
  exists o2, o3, o4. split_and!.
  - rewrite E. f_equal. unfold prepare_ops in E. injection E as <- _ _ _.
    cbn [op_len] in B1. by rewrite B1.
  - apply Z.min_glb; [|lia]. apply (Z.mul_le_mono_pos_r _ _ (bs g)); [lia|]. rewrite <- S5.
    unfold WHACK_SIZE. nia.
  - repeat apply Forall_cons_2; try apply Forall_nil_2;
      (eapply (blocks_clear g); [lia | eassumption | lia]).
Qed.

(** Of the other requests, the one for AG 0 alone touches them. *)
Lemma ops_around_head : exists r1 r2,
  unfinished_ops g size order logb heads chunk =
    OpZeroes 0 (Z.min (2 ^ (17 - blocklog g)) (size / bs g) * bs g) :: r1 ++ ag_op g heads 0 :: r2 /\
  Forall (clear (0 * bs g) ((0 + header_blocks g) * bs g)) r1 /\
  Forall (clear (0 * bs g) ((0 + header_blocks g) * bs g)) r2.
Proof.
  pose proof (wf_agcount g W) as Hcnt. destruct first_zeroes as (o2 & o3 & o4 & E & _ & Hp).
  destruct ops_placed as (_ & _ & _ & _ & _ & _ & _ & _ & _ & _ & Bc & _ & L1 & L2).
  destruct (header_bytes g W) as (_ & Hb & _). destruct (head_byte g W 0 ltac:(lia)) as (_ & _ & A2).
  destruct (chunk_in_ag0 g W) as (C1 & C2 & C3 & C4). destruct (block_positions 0 ltac:(lia)) as (_ & _ & _ & _ & Q5 & _).
  destruct (list_elem_of_split order 0) as (l1 & l2 & El); [by apply order_in; lia|].
  assert (NoDup order) as Hnd by (rewrite Hord; apply NoDup_seqZ).
  assert (forall l, (forall a, a ∈ l -> a ∈ order /\ a <> 0) ->
    Forall (clear (0 * bs g) ((0 + header_blocks g) * bs g)) (ag_op g heads <$> l)) as Hcl.
  { intros l Hl. apply heads_clear. intros a Ha. destruct (Hl a Ha) as [Hr%order_in Hn].
    split; [done|]. pose proof (ag_apart a 0 Hr ltac:(lia) Hn).
    destruct (wf_ag_start g W a Hr) as [Hs _]. destruct (head_byte g W a Hr) as (_ & _ & A3). lia. }
  rewrite El in Hnd. apply NoDup_app in Hnd as (_ & Hn1 & Hn2). apply NoDup_cons in Hn2 as [Hn2 _].
  exists ([o2; o3; o4] ++ (ag_op g heads <$> l1)), ((ag_op g heads <$> l2) ++ [chunk_op g chunk; OpFlush]).
  split_and!.
  - unfold unfinished_ops. rewrite E, El, fmap_app, fmap_cons. cbn [app]. by rewrite <- !app_assoc.
  - apply Forall_app_2; [done|].
    apply Hcl. intros a Ha. rewrite El, elem_of_app. split; [by left|].
    intros ->. eapply Hn1; [done|]. by left.
  - apply Forall_app_2.
    + apply Hcl. intros a Ha. rewrite El, elem_of_app, elem_of_cons. split; [by right; right|].
      by intros ->.
    + repeat apply Forall_cons_2; try apply Forall_nil_2; [|apply clear_flush].
      eapply (blocks_clear g); [lia | eassumption | lia].
Qed.

Lemma first_blocks_unfinished k : (0 < k)%nat ->
  let pre := take k (unfinished_ops g size order logb heads chunk) in
  (forall i, 0 <= i < header_blocks g * bs g -> last_written pre i = Some (byte.of_Z 0)) \/
  (forall i, 0 <= i < header_blocks g * bs g -> last_written pre i = heads 0 !! Z.to_nat i).
Proof.
  intros Hk pre. pose proof (wf_agcount g W) as Hcnt. destruct (header_bytes g W) as (_ & Hb & _).
  destruct (head_byte g W 0 ltac:(lia)) as (Eb & _ & A2).
  destruct first_zeroes as (_ & _ & _ & _ & Hz & _).
  destruct (block_positions 0 ltac:(lia)) as (_ & _ & _ & _ & Q5 & _).
  destruct ops_around_head as (r1 & r2 & Eu & Hr1 & Hr2).
  subst pre. rewrite Eu. destruct k as [|k]; [lia|]. cbn [take].
  destruct (decide (k <= length r1)%nat) as [Hle|Hgt].
  - left. intros i Hi. rewrite take_app_le by done. cbn [last_written].
    rewrite (last_written_clear _ _ _ i (Forall_take _ _ _ Hr1)) by lia.
    cbn [written]. destruct (Z.leb_spec 0 i); [|lia].
    destruct (Z.ltb_spec i (0 + Z.min (2 ^ (17 - blocklog g)) (size / bs g) * bs g)); [done | nia].
  - right. intros i Hi. rewrite take_app_ge by lia.
    destruct (k - length r1)%nat as [|m] eqn:Em; [lia|]. cbn [take].
    rewrite app_comm_cons, (last_written_at (0 * bs g) ((0 + header_blocks g) * bs g)).
    + cbn [ag_op written]. rewrite Eb, Z.mul_0_l. destruct (Z.leb_spec 0 i); [|lia].
      by rewrite Z.sub_0_r.
    + lia.
    + cbn [ag_op op_off op_len]. rewrite Eb, heads_length by lia. nia.
    + done.
    + by apply Forall_take.
Qed.
End Sequence.

(** * A run on a device *)

Definition run_uuid (env : Env) (params : Params) : buf := default (e_uuid env) (p_uuid params).
Definition run_time (env : Env) (params : Params) : Timestamp :=
  default (e_now env) (p_time params).
Definition run_gen (env : Env) (params : Params) : Z :=
  default (of_le_bytes (take 8 (e_seed env))) (p_gen_seed params).

(** The superblock each AG is left with: the primary names the root inodes
    and counts the root chunk, and is finished; the others keep the state
    from before the root directory was made, in progress, but the last and
    the middle one, which name the root. *)
Definition final_sbs (g : Geometry) (uuid : buf) (fdb a : Z) : SbState :=
  let r := ino g 0 (root_chunk_agbno g) 0 in
  if a =? 0 then mkSbState uuid r (r + 1) (r + 2) 64 61 fdb false
  else
    let named := (a =? agcount g - 1) || ((2 <? agcount g) && (a =? (agcount g - 1) / 2)) in
    mkSbState uuid (if named then r else NULL64) NULL64 NULL64 0 0 (initial_fdblocks g) true.

Lemma finished_final g uuid fdb : wf g -> finished g uuid fdb = final_sbs g uuid fdb 0.
Proof.
  intros W. destruct (chunk_in_ag0 g W) as (C1 & _).
  destruct (first_eq g (root_chunk_agbno g) W C1) as [_ F].
  unfold finished, final_sbs, rootino. cbn [Z.eqb]. by rewrite !u64_id by lia.
Qed.

Lemma ag_sbs_final g uuid fdb a : wf g -> a <> 0 -> ag_sbs g uuid fdb a = final_sbs g uuid fdb a.
Proof.
  intros W Ha. pose proof (wf_agcount g W) as Hc. unfold MAX_AGNUMBER in Hc.
  unfold ag_sbs, final_sbs. destruct (Z.eqb_spec a 0); [done|]. rewrite u64_id by lia.
  destruct (Z.eqb_spec a (agcount g - 1)); cbn [orb]; [done|].
  destruct (Z.ltb_spec 2 (agcount g)); cbn [andb].
  - destruct (Z.eqb_spec a ((agcount g - 1) / 2)).
    + by rewrite bool_decide_true by congruence.
    + by rewrite bool_decide_false by congruence.
  - by rewrite bool_decide_false.
Qed.

(** What a finished run leaves on the device, whose bytes are [f]. *)
Record image (g : Geometry) (uuid : buf) (t : Timestamp) (gen fdb : Z) (f : Z -> byte) : Prop := {
  im_heads : forall a, 0 <= a < agcount g -> exists p b, plan_ag g a = Ok p /\
    head_spec g p uuid (final_sbs g uuid fdb a) b /\
    bytes_of f (agb_to_byte g a 0) (prealloc_blocks g * bs g) = b;
  im_log : exists b, log_spec g uuid b /\
    bytes_of f (agb_to_byte g (logagno g) (log_agbno g)) (bs g) = b;
  im_log_rest : forall i,
    agb_to_byte g (logagno g) (log_agbno g) + bs g <= i
      < agb_to_byte g (logagno g) (log_agbno g) + logblocks g * bs g -> f i = byte.of_Z 0;
  im_chunk : exists b, chunk_spec g (root_chunk_agbno g) uuid t gen b /\
    bytes_of f (agb_to_byte g 0 (root_chunk_agbno g)) (chunk_blocks g * bs g) = b;
}.

(** A first sector that a mount would take for a finished filesystem's. *)
Definition looks_finished (x : buf) : Prop :=
  be32 x Superblock.off.MAGICNUM = Ok Superblock.MAGIC /\
  index x Superblock.off.INPROGRESS = Ok 0.

Section Device.
Context {D : Type} `{DeviceSpec D}.

(** A request [compute] accepts, whose log fits its AG, on a working device. *)
Record request (env : Env) (params : Params) (d : D) (g : Geometry) : Prop := {
  rq_compute :
    compute params (dev_size d) (logical_sector_size d) (physical_sector_size d) = Ok g;
  rq_params : params_ok params;
  rq_tiled : p_agcount params = None \/ p_agsize params <> None \/ tiled g;
  rq_log : prealloc_blocks g + logblocks g + min_freelist g <= ag_blocks g (logagno g);
  rq_order : e_order env ≡ₚ seqZ 0 (agcount g);
  rq_uuid : length (run_uuid env params) = 16%nat;
  rq_time : time_in (bigtime (features g)) (run_time env params);
  rq_valid : valid d;
  rq_serves : serves_blocks d (bs g);
}.

Lemma plans_exist g : wf g ->
  prealloc_blocks g + logblocks g + min_freelist g <= ag_blocks g (logagno g) ->
  exists ps, plans g = Ok ps.
Proof.
  intros W Hfit. unfold plans.
  assert (forall l, (forall a, a ∈ l -> 0 <= a < agcount g) ->
    exists ps, collect (plan_ag g) l = Ok ps) as Hl.
  { induction l as [|a l IH]; intros Hin; [by exists []|].
    assert (0 <= a < agcount g) as Ha by (apply Hin; by left).
    destruct (ag_bounds g W a Ha) as (B1 & B2 & B3). pose proof (min_freelist_range g).
    destruct (plan_ag_exists g W a Ha) as (p & Hp & _).
    - unfold free_start. destruct (Z.eqb_spec a (logagno g)) as [->|]; lia.
    - destruct IH as (ps & Hps); [intros b Hb; apply Hin; by right|].
      exists (p :: ps). cbn [collect]. rewrite Hp. cbn [mbind result_bind]. by rewrite Hps. }
  apply Hl. intros a Ha%elem_of_seqZ. lia.
Qed.

(** Everything a run is made of. *)
Record running (env : Env) (params : Params) (d : D) (g : Geometry) (ps : list AgPlan)
    (logb : buf) (heads : Z -> buf) (chunk last : buf) : Prop := {
  rn_wf : wf g;
  rn_size : dblocks g * bs g <= dev_size d;
  rn_plans : plans g = Ok ps;
  rn_built : built_by g ps (run_uuid env params) (run_time env params) (run_gen env params)
    logb heads chunk last;
  rn_pieces : pieces_ok g ps (run_uuid env params) (run_time env params) (run_gen env params)
    logb heads chunk last;
  rn_format : forall order, order ≡ₚ e_order env ->
    format (mkEnv (e_uuid env) (e_seed env) (e_now env) order) params d =
      (run_ops (format_ops g (dev_size d) order logb heads chunk last);;
       mret (mkReport g (run_uuid env params) (rootino g) (planned_fdblocks ps))) d;
  rn_served : forall order, order ≡ₚ e_order env ->
    Forall (served d) (format_ops g (dev_size d) order logb heads chunk last);
}.

Lemma whole_served d g o : wf g -> valid d -> serves_blocks d (bs g) ->
  whole_blocks g (dev_size d) o -> served d o.
Proof.
  intros W Hv Hs (lo & cnt & H1 & H2 & H3 & Ho & Hl). destruct (header_bytes g W) as (_ & Hb & _).
  assert ((lo + cnt) * bs g <= dev_size d) as Hin.
  { pose proof (size_range d Hv). pose proof (Z.mul_div_le (dev_size d) (bs g)). nia. }
  unfold served. rewrite Ho, Hl. split_and!; [nia | nia |]. right.
  apply Hs; [nia | nia | apply Z.mod_mul; lia | apply Z.mod_mul; lia | lia].
Qed.

Lemma request_running env params d g : request env params d g ->
  exists ps logb heads chunk last, running env params d g ps logb heads chunk last.
Proof.
  intros [Ec Hp Ht Hl Ho Hu Htm Hv Hs]. pose proof (size_range d Hv) as Hr.
  destruct (compute_wf_lemma _ _ _ _ g Hp Hr Ec Ht) as [W Hsz].
  destruct (plans_exist g W Hl) as (ps & Hps).
  destruct (pieces_exist g ps _ _ (run_gen env params) W Hps Hu Htm)
    as (logb & chunk & last & Hb & Hpc).
  exists ps, logb, (head_of g ps (run_uuid env params)), chunk, last.
  split; try done.
  - intros order Hord. apply format_runs with (t := run_time env params) (gen := run_gen env params);
      try done. cbn [e_order]. intros a Ha. rewrite Hord, Ho in Ha. apply elem_of_seqZ in Ha. lia.
  - intros order Hord. eapply List.Forall_impl;
      [|eapply ops_whole; [done | done | by rewrite Hord | done]].
    intros o Hw. by eapply whole_served.
Qed.

Lemma env_eta env : mkEnv (e_uuid env) (e_seed env) (e_now env) (e_order env) = env.
Proof. by destruct env. Qed.
End Device.

(** * The image *)

(** The bytes of a range all of which was written by known requests. *)
Lemma bytes_of_written (f0 f : Z -> byte) ops off (b : buf) :
  (forall i, f i = default (f0 i) (last_written ops i)) ->
  (forall i, off <= i < off + Z.of_nat (length b) ->
     last_written ops i = b !! Z.to_nat (i - off)) ->
  bytes_of f off (Z.of_nat (length b)) = b.
Proof.
  intros Hf Hw. apply bytes_of_eq. intros i x Hx. pose proof (lookup_lt_Some _ _ _ Hx).
  rewrite Hf, Hw by lia. replace (Z.to_nat (off + Z.of_nat i - off)) with i by lia. by rewrite Hx.
Qed.

Section Image.
Variables (g : Geometry) (ps : list AgPlan) (uuid : buf) (t : Timestamp) (gen size : Z).
Variables (order : list Z) (logb : buf) (heads : Z -> buf) (chunk last : buf).
Variables (f0 f : Z -> byte).
Hypothesis W : wf g.
Hypothesis Hsize : dblocks g * bs g <= size.
Hypothesis Hord : order ≡ₚ seqZ 0 (agcount g).
Hypothesis Hpo : pieces_ok g ps uuid t gen logb heads chunk last.
Hypothesis Hf : forall i,
  f i = default (f0 i) (last_written (format_ops g size order logb heads chunk last) i).

Lemma image_head0 : exists p b, plan_ag g 0 = Ok p /\
  head_spec g p uuid (finished g uuid (planned_fdblocks ps)) b /\
  bytes_of f (agb_to_byte g 0 0) (prealloc_blocks g * bs g) = b.
Proof.
  pose proof (wf_agcount g W). destruct (header_bytes g W) as (_ & Hb & Hhb).
  pose proof (wf_header g W) as Hh. pose proof (wf_prealloc g W).
  destruct (po_last _ _ _ _ _ _ _ _ _ Hpo) as (p & b & Hp & Hs & Hl & Hr).
  exists p, b. split_and!; [done..|].
  pose proof (hs_length _ _ _ _ _ Hs) as Lb.
  replace (prealloc_blocks g * bs g) with (Z.of_nat (length b)) by lia.
  apply (bytes_of_written f0 f _ _ _ Hf). intros i Hi.
  destruct (head_byte g W 0 ltac:(lia)) as (E0 & _). rewrite E0, ?Z.mul_0_l in *.
  rewrite ?Z.mul_0_l, ?Z.sub_0_r in *.
  destruct (Z.lt_ge_cases i (header_blocks g * bs g)).
  - rewrite (last_written_first g ps uuid t gen size order logb heads chunk last W Hpo)
      by lia.
    apply slice_Ok in Hl as [_ ->]. rewrite Nat.sub_0_r, drop_0, lookup_take_lt by lia. done.
  - rewrite (head_written g ps uuid t gen size order logb heads chunk last W Hsize Hord Hpo 0)
      by (cbn [Z.eqb]; lia).
    rewrite ?Z.mul_0_l, ?Z.sub_0_r. apply Hr.
    pose proof (block_bytes_of g W) as (_ & _ & K3 & _). nia.
Qed.

Lemma image_head a : 0 < a < agcount g -> exists p b, plan_ag g a = Ok p /\
  head_spec g p uuid (ag_sbs g uuid (planned_fdblocks ps) a) b /\
  bytes_of f (agb_to_byte g a 0) (prealloc_blocks g * bs g) = b.
Proof.
  intros Ha. destruct (po_heads _ _ _ _ _ _ _ _ _ Hpo a ltac:(lia)) as (p & Hp & Hs).
  exists p, (heads a). split_and!; [done..|].
  rewrite <- (heads_length g ps uuid t gen logb heads chunk last W Hpo a)
    by lia.
  apply (bytes_of_written f0 f _ _ _ Hf). intros i Hi.
  destruct (head_byte g W a ltac:(lia)) as (E0 & _). rewrite E0 in *.
  rewrite (heads_length g ps uuid t gen logb heads chunk last W Hpo a) in Hi
    by lia.
  rewrite (head_written g ps uuid t gen size order logb heads chunk last W Hsize Hord Hpo a);
    [done | lia |]. destruct (Z.eqb_spec a 0); [lia|]. lia.
Qed.

Lemma run_image : image g uuid t gen (planned_fdblocks ps) f.
Proof.
  pose proof (logagno_range g W) as Hl. destruct (header_bytes g W) as (_ & Hb & _).
  destruct (po_heads _ _ _ _ _ _ _ _ _ Hpo (logagno g) ltac:(lia)) as (pl & Hpl & _).
  destruct (log_in_ag g W pl Hpl) as (El & _ & L3 & _).
  pose proof (pieces_lengths g ps uuid t gen logb heads chunk last W Hpo) as (P1 & P2 & _).
  pose proof (log_written g ps uuid t gen size order logb heads chunk last W Hsize Hord Hpo) as LW.
  split.
  - intros a Ha. destruct (decide (a = 0)) as [->|Hn].
    + rewrite <- (finished_final g uuid (planned_fdblocks ps) W). apply image_head0.
    + rewrite <- (ag_sbs_final g uuid (planned_fdblocks ps) a W Hn). apply image_head. lia.
  - exists logb. split; [apply Hpo|]. rewrite El.
    pose proof (bytes_of_written f0 f _ ((logagno g * agsize g + prealloc_blocks g) * bs g) logb Hf)
      as X. rewrite P1 in X. apply X. intros i Hi. rewrite LW by nia.
    destruct (Z.ltb_spec i ((logagno g * agsize g + prealloc_blocks g + 1) * bs g)); [done|lia].
  - rewrite El. intros i Hi. rewrite Hf, LW by nia.
    destruct (Z.ltb_spec i ((logagno g * agsize g + prealloc_blocks g + 1) * bs g)); [nia|done].
  - exists chunk. split; [apply Hpo|]. rewrite <- P2.
    destruct (chunk_op_blocks g W chunk P2) as [Oc _]. cbn [chunk_op op_off] in Oc. rewrite Oc.
    apply (bytes_of_written f0 f _ _ _ Hf). intros i Hi.
    apply (chunk_written g ps uuid t gen size order logb heads chunk last W Hsize Hpo). lia.
Qed.
End Image.

(** A run, and the image it leaves. *)
Lemma format_image {D} `{DeviceSpec D} env params (d : D) g : request env params d g ->
  exists ps d', plans g = Ok ps /\
    format env params d =
      (d', Ok (mkReport g (run_uuid env params) (rootino g) (planned_fdblocks ps))) /\
    later d d' /\
    image g (run_uuid env params) (run_time env params) (run_gen env params)
      (planned_fdblocks ps) (contents d').
Proof.
  intros R. destruct (request_running env params d g R) as (ps & logb & heads & chunk & last & Rn).
  destruct (run_ops_later d _ (rq_valid _ _ _ _ R) (rn_served _ _ _ _ _ _ _ _ _ Rn _ (reflexivity _)))
    as (d' & E & Lt & C).
  exists ps, d'. split; [apply Rn|]. split_and!; [|done|].
  - rewrite <- (env_eta env) at 1. rewrite (rn_format _ _ _ _ _ _ _ _ _ Rn) by done.
    by rewrite (io_bind_step _ _ _ _ _ E).
  - eapply run_image; [apply Rn | apply Rn | apply (rq_order _ _ _ _ R) | apply Rn | exact C].
Qed.

(** * Properties *)

(** ** The first sector *)

Lemma encode_signature g sbs x : wf g -> length (Superblock.uuid sbs) = 16%nat ->
  Superblock.encode g sbs (zeroes (Z.to_nat (sectsize g))) = Ok x ->
  be32 x Superblock.off.MAGICNUM = Ok Superblock.MAGIC /\
  index x Superblock.off.INPROGRESS = Ok (Z.b2z (inprogress sbs)).
Proof.
  intros W Hu E. destruct (block_bytes_of g W) as (_ & K & _).
  destruct (encode_sealed g sbs (zeroes (Z.to_nat (sectsize g)))) as (x' & E' & S);
    rewrite ?length_zeroes; [lia | lia | done | apply (wf_label g W) |].
  assert (x' = x) as -> by congruence. unfold fields, log_sector_fields in S.
  split; destruct (big_sectors g).
  all: read_sealed S; try done; by destruct (inprogress sbs).
Qed.

(** The first sector of an AG head says whether its superblock is finished. *)
Lemma head_looks g p uuid sbs b : wf g -> length (Superblock.uuid sbs) = 16%nat ->
  head_spec g p uuid sbs b ->
  (looks_finished (take (Z.to_nat (sectsize g)) b) <-> inprogress sbs = false).
Proof.
  intros W Hu Hs. destruct (hs_sb _ _ _ _ _ Hs) as (x & Hx & E).
  destruct (encode_signature g sbs x W Hu E) as [Em Ei].
  apply slice_Ok in Hx as [_ Hx]. rewrite Nat.sub_0_r, drop_0 in Hx. subst x.
  unfold looks_finished. rewrite Em, Ei. destruct (inprogress sbs); cbn; split; intros Hl; try done.
  by destruct Hl.
Qed.

Lemma zeroes_unfinished n : ~ looks_finished (zeroes n).
Proof.
  unfold looks_finished, be32, slice, Superblock.off.MAGICNUM. rewrite length_zeroes.
  destruct (_ && _) eqn:E; [|by intros []]. apply andb_true_iff in E as [_ E%Nat.leb_le].
  destruct n as [|[|[|[|m]]]]; [lia..|]. intros [Hm _]. vm_compute in Hm. done.
Qed.

(** The first sector of a range of bytes that starts with a buffer's. *)
Lemma first_sector g (f : Z -> byte) n (b : buf) : wf g -> sectsize g <= n ->
  bytes_of f 0 n = b -> bytes_of f 0 (sectsize g) = take (Z.to_nat (sectsize g)) b.
Proof.
  intros W Hn <-. destruct (block_bytes_of g W) as (_ & K & _).
  replace n with (sectsize g + (n - sectsize g)) by lia.
  rewrite bytes_of_app, take_app_length' by (rewrite ?length_bytes_of by lia; lia). done.
Qed.

Lemma sector_in_header g : wf g -> 512 <= sectsize g <= header_blocks g * bs g.
Proof.
  intros W. destruct (block_bytes_of g W) as (_ & K1 & K2 & _).
  destruct (header_bytes g W) as (_ & Hb0 & Hb1). nia.
Qed.

(** The first sector after writes that cover it with known bytes. *)
Lemma bytes_of_prefix g (f0 f : Z -> byte) ops (b : buf) : wf g ->
  (forall i, f i = default (f0 i) (last_written ops i)) ->
  length b = Z.to_nat (sectsize g) ->
  (forall i, 0 <= i < sectsize g -> last_written ops i = b !! Z.to_nat i) ->
  bytes_of f 0 (sectsize g) = b.
Proof.
  intros W C Hl Hw. pose proof (sector_in_header g W).
  pose proof (bytes_of_written f0 f ops 0 b C) as X. rewrite Hl, Z2Nat.id in X by lia.
  apply X. intros i Hi. rewrite Hw by lia. f_equal. lia.
Qed.

(** After any non-empty prefix of the requests before the last write. *)
Lemma prefix_looks_unfinished g ps uuid t gen size order logb heads chunk last k f0 f :
  wf g -> dblocks g * bs g <= size -> order ≡ₚ seqZ 0 (agcount g) ->
  pieces_ok g ps uuid t gen logb heads chunk last -> length uuid = 16%nat -> (0 < k)%nat ->
  (forall i, f i = default (f0 i)
     (last_written (take k (unfinished_ops g size order logb heads chunk)) i)) ->
  ~ looks_finished (bytes_of f 0 (sectsize g)).
Proof.
  intros W Hsz Ho Hpo Hu Hk C. pose proof (sector_in_header g W) as Hsec.
  pose proof (wf_agcount g W). destruct (header_bytes g W) as (_ & Hb0 & Hb1).
  destruct (first_blocks_unfinished g ps _ _ _ _ _ _ _ _ _ W Hsz Ho Hpo k Hk) as [Z0|Z0].
  - rewrite (bytes_of_prefix g f0 f _ (zeroes (Z.to_nat (sectsize g))) W C);
      [apply zeroes_unfinished | apply length_zeroes |].
    intros i Hi. rewrite Z0 by lia. symmetry. apply lookup_replicate_2. lia.
  - destruct (po_heads _ _ _ _ _ _ _ _ _ Hpo 0 ltac:(lia)) as (p & _ & Hh).
    rewrite (bytes_of_prefix g f0 f _ (take (Z.to_nat (sectsize g)) (heads 0)) W C).
    + pose proof (fun Hu => head_looks _ _ _ _ _ W Hu Hh) as L. by rewrite (L Hu).
    + rewrite length_take, (hs_length _ _ _ _ _ Hh). lia.
    + intros i Hi. by rewrite Z0, lookup_take_lt by lia.
Qed.

(** With the last write made, flushed or not, the first sector is a finished
    superblock. *)
Lemma finished_looks g ps uuid t gen size order logb heads chunk last k f0 f :
  wf g -> dblocks g * bs g <= size -> order ≡ₚ seqZ 0 (agcount g) ->
  pieces_ok g ps uuid t gen logb heads chunk last -> length uuid = 16%nat ->
  let ops := format_ops g size order logb heads chunk last in
  (length ops <= k + 1)%nat ->
  (forall i, f i = default (f0 i) (last_written (take k ops) i)) ->
  looks_finished (bytes_of f 0 (sectsize g)).
Proof.
  intros W Hsz Ho Hpo Hu ops Hk C. pose proof (sector_in_header g W) as Hsec.
  pose proof (wf_agcount g W). destruct (header_bytes g W) as (_ & Hb0 & Hb1).
  destruct (head_byte g W 0 ltac:(lia)) as (E0 & _). rewrite !Z.mul_0_l in E0.
  assert (forall i, last_written (take k ops) i = last_written ops i) as Hl.
  { intros i. destruct (Nat.le_gt_cases (length ops) k); [by rewrite take_ge|].
    subst ops. unfold format_ops in *. rewrite length_app in *. cbn [length] in *.
    rewrite take_app_ge by lia. replace (k - _)%nat with 1%nat by lia. by rewrite !last_written_app. }
  setoid_rewrite Hl in C.
  destruct (image_head0 g ps _ _ _ _ _ _ _ _ _ _ _ W Hsz Ho Hpo C) as (p & b & _ & Hh & Hb).
  rewrite E0 in Hb. assert (sectsize g <= prealloc_blocks g * bs g) as Hn by lia.
  rewrite (first_sector g _ _ _ W Hn Hb). pose proof (fun Hu => head_looks _ _ _ _ _ W Hu Hh) as L.
  by rewrite (L Hu).
Qed.

Section Properties.
Context {D : Type} `{DeviceSpec D}.
Variables (env : Env) (params : Params) (d : D) (g : Geometry).

(** C1: a format that [compute] accepts, with a log that fits its AG, on any
    device that keeps the interface's promises, succeeds and leaves the whole
    image in place: every AG's head with its plan's superblock, headers,
    free list and btrees, all checksums good; the log's record and zeroes
    after it; the root inode chunk with its three inodes.  Whatever order the
    AG writes complete in. *)
Theorem format_leaves_the_image : request env params d g ->
  exists ps d', plans g = Ok ps /\
    format env params d =
      (d', Ok (mkReport g (run_uuid env params) (rootino g) (planned_fdblocks ps))) /\
    valid d' /\ dev_size d' = dev_size d /\
    image g (run_uuid env params) (run_time env params) (run_gen env params)
      (planned_fdblocks ps) (contents d').
Proof.
  intros R. destruct (format_image env params d g R) as (ps & d' & Hp & E & Lt & I).
  exists ps, d'. split_and!; [done | done | apply Lt | apply Lt | done].
Qed.

(** The order in which the concurrent AG writes take effect does not
    matter: with any other completion order [format] returns the same report
    and leaves the same bytes. *)
Theorem ag_writes_commute order : request env params d g -> order ≡ₚ e_order env ->
  exists d1 d2 r, format env params d = (d1, Ok r) /\
    format (mkEnv (e_uuid env) (e_seed env) (e_now env) order) params d = (d2, Ok r) /\
    forall i, contents d1 i = contents d2 i.
Proof.
  intros R Ho. destruct (request_running env params d g R) as (ps & logb & heads & chunk & last & Rn).
  pose proof (rn_served _ _ _ _ _ _ _ _ _ Rn) as Hs. pose proof (rq_valid _ _ _ _ R) as V.
  destruct (run_ops_ok d _ V (Hs _ (reflexivity _))) as (d1 & E1 & _ & _ & _ & C1).
  destruct (run_ops_ok d _ V (Hs _ Ho)) as (d2 & E2 & _ & _ & _ & C2).
  eexists d1, d2, _. split_and!.
  - rewrite <- (env_eta env) at 1. rewrite (rn_format _ _ _ _ _ _ _ _ _ Rn) by done.
    by rewrite (io_bind_step _ _ _ _ _ E1).
  - rewrite (rn_format _ _ _ _ _ _ _ _ _ Rn) by done. by rewrite (io_bind_step _ _ _ _ _ E2).
  - intros i. rewrite C1, C2. f_equal. unfold format_ops, unfinished_ops.
    rewrite !last_written_app.
    rewrite (last_written_perm (ag_op g heads <$> e_order env) (ag_op g heads <$> order));
      [done | by rewrite Ho |].
    eapply heads_disjoint; [apply Rn | apply Rn | apply (rq_order _ _ _ _ R) | apply Rn].
Qed.

(** C25: every request [format] makes is a whole number of filesystem blocks
    at a block boundary, inside the device, as [device.rs] promises of this
    crate: a run is exactly the requests [format_ops] lists, and each of them
    is such. *)
Theorem format_writes_whole_blocks : request env params d g ->
  exists ps logb heads chunk last,
    built_by g ps (run_uuid env params) (run_time env params) (run_gen env params)
      logb heads chunk last /\
    let ops := format_ops g (dev_size d) (e_order env) logb heads chunk last in
    format env params d = (run_ops ops;;
      mret (mkReport g (run_uuid env params) (rootino g) (planned_fdblocks ps))) d /\
    Forall (fun o => op_off o mod bs g = 0 /\ op_len o mod bs g = 0 /\ 0 <= op_off o /\
              0 <= op_len o /\ op_off o + op_len o <= dev_size d) ops.
Proof.
  intros R. destruct (request_running env params d g R) as (ps & logb & heads & chunk & last & Rn).
  pose proof (rn_wf _ _ _ _ _ _ _ _ _ Rn) as W. destruct (header_bytes g W) as (_ & Hb & _).
  exists ps, logb, heads, chunk, last. split; [apply Rn|]. split.
  - rewrite <- (env_eta env) at 1. by apply (rn_format _ _ _ _ _ _ _ _ _ Rn).
  - eapply List.Forall_impl; [|eapply ops_whole; [done | apply Rn | apply R | apply Rn]].
    intros o (lo & cnt & H1 & H2 & H3 & -> & ->).
    pose proof (Z.mul_div_le (dev_size d) (bs g) ltac:(lia)).
    split_and!; [apply Z.mod_mul; lia | apply Z.mod_mul; lia | nia..].
Qed.

(** C2: where a format is cut short, after how many of its requests, shows on
    the device.  Before the first the device is as it was.  After it, and until
    the last write has been made, the primary sector is zeroed or carries the
    in-progress flag and is no finished superblock.  With the last write it
    is one: only the flush after it may be missing. *)
Theorem interrupted_format_looks_unfinished : request env params d g ->
  exists ps logb heads chunk last,
    built_by g ps (run_uuid env params) (run_time env params) (run_gen env params)
      logb heads chunk last /\
    let ops := format_ops g (dev_size d) (e_order env) logb heads chunk last in
    format env params d = (run_ops ops;;
      mret (mkReport g (run_uuid env params) (rootino g) (planned_fdblocks ps))) d /\
    forall k, (k <= length ops)%nat ->
      exists d', run_ops (take k ops) d = (d', Ok tt) /\
        (k = 0%nat -> d' = d) /\
        ((0 < k)%nat -> (looks_finished (bytes_of (contents d') 0 (sectsize g)) <->
                         (length ops <= k + 1)%nat)).
Proof.
  intros R. destruct (request_running env params d g R) as (ps & logb & heads & chunk & last & Rn).
  pose proof (rn_wf _ _ _ _ _ _ _ _ _ Rn) as W. pose proof (rn_pieces _ _ _ _ _ _ _ _ _ Rn) as Hpo.
  pose proof (rn_served _ _ _ _ _ _ _ _ _ Rn _ (reflexivity _)) as Hs.
  pose proof (rq_valid _ _ _ _ R) as V.
  exists ps, logb, heads, chunk, last. split; [apply Rn|]. split.
  { rewrite <- (env_eta env) at 1. by apply (rn_format _ _ _ _ _ _ _ _ _ Rn). }
  set (ops := format_ops _ _ _ _ _ _ _) in *. intros k Hk.
  destruct (run_ops_ok d _ V (Forall_take _ k _ Hs)) as (d' & E & _ & _ & _ & C).
  exists d'. split; [done|]. split; [intros ->; by injection E|]. intros Hk0.
  destruct (Nat.le_gt_cases (k + 2) (length ops)) as [Hle|Hgt].
  - split; [|lia]. intros L. exfalso. revert L. unfold ops, format_ops in *.
    rewrite length_app in Hle. cbn [length] in Hle. rewrite take_app_le in C by lia.
    by eapply prefix_looks_unfinished;
      [apply Rn | apply Rn | apply (rq_order _ _ _ _ R) | exact Hpo | apply R | exact Hk0 |].
  - split; [lia|]. intros _.
    eapply finished_looks; [exact W | apply Rn | apply (rq_order _ _ _ _ R) | exact Hpo | apply R | | exact C].
    fold ops. lia.
Qed.

(** C26: nothing is written when the geometry or a plan is refused: [format]
    returns the error and the device, whatever it is, is left as it was. *)
Theorem refused_format_writes_nothing {D'} `{BlockDevice D'} (d' : D') e :
  (compute params (dev_size d') (logical_sector_size d') (physical_sector_size d') = Err e \/
   exists g', compute params (dev_size d') (logical_sector_size d') (physical_sector_size d') = Ok g' /\
     plans g' = Err e) ->
  format env params d' = (d', Err e).
Proof.
  intros [E|(g' & E & Ep)]; unfold format, asks; rewrite io_bind_eq.
  - by rewrite io_bind_eq, E.
  - by rewrite E, lift_bind, io_bind_eq, Ep.
Qed.
End Properties.

(** * Witnesses *)

(** A 512 MiB device of 512-byte sectors that insists on alignment, the
    defaults of [Params::new], and AG writes that complete out of order. *)
Definition env0 : Env :=
  mkEnv (replicate 16 (byte.of_Z 7)) (replicate 32 (byte.of_Z 1)) (mkTimestamp 1700000000 5)
    [2; 0; 3; 1].
Definition dev0 : MemDevice := Mem_strict (512 * MIB) 512.

Lemma request0 : request env0 Params_new dev0 geo512m.
Proof.
  split.
  - exact geo512m_computed.
  - apply params_ok_new.
  - by left.
  - by vm_compute.
  - apply (bool_decide_unpack _). by vm_compute.
  - done.
  - by vm_compute.
  - split; [|by vm_compute]. apply map_Forall_empty.
  - intros off len Ho Hl Eo El Hin. cbn. unfold Mem_accepts. apply andb_true_iff.
    split; [by apply Z.leb_le|]. unfold aligned, dev0. cbn [m_strict m_logical Mem_strict].
    change (bs geo512m) with (8 * 512) in *. apply orb_true_iff. right.
    apply andb_true_iff. split; apply Z.eqb_eq.
    + apply Z.mod_divide in Eo as [c ->]; [|done]. rewrite Z.mul_assoc. by apply Z.mod_mul.
    + apply Z.mod_divide in El as [c ->]; [|done]. rewrite Z.mul_assoc. by apply Z.mod_mul.
Qed.

Lemma format_leaves_the_image_witness : exists ps d', plans geo512m = Ok ps /\
  format env0 Params_new dev0 =
    (d', Ok (mkReport geo512m (e_uuid env0) (rootino geo512m) (planned_fdblocks ps))) /\
  valid d' /\ dev_size d' = dev_size dev0 /\
  image geo512m (e_uuid env0) (e_now env0) (run_gen env0 Params_new) (planned_fdblocks ps)
    (contents d').
Proof. apply (format_leaves_the_image env0 Params_new dev0 geo512m request0). Defined.

Lemma ag_writes_commute_witness : exists d1 d2 r,
  format env0 Params_new dev0 = (d1, Ok r) /\
  format (mkEnv (e_uuid env0) (e_seed env0) (e_now env0) [0; 1; 2; 3]) Params_new dev0
    = (d2, Ok r) /\
  forall i, contents d1 i = contents d2 i.
Proof.
  apply (ag_writes_commute env0 Params_new dev0 geo512m [0; 1; 2; 3] request0).
  apply (bool_decide_unpack _). by vm_compute.
Defined.

Lemma format_writes_whole_blocks_witness : exists ps logb heads chunk last,
  built_by geo512m ps (e_uuid env0) (e_now env0) (run_gen env0 Params_new)
    logb heads chunk last /\
  let ops := format_ops geo512m (dev_size dev0) (e_order env0) logb heads chunk last in
  format env0 Params_new dev0 = (run_ops ops;;
    mret (mkReport geo512m (e_uuid env0) (rootino geo512m) (planned_fdblocks ps))) dev0 /\
  Forall (fun o => op_off o mod 4096 = 0 /\ op_len o mod 4096 = 0 /\ 0 <= op_off o /\
            0 <= op_len o /\ op_off o + op_len o <= 512 * MIB) ops.
Proof. apply (format_writes_whole_blocks env0 Params_new dev0 geo512m request0). Defined.

Lemma interrupted_format_looks_unfinished_witness : exists ps logb heads chunk last,
  built_by geo512m ps (e_uuid env0) (e_now env0) (run_gen env0 Params_new)
    logb heads chunk last /\
  let ops := format_ops geo512m (dev_size dev0) (e_order env0) logb heads chunk last in
  format env0 Params_new dev0 = (run_ops ops;;
    mret (mkReport geo512m (e_uuid env0) (rootino geo512m) (planned_fdblocks ps))) dev0 /\
  forall k, (k <= length ops)%nat ->
    exists d', run_ops (take k ops) dev0 = (d', Ok tt) /\ (k = 0%nat -> d' = dev0) /\
      ((0 < k)%nat -> (looks_finished (bytes_of (contents d') 0 512) <-> (length ops <= k + 1)%nat)).
Proof. apply (interrupted_format_looks_unfinished env0 Params_new dev0 geo512m request0). Defined.

Lemma refused_format_writes_nothing_witness : exists e,
  format env0 Params_new (Mem_new (100 * MIB)) = (Mem_new (100 * MIB), Err e).
Proof.
  eexists. apply (refused_format_writes_nothing env0 Params_new (Mem_new (100 * MIB))).
  left. vm_compute. reflexivity.
Defined.
