(* ===== verification/Fanout.v ===== *)
(** [src/src/format.rs], the concurrent loop over the allocation groups:
    [stream::iter(0..agcount).map(..).buffer_unordered(AG_CONCURRENCY)
    .try_collect()].

    The tasks of the loop are started in order, at most [limit] of them in
    flight; each writes the device when its write is served and is collected
    later, in any order; the first error collected ends the loop and drops
    what is in flight.  A [move] is what the executor may do next and
    [fan_move] is its effect, so that a schedule is a list of moves.  The
    theorems are about the formatter: every schedule of a format can be
    carried on to its report and none is longer than three moves a task
    ([every_schedule_ends]); and it leaves the image under all of them
    ([every_schedule_leaves_the_image]).  What carries them is that a loop
    that ends well has run its tasks one after another in some order
    ([fan_finished]), one the window admits. *)

From Stdlib Require Import ZArith Lia Permutation String.
From stdpp Require Import base tactics list numbers.
From coqutil Require Import Byte Word.LittleEndianList.
From S2P Require Import Prelude Bytes Geometry GeometryFacts Structs Superblock Device Plan PlanFacts.
From S2P Require Import Io Format FormatFacts.

Definition AG_CONCURRENCY : nat := 32.

(** What the executor may do: poll the stream for its next task, poll a task
    until its write is served, collect a finished task, see that nothing is
    left. *)
Inductive move : Type := Start | Land (i : nat) | Take (i : nat) | Finish.

(** coqutil takes these hints away. *)
#[local] Existing Instances Permutation_app' Permutation_cons.

Section Fan.
Context {D : Type}.
Variables (task : Z -> io D unit) (count : Z) (limit : nat).

(** The next task, those in flight with what their write returned, how many
    were collected, and how the loop ended. *)
Record Fan : Type := mkFan {
  f_dev : D;
  f_next : Z;
  f_flying : list (Z * option (result unit));
  f_collected : nat;
  f_end : option (result unit);
}.
Definition fan_init (d : D) : Fan := mkFan d 0 [] 0 None.

Definition fan_move (m : move) (s : Fan) : option Fan :=
  match f_end s, m with
  | Some _, _ => None
  | None, Start =>
      if (f_next s <? count) && (length (f_flying s) <? limit)%nat
      then Some (mkFan (f_dev s) (f_next s + 1) (f_flying s ++ [(f_next s, None)]) (f_collected s) None)
      else None
  | None, Land i =>
      match f_flying s !! i with
      | Some (a, None) =>
          let '(d, r) := task a (f_dev s) in
          let stop := match r with Ok _ | Err _ => None | _ => Some r end in
          Some (mkFan d (f_next s) (<[i := (a, Some r)]> (f_flying s)) (f_collected s) stop)
      | _ => None
      end
  | None, Take i =>
      match f_flying s !! i with
      | Some (_, Some (Ok _)) =>
          Some (mkFan (f_dev s) (f_next s) (delete i (f_flying s)) (S (f_collected s)) None)
      | Some (_, Some r) => Some (mkFan (f_dev s) (f_next s) [] (f_collected s) (Some r))
      | _ => None
      end
  | None, Finish =>
      if (f_next s =? count) && (length (f_flying s) =? 0)%nat
      then Some (mkFan (f_dev s) (f_next s) [] (f_collected s) (Some (Ok tt)))
      else None
  end.

(** A schedule. *)
Fixpoint fan_run (ms : list move) (s : Fan) : option Fan :=
  match ms with
  | [] => Some s
  | m :: ms => s ← fan_move m s; fan_run ms s
  end.

(** Tasks one after another, whatever they return. *)
Fixpoint run_tasks (order : list Z) (d : D) : D * list (result unit) :=
  match order with
  | [] => (d, [])
  | a :: order =>
      let '(d, r) := task a d in
      let '(d, rs) := run_tasks order d in (d, r :: rs)
  end.

(** The order in which tasks can land: none overtakes [limit] others. *)
Definition admitted (order : list Z) : Prop :=
  forall p a, order !! p = Some a -> a < Z.of_nat p + Z.of_nat limit.

(** * Lemmas *)

Lemma fan_run_app ms1 ms2 s : fan_run (ms1 ++ ms2) s = s ← fan_run ms1 s; fan_run ms2 s.
Proof.
  revert s. induction ms1 as [|m ms1 IH]; intros s; [done|]. cbn.
  destruct (fan_move m s); cbn; [apply IH | done].
Qed.

Lemma run_tasks_snoc order a d :
  run_tasks (order ++ [a]) d =
    (let '(d1, rs) := run_tasks order d in let '(d2, r) := task a d1 in (d2, rs ++ [r])).
Proof.
  revert d. induction order as [|b order IH]; intros d; cbn; [by destruct (task a d)|].
  destruct (task b d) as [d1 r1]. rewrite IH. destruct (run_tasks order d1) as [d2 rs].
  by destruct (task a d2).
Qed.

Lemma run_tasks_length order d : length (snd (run_tasks order d)) = length order.
Proof.
  revert d. induction order as [|b order IH]; intros d; [done|]. cbn.
  destruct (task b d) as [d1 r1]. specialize (IH d1). destruct (run_tasks order d1). cbn in *. lia.
Qed.

(** All of them done is a loop that went through. *)
Lemma run_tasks_ok order d : Forall (eq (Ok tt)) (snd (run_tasks order d)) ->
  io_for task order d = (fst (run_tasks order d), Ok tt).
Proof.
  revert d. induction order as [|b order IH]; intros d Hr; [done|]. cbn in *.
  destruct (task b d) as [d1 r1] eqn:E. specialize (IH d1). rewrite io_bind_eq, E.
  destruct (run_tasks order d1) as [d2 rs]. cbn in *. inversion Hr; subst. by apply IH.
Qed.

(** What a task in flight has landed. *)
Definition landed (f : Z * option (result unit)) : option (Z * result unit) :=
  (fun r => (fst f, r)) <$> snd f.

(** The state after the tasks [order] landed on [d0], [taken] of which were
    collected. *)
Record fan_inv (d0 : D) (order taken : list Z) (s : Fan) : Prop := {
  fi_dev : fst (run_tasks order d0) = f_dev s;
  fi_next : 0 <= f_next s <= count;
  fi_limit : (length (f_flying s) <= limit)%nat;
  fi_count : f_collected s = length taken;
  fi_all : taken ++ (f_flying s).*1 ≡ₚ seqZ 0 (f_next s);
  fi_landed : zip order (snd (run_tasks order d0)) ≡ₚ
    ((fun a => (a, Ok tt)) <$> taken) ++ omap landed (f_flying s);
  fi_admitted : admitted order;
}.

Lemma fan_inv_init d0 : 0 <= count -> fan_inv d0 [] [] (fan_init d0).
Proof. intros Hc. split; cbn; done || lia. Qed.

Lemma fan_inv_lengths d0 order taken s : fan_inv d0 order taken s ->
  (length taken + length (f_flying s) = Z.to_nat (f_next s))%nat /\ (length taken <= length order)%nat /\
  forall i a o, f_flying s !! i = Some (a, o) -> 0 <= a < f_next s.
Proof.
  intros I. pose proof (Permutation_length (fi_all _ _ _ _ I)) as L1.
  pose proof (Permutation_length (fi_landed _ _ _ _ I)) as L2.
  rewrite length_app, length_fmap, length_seqZ in L1.
  rewrite length_app, length_fmap, length_zip_with, run_tasks_length in L2.
  split_and!; [lia | lia |]. intros i a o Hi.
  assert (a ∈ seqZ 0 (f_next s)) as Ha%elem_of_seqZ; [|lia].
  rewrite <- (fi_all _ _ _ _ I). apply elem_of_app. right.
  apply list_elem_of_fmap. exists (a, o). split; [done|]. by eapply list_elem_of_lookup_2.
Qed.

(** Every move keeps it, as long as the loop goes on or a task just landed. *)
Lemma fan_inv_move d0 order taken m s s' : fan_inv d0 order taken s -> fan_move m s = Some s' ->
  f_end s' = None \/ (exists i, m = Land i) -> exists order' taken', fan_inv d0 order' taken' s'.
Proof.
  intros I Hm He. destruct (fan_inv_lengths _ _ _ _ I) as (L1 & L2 & Hb).
  destruct I as [Id In Il Ic Ia Io Iw]. destruct s as [d next fl col en]. cbn [f_dev f_next f_flying f_collected f_end] in *.
  unfold fan_move in Hm. cbn [f_dev f_next f_flying f_collected f_end] in Hm. destruct en; [done|].
  destruct m as [|i|i|].
  - destruct (Z.ltb_spec next count), (Nat.ltb_spec (length fl) limit); cbn in Hm; try done.
    injection Hm as <-. exists order, taken. split; cbn; try done; try lia.
    + rewrite length_app. cbn. lia.
    + rewrite fmap_app, app_assoc, seqZ_app by lia. by apply Permutation_app_tail.
    + rewrite omap_app. cbn. by rewrite app_nil_r.
  - destruct (fl !! i) as [[a [r|]]|] eqn:Hi; [done| |done].
    destruct (task a d) as [d' r] eqn:Et. injection Hm as <-.
    specialize (Hb i a None Hi). apply list_elem_of_split_length in Hi as (l1 & l2 & -> & ->).
    exists (order ++ [a]), taken.
    pose proof (run_tasks_snoc order a d0) as Es. destruct (run_tasks order d0) as [d1 rs] eqn:Er.
    cbn [fst snd] in *. subst d1. rewrite Et in Es.
    rewrite <- (Nat.add_0_r (length l1)), insert_app_r. cbn [insert list_insert].
    split; cbn [f_dev f_next f_flying f_collected f_end]; rewrite ?Es; cbn [fst snd]; try done.
    + rewrite length_app in *. cbn in *. lia.
    + rewrite fmap_app in *. done.
    + rewrite zip_with_app by (pose proof (run_tasks_length order d0) as Hl; rewrite Er in Hl; done).
      rewrite Io, !omap_app. cbn. rewrite <- !app_assoc. apply Permutation_app_head. solve_Permutation.
    + intros p b. rewrite lookup_app. destruct (order !! p) eqn:Hp; [intros [= <-]; by apply Iw|].
      apply lookup_ge_None in Hp. intros Hq. apply list_lookup_singleton_Some in Hq as [Hq <-].
      rewrite length_app in *. cbn in *. lia.
  - destruct (fl !! i) as [[a [[[]|e| |]|]]|] eqn:Hi; try done; injection Hm as <-;
      try (destruct He as [|[]]; done).
    apply list_elem_of_split_length in Hi as (l1 & l2 & -> & ->). rewrite delete_middle.
    exists order, (taken ++ [a]). split; cbn [f_dev f_next f_flying f_collected f_end]; try done.
    + rewrite length_app in *. cbn in *. lia.
    + rewrite length_app. cbn. lia.
    + rewrite <- Ia, !fmap_app. cbn. solve_Permutation.
    + rewrite Io, !omap_app, fmap_app. cbn. solve_Permutation.
  - destruct (_ && _); [|done]. injection Hm as <-. by destruct He as [|[]].
Qed.

Lemma fan_inv_run d0 ms s order taken s0 : fan_inv d0 order taken s0 -> fan_run ms s0 = Some s ->
  f_end s = None -> exists order' taken', fan_inv d0 order' taken' s.
Proof.
  revert s0 order taken. induction ms as [|m ms IH]; intros s0 order taken I Hr He.
  - injection Hr as <-. by exists order, taken.
  - cbn in Hr. apply bind_Some in Hr as (s1 & Hm & Hr).
    assert (f_end s1 = None) as He1.
    { destruct (f_end s1) eqn:E1; [|done]. destruct ms as [|m' ms]; [cbn in Hr; congruence|].
      cbn in Hr. unfold fan_move in Hr. by rewrite E1 in Hr. }
    destruct (fan_inv_move _ _ _ _ _ _ I Hm (or_introl He1)) as (o1 & t1 & I1). by eapply IH.
Qed.

(** How a schedule that ended got there: the last move but for which the loop
    was going on. *)
Lemma fan_run_end ms d0 s r : 0 <= count -> fan_run ms (fan_init d0) = Some s -> f_end s = Some r ->
  exists m s1 order taken, fan_inv d0 order taken s1 /\ f_end s1 = None /\ fan_move m s1 = Some s.
Proof.
  intros Hc Hr He. destruct ms as [|m ms _] using rev_ind; [by injection Hr as <-|].
  rewrite fan_run_app in Hr. apply bind_Some in Hr as (s1 & Hr & Hm). cbn in Hm.
  apply bind_Some in Hm as (s2 & Hm & [= ->]). exists m, s1.
  assert (f_end s1 = None) as H1 by (unfold fan_move in Hm; by destruct (f_end s1)).
  destruct (fan_inv_run d0 ms s1 [] [] _ (fan_inv_init d0 Hc) Hr H1) as (order & taken & I).
  by exists order, taken.
Qed.

Lemma landed_sublist fl : (omap landed fl).*1 `sublist_of` fl.*1.
Proof.
  induction fl as [|[a [r|]] fl IH]; [constructor|..]; cbn [omap list_omap landed fmap list_fmap fst snd
    option_fmap option_map]; by constructor.
Qed.

(** No task lands twice, and only those of the loop do. *)
Lemma fan_inv_order d0 order taken s : fan_inv d0 order taken s ->
  NoDup order /\ forall b, b ∈ order -> 0 <= b < count.
Proof.
  intros [_ In _ _ Ia Io _]. pose proof (run_tasks_length order d0) as Hl.
  assert (order ≡ₚ taken ++ (omap landed (f_flying s)).*1) as Ho.
  { rewrite <- (fst_zip order (snd (run_tasks order d0))) by lia.
    rewrite Io, fmap_app, <- list_fmap_compose. cbn. by rewrite list_fmap_id. }
  assert (order ⊆+ seqZ 0 (f_next s)) as Hs.
  { rewrite Ho, <- Ia. apply submseteq_app; [done|]. apply sublist_submseteq, landed_sublist. }
  split.
  { apply submseteq_Permutation in Hs as [k Hk]. pose proof (NoDup_seqZ 0 (f_next s)) as Hd.
    rewrite Hk in Hd. by apply list.NoDup_app in Hd as [? _]. }
  intros b Hb. apply (elem_of_submseteq _ _ _ Hb) in Hs. apply elem_of_seqZ in Hs. lia.
Qed.

Lemma run_tasks_at pre a post d0 :
  snd (run_tasks (pre ++ a :: post) d0) !! length pre = Some (snd (task a (fst (run_tasks pre d0)))).
Proof.
  revert d0. induction pre as [|b pre IH]; intros d0; cbn.
  - destruct (task a d0) as [d1 r]. by destruct (run_tasks post d1).
  - destruct (task b d0) as [d1 r]. specialize (IH d1). destruct (run_tasks pre d1), (run_tasks (pre ++ a :: post) d1).
    exact IH.
Qed.

(** A loop that goes through has run all of its tasks well. *)
Lemma io_for_at pre a post d d' : io_for task (pre ++ a :: post) d = (d', Ok tt) ->
  snd (task a (fst (run_tasks pre d))) = Ok tt.
Proof.
  revert d. induction pre as [|b pre IH]; intros d E; cbn in *; rewrite io_bind_eq in E.
  - by destruct (task a d) as [d1 [[]|e| |]].
  - destruct (task b d) as [d1 [[]|e| |]]; [|done..]. specialize (IH d1 E). by destruct (run_tasks pre d1).
Qed.

(** ** A loop that went through *)

Lemma fan_finished ms d0 s : 0 <= count -> fan_run ms (fan_init d0) = Some s -> f_end s = Some (Ok tt) ->
  exists order, order ≡ₚ seqZ 0 count /\ admitted order /\ f_collected s = Z.to_nat count /\
    io_for task order d0 = (f_dev s, Ok tt).
Proof.
  intros Hc Hr He. destruct (fan_run_end ms d0 s _ Hc Hr He) as (m & s1 & order & taken & I & E1 & Hm).
  pose proof (run_tasks_length order d0) as Hl. pose proof (run_tasks_ok order d0) as Hok.
  destruct (fan_inv_lengths _ _ _ _ I) as (L1 & _).
  destruct I as [Id _ _ Ic Ia Io Iw]. unfold fan_move in Hm. rewrite E1 in Hm. destruct m as [|i|i|].
  - destruct (_ && _); [|done]. by injection Hm as <-.
  - destruct (f_flying s1 !! i) as [[a [o|]]|]; [done| |done]. destruct (task a (f_dev s1)) as [d' r].
    injection Hm as <-. cbn in He. by destruct r.
  - destruct (f_flying s1 !! i) as [[a [[[]|e| |]|]]|]; try done; by injection Hm as <-.
  - destruct (Z.eqb_spec (f_next s1) count) as [En|], (Nat.eqb_spec (length (f_flying s1)) 0) as [Ef|]; try done.
    apply length_zero_iff_nil in Ef. cbn in Hm. injection Hm as <-. cbn [f_dev f_collected].
    rewrite Ef in *. cbn [fmap list_fmap omap list_omap] in *. rewrite app_nil_r in *.
    assert (order ≡ₚ taken) as Ho.
    { rewrite <- (fst_zip order (snd (run_tasks order d0))) by lia. rewrite Io, <- list_fmap_compose.
      by rewrite list_fmap_id. }
    exists order. split_and!; [by rewrite Ho, Ia, En | done | cbn in L1; lia |].
    rewrite Hok, Id; [done|]. rewrite <- (snd_zip order (snd (run_tasks order d0))) by lia.
    rewrite Io. apply Forall_fmap, Forall_fmap. by apply Forall_true.
Qed.

(** ** A loop that stopped *)

(** What a task in flight returned when it landed. *)
Lemma fan_landed d0 order taken s i a r : fan_inv d0 order taken s -> f_flying s !! i = Some (a, Some r) ->
  exists pre post, order = pre ++ a :: post /\ snd (task a (fst (run_tasks pre d0))) = r.
Proof.
  intros [_ _ _ _ _ Io _] Hi.
  assert ((a, r) ∈ zip order (snd (run_tasks order d0))) as Hin.
  { rewrite Io. apply elem_of_app. right. apply list_elem_of_omap. exists (a, Some r).
    split; [by eapply list_elem_of_lookup_2 | done]. }
  apply list_elem_of_lookup_1 in Hin as [p Hp]. apply lookup_zip_with_Some in Hp as (a' & r' & [= <- <-] & Ha & Hr').
  apply list_elem_of_split_length in Ha as (pre & post & -> & ->). exists pre, post.
  rewrite run_tasks_at in Hr'. split; [done | congruence].
Qed.

Lemma fan_failed ms d0 s r : 0 <= count -> fan_run ms (fan_init d0) = Some s -> f_end s = Some r ->
  r <> Ok tt ->
  exists pre a post, NoDup (pre ++ a :: post) /\ (forall b, b ∈ pre ++ a :: post -> 0 <= b < count) /\
    snd (task a (fst (run_tasks pre d0))) = r /\ f_dev s = fst (run_tasks (pre ++ a :: post) d0).
Proof.
  intros Hc Hr He Hok. destruct (fan_run_end ms d0 s _ Hc Hr He) as (m & s1 & order & taken & I & E1 & Hm).
  pose proof (fan_inv_move _ _ _ _ _ _ I Hm) as I'.
  unfold fan_move in Hm. rewrite E1 in Hm. destruct m as [|i|i|].
  - destruct (_ && _); [|done]. by injection Hm as <-.
  - destruct (f_flying s1 !! i) as [[a [o|]]|] eqn:Hi; [done| |done].
    destruct (task a (f_dev s1)) as [d' r'] eqn:Et. destruct (I' (or_intror (ex_intro _ i eq_refl))) as (o' & t' & J).
    injection Hm as <-. cbn in He. assert (r' = r) as -> by (destruct r'; congruence).
    destruct (fan_inv_order _ _ _ _ J) as [Hn Hb].
    destruct (fan_landed _ _ _ _ i a r J) as (pre & post & -> & Er).
    { cbn. apply list_lookup_insert_eq. by eapply lookup_lt_Some. }
    exists pre, a, post. split_and!; [done | done | done |]. symmetry. apply (fi_dev _ _ _ _ J).
  - destruct (f_flying s1 !! i) as [[a [r'|]]|] eqn:Hi; [|done..].
    assert (r' = r /\ f_dev s = f_dev s1) as [-> Ed].
    { destruct r' as [[]|e| |]; injection Hm as <-; cbn in He; [done|..]; split; [congruence | done | congruence |
        done | congruence | done]. }
    destruct (fan_inv_order _ _ _ _ I) as [Hn Hb]. destruct (fan_landed _ _ _ _ i a r I Hi) as (pre & post & -> & Er).
    exists pre, a, post. split_and!; [done | done | done |]. rewrite Ed. symmetry. apply (fi_dev _ _ _ _ I).
  - destruct (_ && _); [|done]. injection Hm as <-. cbn in He. congruence.
Qed.

(** ** Every schedule ends *)

(** How many moves are left: three for a task not started, two for one in
    flight, one for one that landed, and the last. *)
Definition left_of (f : Z * option (result unit)) : nat := match snd f with None => 2 | Some _ => 1 end.
Definition moves_left (s : Fan) : nat :=
  match f_end s with
  | Some _ => 0
  | None => S (3 * Z.to_nat (count - f_next s) + sum_list_with left_of (f_flying s))
  end.

Lemma fan_move_left m s s' : fan_move m s = Some s' -> (S (moves_left s') <= moves_left s)%nat.
Proof.
  intros Hm. unfold fan_move in Hm. unfold moves_left. destruct (f_end s); [done|].
  destruct m as [|i|i|].
  - destruct (Z.ltb_spec (f_next s) count), (_ <? _)%nat; cbn in Hm; try done. injection Hm as <-. cbn.
    rewrite sum_list_with_app. cbn. lia.
  - destruct (f_flying s !! i) as [[a [o|]]|] eqn:Hi; [done| |done]. destruct (task a (f_dev s)) as [d r].
    injection Hm as <-. apply list_elem_of_split_length in Hi as (l1 & l2 & E & ->). cbn. rewrite E.
    rewrite <- (Nat.add_0_r (length l1)), insert_app_r. cbn [insert list_insert].
    rewrite !sum_list_with_app. cbn. destruct r; lia.
  - destruct (f_flying s !! i) as [[a [[[]|e| |]|]]|] eqn:Hi; try done; injection Hm as <-; cbn; try lia.
    apply list_elem_of_split_length in Hi as (l1 & l2 & E & ->). rewrite E, delete_middle, !sum_list_with_app.
    cbn. lia.
  - destruct (_ && _); [|done]. injection Hm as <-. cbn. lia.
Qed.

Lemma fan_run_left ms s s' : fan_run ms s = Some s' -> (length ms + moves_left s' <= moves_left s)%nat.
Proof.
  revert s. induction ms as [|m ms IH]; intros s Hr; [by injection Hr as ->|].
  cbn in Hr. apply bind_Some in Hr as (s1 & Hm & Hr). apply fan_move_left in Hm. apply IH in Hr. cbn. lia.
Qed.

(** No schedule is stuck. *)
Lemma fan_progress d0 order taken s : (0 < limit)%nat -> fan_inv d0 order taken s -> f_end s = None ->
  exists m s', fan_move m s = Some s'.
Proof.
  intros Hl I He. destruct (f_flying s) as [|[a [r|]] fl] eqn:Ef.
  - pose proof (fi_next _ _ _ _ I). destruct (Z.ltb_spec (f_next s) count) as [Hlt|].
    + exists Start. unfold fan_move. rewrite He, Ef, (proj2 (Z.ltb_lt _ _) Hlt).
      rewrite (proj2 (Nat.ltb_lt _ limit)) by done. by eexists.
    + exists Finish. unfold fan_move. rewrite He, Ef, (proj2 (Z.eqb_eq (f_next s) count)) by lia. by eexists.
  - exists (Take 0). unfold fan_move. rewrite He, Ef. cbn. destruct r as [[]|e| |]; by eexists.
  - exists (Land 0). unfold fan_move. rewrite He, Ef. cbn. destruct (task a (f_dev s)). by eexists.
Qed.

Lemma fan_carries_on ms d0 s : (0 < limit)%nat -> 0 <= count -> fan_run ms (fan_init d0) = Some s ->
  exists ms' s', fan_run (ms ++ ms') (fan_init d0) = Some s' /\ is_Some (f_end s').
Proof.
  intros Hl Hc. remember (moves_left s) as n eqn:En. revert ms s En.
  induction n as [n IH] using lt_wf_ind. intros ms s -> Hr.
  destruct (f_end s) as [r|] eqn:He; [exists [], s; rewrite app_nil_r; by rewrite He|].
  destruct (fan_inv_run d0 ms s [] [] _ (fan_inv_init d0 Hc) Hr He) as (order & taken & I).
  destruct (fan_progress _ _ _ _ Hl I He) as (m & s' & Hm).
  destruct (IH (moves_left s')) with (ms := ms ++ [m]) (s := s') as (ms' & s2 & R & E).
  - by apply fan_move_left in Hm.
  - done.
  - rewrite fan_run_app, Hr. cbn. by rewrite Hm.
  - exists (m :: ms'), s2. by rewrite <- app_assoc in R.
Qed.

(** ** Every admitted order is a schedule's *)

Lemma fan_start d next fl col : next < count -> (length fl < limit)%nat ->
  fan_move Start (mkFan d next fl col None) = Some (mkFan d (next + 1) (fl ++ [(next, None)]) col None).
Proof.
  intros Hn Hl. unfold fan_move. cbn [f_end f_next f_flying f_dev f_collected].
  by rewrite (proj2 (Z.ltb_lt _ _) Hn), (proj2 (Nat.ltb_lt _ _) Hl).
Qed.
Lemma fan_land d d' next l1 a l2 col : task a d = (d', Ok tt) ->
  fan_move (Land (length l1)) (mkFan d next (l1 ++ (a, None) :: l2) col None) =
    Some (mkFan d' next (l1 ++ (a, Some (Ok tt)) :: l2) col None).
Proof.
  intros E. unfold fan_move. cbn [f_end f_next f_flying f_dev f_collected].
  rewrite list_lookup_middle, E by done. rewrite <- (Nat.add_0_r (length l1)), insert_app_r. done.
Qed.
Lemma fan_take d next l1 a l2 col :
  fan_move (Take (length l1)) (mkFan d next (l1 ++ (a, Some (Ok tt)) :: l2) col None) =
    Some (mkFan d next (l1 ++ l2) (S col) None).
Proof.
  unfold fan_move. cbn [f_end f_next f_flying f_dev f_collected].
  by rewrite list_lookup_middle, delete_middle.
Qed.

(** Tasks started until the window is full. *)
Lemma fan_fill d fl next col : 0 <= next <= count -> (length fl <= limit)%nat ->
  exists ms k, 0 <= k /\ (next + k <= count /\ Z.of_nat (length fl) + k <= Z.of_nat limit) /\
    fan_run ms (mkFan d next fl col None) =
      Some (mkFan d (next + k) (fl ++ ((fun a => (a, None)) <$> seqZ next k)) col None) /\
    (next + k = count \/ Z.of_nat (length fl) + k = Z.of_nat limit).
Proof.
  remember (limit - length fl)%nat as n eqn:En. revert fl next En.
  induction n as [|n IH]; intros fl next En Hn Hl.
  - exists [], 0. cbn. rewrite Z.add_0_r, app_nil_r. split; [lia|]. split; [lia|]. split; [done | lia].
  - destruct (Z.lt_ge_cases next count) as [Hlt|].
    + destruct (IH (fl ++ [(next, None)]) (next + 1)) as (ms & k & K1 & K2 & K3 & K4);
        rewrite ?length_app; cbn; [lia..|]. rewrite length_app in K2. cbn in K2.
      exists (Start :: ms), (k + 1). split; [lia|]. split; [lia|]. split.
      * cbn [fan_run]. rewrite fan_start by lia. cbn [mbind option_bind]. rewrite K3.
        replace (k + 1) with (Z.succ k) by lia. rewrite (seqZ_cons next) by lia. cbn.
        rewrite Z.pred_succ, <- app_assoc, <- (Z.add_1_r next). replace (next + 1 + k) with (next + Z.succ k) by lia. done.
      * rewrite length_app in K4. cbn in K4. lia.
    + exists [], 0. cbn. rewrite Z.add_0_r, app_nil_r. split; [lia|]. split; [lia|]. split; [done | lia].
Qed.

(** The rest [l] of an order, from a window that holds some of it. *)
Lemma fan_schedule l : forall d fl next col d',
  fl ++ seqZ next (count - next) ≡ₚ l -> 0 <= next <= count -> (length fl <= limit)%nat ->
  (forall p a, l !! p = Some a -> a < count - Z.of_nat (length l) + Z.of_nat p + Z.of_nat limit) ->
  io_for task l d = (d', Ok tt) ->
  exists ms, fan_run ms (mkFan d next ((fun a => (a, None)) <$> fl) col None) =
    Some (mkFan d' count [] (col + length l) (Some (Ok tt))).
Proof.
  induction l as [|a l IH]; intros d fl next col d' Hp Hn Hf Hw Hr.
  - apply Permutation_nil_r, app_nil in Hp as [-> Hs]. injection Hr as <-.
    assert (next = count) as -> by (apply (f_equal length) in Hs; rewrite length_seqZ in Hs; cbn in Hs; lia).
    exists [Finish]. cbn. by rewrite Z.eqb_refl, Nat.add_0_r.
  - destruct (fan_fill d ((fun a => (a, None)) <$> fl) next col Hn) as (ms & k & K1 & K2 & K3 & K4);
      rewrite ?length_fmap in *; [done|].
    rewrite <- fmap_app in K3. set (fl' := fl ++ seqZ next k) in *.
    assert (length fl' = (length fl + Z.to_nat k)%nat) as Lf by (unfold fl'; by rewrite length_app, length_seqZ).
    assert (fl' ++ seqZ (next + k) (count - (next + k)) ≡ₚ a :: l) as Hp'.
    { rewrite <- Hp. unfold fl'. rewrite <- app_assoc, <- seqZ_app by lia.
      replace (k + (count - (next + k))) with (count - next) by lia. done. }
    pose proof (Permutation_length Hp') as Lp. rewrite length_app, length_seqZ in Lp. cbn in Lp.
    assert (a ∈ fl') as Ha.
    { assert (a ∈ fl' ++ seqZ (next + k) (count - (next + k))) as Hin by (rewrite Hp'; by left).
      apply elem_of_app in Hin as [|Hin%elem_of_seqZ]; [done|]. specialize (Hw 0%nat a eq_refl).
      cbn in Hw. lia. }
    apply list_elem_of_split in Ha as (l1 & l2 & E). rewrite E in *. rewrite length_app in Lf. cbn in Lf.
    cbn [io_for] in Hr. rewrite io_bind_eq in Hr. destruct (task a d) as [d1 [[]|e| |]] eqn:Et; try done.
    destruct (IH d1 (l1 ++ l2) (next + k) (S col) d') as (ms' & R).
    + rewrite <- app_assoc in *. cbn in Hp'. apply (Permutation_cons_inv (a := a)). rewrite <- Hp'.
      solve_Permutation.
    + lia.
    + rewrite length_app. lia.
    + intros p b Hb. specialize (Hw (S p) b Hb). cbn in Hw. lia.
    + done.
    + set (f := fun a : Z => (a, @None (result unit))) in *.
      exists (ms ++ [Land (length (f <$> l1)); Take (length (f <$> l1))] ++ ms').
      rewrite !fan_run_app, K3, fmap_app, fmap_cons. cbn [mbind option_bind fan_run].
      change (f a) with (a, @None (result unit)).
      cbn [app fan_run]. rewrite (fan_land _ _ _ _ _ _ _ Et).
      cbn [mbind option_bind]. rewrite fan_take. cbn [mbind option_bind].
      rewrite <- fmap_app, R. cbn. by rewrite Nat.add_succ_r.
Qed.
End Fan.

(** * The formatter's loop *)

(** What [format] knows when it comes to the loop. *)
Record Begun : Type := mkBegun {
  b_geometry : Geometry;
  b_uuid : buf;
  b_time : Timestamp;
  b_gen : Z;
  b_plans : list AgPlan;
}.

Section Format.
Context {D : Type} `{BlockDevice D}.
Variables (env : Env) (params : Params).

(** [format] up to the loop. *)
Definition format_begin : io D Begun :=
  dev ← asks (fun d => d);
  g ← lift (compute params (dev_size dev) (logical_sector_size dev) (physical_sector_size dev));
  let uuid := default (e_uuid env) (p_uuid params) in
  let time := default (e_now env) (p_time params) in
  let gen := default (of_le_bytes (take 8 (e_seed env))) (p_gen_seed params) in
  let bs := bs g in
  plans ← lift (Plan.plans g);
  let dev_blocks_end := dev_size dev / bs * bs in
  io_zeroes 0 (Z.min WHACK_SIZE dev_blocks_end);;
  let tail := saturating_sub dev_blocks_end WHACK_SIZE / bs * bs in
  io_zeroes tail (dev_blocks_end - tail);;
  let log_at := agb_to_byte g (logagno g) (log_agbno g) in
  io_zeroes log_at (u64 (logblocks g * bs));;
  first ← lift (log_block g uuid);
  io_write log_at first;;
  mret (mkBegun g uuid time gen plans).

(** A task of the loop. *)
Definition ag_task (b : Begun) : Z -> io D unit :=
  write_ag (b_geometry b) (b_plans b) (b_uuid b) (planned_fdblocks (b_plans b)).

(** [format] after it. *)
Definition format_end (b : Begun) : io D Report :=
  let g := b_geometry b in
  let uuid := b_uuid b in
  let fdblocks := planned_fdblocks (b_plans b) in
  plan0 ← lift (unwrap (b_plans b !! 0%nat));
  chunk ← lift (unwrap (p_chunk plan0));
  '(inodes, _) ← lift (root_chunk g chunk uuid (b_time b) (b_gen b));
  io_write (agb_to_byte g 0 chunk) inodes;;
  io_flush;;
  head ← lift (ag_head g plan0 uuid (finished g uuid fdblocks));
  let hb := Z.to_nat (u64 (header_blocks g * bs g)) in
  head ← lift (slice head 0 hb);
  io_write 0 head;;
  io_flush;;
  mret (mkReport g uuid (rootino g) fdblocks).

(** [format] when the executor follows a schedule; [None] when the schedule
    has a move that cannot be made, or leaves the loop going on. *)
Definition format_under (ms : list move) (d : D) : option (D * result Report) :=
  match format_begin d with
  | (d, Ok b) =>
      s ← fan_run (ag_task b) (agcount (b_geometry b)) AG_CONCURRENCY ms (fan_init d);
      r ← f_end s; Some ((lift r;; format_end b) (f_dev s))
  | (d, Err e) => Some (d, Err e)
  | (d, Panic) => Some (d, Panic)
  | (d, OutOfFuel) => Some (d, OutOfFuel)
  end.

(** A bind with a bind of its parts. *)
Lemma io_cut {A B C} (m : io D A) (f : A -> io D C) (g : A -> io D B) (k : B -> io D C) d :
  (forall x d, f x d = (g x ≫= k) d) -> (m ≫= f) d = ((m ≫= g) ≫= k) d.
Proof. intros Hf. rewrite !io_bind_eq. destruct (m d) as [d' []]; by rewrite ?Hf. Qed.

(** [format] is its three parts. *)
Lemma format_cut d : format env params d =
  (b ← format_begin; io_for (ag_task b) (e_order env);; format_end b) d.
Proof.
  unfold format, format_begin. repeat (cbv zeta; apply io_cut; intros ? ?). reflexivity.
Qed.

Lemma format_begin_geometry d d1 b g : format_begin d = (d1, Ok b) ->
  compute params (dev_size d) (logical_sector_size d) (physical_sector_size d) = Ok g -> b_geometry b = g.
Proof.
  intros Hb E. unfold format_begin, asks in Hb. rewrite io_bind_eq, E, lift_bind in Hb. cbv zeta in Hb.
  repeat (rewrite io_bind_eq in Hb;
    match type of Hb with (match ?m with _ => _ end) = _ => destruct m as [? []]; [|done..] end).
  by injection Hb as _ <-.
Qed.
End Format.

(** An environment with another order of completion. *)
Definition with_order (env : Env) (order : list Z) : Env :=
  mkEnv (e_uuid env) (e_seed env) (e_now env) order.

Section Schedules.
Context {D : Type} `{DeviceSpec D}.
Variables (env : Env) (params : Params) (d : D) (g : Geometry).
Hypothesis R : request env params d g.

Lemma request_with order : order ≡ₚ seqZ 0 (agcount g) -> request (with_order env order) params d g.
Proof. intros Ho. by destruct R; split. Qed.

(** The first part succeeds, and the loop in any order with what follows. *)
Lemma format_begins : exists ps d1 b d',
  plans g = Ok ps /\ format_begin env params d = (d1, Ok b) /\ b_geometry b = g /\
  image g (run_uuid env params) (run_time env params) (run_gen env params) (planned_fdblocks ps) (contents d') /\
  forall order, order ≡ₚ seqZ 0 (agcount g) -> exists d2 d3,
    io_for (ag_task b) order d1 = (d2, Ok tt) /\
    format_end b d2 = (d3, Ok (mkReport g (run_uuid env params) (rootino g) (planned_fdblocks ps))) /\
    image g (run_uuid env params) (run_time env params) (run_gen env params) (planned_fdblocks ps) (contents d3).
Proof.
  destruct (format_image env params d g R) as (ps & d' & Hp & E & _ & I). rewrite format_cut, io_bind_eq in E.
  destruct (format_begin env params d) as [d1 [b|e| |]] eqn:Eb; [|done..].
  assert (b_geometry b = g) as Eg by (eapply format_begin_geometry; [exact Eb | apply (rq_compute _ _ _ _ R)]).
  exists ps, d1, b, d'. split_and!; [done | done | done | done |]. intros order Ho.
  destruct (format_image _ _ _ _ (request_with order Ho)) as (ps' & d3 & Hp' & E' & _ & I').
  assert (ps' = ps) as -> by congruence. rewrite format_cut, io_bind_eq in E'.
  change (format_begin (with_order env order) params d) with (format_begin env params d) in E'.
  rewrite Eb, io_bind_eq in E'. cbn [e_order with_order] in E'.
  destruct (io_for (ag_task b) order d1) as [d2 [[]|e| |]] eqn:El; [|done..].
  exists d2, d3. done.
Qed.

(** The loop never stops early. *)
Lemma loop_goes_through d1 b ms s r : format_begin env params d = (d1, Ok b) ->
  fan_run (ag_task b) (agcount g) AG_CONCURRENCY ms (fan_init d1) = Some s -> f_end s = Some r -> r = Ok tt.
Proof.
  intros Eb Hr He. destruct format_begins as (ps & d1' & b' & d' & _ & Eb' & Eg & _ & Hall).
  rewrite Eb in Eb'. injection Eb' as <- <-.
  destruct (request_running env params d g R) as (? & ? & ? & ? & ? & Rn).
  pose proof (wf_agcount g (rn_wf _ _ _ _ _ _ _ _ _ Rn)) as Hc.
  destruct (decide (r = Ok tt)) as [|Hn]; [done|]. exfalso.
  destruct (fan_failed (ag_task b) (agcount g) AG_CONCURRENCY ms d1 s r ltac:(lia) Hr He Hn) as (pre & a & post & Hnd & Hin & Ea & _).
  assert (pre ++ a :: post ⊆+ seqZ 0 (agcount g)) as Hs.
  { apply NoDup_submseteq; [done|]. intros c Hx. apply elem_of_seqZ. specialize (Hin c Hx). lia. }
  apply submseteq_Permutation in Hs as [k Hk]. symmetry in Hk.
  destruct (Hall _ Hk) as (d2 & d3 & El & _). rewrite <- app_assoc in El.
  apply io_for_at in El. congruence.
Qed.
End Schedules.

(** * Properties *)

(** A loop that stops early stops with what one of its tasks returned: no
    task has been run twice, and the device is what those that were run
    leave. *)
Theorem fan_out_stops_with_a_task {D} (task : Z -> io D unit) count limit ms d s r : 0 <= count ->
  fan_run task count limit ms (fan_init d) = Some s -> f_end s = Some r -> r <> Ok tt ->
  exists pre a post, NoDup (pre ++ a :: post) /\ (forall b, b ∈ pre ++ a :: post -> 0 <= b < count) /\
    snd (task a (fst (run_tasks task pre d))) = r /\ f_dev s = fst (run_tasks task (pre ++ a :: post) d).
Proof. apply fan_failed. Qed.

(** C9: whatever the executor does, a format ends: however a schedule has begun,
    it can be carried on until [format] returns its report, and no schedule
    makes more than three moves an allocation group and one more. *)
Theorem every_schedule_ends {D} `{DeviceSpec D} env params (d : D) g d1 b ms s : request env params d g ->
  format_begin env params d = (d1, Ok b) ->
  fan_run (ag_task b) (agcount g) AG_CONCURRENCY ms (fan_init d1) = Some s ->
  Z.of_nat (length ms) <= 3 * agcount g + 1 /\
  exists ms' d' r, format_under env params (ms ++ ms') d = Some (d', Ok r).
Proof.
  intros R Eb Hr. destruct (request_running env params d g R) as (? & ? & ? & ? & ? & Rn).
  pose proof (wf_agcount g (rn_wf _ _ _ _ _ _ _ _ _ Rn)) as Hc.
  destruct (format_begins env params d g R) as (ps & d1' & b' & d' & _ & Eb' & Eg & _ & Hall).
  rewrite Eb in Eb'. injection Eb' as <- <-. split.
  - apply fan_run_left in Hr. change (moves_left (agcount g) (fan_init d1)) with
      (S (3 * Z.to_nat (agcount g - 0) + 0)) in Hr. lia.
  - destruct (fan_carries_on (ag_task b) (agcount g) AG_CONCURRENCY ms d1 s (Nat.lt_0_succ 31) ltac:(lia) Hr) as (ms' & s' & Hr' & [r He]).
    assert (r = Ok tt) as -> by (eapply loop_goes_through; [exact R | exact Eb | exact Hr' | exact He]).
    destruct (fan_finished (ag_task b) (agcount g) AG_CONCURRENCY (ms ++ ms') d1 s' ltac:(lia) Hr' He) as (order & Hp & _ & _ & El).
    destruct (Hall order Hp) as (d2 & d3 & El' & Ee & _). rewrite El in El'. injection El' as <-.
    exists ms'. unfold format_under. rewrite Eb, Eg, Hr'. cbn [mbind option_bind]. rewrite He.
    cbn [mbind option_bind]. eexists _, _. f_equal. rewrite lift_bind. exact Ee.
Qed.

(** C8: whatever the executor does, a format that ends has left the image of its
    plan and reports it: no schedule of the concurrent writes fails, or
    leaves anything else. *)
Theorem every_schedule_leaves_the_image {D} `{DeviceSpec D} env params (d : D) g ms d' res :
  request env params d g -> format_under env params ms d = Some (d', res) ->
  exists ps, plans g = Ok ps /\
    res = Ok (mkReport g (run_uuid env params) (rootino g) (planned_fdblocks ps)) /\
    image g (run_uuid env params) (run_time env params) (run_gen env params) (planned_fdblocks ps) (contents d').
Proof.
  intros R Hu. destruct (request_running env params d g R) as (? & ? & ? & ? & ? & Rn).
  pose proof (wf_agcount g (rn_wf _ _ _ _ _ _ _ _ _ Rn)) as Hc.
  destruct (format_begins env params d g R) as (ps & d1 & b & d0 & Hps & Eb & Eg & _ & Hall).
  unfold format_under in Hu. rewrite Eb, Eg in Hu. apply bind_Some in Hu as (s & Hr & Hu).
  apply bind_Some in Hu as (r & He & Hu).
  assert (r = Ok tt) as -> by (eapply loop_goes_through; [exact R | exact Eb | exact Hr | exact He]).
  destruct (fan_finished (ag_task b) (agcount g) AG_CONCURRENCY ms d1 s ltac:(lia) Hr He) as (order & Hp & _ & _ & El).
  destruct (Hall order Hp) as (d2 & d3 & El' & Ee & I). rewrite El in El'. injection El' as <-.
  rewrite lift_bind, Ee in Hu. injection Hu as <- <-. by exists ps.
Qed.

(** * Witnesses *)

(** Three tasks that note their number; with [bad], task 1 fails. *)
Definition note_task (bad : bool) (a : Z) : io (list Z) unit := fun l =>
  if bad && (a =? 1) then (l, Err (Error_io a String.EmptyString)) else (l ++ [a], Ok tt).

Lemma fan_out_stops_with_a_task_witness :
  let ms := [Start; Start; Land 0; Land 1; Take 1] in
  exists s, fan_run (note_task true) 3 2 ms (fan_init []) = Some s /\
    exists pre a post, NoDup (pre ++ a :: post) /\ (forall b, b ∈ pre ++ a :: post -> 0 <= b < 3) /\
      snd (note_task true a (fst (run_tasks (note_task true) pre []))) = Err (Error_io 1 String.EmptyString) /\
      f_dev s = fst (run_tasks (note_task true) (pre ++ a :: post) []).
Proof.
  intros ms. eexists. split; [reflexivity|].
  refine (fan_out_stops_with_a_task (note_task true) 3 2 ms [] _ _ _ _ _ _);
    [lia | reflexivity | reflexivity | discriminate].
Defined.

(** A format, two of its writes started. *)
Lemma begun0 : exists d1 b, format_begin env0 Params_new dev0 = (d1, Ok b) /\
  exists s, fan_run (ag_task b) (agcount geo512m) AG_CONCURRENCY [Start; Start] (fan_init d1) = Some s.
Proof.
  destruct (format_begins env0 Params_new dev0 geo512m request0) as (ps & d1 & b & d' & _ & E & _ & _).
  exists d1, b. split; [exact E|]. eexists. reflexivity.
Qed.

Lemma every_schedule_ends_witness : exists ms d' r,
  format_under env0 Params_new ([Start; Start] ++ ms) dev0 = Some (d', Ok r).
Proof.
  destruct begun0 as (d1 & b & E & s & Hr).
  exact (proj2 (every_schedule_ends env0 Params_new dev0 geo512m d1 b [Start; Start] s request0 E Hr)).
Defined.

(** A schedule of it, from the first AG to the last. *)
Lemma scheduled0 : exists ms d' res, format_under env0 Params_new ms dev0 = Some (d', res).
Proof.
  destruct (format_begins env0 Params_new dev0 geo512m request0) as (ps & d1 & b & d' & _ & E & Eg & _ & Hall).
  destruct (Hall _ (reflexivity _)) as (d2 & d3 & El & _).
  destruct (fan_schedule (ag_task b) (agcount geo512m) AG_CONCURRENCY (seqZ 0 (agcount geo512m)) d1 [] 0 0 d2)
    as (ms & Hr); [rewrite Z.sub_0_r; reflexivity | change (agcount geo512m) with 4; lia | cbn; lia | | exact El |].
  { change (agcount geo512m) with 4. intros p a Ha%lookup_seqZ. rewrite length_seqZ. unfold AG_CONCURRENCY. lia. }
  eexists ms, _, _. unfold format_under. rewrite E, Eg.
  change (fan_init d1) with (mkFan d1 0 ((fun a : Z => (a, @None (result unit))) <$> []) 0 None).
  rewrite Hr. cbn [mbind option_bind f_end f_dev]. rewrite lift_bind. f_equal. apply surjective_pairing.
Qed.

Lemma every_schedule_leaves_the_image_witness : exists ms d' res ps,
  format_under env0 Params_new ms dev0 = Some (d', res) /\ plans geo512m = Ok ps /\
  res = Ok (mkReport geo512m (run_uuid env0 Params_new) (rootino geo512m) (planned_fdblocks ps)) /\
  image geo512m (run_uuid env0 Params_new) (run_time env0 Params_new) (run_gen env0 Params_new)
    (planned_fdblocks ps) (contents d').
Proof.
  destruct scheduled0 as (ms & d' & res & E).
  destruct (every_schedule_leaves_the_image env0 Params_new dev0 geo512m ms d' res request0 E) as (ps & P & Er & I).
  exists ms, d', res, ps. split; [exact E | split; [exact P | split; [exact Er | exact I]]].
Defined.
