(* ===== verification/Inspect.v ===== *)
(** [src/src/inspect.rs], the part the administrator shares: the superblock
    fields a reader needs to find everything else, and how they are checked.

    [geometry] reads the first sectors of a device; [Geo_parse] accepts or
    refuses what they hold.  [InspectFacts.v] proves that it accepts what the
    formatter wrote and gets the geometry back. *)

From Stdlib Require Import ZArith Lia String.
From stdpp Require Import base tactics list numbers.
From coqutil Require Import Byte Word.LittleEndianList.
From S2P Require Import Prelude Bytes Superblock Device Io.

Record Geo : Type := mkGeo {
  geo_blocksize : Z;
  geo_blocklog : Z;
  geo_sectsize : Z;
  geo_agblocks : Z;
  geo_agcount : Z;
  geo_dblocks : Z;
  geo_agblklog : Z;
  geo_inodesize : Z;
  geo_inopblog : Z;
  geo_logstart : Z;
  geo_logblocks : Z;
  geo_logsectsize : Z;
  geo_logsunit : Z;
  geo_ro_compat : Z;
  geo_incompat : Z;
}.

(** The fields, read one after another. *)
Definition Geo_fields (b : buf) : result Geo :=
  blocksize ← be32 b off.BLOCKSIZE;
  blocklog ← index b off.BLOCKLOG;
  sectsize ← be16 b off.SECTSIZE;
  agblocks ← be32 b off.AGBLOCKS;
  agcount ← be32 b off.AGCOUNT;
  dblocks ← be64 b off.DBLOCKS;
  agblklog ← index b off.AGBLKLOG;
  inodesize ← be16 b off.INODESIZE;
  inopblog ← index b off.INOPBLOG;
  logstart ← be64 b off.LOGSTART;
  logblocks ← be32 b off.LOGBLOCKS;
  logsectsize ← be16 b off.LOGSECTSIZE;
  logsunit ← be32 b off.LOGSUNIT;
  ro_compat ← be32 b off.FEATURES_RO_COMPAT;
  incompat ← be32 b off.FEATURES_INCOMPAT;
  Ok (mkGeo blocksize blocklog sectsize agblocks agcount dblocks agblklog inodesize inopblog
        logstart logblocks logsectsize logsunit ro_compat incompat).

(** The condition [ok] on them. *)
Definition Geo_ok (g : Geo) : bool :=
  is_power_of_two (geo_blocksize g)
  && ((512 <=? geo_blocksize g) && (geo_blocksize g <=? 65536))
  && (shl64 1 (geo_blocklog g) =? geo_blocksize g)
  && is_power_of_two (geo_sectsize g)
  && ((512 <=? geo_sectsize g) && (geo_sectsize g <=? 32768))
  && (geo_sectsize g <=? geo_blocksize g)
  && is_power_of_two (geo_inodesize g)
  && ((256 <=? geo_inodesize g) && (geo_inodesize g <=? 2048))
  && (0 <? geo_agcount g)
  && (0 <? geo_agblocks g)
  && (geo_agblocks g <=? shl64 1 (geo_agblklog g))
  && (geo_agblklog g <? 32)
  && (geo_dblocks g <=? u64 (geo_agcount g * geo_agblocks g)).

Definition Geo_parse (b : buf) : result Geo :=
  magic ← be32 b off.MAGICNUM;
  bail_if (negb (magic =? MAGIC)) (NotXfs "no XFSB magic at byte 0");;
  versionnum ← be16 b off.VERSIONNUM;
  bail_if (negb (Z.land versionnum 0xf =? 5)) (NotXfs "not a v5 (CRC) superblock");;
  g ← Geo_fields b;
  bail_if (negb (Geo_ok g)) (Corrupt "superblock geometry");;
  Ok g.

Definition Geo_byte (g : Geo) (agno agbno : Z) : Z :=
  shl64 (u64 (agno * geo_agblocks g + agbno)) (geo_blocklog g).

Definition Geo_ag_len (g : Geo) (agno : Z) : Z :=
  if agno =? u64 (geo_agcount g - 1) then u64 (geo_dblocks g - u64 (agno * geo_agblocks g))
  else geo_agblocks g.

Definition Geo_has (g : Geo) (ro : Z) : bool := negb (Z.land (geo_ro_compat g) ro =? 0).

Section Read.
Context {D : Type} `{BlockDevice D}.

Definition read (offset len : Z) : io D buf := fun d => (d, read_at d offset len).

(** The one read that is not whole blocks: the block size is not known yet. *)
Definition geometry : io D Geo :=
  dev ← asks (fun d => d);
  let first := Z.max (logical_sector_size dev) 512 in
  head ← read 0 (Z.min first (dev_size dev));
  lift (Geo_parse head).
End Read.
