(* ===== verification/Admin.v ===== *)
(** [src/src/admin.rs]: a new UUID or label for an existing filesystem.

    [Fs_open] reads and checks the primary superblock.  [set_label] rewrites
    the superblock of every AG.  [set_uuid] first looks for the head and the
    tail of the log ([find_tail], on a reader that caches one window), refuses
    a log with changes to replay, rewrites the whole log under the next cycle
    ([clear_log], through a writer that gathers chunks), then rewrites the
    superblocks.

    The reader's functions run in [io Window]: the window is the state, the
    device is only read.  Theorems are in [LogFacts.v], [ClearFacts.v] and
    [AdminFacts.v]. *)

From Stdlib Require Import ZArith Lia String.
From stdpp Require Import base tactics list numbers strings pretty.
From coqutil Require Import Byte Word.LittleEndianList.
From S2P Require Import Prelude Bytes Fmt Crc Geometry Structs Superblock LogRecord Device Io Inspect.

Definition LABEL_MAX : nat := 12.

Definition KNOWN_INCOMPAT : Z :=
  Z.lor (Z.lor (Z.lor (Z.lor (Z.lor version.IN_FTYPE version.IN_SPINODES) version.IN_META_UUID)
    version.IN_BIGTIME) version.IN_NEEDSREPAIR) version.IN_NREXT64.

Definition BDSTRAT_SIZE : Z := 256 * 1024.
Definition REC_BBS : Z := Z.shiftl 1 18 / 512.
Definition TOTAL_REC_BBS : Z := Z.shiftl 8 18 / 512.
Definition XLOG_VERSION_2 : Z := 2.
Definition INIT_CYCLE : Z := 1.
Definition WINDOW : Z := 256 * 1024.
Definition CHUNK : Z := Z.shiftl 4 20.

Record LogState : Type := mkLogState { ls_head : Z; ls_tail : Z; ls_cycle : Z }.
Definition dirty (s : LogState) : bool := negb (ls_head s =? ls_tail s).

(** * The superblocks *)

(** [Fs]; the device is the one the code runs on. *)
Record Fs : Type := mkFs { fs_geo : Geo; fs_primary : buf }.

Definition has_meta_uuid (incompat : Z) : bool := negb (Z.land incompat version.IN_META_UUID =? 0).

Definition check_sb (g : Geo) (agno : Z) (b : buf) : result unit :=
  magic ← be32 b Superblock.off.MAGICNUM;
  bail_if (negb (magic =? MAGIC))
    (Corrupt ("AG " +:+ pretty agno +:+ " superblock: no XFSB magic"));;
  s ← slice b 0 (Z.to_nat (geo_sectsize g));
  ok ← verify s Superblock.off.CRC;
  bail_if (negb ok) (Corrupt ("AG " +:+ pretty agno +:+ " superblock: bad CRC")).

Definition check_features (g : Geo) (p : buf) : result unit :=
  incompat ← be32 p Superblock.off.FEATURES_INCOMPAT;
  bail_if (negb (Z.land incompat version.IN_NEEDSREPAIR =? 0))
    (NeedsRecovery "marked as needing xfs_repair");;
  let unknown := Z.land incompat (u32 (Z.lnot KNOWN_INCOMPAT)) in
  bail_if (negb (unknown =? 0)) (Unsupported ("incompat features " +:+ alt_hex unknown));;
  rblocks ← be64 p Superblock.off.RBLOCKS;
  bail_if (negb (rblocks =? 0)) (Unsupported "a realtime device");;
  bail_if (geo_logstart g =? 0) (Unsupported "an external log").

(** What [write_sb] does to the block before it writes it: a quota inode of
    0 becomes [NULLFSINO], [bad_features2] follows [features2], and the
    sector is stamped. *)
Definition quota_from_disk (b : buf) (o : nat) : result buf :=
  q ← be64 b o; if q =? 0 then put64 b o NULL64 else Ok b.
Definition sb_to_disk (g : Geo) (b : buf) : result buf :=
  b ← fold_result quota_from_disk b [Superblock.off.UQUOTINO; Superblock.off.GQUOTINO; Superblock.off.PQUOTINO];
  f2 ← be32 b Superblock.off.FEATURES2;
  b ← put32 b Superblock.off.BAD_FEATURES2 f2;
  with_slice 0 (Z.to_nat (geo_sectsize g)) (stamp Superblock.off.CRC) b.

(** [do_uuid] on one superblock, against the primary's metadata UUID. *)
Definition do_uuid (meta uuid b : buf) : result buf :=
  incompat ← be32 b Superblock.off.FEATURES_INCOMPAT;
  let has_meta := has_meta_uuid incompat in
  '(b, incompat_new) ←
    (if negb has_meta && negb (bool_decide (uuid = meta)) then
       old ← slice b Superblock.off.UUID (Superblock.off.UUID + 16);
       b ← copy_into Superblock.off.META_UUID (Superblock.off.META_UUID + 16) old b;
       Ok (b, Z.lor incompat version.IN_META_UUID)
     else if has_meta && bool_decide (uuid = meta) then
       b ← copy_into Superblock.off.META_UUID (Superblock.off.META_UUID + 16) (zeroes 16) b;
       Ok (b, Z.land incompat (u32 (Z.lnot version.IN_META_UUID)))
     else Ok (b, incompat));
  b ← put32 b Superblock.off.FEATURES_INCOMPAT incompat_new;
  copy_into Superblock.off.UUID (Superblock.off.UUID + 16) uuid b.

Definition meta_uuid (fs : Fs) : result buf :=
  let p := fs_primary fs in
  incompat ← be32 p Superblock.off.FEATURES_INCOMPAT;
  let o := if has_meta_uuid incompat then Superblock.off.META_UUID else Superblock.off.UUID in
  slice p o (o + 16).

Definition sb_offset (g : Geo) (agno : Z) : Z :=
  u64 (u64 (agno * geo_agblocks g) * geo_blocksize g).

(** The internal log: its first byte, its length in basic blocks. *)
Definition log_extent (g : Geo) : Z * Z :=
  let agno := shr64 (geo_logstart g) (geo_agblklog g) in
  let agbno := Z.land (geo_logstart g) (u64 (shl64 1 (geo_agblklog g) - 1)) in
  (u64 (u64 (u64 (agno * geo_agblocks g) + agbno) * geo_blocksize g),
   u64 (geo_logblocks g * geo_blocksize g) / 512).

(** * [LogReader] *)

(** The window last read, and where in the log it starts. *)
Record Window : Type := mkWindow { win_at : Z; win : buf }.

(** [Found], without the error. *)
Inductive Found : Type := Header | NoHeader.

Section Reader.
Context {D : Type} `{BlockDevice D}.
Variables (dev : D) (start bbs : Z).

(** [bb]: basic block [n], from the window when it is there.  A read that
    fails ends the reader. *)
Definition in_window (w : Window) (byte : Z) : bool :=
  negb (bool_decide (win w = []) || (byte <? win_at w)
        || (u64 (win_at w + Z.of_nat (length (win w))) <=? byte)).
Definition bb (n : Z) : io Window buf := fun w =>
  let byte := u64 (n * 512) in
  let fetched :=
    if in_window w byte then Ok w
    else
      let at_ := byte / WINDOW * WINDOW in
      let len := Z.min WINDOW (u64 (u64 (bbs * 512) - at_)) in
      mkWindow at_ <$> read_at dev (u64 (start + at_)) len in
  match fetched with
  | Ok w =>
      let o := Z.to_nat (u64 (byte - win_at w)) in
      (w, slice (win w) o (o + BBSIZE))
  | Err e => (w, Err e)
  | Panic => (w, Panic)
  | OutOfFuel => (w, OutOfFuel)
  end.

Definition cycle (n : Z) : io Window Z :=
  b ← bb n;
  m ← lift (be32 b 0);
  if m =? HEADER_MAGIC then lift (be32 b LogRecord.off.CYCLE) else lift (be32 b 0).

Definition is_header (n : Z) : io Window bool :=
  b ← bb n; m ← lift (be32 b 0); mret (m =? HEADER_MAGIC).

(** The binary search.  The interval halves every round: 65 are enough for
    a [u64]. *)
Fixpoint find_cycle_loop (fuel : nat) (c first mid end_ : Z) : io Window Z :=
  match fuel with
  | O => lift OutOfFuel
  | S fuel =>
      if negb (mid =? first) && negb (mid =? end_) then
        x ← cycle mid;
        let '(first, end_) := if x =? c then (first, mid) else (mid, end_) in
        find_cycle_loop fuel c first (u64 (first + end_) / 2) end_
      else mret end_
  end.
Definition find_cycle_start (first last c : Z) : io Window Z :=
  find_cycle_loop 66 c first (u64 (first + last) / 2) last.

(** [for i in start..start + n]: the first block whose cycle is [stop]. *)
Fixpoint find_cycle_from (n : nat) (i stop : Z) : io Window (option Z) :=
  match n with
  | O => mret None
  | S n => c ← cycle i; if c =? stop then mret (Some i) else find_cycle_from n (i + 1) stop
  end.
Definition find_verify_cycle (start_ n stop : Z) : io Window (option Z) :=
  find_cycle_from (Z.to_nat (u64 (start_ + n) - start_)) start_ stop.

(** [for i in (0..last).rev()], down to [start]: the nearest header. *)
Fixpoint find_header_down (n : nat) (start_ : Z) : io Window (option Z) :=
  match n with
  | O => mret None
  | S n =>
      let i := Z.of_nat n in
      if i <? start_
      then lift (Err (Corrupt "log inconsistent (didn't find previous header)"))
      else h ← is_header i; if (h : bool) then mret (Some i) else find_header_down n start_
  end.

(** The outcome and the new [last]. *)
Definition find_verify_log_record (start_ last extra : Z) : io Window (Found * Z) :=
  found ← find_header_down (Z.to_nat last) start_;
  match found with
  | None => mret (NoHeader, last)
  | Some i =>
      h ← bb i;
      h_size ← lift (be32 h LogRecord.off.SIZE);
      let xhdrs := div_ceil h_size HEADER_CYCLE_SIZE in
      len ← lift (be32 h LogRecord.off.LEN);
      let h_len := div_ceil len 512 in
      mret (Header,
        if u64 (u64 (last - i) + extra) =? u64 (h_len + xhdrs) then last else i)
  end.

Definition find_zeroed : io Window (option Z) :=
  first ← cycle 0;
  if first =? 0 then mret (Some 0) else
  c ← cycle (u64 (bbs - 1));
  if negb (c =? 0) then mret None else
  if negb (first =? 1)
  then lift (Err (Corrupt "log inconsistent or not a log (last==0, first!=1)")) else
  last ← find_cycle_start 0 (u64 (bbs - 1)) 0;
  let n := Z.min TOTAL_REC_BBS last in
  let start_ := u64 (last - n) in
  b ← find_verify_cycle start_ n 0;
  let last := default last b in
  r ← find_verify_log_record start_ last 0;
  match r with
  | (Header, last) => mret (Some last)
  | (NoHeader, _) => lift (Err (Corrupt "log: no record before the zeroed blocks"))
  end.

(** The middle of [find_head]: the head moved back to the first block of the
    [TOTAL_REC_BBS] before it that carries a cycle it should not. *)
Definition check_window (n head stop : Z) : io Window Z :=
  if TOTAL_REC_BBS <=? head then
    b ← find_verify_cycle (u64 (head - TOTAL_REC_BBS)) TOTAL_REC_BBS stop;
    mret (default head b)
  else
    let back := u64 (TOTAL_REC_BBS - head) in
    b ← find_verify_cycle (u64 (n - back)) back (u32 (stop - 1));
    match b with
    | Some b => mret b
    | None => b ← find_verify_cycle 0 head stop; mret (default head b)
    end.

(** [validate_head]: not in the middle of a record. *)
Definition no_header {A} : io Window A :=
  lift (Err (Corrupt "log: no record header before the head")).
Definition validate_head (n head : Z) : io Window Z :=
  if REC_BBS <=? head then
    r ← find_verify_log_record (u64 (head - REC_BBS)) head 0;
    match r with (NoHeader, _) => no_header | (Header, head) => mret head end
  else
    r ← find_verify_log_record 0 head 0;
    match r with
    | (Header, head) => mret head
    | (NoHeader, head) =>
        r ← find_verify_log_record (u64 (n - u64 (REC_BBS - head))) n head;
        match r with
        | (NoHeader, _) => no_header
        | (Header, new) => mret (if negb (new =? n) then new else head)
        end
    end.

Definition find_head : io Window Z :=
  z ← find_zeroed;
  match z with
  | Some b => mret b
  | None =>
      let n := bbs in
      first_half ← cycle 0;
      last_half ← cycle (u64 (n - 1));
      '(head, stop) ←
        (if first_half =? last_half then mret (n, u32 (last_half - 1))
         else head ← find_cycle_start 0 (u64 (n - 1)) last_half; mret (head, last_half));
      head ← check_window n head stop;
      head ← validate_head n head;
      mret (if head =? n then 0 else head)
  end.

(** [for i in (lo..lo + n).rev()]: the last header. *)
Fixpoint last_header (n : nat) (lo : Z) : io Window (option Z) :=
  match n with
  | O => mret None
  | S n =>
      h ← is_header (lo + Z.of_nat n);
      if (h : bool) then mret (Some (lo + Z.of_nat n)) else last_header n lo
  end.

(** Where the record at [i] ends and whether it is an unmount record. *)
Definition header_blocks_of (version size : Z) : Z :=
  if negb (Z.land version XLOG_VERSION_2 =? 0) && (HEADER_CYCLE_SIZE <? size)
  then div_ceil size HEADER_CYCLE_SIZE else 1.

Definition tail_of (head i : Z) (wrapped : bool) : io Window LogState :=
  h ← bb i;
  tail_lsn ← lift (be64 h LogRecord.off.TAIL_LSN);
  let tail := Z.land tail_lsn 0xffffffff in
  c ← lift (be32 h LogRecord.off.CYCLE);
  let c := if wrapped then u32 (c + 1) else c in
  h_size ← lift (be32 h LogRecord.off.SIZE);
  h_version ← lift (be32 h LogRecord.off.VERSION);
  let hblks := header_blocks_of h_version h_size in
  len ← lift (be32 h LogRecord.off.LEN);
  let h_len := div_ceil len 512 in
  num_logops ← lift (be32 h LogRecord.off.NUM_LOGOPS);
  after_umount ← lift (rem_or_panic (u64 (u64 (i + hblks) + h_len)) bbs);
  if (head =? after_umount) && (num_logops =? 1) then
    at_ ← lift (rem_or_panic (u64 (i + hblks)) bbs);
    op ← bb at_;
    flags ← lift (index op 9);
    mret (mkLogState head
            (if negb (Z.land flags UNMOUNT_TRANS =? 0) then after_umount else tail) c)
  else mret (mkLogState head tail c).

Definition find_tail : io Window LogState :=
  head ← find_head;
  c0 ← (if head =? 0 then cycle 0 else mret 1);
  if (head =? 0) && (c0 =? 0) then mret (mkLogState 0 0 0) else
  found ← last_header (Z.to_nat head) 0;
  match found with
  | Some i => tail_of head i false
  | None =>
      found ← last_header (Z.to_nat (bbs - head)) head;
      match found with
      | Some i => tail_of head i true
      | None => lift (Err (Corrupt "log: couldn't find sync record"))
      end
  end.
End Reader.

(** * [LogWriter] *)

(** [w_at] is the log offset of the first byte of [w_buf]. *)
Record LogWriter : Type := mkWriter { w_at : Z; w_buf : buf }.

Section Writer.
Context {D : Type} `{BlockDevice D}.
Variable (start : Z).

(** Whole chunks out, front first.  A round writes [CHUNK] bytes, so one per
    byte gathered is enough. *)
Fixpoint push_loop (fuel : nat) (w : LogWriter) : io D LogWriter :=
  match fuel with
  | O => lift OutOfFuel
  | S fuel =>
      if CHUNK <=? Z.of_nat (length (w_buf w)) then
        io_write (u64 (start + w_at w)) (take (Z.to_nat CHUNK) (w_buf w));;
        push_loop fuel (mkWriter (u64 (w_at w + CHUNK)) (drop (Z.to_nat CHUNK) (w_buf w)))
      else mret w
  end.
Definition push (w : LogWriter) (data : buf) : io D LogWriter :=
  let b := w_buf w ++ data in push_loop (S (length b)) (mkWriter (w_at w) b).

Definition w_end (w : LogWriter) : Z := u64 (w_at w + Z.of_nat (length (w_buf w))).
Fixpoint zeroes_loop (fuel : nat) (end_ : Z) (w : LogWriter) : io D LogWriter :=
  match fuel with
  | O => lift OutOfFuel
  | S fuel =>
      if w_end w <? end_ then
        let n := Z.min (u64 (u64 (end_ - w_at w) - Z.of_nat (length (w_buf w)))) CHUNK in
        w ← push w (zeroes (Z.to_nat n));
        zeroes_loop fuel end_ w
      else mret w
  end.
Definition zeroes_to (w : LogWriter) (end_ : Z) : io D LogWriter :=
  zeroes_loop (S (Z.to_nat end_)) end_ w.

Definition pad_to_block (w : LogWriter) (blocksize : Z) : LogWriter :=
  let len := Z.of_nat (length (w_buf w)) in
  mkWriter (w_at w) (w_buf w ++ zeroes (Z.to_nat (next_multiple_of len blocksize - len))).

Definition finish (w : LogWriter) : io D unit :=
  match w_buf w with
  | [] => mret tt
  | b => io_write (u64 (start + w_at w)) b
  end.
End Writer.

(** * [clear_log] *)

Section Clear.
Context {D : Type} `{BlockDevice D}.
Variable (g : Geo) (uuid : buf).

(** The first record: its length in basic blocks, and its bytes. *)
Definition first_len (sunit : Z) : Z := Z.max (if 0 <? sunit then div_ceil sunit 512 else 2) 2.

(** The records of the previous cycle, from [blk] on.  Every round writes at
    least a block. *)
Fixpoint fill_loop (fuel : nat) (start bbs c blk rlen : Z) (w : LogWriter) : io D LogWriter :=
  match fuel with
  | O => lift OutOfFuel
  | S fuel =>
      if blk <? bbs then
        rec ← lift (record uuid (u32 (u64 (rlen * 512))) (lsn c (u32 blk))
                      (lsn c (u32 (u64 (blk - rlen)))));
        if negb (Z.of_nat (length rec) =? u64 (rlen * 512))
        then lift (Err (Unsupported ("a log record of " +:+ pretty rlen +:+ " basic blocks")))
        else
          w ← push start w rec;
          let blk := u64 (blk + rlen) in
          fill_loop fuel start bbs c blk (Z.min (u64 (bbs - blk)) rlen) w
      else mret w
  end.

Definition clear_log (cycle : Z) : io D unit :=
  let '(start, bbs) := log_extent g in
  let sunit := geo_logsunit g in
  let len := first_len sunit in
  let l := lsn cycle 0 in
  let tail := if cycle =? INIT_CYCLE then l
              else lsn (u32 (cycle - 1)) (u32 (u64 (bbs - len))) in
  first ← lift (record uuid sunit l tail);
  if negb (Z.of_nat (length first) =? u64 (len * 512))
  then lift (Err (Unsupported ("log stripe unit " +:+ pretty sunit))) else
  let out := mkWriter 0 [] in
  if cycle =? INIT_CYCLE then
    io_zeroes start (u64 (bbs * 512));;
    out ← push start out first;
    finish start (pad_to_block out (geo_blocksize g))
  else
    out ← push start out first;
    let c := u32 (cycle - 1) in
    let max := BDSTRAT_SIZE / 512 in
    let rlen := Z.min (saturating_sub bbs max) max in
    out ← zeroes_to start out (u64 (Z.min max bbs * 512));
    out ← fill_loop (S (Z.to_nat bbs)) start bbs c max rlen out;
    finish start out.
End Clear.

(** * The operations *)

Section Admin.
Context {D : Type} `{BlockDevice D}.

Definition read_sb (g : Geo) (agno : Z) : io D buf :=
  b ← read (sb_offset g agno) (geo_blocksize g);
  lift (check_sb g agno b);;
  mret b.

Definition write_sb (g : Geo) (agno : Z) (b : buf) : io D unit :=
  b ← lift (sb_to_disk g b);
  io_write (sb_offset g agno) b.

Definition Fs_open : io D Fs :=
  geo ← geometry;
  p ← read_sb geo 0;
  lift (check_features geo p);;
  mret (mkFs geo p).

(** [LogReader::new(dev, fs)?.find_tail()]. *)
Definition log_find_tail (fs : Fs) : io D LogState := fun d =>
  let '(start, bbs) := log_extent (fs_geo fs) in
  if bbs <? TOTAL_REC_BBS
  then (d, Err (Unsupported ("a log of " +:+ pretty bbs +:+ " basic blocks")))
  else (d, snd (find_tail d start bbs (mkWindow 0 []))).

Definition log_state : io D LogState := fs ← Fs_open; log_find_tail fs.

(** One AG's superblock read, changed and written back. *)
Definition update_sb (g : Geo) (f : buf -> result buf) (agno : Z) : io D unit :=
  b ← read_sb g agno; b ← lift (f b); write_sb g agno b.
Definition update_sbs (g : Geo) (f : buf -> result buf) : io D unit :=
  io_for (update_sb g f) (seqZ 0 (geo_agcount g)).

Definition set_uuid (uuid : buf) : io D unit :=
  fs ← Fs_open;
  state ← log_find_tail fs;
  if dirty state then
    lift (Err (NeedsRecovery ("the log holds changes to replay (head " +:+ pretty (ls_head state)
      +:+ ", tail " +:+ pretty (ls_tail state) +:+ "): mount and unmount it first")))
  else
    let cycle := u32 (ls_cycle state + 1) in
    clear_log (fs_geo fs) uuid cycle;;
    io_flush;;
    meta ← lift (meta_uuid fs);
    update_sbs (fs_geo fs) (do_uuid meta uuid);;
    io_flush.

Definition restore_uuid : io D bool :=
  fs ← Fs_open;
  incompat ← lift (be32 (fs_primary fs) Superblock.off.FEATURES_INCOMPAT);
  if negb (has_meta_uuid incompat) then mret false
  else
    meta ← lift (meta_uuid fs);
    set_uuid meta;;
    mret true.

(** The label as the superblock holds it. *)
Definition contains_nul (s : string) : bool :=
  existsb (fun x => byte.unsigned x =? 0) (list_byte_of_string s).
Definition label_fname (label : string) : result buf :=
  copy_into 0 (String.length label) (list_byte_of_string label) (zeroes LABEL_MAX).
Definition put_fname (fname b : buf) : result buf :=
  copy_into Superblock.off.FNAME (Superblock.off.FNAME + LABEL_MAX) fname b.

Definition set_label (label : string) : io D unit :=
  lift (bail_if ((LABEL_MAX <? String.length label)%nat || contains_nul label)
    (InvalidParams ("an XFS label is at most " +:+ pretty (Z.of_nat LABEL_MAX)
       +:+ " bytes with no NUL: " +:+ debug_str label)));;
  fs ← Fs_open;
  fname ← lift (label_fname label);
  update_sbs (fs_geo fs) (put_fname fname);;
  io_flush.
End Admin.
