(* ===== verification/LogFacts.v ===== *)
(** The log's reader finds the head and the tail of the logs the program
    writes.

    [reads m a] says that [m] answers [a] whatever window the reader has
    cached: a cached window holds what the device does, so the reader is a
    function of the log's basic blocks ([bb_reads]).  On top of it, the
    binary search and the scans are specified on the blocks' cycle numbers,
    and [find_tail] on the two shapes a clean log has: the one [format]
    leaves and the one [clear_log] leaves. *)

From Stdlib Require Import ZArith Lia.
From stdpp Require Import base tactics list numbers.
From coqutil Require Import Byte Word.LittleEndianList.
From S2P Require Import Prelude Bytes LogRecord Device Io Inspect Admin.

Lemma Ok_inj {A} (a b : A) : Ok a = Ok b -> a = b.
Proof. congruence. Qed.

Lemma slice_bytes_of f off len lo hi : 0 <= len -> (lo <= hi <= Z.to_nat len)%nat ->
  slice (bytes_of f off len) lo hi =
    Ok (bytes_of f (off + Z.of_nat lo) (Z.of_nat (hi - lo))).
Proof.
  intros Hl Hh. rewrite slice_in by (rewrite length_bytes_of; lia). f_equal.
  apply list_eq. intros i. destruct (decide (i < hi - lo)%nat) as [Hi|Hi].
  - rewrite lookup_take_lt, lookup_drop, !lookup_bytes_of by lia. f_equal. f_equal. lia.
  - rewrite !(proj2 (lookup_ge_None _ _)); [done| |]; rewrite ?length_take, ?length_drop,
      ?length_bytes_of by lia; lia.
Qed.

Section Reads.
Context {D : Type} `{DeviceSpec D}.
Variables (dev : D) (start bbs : Z).

(** The log lies inside the device, which serves the reader's windows. *)
Record readable : Prop := {
  rd_valid : valid dev;
  rd_start : 0 <= start;
  rd_bbs : TOTAL_REC_BBS <= bbs;
  rd_end : start + bbs * 512 <= dev_size dev;
  rd_windows : forall k, 0 <= k -> k * WINDOW < bbs * 512 ->
    accepts dev (start + k * WINDOW) (Z.min WINDOW (bbs * 512 - k * WINDOW)) = true;
}.
Hypothesis R : readable.

Definition block (n : Z) : buf := bytes_of (contents dev) (start + n * 512) 512.

(** A cached window holds what the device does. *)
Definition window_ok (w : Window) : Prop :=
  win w = [] \/ exists k, 0 <= k /\ k * WINDOW < bbs * 512 /\ win_at w = k * WINDOW /\
    win w = bytes_of (contents dev) (start + k * WINDOW) (Z.min WINDOW (bbs * 512 - k * WINDOW)).

Definition reads {A} (m : io Window A) (a : A) : Prop :=
  forall w, window_ok w -> exists w', m w = (w', Ok a) /\ window_ok w'.

Lemma reads_ret {A} (a : A) : reads (mret a) a.
Proof. intros w Hw. by exists w. Qed.
Lemma reads_lift {A} (r : result A) a : r = Ok a -> reads (lift r) a.
Proof. intros -> w Hw. by exists w. Qed.
Lemma reads_bind {A B} (m : io Window A) (f : A -> io Window B) a b :
  reads m a -> reads (f a) b -> reads (m ≫= f) b.
Proof.
  intros Hm Hf w Hw. destruct (Hm w Hw) as (w1 & E1 & W1). destruct (Hf w1 W1) as (w2 & E2 & W2).
  exists w2. split; [|done]. by rewrite (io_bind_step _ _ _ _ _ E1).
Qed.

Lemma bounds : 0 < bbs /\ start + bbs * 512 < 2 ^ 64 /\ TOTAL_REC_BBS = 4096 /\ 0 <= start.
Proof.
  pose proof (size_range _ (rd_valid R)). pose proof (rd_end R). pose proof (rd_bbs R).
  pose proof (rd_start R). assert (TOTAL_REC_BBS = 4096) by done. lia.
Qed.

(** A block of a good window. *)
Lemma window_block w n : 0 <= n < bbs -> window_ok w -> in_window w (n * 512) = true ->
  slice (win w) (Z.to_nat (u64 (n * 512 - win_at w)))
    (Z.to_nat (u64 (n * 512 - win_at w)) + BBSIZE) = Ok (block n).
Proof.
  intros Hn Hw Hin. destruct bounds as (B1 & B2 & _ & B3). unfold in_window in Hin. bools.
  destruct Hw as [Hw|(k & K1 & K2 & Ka & Kw)].
  { match goal with H : bool_decide _ = false |- _ => by rewrite Hw in H end. }
  rewrite Kw in *. rewrite Ka in *. rewrite length_bytes_of in * by (unfold WINDOW in *; lia).
  rewrite Z2Nat.id in * by (unfold WINDOW in *; lia).
  rewrite u64_id in * by (unfold WINDOW in *; lia).
  rewrite ?(u64_id (n * 512 - _)) by (unfold WINDOW in *; lia).
  unfold WINDOW in *. rewrite slice_bytes_of by (unfold BBSIZE; lia).
  unfold block. f_equal. f_equal; unfold BBSIZE; lia.
Qed.

Lemma bb_reads n : 0 <= n < bbs -> reads (bb dev start bbs n) (block n).
Proof.
  intros Hn w Hw. destruct bounds as (B1 & B2 & _ & B3). unfold bb.
  rewrite (u64_id (n * 512)) by lia.
  destruct (in_window w (n * 512)) eqn:Hin.
  { exists w. split; [|done]. by rewrite window_block. }
  set (k := n * 512 / WINDOW).
  assert (k * WINDOW <= n * 512 < k * WINDOW + WINDOW) as Hk.
  { unfold k, WINDOW. pose proof (Z_div_mod_eq_full (n * 512) (256 * 1024)).
    pose proof (Z.mod_pos_bound (n * 512) (256 * 1024)). lia. }
  assert (0 <= k) by (apply Z.div_pos; unfold WINDOW; lia).
  assert (0 <= k * WINDOW) by (unfold WINDOW in *; lia).
  rewrite !(u64_id (bbs * 512)), (u64_id (bbs * 512 - _)), (u64_id (start + _)) by lia.
  rewrite (read_spec _ _ _ (rd_valid R)); [|lia|unfold WINDOW in *; lia|].
  2:{ apply (rd_windows R); lia. }
  cbn [fmap result_fmap].
  set (w' := mkWindow _ _).
  assert (window_ok w') as Hw' by (right; exists k; split_and!; done || lia).
  exists w'. split; [|done]. f_equal. apply window_block; [done..|].
  unfold in_window, w'. cbn [win win_at].
  rewrite length_bytes_of by (unfold WINDOW in *; lia).
  rewrite Z2Nat.id by (unfold WINDOW in *; lia).
  rewrite bool_decide_false.
  2:{ intros E%(f_equal length). rewrite length_bytes_of in E by (unfold WINDOW in *; lia).
      cbn in E. unfold WINDOW in *. lia. }
  rewrite u64_id by (unfold WINDOW in *; lia).
  destruct (Z.ltb_spec (n * 512) (k * WINDOW)); [lia|].
  destruct (Z.leb_spec (k * WINDOW + Z.min WINDOW (bbs * 512 - k * WINDOW)) (n * 512)); [lia|done].
Qed.

(** ** Cycles and headers *)

(** The first word of a block; its cycle, which a header keeps in its second
    word; whether it is a header. *)
Definition word (n : Z) : Z := of_be_bytes (take 4 (block n)).
Definition hdr (n : Z) : bool := word n =? HEADER_MAGIC.
Definition cyc (n : Z) : Z :=
  if hdr n then of_be_bytes (take 4 (drop LogRecord.off.CYCLE (block n))) else word n.

Lemma length_block n : length (block n) = BBSIZE.
Proof. unfold block. by rewrite length_bytes_of. Qed.

Lemma block_be32 n o : (o + 4 <= BBSIZE)%nat ->
  be32 (block n) o = Ok (of_be_bytes (take 4 (drop o (block n)))).
Proof.
  intros Ho. unfold be32. rewrite slice_in by (rewrite length_block; lia).
  cbn [mbind result_bind]. by replace (o + 4 - o)%nat with 4%nat by lia.
Qed.

Lemma block_word n : be32 (block n) 0 = Ok (word n).
Proof. rewrite block_be32 by (unfold BBSIZE; lia). by rewrite drop_0. Qed.

Lemma is_header_reads n : 0 <= n < bbs -> reads (is_header dev start bbs n) (hdr n).
Proof.
  intros Hn. eapply reads_bind; [by apply bb_reads|]. eapply reads_bind; [|apply reads_ret].
  apply reads_lift, block_word.
Qed.

Lemma cycle_reads n : 0 <= n < bbs -> reads (cycle dev start bbs n) (cyc n).
Proof.
  intros Hn. eapply reads_bind; [by apply bb_reads|].
  eapply reads_bind; [apply reads_lift, block_word|]. unfold cyc, hdr.
  destruct (word n =? HEADER_MAGIC); apply reads_lift.
  - apply block_be32. unfold BBSIZE, LogRecord.off.CYCLE. lia.
  - apply block_word.
Qed.

(** ** The binary search *)

(** What [find_cycle_start] answers: a block of [(first, last]], in the cycle
    unless it is [last], whose predecessor is not in it unless it is
    [first]. *)
Definition starts_cycle (first last c e : Z) : Prop :=
  first < e <= last /\ (e < last -> cyc e = c) /\ (first < e - 1 -> cyc (e - 1) <> c).

Lemma find_cycle_loop_reads k c first0 last first end_ :
  0 <= first -> first < end_ -> end_ <= last < bbs -> end_ - first <= 2 ^ Z.of_nat k ->
  first0 <= first -> (first0 < first -> cyc first <> c) -> (end_ < last -> cyc end_ = c) ->
  exists e, reads (find_cycle_loop dev start bbs (S k) c first ((first + end_) / 2) end_) e /\
    starts_cycle first0 last c e.
Proof.
  destruct bounds as (B1 & B2 & _ & B3).
  revert first end_. induction k as [|k IH]; intros first end_ Hf Hfe He Hk Hfl Hfc Hec.
  - exists end_. cbn [Z.of_nat] in Hk. assert (end_ = first + 1) as -> by lia.
    replace ((first + (first + 1)) / 2) with first by (apply Z.div_unique with 1; lia).
    split; [|unfold starts_cycle; rewrite Z.add_simpl_r; split_and!; [lia..|done|auto]].
    cbn [find_cycle_loop]. rewrite Z.eqb_refl. apply reads_ret.
  - pose proof (Z.div_mod (first + end_) 2 ltac:(lia)) as Hm.
    pose proof (Z.mod_pos_bound (first + end_) 2 ltac:(lia)).
    set (mid := (first + end_) / 2) in *.
    rewrite Nat2Z.inj_succ, Z.pow_succ_r in Hk by lia.
    destruct (Z.eqb_spec mid first) as [Em|Em].
    { exists end_. split; [|unfold starts_cycle; split_and!; [lia.. | done |]].
      - cbn [find_cycle_loop]. rewrite Em, Z.eqb_refl. apply reads_ret.
      - replace (end_ - 1) with first by lia. done. }
    assert (mid <> end_) as Em' by lia.
    assert (forall e f' e', (f', e') = (if cyc mid =? c then (first, mid) else (mid, end_)) ->
      reads (find_cycle_loop dev start bbs (S k) c f' ((f' + e') / 2) e') e ->
      reads (find_cycle_loop dev start bbs (S (S k)) c first mid end_) e) as Hstep.
    { intros e f' e' E Hr. cbn [find_cycle_loop].
      destruct (Z.eqb_spec mid first); [done|]. destruct (Z.eqb_spec mid end_); [done|].
      cbn [negb andb]. eapply reads_bind; [apply cycle_reads; lia|]. rewrite <- E.
      rewrite u64_id; [done|]. destruct (cyc mid =? c); injection E as -> ->; lia. }
    destruct (Z.eqb_spec (cyc mid) c) as [Ec|Ec].
    + destruct (IH first mid) as (e & Hr & Hs); [lia..|done|done|].
      exists e. split; [by eapply Hstep | done].
    + destruct (IH mid end_) as (e & Hr & Hs); [lia..|done|done|].
      exists e. split; [by eapply Hstep | done].
Qed.

Lemma find_cycle_start_reads first last c : 0 <= first < last -> last < bbs ->
  exists e, reads (find_cycle_start dev start bbs first last c) e /\ starts_cycle first last c e.
Proof.
  intros Hf Hl. destruct bounds as (B1 & B2 & _ & B3). unfold find_cycle_start.
  rewrite u64_id by lia. apply (find_cycle_loop_reads 65); lia.
Qed.

(** On a log whose cycle changes to [c] once, it is that place. *)
Lemma find_cycle_start_at first last c e : 0 <= first < e -> e <= last < bbs ->
  (forall n, first < n < e -> cyc n <> c) -> (forall n, e <= n < last -> cyc n = c) ->
  reads (find_cycle_start dev start bbs first last c) e.
Proof.
  intros Hf He Hn Hc. destruct (find_cycle_start_reads first last c) as (e' & Hr & H1 & H2 & H3);
    [lia..|].
  assert (e' = e) as <-; [|done].
  destruct (Z.lt_trichotomy e e') as [Hlt|[|Hgt]]; [|lia|].
  - exfalso. apply H3; [lia|]. apply Hc. lia.
  - exfalso. apply (Hn e'); [lia|]. apply H2. lia.
Qed.

(** ** The scans *)

Lemma find_cycle_from_none n i stop : 0 <= i -> i + Z.of_nat n <= bbs ->
  (forall j, i <= j < i + Z.of_nat n -> cyc j <> stop) ->
  reads (find_cycle_from dev start bbs n i stop) None.
Proof.
  revert i. induction n as [|n IH]; intros i Hi Hn Hc; [apply reads_ret|].
  cbn [find_cycle_from]. eapply reads_bind; [apply cycle_reads; lia|].
  destruct (Z.eqb_spec (cyc i) stop) as [E|]; [by apply Hc in E; [|lia]|].
  apply IH; [lia..|]. intros j Hj. apply Hc. lia.
Qed.

Lemma find_verify_cycle_none s n stop : 0 <= s -> 0 <= n -> s + n <= bbs ->
  (forall j, s <= j < s + n -> cyc j <> stop) ->
  reads (find_verify_cycle dev start bbs s n stop) None.
Proof.
  intros Hs Hn Hb Hc. destruct bounds as (B1 & B2 & _ & B3). unfold find_verify_cycle.
  rewrite u64_id by lia. apply find_cycle_from_none; [lia..|]. intros j Hj. apply Hc. lia.
Qed.

Lemma find_header_down_reads n s i : 0 <= s <= i -> i < Z.of_nat n <= bbs -> hdr i = true ->
  (forall j, i < j < Z.of_nat n -> hdr j = false) ->
  reads (find_header_down dev start bbs n s) (Some i).
Proof.
  induction n as [|n IH]; intros Hs Hi Hh Hn; [lia|].
  cbn [find_header_down]. destruct (Z.ltb_spec (Z.of_nat n) s); [lia|].
  eapply reads_bind; [apply is_header_reads; lia|].
  destruct (decide (i = Z.of_nat n)) as [->|]; [rewrite Hh; apply reads_ret|].
  rewrite Hn by lia. apply IH; [lia..|done|]. intros j Hj. apply Hn. lia.
Qed.

Lemma last_header_reads n lo i : 0 <= lo <= i -> i < lo + Z.of_nat n <= bbs -> hdr i = true ->
  (forall j, i < j < lo + Z.of_nat n -> hdr j = false) ->
  reads (last_header dev start bbs n lo) (Some i).
Proof.
  induction n as [|n IH]; intros Hs Hi Hh Hn; [lia|].
  cbn [last_header]. eapply reads_bind; [apply is_header_reads; lia|].
  destruct (decide (i = lo + Z.of_nat n)) as [->|]; [rewrite Hh; apply reads_ret|].
  rewrite Hn by lia. apply IH; [lia..|done|]. intros j Hj. apply Hn. lia.
Qed.

(** ** Unmount records *)

(** What the reader sees of an unmount record of [len] blocks at block [i]:
    its header, the cycle of each of its blocks, the lengths the header
    gives, and the flag of its one operation. *)
Record unmount_record (i len c : Z) : Prop := {
  ur_header : hdr i = true;
  ur_cycle : forall k, 0 <= k < len -> cyc (i + k) = c;
  ur_body : forall k, 0 < k < len -> hdr (i + k) = false;
  ur_fields : exists size h lenf tail_lsn,
    be32 (block i) LogRecord.off.SIZE = Ok size /\
    div_ceil size HEADER_CYCLE_SIZE = h /\ header_blocks_of 2 size = h /\
    be32 (block i) LogRecord.off.LEN = Ok lenf /\ div_ceil lenf 512 = len - h /\
    1 <= h < len /\ be32 (block i) LogRecord.off.VERSION = Ok 2 /\
    be32 (block i) LogRecord.off.NUM_LOGOPS = Ok 1 /\
    be64 (block i) LogRecord.off.TAIL_LSN = Ok tail_lsn /\
    index (block (i + h)) 9 = Ok UNMOUNT_TRANS;
}.

Lemma ur_cycle_0 i len c : unmount_record i len c -> cyc i = c /\ 2 <= len.
Proof.
  intros U. destruct (ur_fields _ _ _ U) as (? & ? & ? & ? & _ & _ & _ & _ & _ & Hl & _).
  split; [|lia]. rewrite <- (ur_cycle _ _ _ U 0) by lia. f_equal. lia.
Qed.

(** The check on the record before the head passes when the record ends
    there, and moves the head back to its header otherwise. *)
Lemma verify_record_reads i len c last s :
  unmount_record i len c -> 0 <= s <= i -> i + len <= last <= bbs ->
  (forall j, i + len <= j < last -> hdr j = false) ->
  reads (find_verify_log_record dev start bbs s last 0)
    (Header, if last =? i + len then last else i).
Proof.
  intros U Hs Hl Hn. destruct bounds as (B1 & B2 & _ & B3).
  destruct (ur_fields _ _ _ U) as (size & h & lenf & tl & F1 & F2 & _ & F4 & F5 & F6 & _).
  eapply reads_bind.
  { apply (find_header_down_reads _ _ i); [lia | lia | apply U |].
    intros j Hj. destruct (Z.lt_ge_cases j (i + len)); [|apply Hn; lia].
    replace j with (i + (j - i)) by lia. apply (ur_body _ _ _ U). lia. }
  eapply reads_bind; [apply bb_reads; lia|]. eapply reads_bind; [by apply reads_lift|].
  eapply reads_bind; [by apply reads_lift|]. cbn zeta. rewrite F2, F5.
  intros w Hw. exists w. split; [|done]. unfold mret, io_ret. do 3 f_equal.
  rewrite (u64_id (last - i)), !u64_id by lia.
  destruct (Z.eqb_spec (last - i + 0) (len - h + h)), (Z.eqb_spec last (i + len)); lia || reflexivity.
Qed.

(** The tail is the head when the last record is an unmount record that ends
    there. *)
Lemma tail_of_reads i len c wrapped :
  unmount_record i len c -> 0 <= i -> i + len <= bbs -> 0 <= c < 2 ^ 32 - 1 ->
  let e := (i + len) mod bbs in
  reads (tail_of dev start bbs e i wrapped) (mkLogState e e (if wrapped then c + 1 else c)).
Proof.
  intros U Hi Hl Hc e. destruct bounds as (B1 & B2 & _ & B3).
  destruct (ur_fields _ _ _ U) as
    (size & h & lenf & tl & F1 & _ & F3 & F4 & F5 & F6 & F7 & F8 & F9 & F10).
  assert (be32 (block i) LogRecord.off.CYCLE = Ok c) as Fc.
  { rewrite block_be32 by (unfold BBSIZE, LogRecord.off.CYCLE; lia).
    pose proof (ur_cycle_0 _ _ _ U) as [E _]. unfold cyc in E. rewrite (ur_header _ _ _ U) in E.
    by rewrite E. }
  unfold tail_of. eapply reads_bind; [apply bb_reads; lia|].
  do 5 (eapply reads_bind; [by apply reads_lift|]). cbn zeta. rewrite F3, F5.
  eapply reads_bind; [by apply reads_lift|].
  rewrite (u64_id (i + h)), (u64_id (i + h + _)) by lia.
  unfold rem_or_panic. destruct (Z.eqb_spec bbs 0); [lia|].
  eapply reads_bind; [by apply reads_lift|].
  replace (i + h + (len - h)) with (i + len) by lia. fold e. rewrite !Z.eqb_refl. cbn [andb].
  eapply reads_bind; [by apply reads_lift|]. rewrite (Z.mod_small (i + h)) by lia.
  eapply reads_bind; [apply bb_reads; lia|]. eapply reads_bind; [by apply reads_lift|].
  change (negb (Z.land UNMOUNT_TRANS UNMOUNT_TRANS =? 0)) with true. cbn iota.
  destruct wrapped; [rewrite u32_id by lia|]; apply reads_ret.
Qed.

(** ** Clean logs *)

(** The log as [format] leaves it: an unmount record and zeroes. *)
Record fresh_log (len : Z) : Prop := {
  fl_record : unmount_record 0 len 1;
  fl_len : len < bbs /\ len <= TOTAL_REC_BBS;
  fl_rest : forall n, len <= n < bbs -> word n = 0;
}.

(** The log as [clear_log] leaves it in cycle [c]: an unmount record, zeroes
    up to the first full record, and records of the previous cycle. *)
Record full_log (c len : Z) : Prop := {
  ul_cycle : 2 <= c < HEADER_MAGIC;
  ul_record : unmount_record 0 len c;
  ul_len : len <= BDSTRAT_SIZE / 512;
  ul_gap : forall n, len <= n < BDSTRAT_SIZE / 512 -> word n = 0;
  ul_rest : forall n, BDSTRAT_SIZE / 512 <= n < bbs -> cyc n = c - 1;
  ul_last : exists i, BDSTRAT_SIZE / 512 <= i /\ unmount_record i (bbs - i) (c - 1);
}.

Lemma zero_block n : word n = 0 -> hdr n = false /\ cyc n = 0.
Proof. intros E. unfold cyc, hdr. by rewrite E. Qed.

Lemma fresh_zeroed len : fresh_log len -> reads (find_zeroed dev start bbs) (Some len).
Proof.
  intros [U [L1 L2] Z0]. destruct bounds as (B1 & B2 & B4 & B3).
  pose proof (rd_bbs R) as Hbbs. destruct (ur_cycle_0 _ _ _ U) as [C0 Hlen].
  assert (forall n, 0 <= n < len -> cyc n = 1) as Hc.
  { intros n Hn. replace n with (0 + n) by lia. by apply (ur_cycle _ _ _ U). }
  assert (forall n, len <= n < bbs -> hdr n = false /\ cyc n = 0) as Hz
    by (intros n Hn; apply zero_block, Z0; lia).
  unfold find_zeroed. eapply reads_bind; [apply cycle_reads; lia|]. rewrite C0. cbn [Z.eqb].
  rewrite (u64_id (bbs - 1)) by lia.
  eapply reads_bind; [apply cycle_reads; lia|]. rewrite (proj2 (Hz (bbs - 1) ltac:(lia))).
  cbn [Z.eqb negb Pos.eqb].
  eapply reads_bind.
  { apply (find_cycle_start_at _ _ _ len); [lia | lia | |].
    - intros n Hn. rewrite Hc by lia. done.
    - intros n Hn. apply Hz. lia. }
  rewrite Z.min_r by lia. rewrite (u64_id (len - len)), Z.sub_diag by lia.
  eapply reads_bind.
  { apply find_verify_cycle_none; [lia..|]. intros j Hj. rewrite Hc by lia. done. }
  cbn [default].
  eapply reads_bind.
  { apply (verify_record_reads 0 len 1); [done | lia | lia |]. intros j Hj. lia. }
  rewrite Z.add_0_l, Z.eqb_refl. apply reads_ret.
Qed.

Lemma fresh_tail len : fresh_log len ->
  reads (find_tail dev start bbs) (mkLogState len len 1).
Proof.
  intros F. pose proof (fresh_zeroed len F) as Hz. destruct F as [U [L1 L2] Z0].
  destruct bounds as (B1 & B2 & B4 & B3). destruct (ur_cycle_0 _ _ _ U) as [C0 Hlen].
  unfold find_tail. eapply reads_bind.
  { unfold find_head. eapply reads_bind; [exact Hz|]. apply reads_ret. }
  destruct (Z.eqb_spec len 0); [lia|]. eapply reads_bind; [apply reads_ret|]. cbn [andb].
  eapply reads_bind.
  { apply (last_header_reads _ _ 0); [lia | lia | apply U |].
    intros j Hj. replace j with (0 + j) by lia. apply (ur_body _ _ _ U). lia. }
  pose proof (tail_of_reads 0 len 1 false U ltac:(lia) ltac:(lia) ltac:(lia)) as T.
  cbn zeta in T. rewrite Z.mod_small in T by lia. exact T.
Qed.

Section Full.
Variables (c len : Z).
Hypothesis F : full_log c len.

Let gap : Z := BDSTRAT_SIZE / 512.

Lemma full_cycles : 2 <= len /\ cyc 0 = c /\ (forall n, 0 <= n < len -> cyc n = c) /\
  (forall n, len <= n < gap -> hdr n = false /\ cyc n = 0) /\
  (forall n, 0 < n < gap -> hdr n = false) /\ 2 <= c < 2 ^ 32 - 1.
Proof.
  destruct F as [Hc U L Z0 _ _]. destruct (ur_cycle_0 _ _ _ U) as [C0 Hlen].
  assert (forall n, len <= n < gap -> hdr n = false /\ cyc n = 0) as Hz
    by (intros n Hn; apply zero_block, Z0; unfold gap in Hn; lia).
  unfold HEADER_MAGIC in Hc. split_and!; try done; try lia.
  - intros n Hn. replace n with (0 + n) by lia. by apply (ur_cycle _ _ _ U).
  - intros n Hn. destruct (Z.lt_ge_cases n len); [|apply Hz; lia].
    replace n with (0 + n) by lia. apply (ur_body _ _ _ U). lia.
Qed.

Lemma gap_bbs : gap = 512 /\ 4096 <= bbs.
Proof. pose proof (rd_bbs R). by split. Qed.

Lemma full_zeroed : reads (find_zeroed dev start bbs) None.
Proof.
  destruct full_cycles as (L & C0 & _ & _ & _ & Cr). destruct gap_bbs as [G B].
  destruct bounds as (B1 & B2 & _ & B3).
  unfold find_zeroed. eapply reads_bind; [apply cycle_reads; lia|]. rewrite C0.
  destruct (Z.eqb_spec c 0); [lia|]. rewrite (u64_id (bbs - 1)) by lia.
  eapply reads_bind; [apply cycle_reads; lia|]. rewrite (ul_rest _ _ F) by (fold gap; lia).
  destruct (Z.eqb_spec (c - 1) 0); [lia|]. apply reads_ret.
Qed.

(** The binary search stops where the previous cycle begins, and no block
    near it has a cycle it should not. *)
Lemma full_boundary : reads (find_cycle_start dev start bbs 0 (bbs - 1) (c - 1)) gap.
Proof.
  destruct full_cycles as (L & C0 & Hc & Hz & _ & Cr). destruct gap_bbs as [G B].
  apply find_cycle_start_at; [lia | lia | |].
  - intros n Hn. destruct (Z.lt_ge_cases n len); [rewrite Hc; lia | rewrite (proj2 (Hz n ltac:(lia))); lia].
  - intros n Hn. apply (ul_rest _ _ F). fold gap. lia.
Qed.

Lemma full_window : reads (check_window dev start bbs bbs gap (c - 1)) gap.
Proof.
  destruct full_cycles as (L & C0 & Hc & Hz & _ & Cr). destruct gap_bbs as [G B].
  destruct bounds as (B1 & B2 & B4 & B3).
  unfold check_window. rewrite B4, G. cbn [Z.leb Z.compare Pos.compare Pos.compare_cont].
  rewrite (u64_id (4096 - 512)), (u64_id (bbs - _)), u32_id by lia.
  eapply reads_bind.
  { apply find_verify_cycle_none; [lia..|]. intros j Hj.
    rewrite (ul_rest _ _ F) by (fold gap; lia). lia. }
  cbn iota. eapply (reads_bind _ _ None); [|apply reads_ret].
  apply find_verify_cycle_none; [lia..|]. intros j Hj.
  destruct (Z.lt_ge_cases j len); [rewrite Hc; lia | rewrite (proj2 (Hz j ltac:(lia))); lia].
Qed.

(** The head goes back over the zeroes to the start of the log, unless the
    first record fills the gap. *)
Lemma full_head :
  reads (find_head dev start bbs) (if len =? gap then gap else 0).
Proof.
  destruct full_cycles as (L & C0 & Hc & Hz & Hh & Cr). destruct gap_bbs as [G B].
  destruct bounds as (B1 & B2 & B4 & B3). pose proof (ul_len _ _ F) as Hlen. fold gap in Hlen.
  unfold find_head. eapply reads_bind; [apply full_zeroed|]. cbn iota zeta.
  rewrite (u64_id (bbs - 1)) by lia.
  eapply reads_bind; [apply cycle_reads; lia|]. eapply reads_bind; [apply cycle_reads; lia|].
  rewrite C0, (ul_rest _ _ F (bbs - 1)) by (fold gap; lia).
  destruct (Z.eqb_spec c (c - 1)); [lia|].
  eapply reads_bind; [eapply reads_bind; [apply full_boundary | apply reads_ret]|]. cbn iota beta.
  eapply reads_bind; [apply full_window|].
  eapply reads_bind.
  { unfold validate_head. change REC_BBS with 512. rewrite G. cbn [Z.leb Z.compare Pos.compare Pos.compare_cont].
    rewrite u64_id by lia. eapply (reads_bind _ _ (Header, if 512 =? 0 + len then 512 else 0)); [|apply reads_ret].
    apply (verify_record_reads 0 len c); [apply (ul_record _ _ F) | lia | lia |].
    intros j Hj. apply Hz. lia. }
  cbv beta. rewrite Z.add_0_l, G.
  destruct (Z.eqb_spec 512 len), (Z.eqb_spec len 512); try lia.
  - destruct (Z.eqb_spec 512 bbs); [lia|]. apply reads_ret.
  - destruct (Z.eqb_spec 0 bbs); [lia|]. apply reads_ret.
Qed.

Lemma full_tail : let e := if len =? gap then gap else 0 in
  reads (find_tail dev start bbs) (mkLogState e e c).
Proof.
  intros e. destruct full_cycles as (L & C0 & Hc & Hz & Hh & Cr). destruct gap_bbs as [G B].
  destruct bounds as (B1 & B2 & B4 & B3). unfold find_tail.
  eapply reads_bind; [apply full_head|]. fold e.
  assert (e = 0 \/ e = len /\ len = gap) as [E|[E El]]
    by (unfold e; destruct (Z.eqb_spec len gap); auto).
  - rewrite E. cbn [Z.eqb]. eapply reads_bind; [apply cycle_reads; lia|]. rewrite C0.
    destruct (Z.eqb_spec c 0); [lia|]. cbn [andb Z.to_nat last_header].
    eapply reads_bind; [apply reads_ret|]. cbn iota. rewrite Z.sub_0_r.
    destruct (ul_last _ _ F) as (i & Hi & U). fold gap in Hi.
    destruct (ur_cycle_0 _ _ _ U) as [_ Hl].
    eapply reads_bind.
    { apply (last_header_reads _ _ i); [lia | lia | apply U |]. intros j Hj.
      replace j with (i + (j - i)) by lia. apply (ur_body _ _ _ U). lia. }
    pose proof (tail_of_reads i (bbs - i) (c - 1) true U ltac:(lia) ltac:(lia) ltac:(lia)) as T.
    cbn zeta in T. replace (i + (bbs - i)) with bbs in T by lia.
    rewrite Z_mod_same_full in T. by replace (c - 1 + 1) with c in T by lia.
  - rewrite E. destruct (Z.eqb_spec len 0); [lia|]. eapply reads_bind; [apply reads_ret|].
    cbn [andb]. eapply reads_bind.
    { apply (last_header_reads _ _ 0); [lia | lia | apply (ul_record _ _ F) |].
      intros j Hj. apply Hh. lia. }
    pose proof (tail_of_reads 0 len c false (ul_record _ _ F) ltac:(lia) ltac:(lia) ltac:(lia)) as T.
    cbn zeta in T. rewrite Z.mod_small in T by lia. exact T.
Qed.
End Full.

(** A clean log in a cycle, and where its head and tail are. *)
Inductive clean_log : LogState -> Prop :=
| clean_zeroed : word 0 = 0 -> clean_log (mkLogState 0 0 0)
| clean_fresh len : fresh_log len -> clean_log (mkLogState len len 1)
| clean_full c len : full_log c len ->
    let e := if len =? BDSTRAT_SIZE / 512 then BDSTRAT_SIZE / 512 else 0 in
    clean_log (mkLogState e e c).

Lemma zeroed_tail : word 0 = 0 -> reads (find_tail dev start bbs) (mkLogState 0 0 0).
Proof.
  intros Z0. destruct (zero_block 0 Z0) as [_ C0]. destruct bounds as (B1 & _).
  assert (reads (cycle dev start bbs 0) 0) as Hc by (rewrite <- C0 at 2; apply cycle_reads; lia).
  unfold find_tail. eapply (reads_bind _ _ 0).
  { unfold find_head. eapply (reads_bind _ _ (Some 0)); [|apply reads_ret].
    eapply reads_bind; [exact Hc|]. apply reads_ret. }
  cbn [Z.eqb]. eapply reads_bind; [exact Hc|]. apply reads_ret.
Qed.

Lemma clean_tail s : clean_log s -> reads (find_tail dev start bbs) s.
Proof.
  intros [Z0|len Hf|c len Hf]; [by apply zeroed_tail | by apply fresh_tail | by apply full_tail].
Qed.

Lemma clean_not_dirty s : clean_log s -> dirty s = false.
Proof. intros [Z0|len Hf|c len Hf]; unfold dirty; cbn; by rewrite ?Z.eqb_refl. Qed.
End Reads.

(** * Records on the device *)

Section Placed.
Context {D : Type} `{DeviceSpec D}.
Variables (dev : D) (start : Z).

(** The bytes [r] stand at block [i] of the log. *)
Definition holds (i : Z) (r : buf) : Prop :=
  bytes_of (contents dev) (start + i * 512) (Z.of_nat (length r)) = r.

Lemma holds_app i r1 r2 : (length r1 mod BBSIZE = 0)%nat ->
  holds i (r1 ++ r2) -> holds i r1 /\ holds (i + Z.of_nat (length r1 / BBSIZE)) r2.
Proof.
  intros Hm Hh. unfold holds in *. rewrite length_app, Nat2Z.inj_add, bytes_of_app in Hh by lia.
  apply app_inj_1 in Hh as [H1 H2]; [|rewrite length_bytes_of; lia]. split; [done|].
  rewrite <- H2 at 2. f_equal. pose proof (Nat.div_mod_eq (length r1) BBSIZE) as E.
  unfold BBSIZE in *. lia.
Qed.

Lemma block_of_slice i r k : holds i r -> 0 <= k -> (k + 1) * 512 <= Z.of_nat (length r) ->
  slice r (Z.to_nat (k * 512)) (Z.to_nat (k * 512) + BBSIZE) = Ok (block dev start (i + k)).
Proof.
  intros Hh Hk Hl. rewrite <- Hh at 1. rewrite slice_bytes_of by (unfold BBSIZE; lia).
  unfold block. f_equal. f_equal; unfold BBSIZE; lia.
Qed.

(** A block of zeroes. *)
Lemma zero_word i n k : holds i (zeroes (n * BBSIZE)) -> 0 <= k < Z.of_nat n ->
  word dev start (i + k) = 0.
Proof.
  intros Hh Hk. pose proof (block_of_slice i _ k Hh) as Hb. rewrite length_zeroes in Hb.
  specialize (Hb ltac:(lia) ltac:(unfold BBSIZE; lia)).
  apply slice_Ok in Hb as [_ Hb]. unfold word. rewrite Hb.
  unfold zeroes. rewrite drop_replicate, !take_replicate.
  replace (_ `min` _)%nat with 4%nat by (unfold BBSIZE; lia). done.
Qed.

(** Where the record of a [sunit] says its parts are. *)
Lemma record_lengths sunit : 0 <= sunit < 2 ^ 32 - 1024 ->
  div_ceil (Z.max sunit BIG_RECORD_BSIZE) HEADER_CYCLE_SIZE = hdrs sunit /\
  header_blocks_of 2 (Z.max sunit BIG_RECORD_BSIZE) = hdrs sunit /\
  div_ceil (Z.max 1024 sunit - hdrs sunit * 512) 512 = len_bb sunit - hdrs sunit /\
  1 <= hdrs sunit < len_bb sunit.
Proof.
  intros Hs. unfold header_blocks_of, hdrs, len_bb, hdrs, HEADER_CYCLE_SIZE, BIG_RECORD_BSIZE.
  change (Z.land 2 XLOG_VERSION_2 =? 0) with false. cbn [negb andb].
  destruct (Z.ltb_spec (32 * 1024) sunit) as [Hb|Hb].
  - rewrite Z.max_l by lia. destruct (Z.ltb_spec (32 * 1024) sunit); [|lia].
    destruct (Z.ltb_spec 0 sunit); [|lia].
    pose proof (div_ceil_bounds sunit (32 * 1024) ltac:(lia)) as B1.
    pose proof (div_ceil_bounds sunit 512 ltac:(lia)) as B2.
    set (h := div_ceil sunit (32 * 1024)) in *. rewrite (Z.max_r 1024) by lia.
    rewrite (Z.max_l (div_ceil sunit 512)) by lia.
    split_and!; try done; try lia.
    apply div_ceil_unique; lia.
  - rewrite Z.max_r by lia. split; [done|]. split; [done|].
    destruct (Z.ltb_spec (32 * 1024) (32 * 1024)); [lia|].
    destruct (Z.ltb_spec 0 sunit).
    + pose proof (div_ceil_bounds sunit 512 ltac:(lia)) as B2.
      split; [apply div_ceil_unique; lia | lia].
    + split; [|lia]. rewrite (div_ceil_unique _ _ 1) by lia. done.
Qed.

Lemma record_is_unmount uuid sunit l t r i c :
  well_formed uuid sunit l t r -> holds i r -> 0 <= sunit < 2 ^ 32 - 1024 ->
  u32 (shr64 l 32) = c -> c < HEADER_MAGIC ->
  unmount_record dev start i (len_bb sunit) c.
Proof.
  intros Wf Hh Hs Ec Hc. pose proof (record_lengths sunit Hs) as (S1 & S2 & S3 & S4).
  pose proof (wf_length _ _ _ _ _ Wf) as Hl. pose proof (wf_stamped _ _ _ _ _ Wf) as St.
  destruct (wf_unmount _ _ _ _ _ Wf _ eq_refl) as (_ & _ & Un).
  assert (0 <= c) by (rewrite <- Ec; apply u32_range).
  assert (forall k, 0 <= k < len_bb sunit ->
    slice r (Z.to_nat (k * 512)) (Z.to_nat (k * 512) + BBSIZE) = Ok (block dev start (i + k))) as Hb.
  { intros k Hk. apply block_of_slice; [done | lia |]. rewrite Hl. unfold BBSIZE. lia. }
  assert (forall k o v, 0 <= k < len_bb sunit -> (o + 4 <= BBSIZE)%nat ->
    be32 r (Z.to_nat (k * 512) + o) = Ok v -> be32 (block dev start (i + k)) o = Ok v) as Hf.
  { intros k o v Hk Ho Hr. by rewrite <- (slice_be32 _ _ _ _ _ (Hb k Hk) Ho). }
  pose proof (Hf 0) as F0. rewrite Z.add_0_r in F0. cbn [Z.mul Z.to_nat Nat.add] in F0.
  assert (forall k, 0 < k < len_bb sunit -> word dev start (i + k) = c) as Hw.
  { intros k Hk. specialize (St (Z.to_nat k) ltac:(lia)). rewrite Ec in St.
    specialize (Hf k 0%nat c ltac:(lia) ltac:(unfold BBSIZE; lia)). rewrite block_word in Hf.
    assert (Ok (word dev start (i + k)) = Ok c) as E by
      (apply Hf; rewrite Nat.add_0_r; rewrite <- St; f_equal; unfold BBSIZE; lia).
    by apply Ok_inj in E. }
  assert (hdr dev start i = true) as Hhd.
  { specialize (F0 0%nat HEADER_MAGIC ltac:(lia) ltac:(unfold BBSIZE; lia) (wf_magic _ _ _ _ _ Wf)).
    rewrite block_word in F0. apply Ok_inj in F0 as E. unfold hdr. rewrite E. apply Z.eqb_refl. }
  assert (forall k, 0 < k < len_bb sunit -> hdr dev start (i + k) = false) as Hbody.
  { intros k Hk. unfold hdr. rewrite Hw by done. apply Z.eqb_neq. lia. }
  split; [done | | done |].
  - intros k Hk. unfold cyc. destruct (decide (k = 0)) as [->|].
    + rewrite Z.add_0_r, Hhd.
      specialize (F0 LogRecord.off.CYCLE _ ltac:(lia) ltac:(unfold BBSIZE, LogRecord.off.CYCLE; lia) (wf_cycle _ _ _ _ _ Wf)).
      rewrite block_be32 in F0 by (unfold BBSIZE, LogRecord.off.CYCLE; lia).
      apply Ok_inj in F0. by rewrite F0.
    + rewrite Hbody by lia. apply Hw. lia.
  - exists (Z.max sunit BIG_RECORD_BSIZE), (hdrs sunit), (Z.max 1024 sunit - hdrs sunit * 512), t.
    assert (forall o, (o <= 320)%nat -> (o + 4 <= BBSIZE)%nat) as Ho by (unfold BBSIZE; lia).
    split_and!; try done; try lia; try (apply F0; [lia | apply Ho; cbv; lia | apply Wf]).
    + pose proof (Hb 0 ltac:(lia)) as B0. rewrite Z.add_0_r in B0.
      rewrite <- (slice_be64 r _ _ _ LogRecord.off.TAIL_LSN B0) by (unfold BBSIZE; cbv; lia).
      apply (wf_tail _ _ _ _ _ Wf).
    + rewrite <- (slice_index r _ _ _ 9%nat (Hb (hdrs sunit) ltac:(lia))) by (unfold BBSIZE; lia).
      replace (Z.to_nat (hdrs sunit * 512)) with (Z.to_nat (hdrs sunit) * BBSIZE)%nat
        by (unfold BBSIZE; lia). exact Un.
Qed.
End Placed.

(** * Two devices with the same log *)

Section Same.
Context {D : Type} `{DeviceSpec D}.
Variables (d d' : D) (start bbs : Z).
Hypothesis Hs : forall i, start <= i < start + bbs * 512 -> contents d' i = contents d i.

Lemma same_block n : 0 <= n < bbs -> block d' start n = block d start n.
Proof. intros Hn. apply bytes_of_ext. intros i Hi. apply Hs. lia. Qed.

Lemma same_word n : 0 <= n < bbs -> word d' start n = word d start n.
Proof. intros Hn. unfold word. by rewrite same_block. Qed.

Lemma same_cyc n : 0 <= n < bbs -> hdr d' start n = hdr d start n /\ cyc d' start n = cyc d start n.
Proof. intros Hn. unfold cyc, hdr. by rewrite same_block, same_word. Qed.

Lemma same_record i len c : 0 <= i -> i + len <= bbs ->
  unmount_record d start i len c -> unmount_record d' start i len c.
Proof.
  intros Hi Hl U. pose proof (ur_cycle_0 _ _ _ _ _ U) as [_ Hlen].
  destruct U as [H1 H2 H3 (size & h & lenf & tl & F1 & F2 & F3 & F4 & F5 & F6 & F7 & F8 & F9 & F10)].
  split.
  - by rewrite (proj1 (same_cyc i ltac:(lia))).
  - intros k Hk. rewrite (proj2 (same_cyc (i + k) ltac:(lia))). auto.
  - intros k Hk. rewrite (proj1 (same_cyc (i + k) ltac:(lia))). auto.
  - exists size, h, lenf, tl. by rewrite !same_block by lia.
Qed.

Lemma same_clean s : 0 < bbs -> BDSTRAT_SIZE / 512 <= bbs ->
  clean_log d start bbs s -> clean_log d' start bbs s.
Proof.
  change (BDSTRAT_SIZE / 512) with 512. intros Hb Hb2 [Z0|len [U [L1 L2] Z0]|c len [C U L G Rt (i & Hi & Ul)]].
  - apply clean_zeroed. by rewrite same_word by lia.
  - apply clean_fresh. pose proof (ur_cycle_0 _ _ _ _ _ U). split; [apply same_record; done || lia | done|].
    intros n Hn. rewrite same_word by lia. auto.
  - apply clean_full. change (BDSTRAT_SIZE / 512) with 512 in *.
    pose proof (ur_cycle_0 _ _ _ _ _ U). pose proof (ur_cycle_0 _ _ _ _ _ Ul).
    split; change (BDSTRAT_SIZE / 512) with 512; try done.
    + apply same_record; done || lia.
    + intros n Hn. rewrite same_word by lia. auto.
    + intros n Hn. rewrite (proj2 (same_cyc n ltac:(lia))). auto.
    + exists i. split; [done|]. apply same_record; done || lia.
Qed.

Lemma same_holds i r : 0 <= i -> i * 512 + Z.of_nat (length r) <= bbs * 512 ->
  holds d start i r -> holds d' start i r.
Proof.
  intros Hi Hr Hh. unfold holds in *. rewrite <- Hh at 2. apply bytes_of_ext. intros j Hj. apply Hs. lia.
Qed.
End Same.
