(* ===== verification/ClearFacts.v ===== *)
(** [clear_log] leaves a clean log in the cycle it is given.

    The writer is a refinement of a byte stream: [stream d w s] says that the
    bytes [s] have gone into the writer [w], whole chunks of them already on
    the device.  On top of it, [clear_log] writes one stream over the whole
    log, whose records [LogFacts.v] recognises. *)

From Stdlib Require Import ZArith Lia.
From stdpp Require Import base tactics list numbers.
From coqutil Require Import Byte Word.LittleEndianList.
From S2P Require Import Prelude Bytes LogRecord Device Io Inspect Admin LogFacts.

(** * The writer *)

Section Stream.
Context {D : Type} `{DeviceSpec D}.
Variables (d0 : D) (start N bsz : Z).

(** The device has [N] bytes of whole blocks from [start] on. *)
Record room : Prop := {
  rm_valid : valid d0;
  rm_bsz : 0 < bsz;
  rm_chunk : CHUNK mod bsz = 0;
  rm_start : 0 <= start /\ start mod bsz = 0;
  rm_N : 0 <= N /\ N mod bsz = 0;
  rm_end : start + N <= dev_size d0;
  rm_serves : serves_blocks d0 bsz;
}.
Hypothesis Rm : room.

Record stream (d : D) (w : LogWriter) (s : buf) : Prop := {
  st_later : later d0 d;
  st_at : 0 <= w_at w /\ w_at w mod CHUNK = 0;
  st_length : Z.of_nat (length s) = w_at w + Z.of_nat (length (w_buf w));
  st_fits : Z.of_nat (length s) <= N;
  st_buf : w_buf w = drop (Z.to_nat (w_at w)) s;
  st_contents : forall i,
    contents d i = overlay start (take (Z.to_nat (w_at w)) s) (contents d0) i;
}.

Lemma mod_trans a b c : 0 < c -> 0 < b -> b mod c = 0 -> a mod b = 0 -> a mod c = 0.
Proof.
  intros Hc Hb H1 H2. apply Z.mod_divide in H1; [|lia]. apply Z.mod_divide in H2; [|lia].
  apply Z.mod_divide; [lia|]. by eapply Z.divide_trans.
Qed.

Lemma add_mod_0 a b c : 0 < c -> a mod c = 0 -> b mod c = 0 -> (a + b) mod c = 0.
Proof. intros Hc Ha Hb. rewrite Z.add_mod, Ha, Hb by lia. by apply Z.mod_0_l; lia. Qed.
Lemma sub_mod_0 a b c : 0 < c -> a mod c = 0 -> b mod c = 0 -> (a - b) mod c = 0.
Proof. intros Hc Ha Hb. rewrite Zminus_mod, Ha, Hb. by apply Z.mod_0_l; lia. Qed.

Lemma stream_bounds d w s : stream d w s ->
  0 <= w_at w <= N /\ start + N < 2 ^ 64 /\ 0 <= start /\ 0 < bsz /\ w_at w mod bsz = 0.
Proof.
  intros S. pose proof (size_range _ (rm_valid Rm)). pose proof (rm_end Rm).
  destruct (rm_start Rm), (rm_N Rm). pose proof (rm_bsz Rm). destruct (st_at _ _ _ S) as [A1 A2].
  pose proof (st_length _ _ _ S). pose proof (st_fits _ _ _ S). split_and!; try lia.
  eapply (mod_trans _ CHUNK); [done | done | apply (rm_chunk Rm) | done].
Qed.

(** The front of the gathered bytes goes out. *)
Lemma stream_write d w s n :
  stream d w s -> 0 <= n <= Z.of_nat (length (w_buf w)) -> n mod bsz = 0 ->
  exists d', io_write (u64 (start + w_at w)) (take (Z.to_nat n) (w_buf w)) d = (d', Ok tt) /\
    later d0 d' /\ forall i,
      contents d' i = overlay start (take (Z.to_nat (w_at w + n)) s) (contents d0) i.
Proof.
  intros S Hn Hm. destruct (stream_bounds _ _ _ S) as (B1 & B2 & B3 & B4 & B5).
  pose proof (st_length _ _ _ S) as L. pose proof (st_fits _ _ _ S).
  rewrite u64_id by lia.
  destruct (io_write_ok d (start + w_at w) (take (Z.to_nat n) (w_buf w))) as (d' & E & L' & C).
  - apply (st_later _ _ _ S).
  - lia.
  - rewrite (lt_accepts _ _ (st_later _ _ _ S)). rewrite length_take. apply (rm_serves Rm).
    + lia.
    + lia.
    + apply add_mod_0; [lia | apply (rm_start Rm) | done].
    + by replace (Z.of_nat (Z.to_nat n `min` length (w_buf w))) with n by lia.
    + pose proof (rm_end Rm). lia.
  - exists d'. split; [done|]. split; [eapply later_trans; [apply S | done]|].
    intros i. rewrite C, (st_buf _ _ _ S).
    replace (take (Z.to_nat (w_at w + n)) s)
      with (take (Z.to_nat (w_at w)) s ++ take (Z.to_nat n) (drop (Z.to_nat (w_at w)) s)).
    + rewrite overlay_app, length_take.
      replace (start + Z.of_nat (Z.to_nat (w_at w) `min` length s)) with (start + w_at w) by lia.
      apply overlay_ext, (st_contents _ _ _ S).
    + rewrite Z2Nat.inj_add by lia. by rewrite take_take_drop.
Qed.

(** One round of [push]: a chunk goes out. *)
Definition after_chunk (w : LogWriter) : LogWriter :=
  mkWriter (u64 (w_at w + CHUNK)) (drop (Z.to_nat CHUNK) (w_buf w)).

Lemma push_step d w s : stream d w s -> CHUNK <= Z.of_nat (length (w_buf w)) ->
  exists d', io_write (u64 (start + w_at w)) (take (Z.to_nat CHUNK) (w_buf w)) d = (d', Ok tt) /\
    stream d' (after_chunk w) s.
Proof.
  assert (0 < CHUNK) as HC by done. intros S Hl.
  destruct (stream_bounds _ _ _ S) as (B1 & B2 & B3 & B4 & B5).
  destruct (stream_write d w s CHUNK S ltac:(lia) (rm_chunk Rm)) as (d1 & E & L1 & C1).
  pose proof (st_length _ _ _ S) as L. pose proof (st_fits _ _ _ S). exists d1. split; [done|].
  assert (u64 (w_at w + CHUNK) = w_at w + CHUNK) as Ha by (apply u64_id; lia).
  split; cbn [after_chunk w_at w_buf]; rewrite ?Ha.
  - done.
  - destruct (st_at _ _ _ S). split; [lia|]. apply add_mod_0; [done..|]. by apply Z.mod_same.
  - rewrite length_drop. lia.
  - done.
  - rewrite (st_buf _ _ _ S), drop_drop. f_equal. lia.
  - done.
Qed.

Lemma push_loop_ok fuel d w s : stream d w s -> (length (w_buf w) < fuel)%nat ->
  exists d' w', push_loop start fuel w d = (d', Ok w') /\ stream d' w' s /\
    Z.of_nat (length (w_buf w')) < CHUNK.
Proof.
  assert (0 < CHUNK) as HC by done.
  revert d w. induction fuel as [|fuel IH]; intros d w S Hf; [lia|].
  cbn [push_loop]. destruct (Z.leb_spec CHUNK (Z.of_nat (length (w_buf w)))) as [Hl|Hl].
  2:{ exists d, w. by split_and!. }
  destruct (push_step d w s S Hl) as (d1 & E & S1).
  destruct (IH d1 (after_chunk w) S1) as (d2 & w2 & E2 & S2 & H2).
  - cbn [after_chunk w_buf]. rewrite length_drop. lia.
  - exists d2, w2. by rewrite (io_bind_step _ _ _ _ _ E).
Qed.

Lemma stream_more d w s data : stream d w s -> Z.of_nat (length (s ++ data)) <= N ->
  stream d (mkWriter (w_at w) (w_buf w ++ data)) (s ++ data).
Proof.
  intros S Hn. pose proof (st_length _ _ _ S) as L. destruct (st_at _ _ _ S) as [A1 A2].
  split; cbn [w_at w_buf].
  - apply S.
  - apply S.
  - rewrite !length_app. lia.
  - done.
  - rewrite drop_app_le by lia. by rewrite (st_buf _ _ _ S).
  - rewrite take_app_le by lia. apply S.
Qed.

(** Padded to a block, the stream is whole blocks. *)
Lemma pad_stream d w s : stream d w s -> exists k,
  stream d (pad_to_block w bsz) (s ++ zeroes k) /\ Z.of_nat (length (s ++ zeroes k)) mod bsz = 0.
Proof.
  intros S. destruct (stream_bounds _ _ _ S) as (A1 & A2 & A3 & A4 & A5).
  pose proof (st_length _ _ _ S) as A6. pose proof (st_fits _ _ _ S) as A7. destruct (rm_N Rm) as [_ HN].
  unfold pad_to_block. set (lb := Z.of_nat (length (w_buf w))) in *.
  set (k := Z.to_nat (next_multiple_of lb bsz - lb)).
  assert (exists q, Z.of_nat (length s) + Z.of_nat k = q * bsz /\
    (q - 1) * bsz < Z.of_nat (length s)) as (q & Q1 & Q2).
  { apply Z.mod_divide in A5 as [qa Qa]; [|lia]. unfold k, next_multiple_of.
    pose proof (Z.div_mod lb bsz ltac:(lia)). pose proof (Z.mod_pos_bound lb bsz ltac:(lia)).
    destruct (Z.eqb_spec (lb mod bsz) 0); [exists (qa + lb / bsz) | exists (qa + lb / bsz + 1)]; nia. }
  assert (q * bsz <= N) as Hq.
  { apply Z.mod_divide in HN as [qn Qn]; [|lia]. assert (q <= qn) by nia. nia. }
  assert (Z.of_nat (length (s ++ zeroes k)) = q * bsz) as Lk by (rewrite length_app, length_zeroes; lia).
  exists k. split; [apply stream_more; [done | lia] | rewrite Lk; apply Z.mod_mul; lia].
Qed.

Lemma push_ok d w s data : stream d w s -> Z.of_nat (length (s ++ data)) <= N ->
  exists d' w', push start w data d = (d', Ok w') /\ stream d' w' (s ++ data).
Proof.
  intros S Hn. destruct (push_loop_ok (Datatypes.S (length (w_buf w ++ data))) d
    (mkWriter (w_at w) (w_buf w ++ data)) (s ++ data)) as (d' & w' & E & S' & _).
  - by apply stream_more.
  - cbn [w_buf]. lia.
  - by exists d', w'.
Qed.

Lemma stream_end d w s : stream d w s -> w_end w = Z.of_nat (length s).
Proof.
  intros S. destruct (stream_bounds _ _ _ S) as (B1 & B2 & B3 & _).
  pose proof (st_length _ _ _ S). pose proof (st_fits _ _ _ S). unfold w_end.
  rewrite u64_id; lia.
Qed.

Lemma zeroes_loop_ok fuel end_ d w s : stream d w s -> end_ <= N ->
  Z.max 0 (end_ - Z.of_nat (length s)) < Z.of_nat fuel ->
  exists d' w', zeroes_loop start fuel end_ w d = (d', Ok w') /\
    stream d' w' (s ++ zeroes (Z.to_nat (end_ - Z.of_nat (length s)))).
Proof.
  revert d w s. induction fuel as [|fuel IH]; intros d w s S He Hf.
  - destruct (stream_bounds _ _ _ S) as (B1 & B2 & B3 & _). lia.
  - cbn [zeroes_loop]. rewrite (stream_end _ _ _ S).
    destruct (stream_bounds _ _ _ S) as (B1 & B2 & B3 & _). pose proof (st_length _ _ _ S) as L.
    destruct (Z.ltb_spec (Z.of_nat (length s)) end_) as [Hlt|Hge].
    + rewrite (u64_id (end_ - w_at w)), u64_id by lia.
      set (n := Z.min _ CHUNK). assert (0 < n <= end_ - Z.of_nat (length s)) as Hn
        by (assert (0 < CHUNK) by done; unfold n; lia).
      destruct (push_ok d w s (zeroes (Z.to_nat n)) S) as (d1 & w1 & E1 & S1).
      { rewrite length_app, length_zeroes. lia. }
      destruct (IH d1 w1 _ S1) as (d2 & w2 & E2 & S2); [done | |].
      { rewrite length_app, length_zeroes. lia. }
      exists d2, w2. rewrite (io_bind_step _ _ _ _ _ E1). split; [done|].
      rewrite length_app, length_zeroes, <- app_assoc in S2. unfold zeroes in *.
      rewrite <- replicate_add in S2.
      replace (Z.to_nat (end_ - Z.of_nat (length s)))
        with (Z.to_nat n + Z.to_nat (end_ - Z.of_nat (length s + Z.to_nat n)))%nat by lia. done.
    + exists d, w. split; [done|]. rewrite Z2Nat.nonpos, app_nil_r by lia. done.
Qed.

Lemma zeroes_to_ok end_ d w s : stream d w s -> 0 <= end_ <= N ->
  exists d' w', zeroes_to start w end_ d = (d', Ok w') /\
    stream d' w' (s ++ zeroes (Z.to_nat (end_ - Z.of_nat (length s)))).
Proof. intros S He. apply zeroes_loop_ok; [done | lia | lia]. Qed.

(** The rest goes out, when the stream is whole blocks: the device holds the
    stream. *)
Lemma finish_ok d w s : stream d w s -> Z.of_nat (length s) mod bsz = 0 ->
  exists d', finish start w d = (d', Ok tt) /\ later d0 d' /\
    forall i, contents d' i = overlay start s (contents d0) i.
Proof.
  intros S Hm. destruct (stream_bounds _ _ _ S) as (B1 & B2 & B3 & B4 & B5).
  pose proof (st_length _ _ _ S) as L.
  assert (w_at w + Z.of_nat (length (w_buf w)) = Z.of_nat (length s)) as L' by lia.
  destruct (stream_write d w s (Z.of_nat (length (w_buf w))) S ltac:(lia)) as (d' & E & Lt & C).
  { replace (Z.of_nat (length (w_buf w))) with (Z.of_nat (length s) - w_at w) by lia.
    by apply sub_mod_0. }
  rewrite L', Nat2Z.id, take_ge in C by lia. rewrite Nat2Z.id, take_ge in E by lia.
  unfold finish. destruct (w_buf w) as [|x b] eqn:Eb; [|by exists d'].
  exists d. split_and!; [done | apply S |]. intros i. rewrite (st_contents _ _ _ S).
  cbn [length] in L'. by rewrite take_ge by lia.
Qed.

Lemma stream_start : stream d0 (mkWriter 0 []) [].
Proof.
  split; cbn.
  - by apply later_refl, (rm_valid Rm).
  - done.
  - done.
  - apply (rm_N Rm).
  - done.
  - intros i. by rewrite overlay_nil.
Qed.
End Stream.

(** * Records of a cycle *)

Lemma lsn_range c b : 0 <= b < 2 ^ 32 -> 0 <= lsn c b < 2 ^ 64.
Proof.
  intros Hb. unfold lsn, shl64. rewrite Z.mod_small, Z.shiftl_mul_pow2 by lia.
  unfold u64. replace (2 ^ 64) with (2 ^ 32 * 2 ^ 32) by done.
  rewrite Z.mul_mod_distr_r by lia.
  pose proof (Z.mod_pos_bound c (2 ^ 32) ltac:(lia)) as Hm.
  rewrite lor_add_shift by lia. revert Hm. generalize (c mod 2 ^ 32). intros m Hm. nia.
Qed.

Lemma lsn_cycle c b : 0 <= c < 2 ^ 32 -> 0 <= b < 2 ^ 32 -> u32 (shr64 (lsn c b) 32) = c.
Proof.
  intros Hc Hb. unfold lsn. rewrite shl64_mul by lia. rewrite lor_add_shift by lia.
  rewrite shr64_div by lia. rewrite Z.div_add_l, Z.div_small, Z.add_0_r by lia. by apply u32_id.
Qed.

Lemma len_bb_blocks n : 2 <= n -> n * 512 < 2 ^ 32 -> len_bb (n * 512) = n.
Proof.
  intros Hn Hr. unfold len_bb. destruct (Z.ltb_spec 0 (n * 512)); [|lia].
  rewrite (div_ceil_unique _ _ n) by lia.
  unfold hdrs, HEADER_CYCLE_SIZE. destruct (Z.ltb_spec (32 * 1024) (n * 512)); [|lia].
  pose proof (div_ceil_bounds (n * 512) (32 * 1024) ltac:(lia)). lia.
Qed.

(** A record whose length is what its stripe unit asks for. *)
Lemma record_ok uuid sunit l t : 0 <= sunit < 2 ^ 32 -> length uuid = 16%nat ->
  0 <= l < 2 ^ 64 -> 0 <= t < 2 ^ 64 ->
  exists r, record uuid sunit l t = Ok r /\ well_formed uuid sunit l t r /\
    Z.of_nat (length r) = len_bb sunit * 512.
Proof.
  intros Hs Hu Hl Ht. pose proof (record_eq uuid sunit l t Hs Hu) as E. eexists.
  split; [exact E|]. pose proof (record_wf uuid sunit l t _ Hs Hu Hl Ht E) as W. split; [done|].
  rewrite (wf_length _ _ _ _ _ W). unfold BBSIZE.
  pose proof (hdrs_range sunit Hs). assert (0 <= len_bb sunit) by (unfold len_bb; lia). lia.
Qed.

(** The bytes from block [blk] to the end: records of a cycle, one after
    another. *)
Inductive filled (uuid : buf) (c bbs : Z) : Z -> buf -> Prop :=
| filled_end : filled uuid c bbs bbs []
| filled_record blk n t r rest :
    2 <= n -> n * 512 < 2 ^ 32 - 1024 -> blk + n <= bbs ->
    well_formed uuid (n * 512) (lsn c (u32 blk)) t r ->
    filled uuid c bbs (blk + n) rest -> filled uuid c bbs blk (r ++ rest).

Section Filled.
Context {D : Type} `{DeviceSpec D}.
Variables (dev : D) (start : Z) (uuid : buf) (c bbs : Z).
Hypothesis Hc : 0 <= c < HEADER_MAGIC.

Lemma filled_cycles blk body : 0 <= blk -> filled uuid c bbs blk body ->
  holds dev start blk body ->
  (forall n, blk <= n < bbs -> cyc dev start n = c) /\
  (blk < bbs -> exists i, blk <= i /\ unmount_record dev start i (bbs - i) c).
Proof.
  intros Hb0 F. revert Hb0. induction F as [|blk n t r rest H1 H2 H3 W F IH]; intros Hb0 Hh.
  { split; intros; lia. }
  assert (len_bb (n * 512) = n) as Hn by (apply len_bb_blocks; lia).
  assert (length r = (Z.to_nat n * BBSIZE)%nat) as Hl by (by rewrite (wf_length _ _ _ _ _ W), Hn).
  destruct (holds_app dev start blk r rest) as [Hr Hrest].
  { rewrite Hl. apply Nat.Div0.mod_mul. }
  { done. }
  rewrite Hl, Nat.div_mul, Z2Nat.id in Hrest by (unfold BBSIZE; lia).
  assert (unmount_record dev start blk n c) as U.
  { rewrite <- Hn. eapply record_is_unmount; [exact W | done | lia | | lia].
    apply lsn_cycle; [unfold HEADER_MAGIC in *; lia | apply u32_range]. }
  destruct (IH ltac:(lia) Hrest) as [I1 I2]. split.
  - intros m Hm. destruct (Z.lt_ge_cases m (blk + n)); [|apply I1; lia].
    replace m with (blk + (m - blk)) by lia. apply (ur_cycle _ _ _ _ _ U). lia.
  - intros _. destruct (decide (blk + n = bbs)) as [E|E].
    + exists blk. split; [lia|]. by replace (bbs - blk) with n by lia.
    + destruct I2 as (i & Hi & U'); [lia|]. exists i. split; [lia | done].
Qed.
End Filled.

Section Fill.
Context {D : Type} `{DeviceSpec D}.
Variables (d0 : D) (start bsz : Z) (uuid : buf) (bbs c : Z).
Hypothesis Rm : room d0 start (bbs * 512) bsz.
Hypothesis Hu : length uuid = 16%nat.

(** Between two records: [s] has gone out up to block [blk], and the next
    record has [n] blocks. *)
Record filling (blk n : Z) (s : buf) : Prop := {
  fl_length : Z.of_nat (length s) = blk * 512;
  fl_blk : blk <= bbs;
  fl_even : (bbs - blk) mod 2 = 0 /\ n mod 2 = 0;
  fl_n : 0 <= n <= 512 /\ n <= bbs - blk;
  fl_more : blk < bbs -> 0 < n;
}.

Lemma fill_round d w s blk n : stream d0 start (bbs * 512) d w s -> filling blk n s -> blk < bbs ->
  u64 (n * 512) = n * 512 /\ u64 (blk + n) = blk + n /\ u64 (bbs - (blk + n)) = bbs - (blk + n) /\ 2 <= n /\
  exists r d1 w1,
    record uuid (u32 (n * 512)) (lsn c (u32 blk)) (lsn c (u32 (u64 (blk - n)))) = Ok r /\
    well_formed uuid (n * 512) (lsn c (u32 blk)) (lsn c (u32 (u64 (blk - n)))) r /\
    Z.of_nat (length r) = n * 512 /\ Z.of_nat (length (s ++ r)) <= bbs * 512 /\
    push start w r d = (d1, Ok w1) /\ stream d0 start (bbs * 512) d1 w1 (s ++ r) /\
    filling (blk + n) (Z.min (bbs - (blk + n)) n) (s ++ r).
Proof.
  intros S [L Hb [Hp Hn2] [Hn Hnb] Hpos] Hlt.
  destruct (stream_bounds _ _ _ _ Rm _ _ _ S) as (_ & B2 & B3 & _).
  assert (2 <= n) as Hn' by (pose proof (Z.mod_divide n 2 ltac:(lia)) as [(k & ->) _]; [done | lia]).
  rewrite (u32_id (n * 512)) by lia.
  destruct (record_ok uuid (n * 512) (lsn c (u32 blk)) (lsn c (u32 (u64 (blk - n)))))
    as (r & E & W & Lr); [lia | done | apply lsn_range, u32_range | apply lsn_range, u32_range |].
  rewrite len_bb_blocks in Lr by lia.
  assert (Z.of_nat (length (s ++ r)) <= bbs * 512) as Lsr by (rewrite length_app; lia).
  destruct (push_ok _ _ _ _ Rm d w s r S Lsr) as (d1 & w1 & E1 & S1).
  split_and!; [apply u64_id; lia | apply u64_id; lia | apply u64_id; lia | lia |].
  exists r, d1, w1. split_and!; try done. split.
  - rewrite length_app. lia.
  - lia.
  - split; [rewrite Z.sub_add_distr; by apply sub_mod_0|].
    destruct (Z.min_spec (bbs - (blk + n)) n) as [[_ ->]|[_ ->]]; [|done].
    rewrite Z.sub_add_distr. by apply sub_mod_0.
  - lia.
  - lia.
Qed.

Lemma fill_loop_ok fuel d w s blk n :
  stream d0 start (bbs * 512) d w s -> filling blk n s -> bbs - blk < Z.of_nat fuel ->
  exists d' w' body, fill_loop uuid fuel start bbs c blk n w d = (d', Ok w') /\
    stream d0 start (bbs * 512) d' w' (s ++ body) /\ filled uuid c bbs blk body /\
    Z.of_nat (length body) = (bbs - blk) * 512.
Proof.
  revert d w s blk n. induction fuel as [|fuel IH]; intros d w s blk n S Fl Hf;
    [pose proof (fl_blk _ _ _ Fl); lia|].
  cbn [fill_loop]. destruct (Z.ltb_spec blk bbs) as [Hlt|Hge].
  2:{ assert (blk = bbs) as -> by (pose proof (fl_blk _ _ _ Fl); lia). exists d, w, [].
      rewrite app_nil_r. split_and!; [done | done | constructor | cbn; lia]. }
  destruct (fill_round d w s blk n S Fl Hlt)
    as (U1 & U2 & U3 & Hn & r & d1 & w1 & E & W & Lr & _ & E1 & S1 & Fl1).
  pose proof (fl_n _ _ _ Fl) as [Hn1 Hn2].
  rewrite U1, E, lift_bind, Lr, Z.eqb_refl. cbn [negb].
  rewrite (io_bind_step _ _ _ _ _ E1). cbv zeta. rewrite U2, U3.
  destruct (IH d1 w1 (s ++ r) (blk + n) (Z.min (bbs - (blk + n)) n) S1 Fl1 ltac:(lia))
    as (d2 & w2 & body & E2 & S2 & F2 & L2).
  exists d2, w2, (r ++ body). rewrite app_assoc. split_and!; [done | done | | rewrite length_app; lia].
  by eapply filled_record; [| |  | exact W | exact F2]; lia.
Qed.
End Fill.

(** * [clear_log] *)

Lemma first_len_bb sunit : 0 <= sunit < 2 ^ 32 -> first_len sunit = len_bb sunit.
Proof.
  intros Hs. unfold first_len, len_bb, hdrs, HEADER_CYCLE_SIZE.
  destruct (Z.ltb_spec 0 sunit), (Z.ltb_spec (32 * 1024) sunit); try lia.
  pose proof (div_ceil_bounds sunit 512 ltac:(lia)).
  pose proof (div_ceil_bounds sunit (32 * 1024) ltac:(lia)). lia.
Qed.

(** The log's first record names the filesystem. *)
Definition log_names {D} `{DeviceSpec D} (dev : D) (start : Z) (uuid : buf) : Prop :=
  exists r sunit l t, holds dev start 0 r /\ well_formed uuid sunit l t r /\
    Z.of_nat (length r) <= BDSTRAT_SIZE.

Section Clear.
Context {D : Type} `{DeviceSpec D}.
Variables (d : D) (g : Geo) (uuid : buf) (start bbs bsz : Z).
Hypothesis He : log_extent g = (start, bbs).
Hypothesis Rm : room d start (bbs * 512) bsz.
Hypothesis Hbsz : bsz mod 1024 = 0.
Hypothesis Hbbs : TOTAL_REC_BBS <= bbs.
Hypothesis Hu : length uuid = 16%nat.
Hypothesis Hsunit : 0 <= geo_logsunit g < 2 ^ 32 - 1024.
Hypothesis Hlen : first_len (geo_logsunit g) <= BDSTRAT_SIZE / 512.

Let sunit := geo_logsunit g.
Let len := len_bb sunit.

Lemma clear_bounds : 4096 <= bbs /\ start + bbs * 512 < 2 ^ 64 /\ 0 <= start /\
  bbs mod 2 = 0 /\ 2 <= len <= 512 /\ first_len sunit = len.
Proof.
  pose proof (size_range _ (rm_valid _ _ _ _ Rm)). pose proof (rm_end _ _ _ _ Rm).
  destruct (rm_start _ _ _ _ Rm). destruct (rm_N _ _ _ _ Rm) as [_ HN].
  pose proof (rm_bsz _ _ _ _ Rm).
  assert (TOTAL_REC_BBS = 4096) as T by done. rewrite T in Hbbs.
  assert ((bbs * 512) mod 1024 = 0) as Hm by (eapply (mod_trans _ bsz); done || lia).
  assert (first_len sunit = len) as E by (apply first_len_bb; unfold sunit; lia).
  change (BDSTRAT_SIZE / 512) with 512 in Hlen. fold sunit in Hlen. rewrite E in Hlen.
  split_and!; try lia.
  - apply Z.mod_divide in Hm as [k Hk]; [|lia]. apply Z.mod_divide; [lia|]. exists k. lia.
  - rewrite <- E. unfold first_len. lia.
Qed.

(** The stream [clear_log] writes past the first cycle. *)
Lemma clear_stream c : 1 <= c < HEADER_MAGIC - 1 ->
  exists first body t d',
    well_formed uuid sunit (lsn (c + 1) 0) t first /\
    Z.of_nat (length first) = len * 512 /\
    filled uuid c bbs 512 body /\
    clear_log g uuid (c + 1) d = (d', Ok tt) /\ later d d' /\
    Z.of_nat (length (first ++ zeroes (Z.to_nat (512 - len) * BBSIZE) ++ body)) = bbs * 512 /\
    forall i, contents d' i =
      overlay start (first ++ zeroes (Z.to_nat (512 - len) * BBSIZE) ++ body) (contents d) i.
Proof.
  intros Hc. destruct clear_bounds as (B1 & B2 & B3 & B4 & B5 & B6). unfold HEADER_MAGIC in Hc.
  unfold clear_log. rewrite He. cbv zeta. fold sunit. rewrite B6.
  change INIT_CYCLE with 1. destruct (Z.eqb_spec (c + 1) 1); [lia|].
  rewrite Z.add_simpl_r, (u32_id c) by lia.
  set (t := lsn c _). destruct (record_ok uuid sunit (lsn (c + 1) 0) t) as (first & E & W & L);
    [unfold sunit; lia | done | apply lsn_range; lia | apply lsn_range, u32_range |].
  fold len in L. rewrite E, lift_bind. cbv beta. rewrite L, (u64_id (len * 512)), Z.eqb_refl by lia.
  cbn [negb]. change (BDSTRAT_SIZE / 512) with 512.
  replace (Z.min (saturating_sub bbs 512) 512) with 512 by (unfold saturating_sub; lia).
  rewrite (Z.min_l 512 bbs), u64_id by lia.
  destruct (push_ok _ _ _ _ Rm d (mkWriter 0 []) [] first) as (d1 & w1 & E1 & S1).
  { apply (stream_start _ _ _ _ Rm). }
  { cbn. lia. }
  rewrite (io_bind_step _ _ _ _ _ E1).
  destruct (zeroes_to_ok _ _ _ _ Rm (512 * 512) d1 w1 first S1 ltac:(lia)) as (d2 & w2 & E2 & S2).
  rewrite (io_bind_step _ _ _ _ _ E2).
  replace (Z.to_nat (512 * 512 - Z.of_nat (length first)))
    with (Z.to_nat (512 - len) * BBSIZE)%nat in S2 by (unfold BBSIZE; lia).
  destruct (fill_loop_ok d start bsz uuid bbs c Rm Hu (Datatypes.S (Z.to_nat bbs)) d2 w2 _ 512 512 S2)
    as (d3 & w3 & body & E3 & S3 & F & L3); [|lia|].
  { split; [rewrite length_app, length_zeroes; unfold BBSIZE; lia | lia | | lia | lia].
    split; [by apply sub_mod_0 | done]. }
  rewrite (io_bind_step _ _ _ _ _ E3).
  assert (Z.of_nat (length ((first ++ zeroes (Z.to_nat (512 - len) * BBSIZE)) ++ body)) = bbs * 512)
    as Ls.
  { rewrite !length_app, length_zeroes. unfold BBSIZE. lia. }
  destruct (finish_ok _ _ _ _ Rm d3 w3 _ S3) as (d' & E4 & L4 & C4).
  { rewrite Ls. apply (rm_N _ _ _ _ Rm). }
  exists first, body, t, d'. rewrite (app_assoc first). split_and!; done.
Qed.

(** Past the first cycle the log ends up full, in the new cycle. *)
Lemma clear_log_full c : 1 <= c < HEADER_MAGIC - 1 ->
  exists d', clear_log g uuid (c + 1) d = (d', Ok tt) /\ later d d' /\
    full_log d' start bbs (c + 1) len /\ log_names d' start uuid /\
    forall i, i < start \/ start + bbs * 512 <= i -> contents d' i = contents d i.
Proof.
  intros Hc. destruct clear_bounds as (B1 & B2 & B3 & B4 & B5 & B6).
  destruct (clear_stream c Hc) as (first & body & t & d' & W & L & F & E & Lt & Ls & C).
  unfold HEADER_MAGIC in Hc.
  exists d'. split_and!; [done | done | | |].
  3:{ intros i Hi. rewrite C. apply overlay_out. lia. }
  all: assert (holds d' start 0 (first ++ zeroes (Z.to_nat (512 - len) * BBSIZE) ++ body)) as Hh
    by (unfold holds; rewrite Z.add_0_r; rewrite (bytes_of_ext _ _ _ _ (fun i _ => C i));
        apply bytes_of_overlay).
  all: assert (length first = (Z.to_nat len * BBSIZE)%nat) as Lf by (unfold BBSIZE; lia).
  all: apply holds_app in Hh as [H1 Hh]; [|rewrite Lf; apply Nat.Div0.mod_mul].
  2:{ exists first, sunit, (lsn (c + 1) 0), t. split_and!; [done..|]. change BDSTRAT_SIZE with 262144. lia. }
  rewrite Lf, Nat.div_mul, Z2Nat.id in Hh by (unfold BBSIZE; lia).
  apply holds_app in Hh as [H2 H3]; [|rewrite length_zeroes; apply Nat.Div0.mod_mul].
  rewrite length_zeroes, Nat.div_mul, Z2Nat.id in H3 by (unfold BBSIZE; lia).
  replace (0 + len + (512 - len)) with 512 in H3 by lia.
  destruct (filled_cycles d' start uuid c bbs ltac:(unfold HEADER_MAGIC; lia) 512 body
    ltac:(lia) F H3) as [I1 I2].
  split; change (BDSTRAT_SIZE / 512) with 512.
  - unfold HEADER_MAGIC. lia.
  - eapply record_is_unmount; [exact W | done | unfold sunit; lia | apply lsn_cycle; lia |
      unfold HEADER_MAGIC; lia].
  - lia.
  - intros n Hn. replace n with (0 + len + (n - len)) by lia.
    eapply zero_word; [exact H2 | lia].
  - intros n Hn. rewrite I1 by lia. lia.
  - destruct I2 as (i & Hi & U); [lia|]. exists i. split; [done|].
    by replace (c + 1 - 1) with c by lia.
Qed.

(** The whole log zeroed. *)
Lemma log_zeroed : exists d1, io_zeroes start (bbs * 512) d = (d1, Ok tt) /\ later d d1 /\
  room d1 start (bbs * 512) bsz /\
  forall i, contents d1 i = zeroed start (bbs * 512) (contents d) i.
Proof.
  destruct clear_bounds as (B1 & B2 & B3 & B4 & B5 & B6).
  destruct (io_zeroes_ok d start (bbs * 512) (rm_valid _ _ _ _ Rm)) as (d1 & E1 & L1 & C1);
    [lia | lia | |].
  { pose proof (rm_end _ _ _ _ Rm). destruct (rm_start _ _ _ _ Rm), (rm_N _ _ _ _ Rm).
    apply (rm_serves _ _ _ _ Rm); done || lia. }
  exists d1. split_and!; [done..| |done].
  destruct Rm as [V ? ? ? ? En Sv]. split; [apply L1 | done..| rewrite (lt_size _ _ L1); done |].
  by eapply later_serves.
Qed.

(** In the first cycle the log ends up as [format] leaves it: the record,
    padded to a block, and zeroes. *)
Lemma clear_stream_init : geo_blocksize g = bsz ->
  exists first d' k,
    well_formed uuid sunit (lsn 1 0) (lsn 1 0) first /\ Z.of_nat (length first) = len * 512 /\
    clear_log g uuid 1 d = (d', Ok tt) /\ later d d' /\
    Z.of_nat (length (first ++ zeroes k)) <= bbs * 512 /\
    forall i, contents d' i =
      overlay start (first ++ zeroes k) (zeroed start (bbs * 512) (contents d)) i.
Proof.
  intros Eb. destruct clear_bounds as (B1 & B2 & B3 & B4 & B5 & B6).
  unfold clear_log. rewrite He. cbv zeta. fold sunit. rewrite B6.
  change INIT_CYCLE with 1. rewrite Z.eqb_refl.
  destruct (record_ok uuid sunit (lsn 1 0) (lsn 1 0)) as (first & E & W & L);
    [unfold sunit; lia | done | apply lsn_range; lia | apply lsn_range; lia |].
  fold len in L. rewrite E, lift_bind. cbv beta. rewrite L, (u64_id (len * 512)), Z.eqb_refl by lia.
  cbn [negb]. rewrite u64_id by lia.
  destruct log_zeroed as (d1 & E1 & L1 & Rm1 & C1).
  rewrite (io_bind_step _ _ _ _ _ E1).
  destruct (push_ok _ _ _ _ Rm1 d1 (mkWriter 0 []) [] first) as (d2 & w2 & E2 & S2).
  { apply (stream_start _ _ _ _ Rm1). }
  { cbn. lia. }
  rewrite (io_bind_step _ _ _ _ _ E2). rewrite Eb. cbn [app] in S2.
  destruct (pad_stream _ _ _ _ Rm1 _ _ _ S2) as (k & S3 & M).
  destruct (finish_ok _ _ _ _ Rm1 d2 _ _ S3 M) as (d3 & E3 & L3 & C3).
  exists first, d3, k. split_and!; [done..| by eapply later_trans | apply S3 |].
  intros i. rewrite C3. by apply overlay_ext.
Qed.

Lemma zero_bytes_word {D'} `{DeviceSpec D'} (d' : D') n :
  (forall i, start + n * 512 <= i < start + n * 512 + 512 -> contents d' i = byte.of_Z 0) ->
  word d' start n = 0.
Proof.
  intros Hz. unfold word, block. rewrite (bytes_of_ext _ (fun _ => byte.of_Z 0)) by done.
  vm_compute. done.
Qed.

Lemma clear_log_init : geo_blocksize g = bsz ->
  exists d', clear_log g uuid 1 d = (d', Ok tt) /\ later d d' /\
    fresh_log d' start bbs len /\ log_names d' start uuid /\
    forall i, i < start \/ start + bbs * 512 <= i -> contents d' i = contents d i.
Proof.
  intros Eb. destruct clear_bounds as (B1 & B2 & B3 & B4 & B5 & B6).
  destruct (clear_stream_init Eb) as (first & d' & k & W & L & E & Lt & Lk & C).
  rewrite length_app, length_zeroes in Lk.
  assert (holds d' start 0 first) as Hh.
  { unfold holds. rewrite Z.add_0_r. rewrite (bytes_of_ext _ _ _ _ (fun i _ => C i)).
    apply bytes_of_eq. intros i x Hx. apply overlay_in; [lia|].
    replace (Z.to_nat (start + Z.of_nat i - start)) with i by lia. by apply lookup_app_l_Some. }
  exists d'. split_and!; [done | done | | |].
  - split; [|change TOTAL_REC_BBS with 4096; lia|].
    + eapply record_is_unmount; [exact W | done | unfold sunit; lia | by vm_compute | done].
    + intros n Hn. apply zero_bytes_word. intros i Hi. rewrite C.
      assert (zeroed start (bbs * 512) (contents d) i = byte.of_Z 0) as Hz.
      { unfold zeroed. destruct (Z.leb_spec start i), (Z.ltb_spec i (start + bbs * 512)); done || lia. }
      destruct (Z.lt_ge_cases i (start + Z.of_nat (length (first ++ zeroes k)))) as [Hi'|Hi'].
      * rewrite length_app, length_zeroes in Hi'. apply overlay_in; [lia|].
        rewrite lookup_app_r by lia. apply lookup_replicate_2. lia.
      * rewrite overlay_out by lia. done.
  - exists first, sunit, (lsn 1 0), (lsn 1 0). split_and!; [done..|]. change BDSTRAT_SIZE with 262144. lia.
  - intros i Hi. rewrite C, overlay_out by (rewrite length_app, length_zeroes; lia).
    unfold zeroed. destruct (Z.leb_spec start i), (Z.ltb_spec i (start + bbs * 512)); done || lia.
Qed.

(** Either way the log is clean, in the cycle it was given. *)
Lemma clear_log_clean c : geo_blocksize g = bsz -> 1 <= c < HEADER_MAGIC ->
  exists d' s, clear_log g uuid c d = (d', Ok tt) /\ later d d' /\
    clean_log d' start bbs s /\ ls_cycle s = c /\ log_names d' start uuid /\
    forall i, i < start \/ start + bbs * 512 <= i -> contents d' i = contents d i.
Proof.
  intros Eb Hc. destruct (decide (c = 1)) as [->|].
  - destruct (clear_log_init Eb) as (d' & E & Lt & F & N & O).
    eexists d', _. split_and!; [done | done | by apply clean_fresh | done..].
  - destruct (clear_log_full (c - 1)) as (d' & E & Lt & F & N & O); [lia|].
    replace (c - 1 + 1) with c in * by lia.
    eexists d', _. split_and!; [done | done | by eapply clean_full | done..].
Qed.
End Clear.
