(* ===== verification/SbFacts.v ===== *)
(** One superblock under the administrator's hands: what [do_uuid],
    [put_fname] and [sb_to_disk] do to a block.

    Each is a list of field stores, the last followed by the stamp, so the
    block they leave is [sealed] and its fields read back; every byte outside
    the fields they name is kept.  [sb_ok] is the state of a superblock: its
    UUID, the UUID of the metadata it governs, its label.  The UUID of the
    metadata is [sb_meta_uuid] or [sb_uuid] by a feature bit, and no
    operation changes it. *)

From Stdlib Require Import ZArith Lia.
From stdpp Require Import base tactics list numbers sets.
From coqutil Require Import Byte Word.LittleEndianList.
From S2P Require Import Prelude Bytes Crc Structs Superblock Device Io Inspect Admin.

(** * The state of a superblock *)

Definition UNKNOWN_INCOMPAT : Z := u32 (Z.lnot KNOWN_INCOMPAT).

Record sb_ok (g : Geo) (b uuid meta fname : buf) : Prop := {
  so_length : length b = Z.to_nat (geo_blocksize g);
  so_magic : be32 b off.MAGICNUM = Ok MAGIC;
  so_crc : (s ← slice b 0 (Z.to_nat (geo_sectsize g)); verify s off.CRC) = Ok true;
  so_uuid : slice b off.UUID (off.UUID + 16) = Ok uuid;
  so_fname : slice b off.FNAME (off.FNAME + LABEL_MAX) = Ok fname;
  so_rblocks : be64 b off.RBLOCKS = Ok 0;
  so_incompat : exists inc, be32 b off.FEATURES_INCOMPAT = Ok inc /\ 0 <= inc < 2 ^ 32 /\
    Z.land inc version.IN_NEEDSREPAIR = 0 /\ Z.land inc UNKNOWN_INCOMPAT = 0 /\
    if has_meta_uuid inc then slice b off.META_UUID (off.META_UUID + 16) = Ok meta
    else meta = uuid;
}.

Lemma sb_ok_check g agno b uuid meta fname : sb_ok g b uuid meta fname -> check_sb g agno b = Ok tt.
Proof.
  intros S. unfold check_sb. rewrite (so_magic _ _ _ _ _ S). cbn [mbind result_bind].
  rewrite Z.eqb_refl. cbn [negb bail_if mbind result_bind].
  pose proof (so_crc _ _ _ _ _ S) as C. destruct (slice _ _ _) as [s| | |]; [|done..].
  cbn [mbind result_bind] in *. by rewrite C.
Qed.

Lemma sb_ok_features g b uuid meta fname : sb_ok g b uuid meta fname -> geo_logstart g <> 0 ->
  check_features g b = Ok tt.
Proof.
  intros S Hl. destruct (so_incompat _ _ _ _ _ S) as (inc & E & _ & N & U & _).
  unfold check_features. rewrite E. cbn [mbind result_bind]. rewrite N. fold UNKNOWN_INCOMPAT.
  rewrite U, (so_rblocks _ _ _ _ _ S). cbn. by destruct (Z.eqb_spec (geo_logstart g) 0).
Qed.

Lemma sb_ok_meta g b uuid meta fname : sb_ok g b uuid meta fname ->
  meta_uuid (mkFs g b) = Ok meta.
Proof.
  intros S. destruct (so_incompat _ _ _ _ _ S) as (inc & E & _ & _ & _ & M).
  unfold meta_uuid. cbn [fs_primary]. rewrite E. cbn [mbind result_bind].
  destruct (has_meta_uuid inc); [done|]. rewrite M. apply S.
Qed.

(** * Feature bits *)

Lemma lor_u32 a b : 0 <= a < 2 ^ 32 -> 0 <= b < 2 ^ 32 -> 0 <= Z.lor a b < 2 ^ 32.
Proof.
  intros Ha Hb. split; [apply Z.lor_nonneg; lia|].
  destruct (Z.eq_dec (Z.lor a b) 0) as [->|Hn]; [lia|].
  pose proof (proj2 (Z.lor_nonneg a b) ltac:(lia)).
  apply Z.log2_lt_pow2; [lia|]. rewrite Z.log2_lor by lia.
  destruct (Z.eq_dec a 0) as [->|], (Z.eq_dec b 0) as [->|];
    try (rewrite (proj2 (Z.log2_null 0)) by lia);
    apply Z.max_lub_lt; try lia; try (apply Z.log2_lt_pow2; lia).
Qed.

Lemma land_u32 a b : 0 <= a < 2 ^ 32 -> 0 <= b -> 0 <= Z.land a b < 2 ^ 32.
Proof.
  intros Ha Hb. split; [apply Z.land_nonneg; lia|].
  destruct (Z.eq_dec (Z.land a b) 0) as [->|Hn]; [lia|].
  pose proof (proj2 (Z.land_nonneg a b) ltac:(lia)). pose proof (Z.log2_land a b ltac:(lia) ltac:(lia)).
  assert (a <> 0) by (intros ->; by rewrite Z.land_0_l in Hn).
  apply Z.log2_lt_pow2; [lia|]. assert (Z.log2 a < 32) by (apply Z.log2_lt_pow2; lia). lia.
Qed.

(** The incompat word [do_uuid] writes. *)
Definition set_meta (inc : Z) : Z := Z.lor inc version.IN_META_UUID.
Definition clear_meta (inc : Z) : Z := Z.land inc (u32 (Z.lnot version.IN_META_UUID)).

Lemma set_meta_bits inc : has_meta_uuid inc = false ->
  has_meta_uuid (set_meta inc) = true /\
  Z.land (set_meta inc) version.IN_NEEDSREPAIR = Z.land inc version.IN_NEEDSREPAIR /\
  Z.land (set_meta inc) UNKNOWN_INCOMPAT = Z.land inc UNKNOWN_INCOMPAT.
Proof.
  unfold has_meta_uuid, set_meta. intros E%negb_false_iff%Z.eqb_eq.
  rewrite !Z.land_lor_distr_l, E.
  change (Z.land version.IN_META_UUID version.IN_NEEDSREPAIR) with 0.
  change (Z.land version.IN_META_UUID UNKNOWN_INCOMPAT) with 0. by rewrite !Z.lor_0_r.
Qed.

Lemma clear_meta_bits inc : 0 <= inc ->
  has_meta_uuid (clear_meta inc) = false /\
  (Z.land inc version.IN_NEEDSREPAIR = 0 -> Z.land (clear_meta inc) version.IN_NEEDSREPAIR = 0) /\
  (Z.land inc UNKNOWN_INCOMPAT = 0 -> Z.land (clear_meta inc) UNKNOWN_INCOMPAT = 0).
Proof.
  intros Hi. unfold has_meta_uuid, clear_meta.
  set (m := u32 (Z.lnot version.IN_META_UUID)).
  assert (forall x, Z.land (Z.land inc m) x = Z.land (Z.land inc x) m) as Hc.
  { intros x. rewrite <- !Z.land_assoc. f_equal. apply Z.land_comm. }
  rewrite !Hc. split_and!.
  - rewrite <- Z.land_assoc. change (Z.land version.IN_META_UUID m) with 0. by rewrite Z.land_0_r.
  - by intros ->.
  - by intros ->.
Qed.

(** Which of them, by the old word and whether the new UUID is the
    metadata's. *)
Definition new_incompat (inc : Z) (same : bool) : Z :=
  if negb (has_meta_uuid inc) && negb same then set_meta inc
  else if has_meta_uuid inc && same then clear_meta inc else inc.

Lemma new_incompat_ok inc same : 0 <= inc < 2 ^ 32 ->
  Z.land inc version.IN_NEEDSREPAIR = 0 -> Z.land inc UNKNOWN_INCOMPAT = 0 ->
  0 <= new_incompat inc same < 2 ^ 32 /\ has_meta_uuid (new_incompat inc same) = negb same /\
  Z.land (new_incompat inc same) version.IN_NEEDSREPAIR = 0 /\
  Z.land (new_incompat inc same) UNKNOWN_INCOMPAT = 0.
Proof.
  intros Hi Hn Hu. unfold new_incompat.
  destruct (has_meta_uuid inc) eqn:E, same; cbn [negb andb]; try done.
  - destruct (clear_meta_bits inc ltac:(lia)) as (H1 & H2 & H3). rewrite H1.
    split_and!; auto; apply land_u32; try lia; by vm_compute.
  - destruct (set_meta_bits inc E) as (H1 & H2 & H3). rewrite H1, H2, H3.
    split_and!; try done; apply lor_u32; try lia; by vm_compute.
Qed.

(** The incompat word changes in its third bit alone. *)
Lemma has_meta_testbit inc : has_meta_uuid inc = Z.testbit inc 2.
Proof.
  unfold has_meta_uuid. change version.IN_META_UUID with (2 ^ 2).
  destruct (Z.eqb_spec (Z.land inc (2 ^ 2)) 0) as [E|E].
  - apply (f_equal (fun z => Z.testbit z 2)) in E. rewrite Z.land_spec, Z.pow2_bits_true in E by lia.
    rewrite andb_true_r, Z.bits_0 in E. by rewrite E.
  - destruct (Z.testbit inc 2) eqn:Et; [done|]. destruct E. apply Z.bits_inj_0. intros i.
    rewrite Z.land_spec. destruct (Z.eq_dec i 2) as [->|Hn]; [by rewrite Et|].
    rewrite Z.pow2_bits_false by done. apply andb_false_r.
Qed.

Lemma new_incompat_bits inc same i : 0 <= inc < 2 ^ 32 -> 0 <= i ->
  Z.testbit (new_incompat inc same) i = if i =? 2 then negb same else Z.testbit inc i.
Proof.
  intros Hr Hi. unfold new_incompat. rewrite has_meta_testbit.
  assert (Z.testbit (set_meta inc) i = if i =? 2 then true else Z.testbit inc i) as Es.
  { unfold set_meta. change version.IN_META_UUID with (2 ^ 2). rewrite Z.lor_spec.
    destruct (Z.eqb_spec i 2) as [->|Hn]; [rewrite Z.pow2_bits_true by lia; apply orb_true_r|].
    rewrite Z.pow2_bits_false by done. apply orb_false_r. }
  assert (Z.testbit (clear_meta inc) i = if i =? 2 then false else Z.testbit inc i) as Ec.
  { unfold clear_meta, u32. rewrite Z.land_spec. destruct (Z.lt_ge_cases i 32).
    - rewrite Z.mod_pow2_bits_low, Z.lnot_spec by lia. change version.IN_META_UUID with (2 ^ 2).
      destruct (Z.eqb_spec i 2) as [->|Hn]; [rewrite Z.pow2_bits_true by lia; apply andb_false_r|].
      rewrite Z.pow2_bits_false by done. apply andb_true_r.
    - rewrite (testbit_high 32 inc i) by lia. by destruct (i =? 2). }
  destruct (Z.testbit inc 2) eqn:Et, same; cbn [negb andb]; rewrite ?Es, ?Ec;
    destruct (Z.eqb_spec i 2) as [->|]; done.
Qed.

(** * The stores of the operations *)

Definition quota_store (o : nat) (q : Z) : list store := if q =? 0 then [P64 o NULL64] else [].

(** The stores of [sb_to_disk], from the fields it reads. *)
Definition disk_stores (uq gq pq f2 : Z) : list store :=
  quota_store off.UQUOTINO uq ++ quota_store off.GQUOTINO gq ++ quota_store off.PQUOTINO pq ++
  [P32 off.BAD_FEATURES2 f2].

(** The stores of [do_uuid] on a superblock with incompat word [inc] and UUID
    [old]; [same] says that the new UUID is the metadata's. *)
Definition uuid_stores (inc : Z) (same : bool) (old uuid : buf) : list store :=
  if negb (has_meta_uuid inc) && negb same then
    [PB off.META_UUID 16 old; P32 off.FEATURES_INCOMPAT (set_meta inc); PB off.UUID 16 uuid]
  else if has_meta_uuid inc && same then
    [PB off.META_UUID 16 (zeroes 16); P32 off.FEATURES_INCOMPAT (clear_meta inc);
     PB off.UUID 16 uuid]
  else [P32 off.FEATURES_INCOMPAT inc; PB off.UUID 16 uuid].

Definition label_stores (fname : buf) : list store := [PB off.FNAME 12 fname].

Lemma do_uuid_stores meta uuid old inc b :
  be32 b off.FEATURES_INCOMPAT = Ok inc -> slice b off.UUID (off.UUID + 16) = Ok old ->
  do_uuid meta uuid b = run_stores (uuid_stores inc (bool_decide (uuid = meta)) old uuid) b.
Proof.
  intros Ei Eu. unfold do_uuid, uuid_stores, run_stores. rewrite Ei, Eu. cbn [mbind result_bind].
  unfold set_meta, clear_meta.
  destruct (has_meta_uuid inc), (bool_decide (uuid = meta));
    cbn [negb andb fold_result run_store mbind result_bind].
  1,4: destruct (copy_into off.META_UUID _ _ b); cbn [mbind result_bind]; try done.
  all: destruct (put32 _ _ _); cbn [mbind result_bind]; try done.
  all: by destruct (copy_into _ _ _ _).
Qed.

Lemma put_fname_stores fname b : put_fname fname b = run_stores (label_stores fname) b.
Proof.
  unfold put_fname, label_stores, run_stores. cbn [fold_result run_store].
  change (off.FNAME + LABEL_MAX)%nat with (off.FNAME + 12)%nat. by destruct (copy_into _ _ _ _).
Qed.

(** The fields [sb_to_disk] reads. *)
Definition disk_reads (b : buf) (uq gq pq f2 : Z) : Prop :=
  be64 b off.UQUOTINO = Ok uq /\ be64 b off.GQUOTINO = Ok gq /\ be64 b off.PQUOTINO = Ok pq /\
  be32 b off.FEATURES2 = Ok f2.

Lemma disk_reads_exist b : (264 <= length b)%nat -> exists uq gq pq f2, disk_reads b uq gq pq f2.
Proof.
  intros Hl. assert (forall o, (o + 8 <= 264)%nat -> exists q, be64 b o = Ok q) as R.
  { intros o Ho. unfold be64. rewrite slice_in by lia. by eexists. }
  destruct (R off.UQUOTINO) as (uq & E1), (R off.GQUOTINO) as (gq & E2), (R off.PQUOTINO) as (pq & E3);
    try (apply Nat.leb_le; reflexivity).
  assert (exists f2, be32 b off.FEATURES2 = Ok f2) as (f2 & E4).
  { unfold be32. rewrite slice_in by (unfold off.FEATURES2; lia). by eexists. }
  by exists uq, gq, pq, f2.
Qed.

(** Stores clear of a field. *)
Lemma be64_patches ss b o : Forall (store_in (length b)) ss -> find_store o 8 ss = Untouched ->
  be64 (patches ss b) o = be64 b o.
Proof. intros H E. unfold be64. by rewrite slice_patches_untouched. Qed.
Lemma be32_patches ss b o : Forall (store_in (length b)) ss -> find_store o 4 ss = Untouched ->
  be32 (patches ss b) o = be32 b o.
Proof. intros H E. unfold be32. by rewrite slice_patches_untouched. Qed.

(** A quota field is stored to itself or not at all. *)
Lemma quota_clear o q o' n : find_store o' n [P64 o NULL64] = Untouched ->
  find_store o' n (quota_store o q) = Untouched.
Proof. unfold quota_store. by destruct (q =? 0). Qed.

Lemma quota_run b o q : be64 b o = Ok q ->
  quota_from_disk b o = Ok (patches (quota_store o q) b) /\
  Forall (store_in (length b)) (quota_store o q).
Proof.
  intros E. assert (o + 8 <= length b)%nat as Ho.
  { unfold be64 in E. destruct (slice b o (o + 8)) eqn:Es; [|done..]. apply slice_Ok in Es as [? _]; lia. }
  unfold quota_from_disk, quota_store. rewrite E. cbn [mbind result_bind].
  destruct (q =? 0); [|by split]. split.
  - unfold put64. by rewrite copy_into_in by (rewrite ?length_to_be_bytes; lia).
  - constructor; [|constructor]. split; [cbn; lia | apply length_to_be_bytes].
Qed.

Lemma quota_stores_in n uq gq pq f2 : (264 <= n)%nat ->
  Forall (store_in n) (disk_stores uq gq pq f2).
Proof.
  intros Hn. assert (length (zeroes n) = n) as <- by apply length_zeroes.
  apply (stores_in 264); [|by rewrite length_zeroes|]; unfold disk_stores, quota_store;
    destruct (uq =? 0), (gq =? 0), (pq =? 0); repeat constructor.
Qed.

(** The effect of [sb_to_disk] on a block of at least a superblock's size. *)
Lemma sb_to_disk_sealed g b uq gq pq f2 : (264 <= Z.to_nat (geo_sectsize g) <= length b)%nat ->
  disk_reads b uq gq pq f2 -> exists b', sb_to_disk g b = Ok b' /\
    sealed (Z.to_nat (geo_sectsize g)) off.CRC (disk_stores uq gq pq f2) b b'.
Proof.
  intros Hl (Q1 & Q2 & Q3 & Q4). set (ss := Z.to_nat (geo_sectsize g)) in *.
  destruct (quota_run b off.UQUOTINO uq Q1) as [E1 I1]. destruct (run_stores_in _ _ I1) as [_ L1].
  set (b1 := patches _ b) in *. pose proof (fun o n => quota_clear off.UQUOTINO uq o n) as C1.
  destruct (quota_run b1 off.GQUOTINO gq) as [E2 I2]; [by unfold b1; rewrite be64_patches; [|done|apply C1]|].
  destruct (run_stores_in _ _ I2) as [_ L2]. set (b2 := patches _ b1) in *.
  pose proof (fun o n => quota_clear off.GQUOTINO gq o n) as C2.
  destruct (quota_run b2 off.PQUOTINO pq) as [E3 I3].
  { unfold b2, b1. rewrite !be64_patches; try done; [by apply C1 | by apply C2]. }
  destruct (run_stores_in _ _ I3) as [_ L3]. set (b3 := patches _ b2) in *.
  assert (be32 b3 off.FEATURES2 = Ok f2) as E4.
  { unfold b3, b2, b1. rewrite !be32_patches; try done; [by apply C1 | by apply C2 | by apply quota_clear]. }
  destruct (write_sealed_ok ss off.CRC (disk_stores uq gq pq f2) b) as (b' & E & S);
    [unfold off.CRC; lia | lia | apply quota_stores_in; lia |].
  exists b'. split; [|done]. rewrite <- E. unfold sb_to_disk, write_sealed.
  cbn [fold_result]. rewrite E1. cbn [mbind result_bind]. rewrite E2. cbn [mbind result_bind].
  rewrite E3. cbn [mbind result_bind]. rewrite E4. cbn [mbind result_bind].
  destruct (run_stores_in _ _ (quota_stores_in (length b) uq gq pq f2 ltac:(lia))) as [-> _].
  cbn [mbind result_bind]. unfold disk_stores, patches. rewrite !foldl_app.
  fold (patches (quota_store off.UQUOTINO uq) b). fold b1.
  fold (patches (quota_store off.GQUOTINO gq) b1). fold b2.
  fold (patches (quota_store off.PQUOTINO pq) b2). fold b3. cbn [foldl store_off store_bytes].
  unfold put32. rewrite copy_into_in; [done | | rewrite length_to_be_bytes];
    rewrite ?L3, ?L2, ?L1; unfold off.BAD_FEATURES2; lia.
Qed.

(** * What is kept *)

(** The fields every rewrite touches, whatever it is for, and all the fields
    an operation may change. *)
Definition REWRITTEN : list (nat * nat) :=
  [(off.UQUOTINO, 8); (off.GQUOTINO, 8); (off.PQUOTINO, 8); (off.BAD_FEATURES2, 4); (off.CRC, 4)]%nat.
Definition LABEL_FIELDS : list (nat * nat) := [(off.FNAME, 12%nat)].
Definition UUID_FIELDS : list (nat * nat) :=
  [(off.UUID, 16); (off.META_UUID, 16); (off.FEATURES_INCOMPAT, 4)]%nat.
Definition ADMIN_FIELDS : list (nat * nat) := LABEL_FIELDS ++ UUID_FIELDS ++ REWRITTEN.

Definition clear_field (lo k : nat) (f : nat * nat) : bool :=
  (lo + k <=? fst f)%nat || (fst f + snd f <=? lo)%nat.

(** Every byte outside some fields is as it was. *)
Definition kept (fields : list (nat * nat)) (b b' : buf) : Prop :=
  length b' = length b /\
  forall lo k, forallb (clear_field lo k) fields = true -> slice b' lo (lo + k) = slice b lo (lo + k).

Lemma kept_refl fields b : kept fields b b.
Proof. by split. Qed.
Lemma kept_trans fields b1 b2 b3 : kept fields b1 b2 -> kept fields b2 b3 -> kept fields b1 b3.
Proof. intros [L1 H1] [L2 H2]. split; [by rewrite L2|]. intros lo k Hc. by rewrite H2, H1. Qed.
Lemma kept_more fields fields' b b' : fields ⊆ fields' -> kept fields b b' -> kept fields' b b'.
Proof.
  intros Hs [L Hk]. split; [done|]. intros lo k Hc. apply Hk.
  rewrite forallb_forall in *. intros f Hf. apply Hc.
  apply list_elem_of_In, Hs, list_elem_of_In, Hf.
Qed.

Lemma label_in_admin : LABEL_FIELDS ++ REWRITTEN ⊆ ADMIN_FIELDS.
Proof. intros x. unfold ADMIN_FIELDS. rewrite !elem_of_app. tauto. Qed.
Lemma uuid_in_admin : UUID_FIELDS ++ REWRITTEN ⊆ ADMIN_FIELDS.
Proof. intros x. unfold ADMIN_FIELDS. rewrite !elem_of_app. tauto. Qed.

Section Kept.
Context {fields : list (nat * nat)} {b b' : buf} (K : kept fields b b').

Lemma kept_slice lo k : forallb (clear_field lo k) fields = true ->
  slice b' lo (lo + k) = slice b lo (lo + k).
Proof. apply K. Qed.
Lemma kept_be32 o : forallb (clear_field o 4) fields = true -> be32 b' o = be32 b o.
Proof. intros Hc. unfold be32. by rewrite kept_slice. Qed.
Lemma kept_be64 o : forallb (clear_field o 8) fields = true -> be64 b' o = be64 b o.
Proof. intros Hc. unfold be64. by rewrite kept_slice. Qed.
Lemma kept_be16 o : forallb (clear_field o 2) fields = true -> be16 b' o = be16 b o.
Proof. intros Hc. rewrite !be16_slice. by rewrite kept_slice. Qed.
Lemma kept_index o : forallb (clear_field o 1) fields = true -> index b' o = index b o.
Proof. intros Hc. rewrite !index_slice. by rewrite kept_slice. Qed.
End Kept.

(** Read kept fields in the old block. *)
Ltac read_kept K :=
  match type of K with
  | kept _ _ ?b =>
      repeat match goal with
      | |- context [be32 b ?o] => rewrite (kept_be32 K o eq_refl)
      | |- context [be64 b ?o] => rewrite (kept_be64 K o eq_refl)
      | |- context [be16 b ?o] => rewrite (kept_be16 K o eq_refl)
      | |- context [index b ?o] => rewrite (kept_index K o eq_refl)
      | |- context [slice b ?o (?o + ?n)] => rewrite (kept_slice K o n eq_refl)
      end
  end.

Lemma sealed_app n o ss1 ss2 b b' : Forall (store_in (length b)) ss1 ->
  sealed n o ss2 (patches ss1 b) b' -> sealed n o (ss1 ++ ss2) b b'.
Proof.
  intros H1 [L V Hs Hi]. destruct (run_stores_in _ _ H1) as [_ Lp]. rewrite Lp in *.
  split; [done | done | | by apply Forall_app].
  intros lo k Hd. rewrite Hs by done. unfold patches. by rewrite foldl_app.
Qed.

(** The fields a list of stores names. *)
Definition covered (fields : list (nat * nat)) (s : store) : bool :=
  existsb (fun f => (fst f <=? store_off s)%nat && (store_off s + store_len s <=? fst f + snd f)%nat)
    fields.

Lemma sealed_kept n ss b b' fields : sealed n off.CRC ss b b' ->
  forallb (covered fields) ss = true -> (off.CRC, 4%nat) ∈ fields -> kept fields b b'.
Proof.
  intros S Hc Hcrc. split; [apply (sealed_length _ _ _ _ _ S)|]. intros lo k Hf.
  rewrite forallb_forall in Hf. apply (sealed_apart S).
  - specialize (Hf _ (proj1 (list_elem_of_In _ _) Hcrc)). unfold clear_field in Hf. cbn [fst snd] in Hf.
    apply orb_prop in Hf as [?%Nat.leb_le|?%Nat.leb_le]; lia.
  - rewrite forallb_forall in Hc. apply List.Forall_forall. intros s Hs.
    specialize (Hc s Hs). unfold covered in Hc. apply existsb_exists in Hc as (f & Hin & Hb).
    apply andb_prop in Hb as [H1%Nat.leb_le H2%Nat.leb_le]. specialize (Hf f Hin).
    unfold clear_field in Hf. unfold apart.
    apply orb_prop in Hf as [?%Nat.leb_le|?%Nat.leb_le]; lia.
Qed.

(** * One superblock rewritten *)

(** What every rewrite does to a superblock, whatever it is for: a quota inode
    of 0 becomes the null inode and any other stays, [bad_features2] becomes
    what [features2] says, and the checksum is good. *)
Record rewritten (g : Geo) (b b' : buf) : Prop := {
  re_quota : Forall (fun o => exists q, be64 b o = Ok q /\
    be64 b' o = Ok (if q =? 0 then 2 ^ 64 - 1 else q)) [off.UQUOTINO; off.GQUOTINO; off.PQUOTINO];
  re_features2 : exists f2, be32 b off.FEATURES2 = Ok f2 /\ be32 b' off.BAD_FEATURES2 = Ok f2;
  re_crc : (s ← slice b' 0 (Z.to_nat (geo_sectsize g)); verify s off.CRC) = Ok true;
}.

(** A superblock given a label: nothing else changes but what every rewrite
    does. *)
Record relabelled (g : Geo) (fname b b' : buf) : Prop := {
  rl_kept : kept (LABEL_FIELDS ++ REWRITTEN) b b';
  rl_rewritten : rewritten g b b';
  rl_fname : slice b' off.FNAME (off.FNAME + LABEL_MAX) = Ok fname;
}.

(** A superblock of a filesystem whose metadata names [meta], given the UUID
    [u].  The incompat word changes in one bit, which says whether the two
    differ; [sb_meta_uuid] holds [meta] where they do, and where they do not it
    is cleared if it was in use and left alone if it was not. *)
Record renamed (g : Geo) (u meta b b' : buf) : Prop := {
  rd_kept : kept (UUID_FIELDS ++ REWRITTEN) b b';
  rd_rewritten : rewritten g b b';
  rd_uuid : slice b' off.UUID (off.UUID + 16) = Ok u;
  rd_meta : exists inc inc', be32 b off.FEATURES_INCOMPAT = Ok inc /\
    be32 b' off.FEATURES_INCOMPAT = Ok inc' /\
    (forall i, 0 <= i -> Z.testbit inc' i =
       if i =? 2 then negb (bool_decide (u = meta)) else Z.testbit inc i) /\
    slice b' off.META_UUID (off.META_UUID + 16) =
      if bool_decide (u = meta)
      then if Z.testbit inc 2 then Ok (zeroes 16) else slice b off.META_UUID (off.META_UUID + 16)
      else Ok meta;
}.

Definition update_block (g : Geo) (f : buf -> result buf) (b : buf) : result buf :=
  b ← f b; sb_to_disk g b.

Section Update.
Variables (g : Geo) (b uuid meta fname : buf).
Hypothesis Hs : (264 <= Z.to_nat (geo_sectsize g) <= Z.to_nat (geo_blocksize g))%nat.
Hypothesis S : sb_ok g b uuid meta fname.

(** The stores of the operation, those of [sb_to_disk], the stamp. *)
Definition off_disk (ss : list store) : bool :=
  forallb (fun on => match find_store (fst on) (snd on) ss with Untouched => true | _ => false end)
    [(off.UQUOTINO, 8); (off.GQUOTINO, 8); (off.PQUOTINO, 8); (off.FEATURES2, 4)]%nat.

Lemma update_sealed f ss1 : f b = run_stores ss1 b -> Forall (store_in (length b)) ss1 ->
  off_disk ss1 = true ->
  exists uq gq pq f2 b', update_block g f b = Ok b' /\ disk_reads b uq gq pq f2 /\
    sealed (Z.to_nat (geo_sectsize g)) off.CRC (ss1 ++ disk_stores uq gq pq f2) b b'.
Proof.
  intros Hf H1 Hd. destruct (run_stores_in _ _ H1) as [E L].
  pose proof (so_length _ _ _ _ _ S) as Lb.
  destruct (disk_reads_exist b ltac:(lia)) as (uq & gq & pq & f2 & R).
  assert (disk_reads (patches ss1 b) uq gq pq f2) as R'.
  { unfold disk_reads. unfold off_disk in Hd. cbn [forallb fst snd] in Hd.
    rewrite !be64_patches, be32_patches; try done;
      repeat case_match; done. }
  destruct (sb_to_disk_sealed g (patches ss1 b) uq gq pq f2) as (b' & E' & Se); [rewrite L; lia | done |].
  exists uq, gq, pq, f2, b'. split; [|split; [done | by apply sealed_app]].
  unfold update_block. rewrite Hf, E. exact E'.
Qed.

Lemma disk_covered uq gq pq f2 fields : REWRITTEN ⊆ fields ->
  forallb (covered fields) (disk_stores uq gq pq f2) = true.
Proof.
  intros Hf. apply forallb_forall. intros s Hin.
  assert (covered REWRITTEN s = true) as Hc.
  { revert s Hin. apply forallb_forall. unfold disk_stores, quota_store.
    by destruct (uq =? 0), (gq =? 0), (pq =? 0). }
  unfold covered in *. apply existsb_exists in Hc as (x & Hx & Hb). apply existsb_exists.
  exists x. split; [|done]. apply list_elem_of_In, Hf, list_elem_of_In, Hx.
Qed.

(** What [sb_to_disk] adds reads back. *)
Lemma find_store_app o n ss1 ss2 : find_store o n (ss1 ++ ss2) =
  match find_store o n ss2 with Untouched => find_store o n ss1 | r => r end.
Proof.
  induction ss1 as [|s ss1 IH]; cbn [app find_store]; [by destruct (find_store o n ss2)|].
  rewrite IH. by destruct (find_store o n ss2).
Qed.

Lemma be32_u32 x o v : be32 x o = Ok v -> 0 <= v < 2 ^ 32.
Proof.
  unfold be32. destruct (slice x o (o + 4)) as [l| | |] eqn:E; [|done..]. intros [= <-].
  pose proof (of_be_bytes_range l) as R. apply slice_length in E. by replace (length l) with 4%nat in R by lia.
Qed.

Lemma sealed_rewritten ss1 uq gq pq f2 b' : off_disk ss1 = true -> disk_reads b uq gq pq f2 ->
  sealed (Z.to_nat (geo_sectsize g)) off.CRC (ss1 ++ disk_stores uq gq pq f2) b b' -> rewritten g b b'.
Proof.
  intros Hd (Q1 & Q2 & Q3 & Q4) Se. unfold off_disk in Hd. cbn [forallb fst snd] in Hd.
  split; [|exists f2; split; [done|]|apply (sealed_verify _ _ _ _ _ Se)].
  - assert (forall o q, be64 b o = Ok q -> clear_of off.CRC o 8 = true ->
      find_store o 8 (ss1 ++ disk_stores uq gq pq f2) =
        (if q =? 0 then Stored (to_be_bytes 8 NULL64) else Untouched) ->
      exists q, be64 b o = Ok q /\ be64 b' o = Ok (if q =? 0 then 2 ^ 64 - 1 else q)) as Hq.
    { intros o q Eq Hc Hf. exists q. split; [done|]. destruct (q =? 0).
      - by rewrite (sealed_be64 Se o NULL64 Hc Hf).
      - unfold be64 in *. by rewrite (sealed_untouched Se o 8 Hc Hf). }
    repeat apply Forall_cons_2; [eapply Hq; [done | done |].. | constructor];
      rewrite find_store_app; unfold disk_stores, quota_store;
      destruct (uq =? 0), (gq =? 0), (pq =? 0); cbn; repeat case_match; done.
  - rewrite (sealed_be32 Se off.BAD_FEATURES2 f2); [by rewrite u32_id by by eapply be32_u32 | done |].
    rewrite find_store_app. unfold disk_stores, quota_store. by destruct (uq =? 0), (gq =? 0), (pq =? 0).
Qed.

(** ** The label *)

Lemma update_label fname' : length fname' = LABEL_MAX ->
  exists b', update_block g (put_fname fname') b = Ok b' /\ sb_ok g b' uuid meta fname' /\
    relabelled g fname' b b'.
Proof.
  intros Hl. pose proof (so_length _ _ _ _ _ S) as Lb.
  assert (Forall (store_in (length b)) (label_stores fname')) as Hin.
  { constructor; [|constructor]. split; [cbn; lia | done]. }
  destruct (update_sealed (put_fname fname') (label_stores fname')) as (uq & gq & pq & f2 & b' & E & Rd & Se);
    [apply put_fname_stores | done | done |].
  assert (kept (LABEL_FIELDS ++ REWRITTEN) b b') as K.
  { apply (sealed_kept _ _ _ _ _ Se); [|set_solver]. rewrite forallb_app. apply andb_true_intro.
    split; [done|]. apply disk_covered. set_solver. }
  assert (slice b' off.FNAME (off.FNAME + LABEL_MAX) = Ok fname') as Ef.
  { change LABEL_MAX with 12%nat. apply (sealed_bytes Se); [done|].
    unfold disk_stores, quota_store. by destruct (uq =? 0), (gq =? 0), (pq =? 0). }
  exists b'. split_and!; [done | | split; [done | by eapply sealed_rewritten; [|done|exact Se] | done]].
  destruct S as [S1 S2 S3 S4 S5 S6 (inc & I1 & I2 & I3 & I4 & I5)].
  split; read_kept K; try done.
  - by rewrite (proj1 K).
  - apply (sealed_verify _ _ _ _ _ Se).
  - exists inc. read_kept K. done.
Qed.

(** ** The UUID *)

Lemma uuid_stores_in inc same old u : length old = 16%nat -> length u = 16%nat ->
  Forall (store_in (length b)) (uuid_stores inc same old u).
Proof.
  intros Ho Hu. pose proof (so_length _ _ _ _ _ S) as Lb.
  apply (stores_in 264); [|lia|]; unfold uuid_stores;
    destruct (has_meta_uuid inc), same; cbn [negb andb]; repeat constructor; done.
Qed.

(** What the rewritten block says of its UUIDs. *)
Lemma uuid_read inc same u uq gq pq f2 b' : 0 <= inc < 2 ^ 32 ->
  length uuid = 16%nat -> length u = 16%nat ->
  sealed (Z.to_nat (geo_sectsize g)) off.CRC
    (uuid_stores inc same uuid u ++ disk_stores uq gq pq f2) b b' ->
  slice b' off.UUID (off.UUID + 16) = Ok u /\
  be32 b' off.FEATURES_INCOMPAT = Ok (new_incompat inc same) /\
  slice b' off.META_UUID (off.META_UUID + 16) =
    (if Bool.eqb (has_meta_uuid inc) same
     then if same then Ok (zeroes 16) else Ok uuid
     else slice b off.META_UUID (off.META_UUID + 16)).
Proof.
  intros Hi Lu Hu Se.
  assert (0 <= set_meta inc < 2 ^ 32 /\ 0 <= clear_meta inc < 2 ^ 32) as [R1 R2].
  { split; [apply lor_u32 | apply land_u32]; try lia; by vm_compute. }
  unfold disk_stores, quota_store, uuid_stores in Se. unfold new_incompat.
  destruct (has_meta_uuid inc), same, (uq =? 0), (gq =? 0), (pq =? 0); cbn [negb andb app Bool.eqb] in *;
    (split; [by apply (sealed_bytes Se)|]);
    (split; [read_sealed Se; by rewrite u32_id|]);
    solve [by apply (sealed_bytes Se) | by apply (sealed_untouched Se)].
Qed.

Lemma update_uuid u : length u = 16%nat ->
  exists b', update_block g (do_uuid meta u) b = Ok b' /\ sb_ok g b' u meta fname /\
    renamed g u meta b b'.
Proof.
  intros Hu. destruct S as [S1 S2 S3 S4 S5 S6 (inc & I1 & I2 & I3 & I4 & I5)].
  assert (length uuid = 16%nat) as Lu by (apply slice_length in S4; exact S4).
  set (same := bool_decide (u = meta)).
  assert (off_disk (uuid_stores inc same uuid u) = true) as Hd.
  { unfold uuid_stores. by destruct (has_meta_uuid inc), same. }
  destruct (update_sealed (do_uuid meta u) (uuid_stores inc same uuid u))
    as (uq & gq & pq & f2 & b' & E & Rd & Se); [by apply do_uuid_stores | by apply uuid_stores_in | done |].
  assert (kept (UUID_FIELDS ++ REWRITTEN) b b') as K.
  { apply (sealed_kept _ _ _ _ _ Se); [|set_solver]. rewrite forallb_app. apply andb_true_intro.
    split; [|apply disk_covered; set_solver].
    unfold uuid_stores. by destruct (has_meta_uuid inc), same. }
  destruct (uuid_read inc same u uq gq pq f2 b' I2 Lu Hu Se) as (R1 & R2 & R3).
  destruct (new_incompat_ok inc same I2 I3 I4) as (N1 & N2 & N3 & N4).
  exists b'. split_and!; [done | |].
  - split; read_kept K; try done.
    + by rewrite (proj1 K).
    + apply (sealed_verify _ _ _ _ _ Se).
    + exists (new_incompat inc same). split_and!; try done; try lia. rewrite N2, R3.
      destruct same eqn:Es; cbn [negb]; [by apply bool_decide_eq_true in Es|].
      destruct (has_meta_uuid inc); cbn [Bool.eqb]; [done | by rewrite I5].
  - split; [done | by eapply sealed_rewritten; [exact Hd | done | exact Se] | done |].
    exists inc, (new_incompat inc same). split_and!; [done | done | intros i Hi; by apply new_incompat_bits |].
    rewrite R3, <- has_meta_testbit. fold same. destruct (has_meta_uuid inc), same; cbn [Bool.eqb]; try done.
    by rewrite I5.
Qed.
End Update.

(** The incompat word of a renamed superblock. *)
Lemma renamed_incompat g u meta b b' inc : renamed g u meta b b' ->
  be32 b' off.FEATURES_INCOMPAT = Ok inc -> has_meta_uuid inc = negb (bool_decide (u = meta)).
Proof.
  intros [_ _ _ (i0 & i1 & _ & E & B & _)]. rewrite E. intros [= <-].
  by rewrite has_meta_testbit, B.
Qed.

(** * The geometry a superblock gives *)

Definition with_incompat (g : Geo) (inc : Z) : Geo :=
  mkGeo (geo_blocksize g) (geo_blocklog g) (geo_sectsize g) (geo_agblocks g) (geo_agcount g)
    (geo_dblocks g) (geo_agblklog g) (geo_inodesize g) (geo_inopblog g) (geo_logstart g)
    (geo_logblocks g) (geo_logsectsize g) (geo_logsunit g) (geo_ro_compat g) inc.

(** The administrator's operations change nothing of it but the incompat
    word. *)
Lemma Geo_parse_kept g b b' inc : kept ADMIN_FIELDS b b' -> Geo_parse b = Ok g ->
  be32 b' off.FEATURES_INCOMPAT = Ok inc -> Geo_parse b' = Ok (with_incompat g inc).
Proof.
  intros K Hp Hi. unfold Geo_parse, Geo_fields in *. rewrite Hi. read_kept K.
  inv_ok. repeat match goal with H : _ = Ok _ |- _ => rewrite H; clear H end.
  cbn [mbind result_bind].
  match goal with H : negb (_ =? MAGIC) = false |- _ => rewrite H end.
  cbn [bail_if mbind result_bind].
  match goal with H : negb (Z.land _ _ =? 5) = false |- _ => rewrite H end.
  cbn [bail_if mbind result_bind].
  match goal with H : negb (Geo_ok ?x) = false |- context [Geo_ok ?y] =>
    change (Geo_ok y) with (Geo_ok x); rewrite H end.
  done.
Qed.

(** A prefix that holds the fields is read as the whole block is. *)
Lemma Geo_parse_prefix b h n : slice b 0 n = Ok h -> (264 <= n)%nat -> Geo_parse h = Geo_parse b.
Proof.
  intros Hh Hn. unfold Geo_parse, Geo_fields.
  assert (forall o, (o + 4 <= n)%nat -> be32 h o = be32 b o) as H32
    by (intros o Ho; symmetry; by apply (slice_be32 b h 0 n o)).
  assert (forall o, (o + 8 <= n)%nat -> be64 h o = be64 b o) as H64
    by (intros o Ho; symmetry; by apply (slice_be64 b h 0 n o)).
  assert (forall o, (o + 2 <= n)%nat -> be16 h o = be16 b o) as H16
    by (intros o Ho; symmetry; by apply (slice_be16 b h 0 n o)).
  assert (forall o, (o + 1 <= n)%nat -> index h o = index b o) as H8
    by (intros o Ho; symmetry; by apply (slice_index b h 0 n o)).
  rewrite !H32, !H64, !H16, !H8 by (cbv; lia). done.
Qed.
