(* ===== verification/AdminFacts.v ===== *)
(** The administrator's operations keep a filesystem whole.

    [fs_ok] is the state of a filesystem as the administrator sees it: a
    superblock in every AG that names one UUID, one metadata UUID and one
    label, and a clean log.  [set_label], [set_uuid] and [restore_uuid]
    succeed on it and lead to another such state, and touch nothing but the
    superblocks and, for the UUID, the log.  Sequences of operations follow by
    induction. *)

From Stdlib Require Import ZArith Lia String.
From stdpp Require Import base tactics list numbers.
From coqutil Require Import Byte Word.LittleEndianList.
From S2P Require Import Prelude Bytes Crc Superblock LogRecord Device Io Inspect Admin.
From S2P Require Import LogFacts ClearFacts SbFacts.

Section Admin.
Context {D : Type} `{DeviceSpec D}.

(** Where everything is, on a device that serves whole blocks. *)
Record layout (d : D) (g : Geo) (start bbs : Z) : Prop := {
  ly_valid : valid d;
  ly_serves : serves_blocks d (geo_blocksize g);
  ly_block : 0 < geo_blocksize g /\ geo_blocksize g mod 1024 = 0 /\
    CHUNK mod geo_blocksize g = 0 /\ WINDOW mod geo_blocksize g = 0;
  ly_sector : 264 <= geo_sectsize g <= geo_blocksize g;
  ly_first : 264 <= Z.min (Z.max (logical_sector_size d) 512) (dev_size d) /\
    accepts d 0 (Z.min (Z.max (logical_sector_size d) 512) (dev_size d)) = true;
  ly_ags : 0 < geo_agcount g /\ 0 < geo_agblocks g /\
    ((geo_agcount g - 1) * geo_agblocks g + 1) * geo_blocksize g <= dev_size d;
  ly_log : log_extent g = (start, bbs) /\ geo_logstart g <> 0 /\ TOTAL_REC_BBS <= bbs;
  ly_log_blocks : 0 <= start /\ start mod geo_blocksize g = 0 /\
    (bbs * 512) mod geo_blocksize g = 0 /\ start + bbs * 512 <= dev_size d;
  ly_sunit : 0 <= geo_logsunit g < 2 ^ 32 - 1024 /\
    first_len (geo_logsunit g) <= BDSTRAT_SIZE / 512;
  ly_apart : forall a, 0 <= a < geo_agcount g ->
    (a * geo_agblocks g + 1) * geo_blocksize g <= start \/
    start + bbs * 512 <= a * geo_agblocks g * geo_blocksize g;
}.

Lemma layout_later d d' g start bbs : layout d g start bbs -> later d d' -> layout d' g start bbs.
Proof.
  intros L Lt. pose proof (later_serves _ _ _ Lt (ly_serves _ _ _ _ L)) as Hs.
  destruct L, Lt as [V S Ls A]. split; rewrite ?A, ?S, ?Ls; done.
Qed.

Definition sb_at (d : D) (g : Geo) (a : Z) : buf :=
  bytes_of (contents d) (a * geo_agblocks g * geo_blocksize g) (geo_blocksize g).

Section Layout.
Context {d : D} {g : Geo} {start bbs : Z} (L : layout d g start bbs).

Lemma layout_readable : readable d start bbs.
Proof.
  destruct (ly_log_blocks _ _ _ _ L) as (H1 & H2 & H3 & H4).
  destruct (ly_block _ _ _ _ L) as (B1 & B2 & B3 & B4).
  assert (0 < WINDOW) by done.
  split; [apply L | done | apply L | done |].
  intros k Hk Hb. apply (ly_serves _ _ _ _ L); [lia | lia | | | lia].
  - apply add_mod_0; [done..|]. rewrite Z.mul_mod, B4, Z.mul_0_r by lia. by apply Z.mod_0_l; lia.
  - destruct (Z.min_spec WINDOW (bbs * 512 - k * WINDOW)) as [[_ ->]|[_ ->]]; [done|].
    apply sub_mod_0; [done..|]. rewrite Z.mul_mod, B4, Z.mul_0_r by lia. by apply Z.mod_0_l; lia.
Qed.

Lemma layout_room : room d start (bbs * 512) (geo_blocksize g).
Proof.
  destruct (ly_log_blocks _ _ _ _ L) as (H1 & H2 & H3 & H4).
  destruct (ly_block _ _ _ _ L) as (B1 & B2 & B3 & B4).
  destruct (ly_log _ _ _ _ L) as (_ & _ & T). change TOTAL_REC_BBS with 4096 in T.
  split; try done; [apply L | lia | apply L].
Qed.

(** An AG's superblock block. *)
Lemma sb_range a : 0 <= a < geo_agcount g ->
  let o := a * geo_agblocks g * geo_blocksize g in
  sb_offset g a = o /\ 0 <= o /\ o mod geo_blocksize g = 0 /\
  o + geo_blocksize g <= dev_size d /\
  accepts d o (geo_blocksize g) = true.
Proof.
  intros Ha o. destruct (ly_ags _ _ _ _ L) as (A1 & A2 & A3).
  destruct (ly_block _ _ _ _ L) as (B1 & B2 & B3 & B4).
  pose proof (size_range _ (ly_valid _ _ _ _ L)).
  assert (a * geo_agblocks g <= (geo_agcount g - 1) * geo_agblocks g) as Hle
    by (apply Z.mul_le_mono_nonneg_r; lia).
  assert (o + geo_blocksize g <= dev_size d) as Ho by (unfold o; nia).
  assert (0 <= a * geo_agblocks g) by nia. assert (0 <= o) by (unfold o; nia).
  assert (o mod geo_blocksize g = 0) by (unfold o; apply Z.mod_mul; lia).
  split_and!; try done.
  - unfold sb_offset. fold o. assert (a * geo_agblocks g <= o) by (unfold o; nia).
    rewrite (u64_id (a * _)), u64_id; fold o; lia.
  - apply (ly_serves _ _ _ _ L); try done; try lia. apply Z.mod_same. lia.
Qed.

(** Superblocks of different AGs do not overlap. *)
Lemma sb_disjoint a a' : 0 <= a < geo_agcount g -> 0 <= a' < geo_agcount g -> a <> a' ->
  (a * geo_agblocks g + 1) * geo_blocksize g <= a' * geo_agblocks g * geo_blocksize g \/
  (a' * geo_agblocks g + 1) * geo_blocksize g <= a * geo_agblocks g * geo_blocksize g.
Proof.
  intros Ha Ha' Hn. destruct (ly_ags _ _ _ _ L) as (_ & A2 & _).
  destruct (ly_block _ _ _ _ L) as (B1 & _).
  destruct (Z.lt_total a a') as [Hlt|[|Hlt]]; [left | done | right];
    apply Z.mul_le_mono_nonneg_r; nia.
Qed.

Lemma length_sb_at a : length (sb_at d g a) = Z.to_nat (geo_blocksize g).
Proof. destruct (ly_block _ _ _ _ L) as (B1 & _). unfold sb_at. rewrite length_bytes_of; lia. Qed.

Lemma read_sb_ok a uuid meta fname : 0 <= a < geo_agcount g ->
  sb_ok g (sb_at d g a) uuid meta fname -> read_sb g a d = (d, Ok (sb_at d g a)).
Proof.
  intros Ha S. destruct (sb_range a Ha) as (E & R1 & R2 & R3 & R4).
  destruct (ly_block _ _ _ _ L) as (B1 & _).
  assert (read (sb_offset g a) (geo_blocksize g) d = (d, Ok (sb_at d g a))) as Er.
  { unfold read. f_equal. rewrite E. apply read_spec; [apply L | lia | lia | done]. }
  unfold read_sb. rewrite (io_bind_step _ _ _ _ _ Er).
  by rewrite (sb_ok_check _ _ _ _ _ _ S), lift_bind.
Qed.

(** [geometry] reads as much of the first superblock as it needs. *)
Lemma geometry_ok : Geo_parse (sb_at d g 0) = Ok g -> geometry d = (d, Ok g).
Proof.
  intros Hp. destruct (ly_first _ _ _ _ L) as [F1 F2]. destruct (ly_block _ _ _ _ L) as (B1 & B2 & _).
  set (n := Z.min (Z.max (logical_sector_size d) 512) (dev_size d)) in *.
  assert (read 0 n d = (d, Ok (bytes_of (contents d) 0 n))) as Er.
  { unfold read. f_equal. apply read_spec; [apply L | lia | lia | done]. }
  unfold geometry, asks. rewrite io_bind_eq. fold n. rewrite (io_bind_step _ _ _ _ _ Er).
  unfold lift. f_equal. rewrite <- Hp. unfold sb_at. rewrite !Z.mul_0_l.
  assert (1024 <= geo_blocksize g).
  { apply Z.mod_divide in B2 as [k Hk]; [|lia]. nia. }
  destruct (Z.le_ge_cases n (geo_blocksize g)).
  - apply (Geo_parse_prefix _ _ (Z.to_nat n)); [|lia].
    rewrite slice_bytes_of by lia. f_equal. f_equal; lia.
  - symmetry. apply (Geo_parse_prefix _ _ (Z.to_nat (geo_blocksize g))); [|lia].
    rewrite slice_bytes_of by lia. f_equal. f_equal; lia.
Qed.

Lemma Fs_open_ok uuid meta fname : Geo_parse (sb_at d g 0) = Ok g ->
  sb_ok g (sb_at d g 0) uuid meta fname -> Fs_open d = (d, Ok (mkFs g (sb_at d g 0))).
Proof.
  intros Hp S. destruct (ly_ags _ _ _ _ L) as (A1 & _). destruct (ly_log _ _ _ _ L) as (_ & Hl & _).
  unfold Fs_open. rewrite (io_bind_step _ _ _ _ _ (geometry_ok Hp)).
  rewrite (io_bind_step _ _ _ _ _ (read_sb_ok 0 _ _ _ ltac:(lia) S)).
  by rewrite (sb_ok_features _ _ _ _ _ S Hl), lift_bind.
Qed.

Lemma log_find_tail_ok p s : clean_log d start bbs s ->
  log_find_tail (mkFs g p) d = (d, Ok s).
Proof.
  intros C. destruct (ly_log _ _ _ _ L) as (E & _ & T). unfold log_find_tail. cbn [fs_geo].
  rewrite E. destruct (Z.ltb_spec bbs TOTAL_REC_BBS); [lia|].
  destruct (clean_tail d start bbs layout_readable s C (mkWindow 0 [])) as (w & Ew & _);
    [by left|]. by rewrite Ew.
Qed.
End Layout.

(** * Every superblock rewritten *)

(** A byte outside every superblock block. *)
Definition off_sbs (g : Geo) (i : Z) : Prop := forall a, 0 <= a < geo_agcount g ->
  i < a * geo_agblocks g * geo_blocksize g \/ (a * geo_agblocks g + 1) * geo_blocksize g <= i.

Section Update.
Variables (g : Geo) (start bbs : Z) (f : buf -> result buf) (b' : Z -> buf).

Lemma update_sb_ok d a uuid meta fname : layout d g start bbs -> 0 <= a < geo_agcount g ->
  sb_ok g (sb_at d g a) uuid meta fname ->
  update_block g f (sb_at d g a) = Ok (b' a) -> length (b' a) = length (sb_at d g a) ->
  exists d', update_sb g f a d = (d', Ok tt) /\ later d d' /\ sb_at d' g a = b' a /\
    (forall a', 0 <= a' < geo_agcount g -> a' <> a -> sb_at d' g a' = sb_at d g a') /\
    forall i, off_sbs g i -> contents d' i = contents d i.
Proof.
  intros L Ha S Hb Hl. destruct (sb_range L a Ha) as (E & R1 & R2 & R3 & R4).
  destruct (ly_block _ _ _ _ L) as (B1 & _). rewrite (length_sb_at L) in Hl.
  destruct (io_write_ok d _ (b' a) (ly_valid _ _ _ _ L) R1) as (d' & Ew & Lt & C).
  { by rewrite Hl, Z2Nat.id by lia. }
  exists d'. split_and!; [|done| | |].
  - unfold update_sb. rewrite (io_bind_step _ _ _ _ _ (read_sb_ok L a _ _ _ Ha S)).
    unfold update_block in Hb. destruct (f (sb_at d g a)) as [b1| | |]; try done.
    cbn [mbind result_bind] in Hb. rewrite lift_bind. unfold write_sb.
    by rewrite Hb, lift_bind, E.
  - unfold sb_at at 1. rewrite (bytes_of_ext _ _ _ _ (fun i _ => C i)).
    replace (geo_blocksize g) with (Z.of_nat (length (b' a))) at 3 by lia. apply bytes_of_overlay.
  - intros a' Ha' Hn. unfold sb_at. apply bytes_of_ext. intros i Hi. rewrite C.
    apply overlay_out. rewrite Hl. destruct (sb_disjoint L a a' Ha Ha' ltac:(done)); lia.
  - intros i Hi. rewrite C. apply overlay_out. rewrite Hl. destruct (Hi a Ha); lia.
Qed.

(** The AGs of a list, in its order. *)
Lemma update_list_ok l d uuids meta fnames : layout d g start bbs -> NoDup l ->
  (forall a, a ∈ l -> 0 <= a < geo_agcount g) ->
  (forall a, a ∈ l -> sb_ok g (sb_at d g a) (uuids a) meta (fnames a) /\
     update_block g f (sb_at d g a) = Ok (b' a) /\ length (b' a) = length (sb_at d g a)) ->
  exists d', io_for (update_sb g f) l d = (d', Ok tt) /\ later d d' /\
    (forall a, a ∈ l -> sb_at d' g a = b' a) /\
    (forall a, 0 <= a < geo_agcount g -> a ∉ l -> sb_at d' g a = sb_at d g a) /\
    forall i, off_sbs g i -> contents d' i = contents d i.
Proof.
  revert d. induction l as [|a l IH]; intros d L Hnd Hr Hb.
  { exists d. split_and!; try done; [apply later_refl, L | by intros a ?%elem_of_nil]. }
  inversion_clear Hnd as [|? ? Hna Hnd']. destruct (Hb a) as (S & E & Hl); [by left|].
  destruct (update_sb_ok d a (uuids a) meta (fnames a) L (Hr a ltac:(by left)) S E Hl)
    as (d1 & E1 & Lt1 & N1 & O1 & C1).
  destruct (IH d1) as (d2 & E2 & Lt2 & N2 & O2 & C2).
  - by apply (layout_later d).
  - done.
  - intros a' Ha'. apply Hr. by right.
  - intros a' Ha'. rewrite O1; [apply Hb; by right | apply Hr; by right | by intros ->].
  - exists d2. split_and!.
    + cbn [io_for]. by rewrite (io_bind_step _ _ _ _ _ E1).
    + by eapply later_trans.
    + intros a' [->|Ha']%elem_of_cons; [|by apply N2].
      rewrite O2; [done | apply Hr; by left | done].
    + intros a' Ha' [Hn Hn']%not_elem_of_cons. rewrite O2, O1; done.
    + intros i Hi. by rewrite C2, C1.
Qed.
End Update.

(** * The state of a filesystem *)

(** Every superblock names the same UUID, metadata UUID and label; the log is
    clean in a cycle and its first record names the UUID. *)
Record fs_ok (d : D) (g : Geo) (start bbs : Z) (uuid meta fname : buf) (s : LogState) : Prop := {
  fo_layout : layout d g start bbs;
  fo_geo : Geo_parse (sb_at d g 0) = Ok g;
  fo_sbs : forall a, 0 <= a < geo_agcount g -> sb_ok g (sb_at d g a) uuid meta fname;
  fo_log : clean_log d start bbs s;
  fo_names : log_names d start uuid;
}.

(** On the way from one state to the next: every superblock is good and names
    the same metadata, but the UUIDs and labels are each AG's own, and so is
    the UUID in the log. *)
Record fs_mixed (d : D) (g : Geo) (start bbs : Z) (uuids : Z -> buf) (meta : buf) (fnames : Z -> buf)
    (s : LogState) : Prop := {
  fx_layout : layout d g start bbs;
  fx_geo : Geo_parse (sb_at d g 0) = Ok g;
  fx_sbs : forall a, 0 <= a < geo_agcount g -> sb_ok g (sb_at d g a) (uuids a) meta (fnames a);
  fx_log : clean_log d start bbs s;
}.

Lemma fs_ok_mixed d g start bbs uuid meta fname s : fs_ok d g start bbs uuid meta fname s ->
  fs_mixed d g start bbs (fun _ => uuid) meta (fun _ => fname) s.
Proof. by intros []; split. Qed.

(** Only the incompat word tells two of the geometries it goes through
    apart. *)
Lemma layout_with_incompat d g start bbs inc : layout d g start bbs ->
  layout d (with_incompat g inc) start bbs.
Proof. by intros []; split. Qed.

Lemma sb_ok_with_incompat g inc b uuid meta fname :
  sb_ok g b uuid meta fname -> sb_ok (with_incompat g inc) b uuid meta fname.
Proof. by intros []; split. Qed.

Lemma log_off_sbs d g start bbs i : layout d g start bbs ->
  start <= i < start + bbs * 512 -> off_sbs g i.
Proof. intros L Hi a Ha. destruct (ly_apart _ _ _ _ L a Ha); lia. Qed.

Lemma log_fits d g start bbs : layout d g start bbs -> 4096 <= bbs.
Proof. intros L. by destruct (ly_log _ _ _ _ L) as (_ & _ & T). Qed.

(** Bytes outside the log leave the superblocks alone, and bytes outside the
    superblocks leave the log alone. *)
Lemma sb_at_outside d d' g start bbs a : layout d g start bbs -> 0 <= a < geo_agcount g ->
  (forall i, i < start \/ start + bbs * 512 <= i -> contents d' i = contents d i) ->
  sb_at d' g a = sb_at d g a.
Proof.
  intros L Ha Hc. apply bytes_of_ext. intros i Hi. apply Hc.
  destruct (ly_apart _ _ _ _ L a Ha); lia.
Qed.

Lemma clean_kept d d' g start bbs s : layout d g start bbs ->
  (forall i, off_sbs g i -> contents d' i = contents d i) ->
  clean_log d start bbs s -> clean_log d' start bbs s.
Proof.
  intros L Hc C. pose proof (log_fits _ _ _ _ L).
  apply (same_clean d d'); [|lia| |done]; [|change (BDSTRAT_SIZE / 512) with 512; lia].
  intros i Hi. by eapply Hc, log_off_sbs.
Qed.

Lemma names_kept d d' g start bbs uuid : layout d g start bbs ->
  (forall i, off_sbs g i -> contents d' i = contents d i) ->
  log_names d start uuid -> log_names d' start uuid.
Proof.
  intros L Hc (r & su & l & t & Hr & W & Hl). pose proof (log_fits _ _ _ _ L).
  change BDSTRAT_SIZE with 262144 in Hl. exists r, su, l, t. split_and!; try done.
  apply (same_holds d d' start bbs); try done || lia. intros i Hi. by eapply Hc, log_off_sbs.
Qed.

(** A device that holds the same bytes holds the same filesystem. *)
Lemma fs_mixed_same d d' g start bbs uuids meta fnames s :
  fs_mixed d g start bbs uuids meta fnames s -> later d d' ->
  (forall i, contents d' i = contents d i) -> fs_mixed d' g start bbs uuids meta fnames s.
Proof.
  intros [L G Hsb C] Lt Hc.
  assert (forall a, sb_at d' g a = sb_at d g a) as Es by (intros a; by apply bytes_of_ext).
  split; [by eapply layout_later | by rewrite Es | intros a Ha; rewrite Es; by apply Hsb |].
  eapply clean_kept; [exact L | intros; apply Hc | done].
Qed.

(** ** The superblocks rewritten by one function *)

(** The superblocks of the first [k] AGs rewritten. *)
Lemma rewrite_upto d g start bbs uuids meta fnames f (P : Z -> buf -> Prop) k :
  layout d g start bbs -> 0 <= k <= geo_agcount g ->
  (forall a, 0 <= a < geo_agcount g -> sb_ok g (sb_at d g a) (uuids a) meta (fnames a)) ->
  (forall a, 0 <= a < geo_agcount g -> exists b', update_block g f (sb_at d g a) = Ok b' /\
     P a b' /\ length b' = length (sb_at d g a)) ->
  exists d', io_for (update_sb g f) (seqZ 0 k) d = (d', Ok tt) /\ later d d' /\
    (forall a, 0 <= a < k -> P a (sb_at d' g a)) /\
    (forall a, k <= a < geo_agcount g -> sb_at d' g a = sb_at d g a) /\
    forall i, off_sbs g i -> contents d' i = contents d i.
Proof.
  intros L Hk Hsb Hu.
  destruct (update_list_ok g start bbs f
    (fun a => match update_block g f (sb_at d g a) with Ok b => b | _ => [] end)
    (seqZ 0 k) d uuids meta fnames L) as (d' & E & Lt & N & O & C).
  - apply NoDup_seqZ.
  - intros a Ha. apply elem_of_seqZ in Ha. lia.
  - intros a Ha. apply elem_of_seqZ in Ha. destruct (Hu a ltac:(lia)) as (b' & -> & _ & Hl).
    split_and!; auto. apply Hsb. lia.
  - exists d'. split_and!; try done.
    + intros a Ha. rewrite N by (apply elem_of_seqZ; lia).
      by destruct (Hu a ltac:(lia)) as (b' & -> & HP & _).
    + intros a Ha. apply O; [lia|]. rewrite elem_of_seqZ. lia.
Qed.

Lemma kept_parses d d' g start bbs fields : layout d g start bbs -> Geo_parse (sb_at d g 0) = Ok g ->
  fields ⊆ ADMIN_FIELDS -> kept fields (sb_at d g 0) (sb_at d' g 0) ->
  exists inc, be32 (sb_at d' g 0) Superblock.off.FEATURES_INCOMPAT = Ok inc /\
    Geo_parse (sb_at d' g 0) = Ok (with_incompat g inc).
Proof.
  intros L G Hf K. assert (exists inc, be32 (sb_at d' g 0) Superblock.off.FEATURES_INCOMPAT = Ok inc) as [inc Hi].
  { unfold be32. rewrite slice_in; [by eexists|]. rewrite (proj1 K), (length_sb_at L).
    pose proof (ly_sector _ _ _ _ L). unfold Superblock.off.FEATURES_INCOMPAT. lia. }
  exists inc. split; [done|]. by apply (Geo_parse_kept g (sb_at d g 0)); [apply (kept_more _ _ _ _ Hf)|..].
Qed.

Lemma layout_sector d g start bbs : layout d g start bbs ->
  (264 <= Z.to_nat (geo_sectsize g) <= Z.to_nat (geo_blocksize g))%nat.
Proof. intros L. pose proof (ly_sector _ _ _ _ L). lia. Qed.

Lemma geo_incompat_of b g : Geo_parse b = Ok g ->
  be32 b Superblock.off.FEATURES_INCOMPAT = Ok (geo_incompat g).
Proof. unfold Geo_parse, Geo_fields. intros Hp. inv_ok. done. Qed.

Lemma with_incompat_same g : with_incompat g (geo_incompat g) = g.
Proof. by destruct g. Qed.

(** ** The label *)

Definition label_ok (label : string) : bool :=
  (String.length label <=? LABEL_MAX)%nat && negb (contains_nul label).
(** The label filled with zeroes. *)
Definition padded (label : string) : buf :=
  list_byte_of_string label ++ zeroes (LABEL_MAX - String.length label).

Lemma label_fname_ok label : label_ok label = true ->
  label_fname label = Ok (padded label) /\ length (padded label) = LABEL_MAX.
Proof.
  intros [Hl%Nat.leb_le _]%andb_prop. pose proof (length_list_byte_of_string label) as E.
  unfold label_fname, padded. rewrite length_app, length_zeroes, E. split; [|lia].
  rewrite copy_into_in by (rewrite ?length_zeroes; lia). unfold patch. cbn [take app]. rewrite E.
  unfold zeroes. by rewrite drop_replicate.
Qed.

Lemma fs_mixed_ext d g start bbs uuids uuids' meta fnames fnames' s :
  (forall a, 0 <= a < geo_agcount g -> uuids a = uuids' a /\ fnames a = fnames' a) ->
  fs_mixed d g start bbs uuids meta fnames s -> fs_mixed d g start bbs uuids' meta fnames' s.
Proof.
  intros He [L G Hsb C]. split; try done. intros a Ha. destruct (He a Ha) as [<- <-]. by apply Hsb.
Qed.

(** The first [k] AGs relabelled. *)
Lemma label_upto d g start bbs uuids meta fnames s label k :
  fs_mixed d g start bbs uuids meta fnames s -> label_ok label = true -> 0 <= k <= geo_agcount g ->
  exists d', io_for (update_sb g (put_fname (padded label))) (seqZ 0 k) d = (d', Ok tt) /\ later d d' /\
    fs_mixed d' g start bbs uuids meta (fun a => if a <? k then padded label else fnames a) s /\
    (forall a, 0 <= a < k -> relabelled g (padded label) (sb_at d g a) (sb_at d' g a)) /\
    forall i, off_sbs g i -> contents d' i = contents d i.
Proof.
  intros [L G Hsb Hlog] Hl Hk. destruct (label_fname_ok label Hl) as [_ Lf].
  destruct (ly_ags _ _ _ _ L) as (A1 & _).
  destruct (rewrite_upto d g start bbs uuids meta fnames (put_fname (padded label))
    (fun a b' => sb_ok g b' (uuids a) meta (padded label) /\
       relabelled g (padded label) (sb_at d g a) b') k L Hk Hsb) as (d' & E & Lt & N & O & C).
  { intros a Ha. destruct (update_label g _ _ meta _ (layout_sector _ _ _ _ L) (Hsb a Ha) _ Lf)
      as (b' & E & S & K). exists b'. split_and!; try done. apply K. }
  exists d'. split_and!; [done | done | | intros a Ha; by apply N | done].
  split; [by eapply layout_later | | | by eapply clean_kept].
  - destruct (Z.lt_ge_cases 0 k) as [Hp|Hp]; [|rewrite O by lia; exact G].
    destruct (N 0 ltac:(lia)) as [S0 R0]. pose proof (rl_kept _ _ _ _ R0) as K0.
    destruct (kept_parses d d' g start bbs _ L G label_in_admin K0) as (inc & I & ->).
    revert I. read_kept K0. rewrite (geo_incompat_of _ _ G). intros [= <-].
    by rewrite with_incompat_same.
  - intros a Ha. destruct (Z.ltb_spec a k); [apply N; lia | rewrite O by lia; by apply Hsb].
Qed.

Lemma set_label_eq d g start bbs uuids meta fnames s label :
  fs_mixed d g start bbs uuids meta fnames s -> label_ok label = true ->
  set_label label d = (update_sbs g (put_fname (padded label));; io_flush) d.
Proof.
  intros [L G Hsb _] Hl. destruct (label_fname_ok label Hl) as [Ef _]. destruct (ly_ags _ _ _ _ L) as (A1 & _).
  unfold set_label. apply andb_prop in Hl as [Hl1%Nat.leb_le Hl2%negb_true_iff].
  rewrite (proj2 (Nat.ltb_ge _ _) Hl1), Hl2. cbn [orb bail_if]. rewrite lift_bind.
  by rewrite (io_bind_step _ _ _ _ _ (Fs_open_ok L _ _ _ G (Hsb 0 ltac:(lia)))), Ef, lift_bind.
Qed.

Lemma set_label_mixed d g start bbs uuids meta fnames s label :
  fs_mixed d g start bbs uuids meta fnames s -> label_ok label = true ->
  exists d', set_label label d = (d', Ok tt) /\ later d d' /\
    fs_mixed d' g start bbs uuids meta (fun _ => padded label) s /\
    (forall a, 0 <= a < geo_agcount g -> relabelled g (padded label) (sb_at d g a) (sb_at d' g a)) /\
    forall i, off_sbs g i -> contents d' i = contents d i.
Proof.
  intros F Hl. destruct (ly_ags _ _ _ _ (fx_layout _ _ _ _ _ _ _ _ F)) as (A1 & _).
  destruct (label_upto d g start bbs uuids meta fnames s label (geo_agcount g) F Hl ltac:(lia))
    as (d1 & E1 & L1 & F1 & K1 & C1).
  destruct (io_flush_ok d1 (lt_valid _ _ L1)) as (d' & E2 & L2 & C2).
  assert (forall a, sb_at d' g a = sb_at d1 g a) as Es by (intros a; by apply bytes_of_ext).
  exists d'. split_and!.
  - rewrite (set_label_eq _ _ _ _ _ _ _ _ _ F Hl). unfold update_sbs. by rewrite (io_bind_step _ _ _ _ _ E1).
  - by eapply later_trans.
  - eapply fs_mixed_ext with (uuids := uuids); [|by eapply fs_mixed_same; [exact F1 | exact L2 | exact C2]].
    intros a Ha. split; [done|]. cbv beta. by rewrite (proj2 (Z.ltb_lt _ _)) by lia.
  - intros a Ha. rewrite Es. by apply K1.
  - intros i Hi. by rewrite C2, C1.
Qed.

Lemma set_label_fs d g start bbs uuid meta fname s label :
  fs_ok d g start bbs uuid meta fname s -> label_ok label = true ->
  exists d', set_label label d = (d', Ok tt) /\ later d d' /\
    fs_ok d' g start bbs uuid meta (padded label) s /\
    (forall a, 0 <= a < geo_agcount g -> relabelled g (padded label) (sb_at d g a) (sb_at d' g a)) /\
    forall i, off_sbs g i -> contents d' i = contents d i.
Proof.
  intros F Hl. destruct (set_label_mixed _ _ _ _ _ _ _ _ label (fs_ok_mixed _ _ _ _ _ _ _ _ F) Hl)
    as (d' & E & Lt & [L G Hsb C] & K & O).
  exists d'. split_and!; try done. split; try done. by eapply names_kept; [apply F | exact O | apply F].
Qed.

(** ** The UUID *)

Lemma fs_mixed_cycle d g start bbs uuids meta fnames s :
  fs_mixed d g start bbs uuids meta fnames s -> 0 <= ls_cycle s.
Proof. intros [_ _ _ C]. destruct C as [?|?|? ? [? _ _ _ _]]; cbn; lia. Qed.

(** What [set_uuid] does once it has looked. *)
Lemma set_uuid_after {E} `{BlockDevice E} (x : E) fs st meta u :
  Fs_open x = (x, Ok fs) -> log_find_tail fs x = (x, Ok st) -> dirty st = false -> meta_uuid fs = Ok meta ->
  set_uuid u x = (clear_log (fs_geo fs) u (u32 (ls_cycle st + 1));; io_flush;;
                  update_sbs (fs_geo fs) (do_uuid meta u);; io_flush) x.
Proof.
  intros Ef Et Ed Em. unfold set_uuid. rewrite (io_bind_step _ _ _ _ _ Ef), (io_bind_step _ _ _ _ _ Et), Ed.
  cbv zeta. rewrite !io_bind_eq. destruct (clear_log _ _ _ x) as [x1 [[]| | |]]; try done.
  rewrite !io_bind_eq. destruct (io_flush x1) as [x2 [[]| | |]]; try done.
  by rewrite Em, lift_bind.
Qed.

Lemma set_uuid_eq d g start bbs uuids meta fnames s u :
  fs_mixed d g start bbs uuids meta fnames s -> ls_cycle s + 1 < HEADER_MAGIC ->
  set_uuid u d = (clear_log g u (ls_cycle s + 1);; io_flush;;
                  update_sbs g (do_uuid meta u);; io_flush) d.
Proof.
  intros F Hcy. pose proof (fs_mixed_cycle _ _ _ _ _ _ _ _ F). destruct F as [L G Hsb Hlog].
  destruct (ly_ags _ _ _ _ L) as (A1 & _). unfold HEADER_MAGIC in Hcy.
  rewrite <- (u32_id (ls_cycle s + 1)) by lia.
  apply (set_uuid_after d (mkFs g (sb_at d g 0)) s); [|by apply (log_find_tail_ok L) | by eapply clean_not_dirty |].
  - eapply Fs_open_ok; [done..|]. apply Hsb. lia.
  - eapply sb_ok_meta. apply Hsb. lia.
Qed.

(** The log rewritten, and on the device. *)
Lemma log_moved d g start bbs uuids meta fnames s u :
  fs_mixed d g start bbs uuids meta fnames s -> length u = 16%nat -> ls_cycle s + 1 < HEADER_MAGIC ->
  exists d1 d2 s', clear_log g u (ls_cycle s + 1) d = (d1, Ok tt) /\ io_flush d1 = (d2, Ok tt) /\
    later d d1 /\ later d d2 /\
    fs_mixed d1 g start bbs uuids meta fnames s' /\ fs_mixed d2 g start bbs uuids meta fnames s' /\
    ls_cycle s' = ls_cycle s + 1 /\ log_names d2 start u /\
    (forall i, contents d2 i = contents d1 i) /\
    forall i, i < start \/ start + bbs * 512 <= i -> contents d2 i = contents d i.
Proof.
  intros F Hu Hcy. pose proof (fs_mixed_cycle _ _ _ _ _ _ _ _ F) as Hc0. destruct F as [L G Hsb Hlog].
  destruct (ly_ags _ _ _ _ L) as (A1 & _). destruct (ly_log _ _ _ _ L) as (El & _ & T).
  destruct (clear_log_clean d g u start bbs (geo_blocksize g) El (layout_room L)
    (proj1 (proj2 (ly_block _ _ _ _ L))) T Hu (proj1 (ly_sunit _ _ _ _ L))
    (proj2 (ly_sunit _ _ _ _ L)) (ls_cycle s + 1) eq_refl ltac:(lia))
    as (d1 & s' & E1 & L1 & C1 & Y1 & N1 & O1).
  destruct (io_flush_ok d1 (lt_valid _ _ L1)) as (d2 & E2 & L2 & O2).
  assert (fs_mixed d1 g start bbs uuids meta fnames s') as F1.
  { assert (forall a, 0 <= a < geo_agcount g -> sb_at d1 g a = sb_at d g a) as Es
      by (intros a Ha; by eapply sb_at_outside).
    split; [by eapply layout_later | rewrite Es by lia; done | | done].
    intros a Ha. rewrite Es by done. by apply Hsb. }
  exists d1, d2, s'. split_and!; try done.
  - by eapply later_trans.
  - by eapply fs_mixed_same.
  - eapply names_kept; [apply (fx_layout _ _ _ _ _ _ _ _ F1) | intros; apply O2 | exact N1].
  - intros i Hi. by rewrite O2, O1.
Qed.

(** The first [k] AGs renamed. *)
Lemma uuid_upto d g start bbs uuids meta fnames s u k :
  fs_mixed d g start bbs uuids meta fnames s -> length u = 16%nat -> 0 <= k <= geo_agcount g ->
  exists d' inc, io_for (update_sb g (do_uuid meta u)) (seqZ 0 k) d = (d', Ok tt) /\ later d d' /\
    fs_mixed d' (with_incompat g inc) start bbs (fun a => if a <? k then u else uuids a) meta fnames s /\
    (0 < k -> has_meta_uuid inc = negb (bool_decide (u = meta))) /\
    (forall a, 0 <= a < k -> renamed g u meta (sb_at d g a) (sb_at d' g a)) /\
    forall i, off_sbs g i -> contents d' i = contents d i.
Proof.
  intros [L G Hsb Hlog] Hu Hk. destruct (ly_ags _ _ _ _ L) as (A1 & _).
  destruct (rewrite_upto d g start bbs uuids meta fnames (do_uuid meta u)
    (fun a b' => sb_ok g b' u meta (fnames a) /\ renamed g u meta (sb_at d g a) b') k L Hk Hsb) as (d' & E & Lt & N & O & C).
  { intros a Ha. destruct (update_uuid g _ _ meta _ (layout_sector _ _ _ _ L) (Hsb a Ha) u Hu)
      as (b' & E & S & K). exists b'. split_and!; try done. apply K. }
  assert (exists inc, Geo_parse (sb_at d' g 0) = Ok (with_incompat g inc) /\
    (0 < k -> has_meta_uuid inc = negb (bool_decide (u = meta)))) as (inc & Gi & Hi).
  { destruct (Z.lt_ge_cases 0 k) as [Hp|Hp].
    - destruct (N 0 ltac:(lia)) as (_ & K).
      destruct (kept_parses d d' g start bbs _ L G uuid_in_admin (rd_kept _ _ _ _ _ K)) as (inc & I & Gi).
      exists inc. split; [done|]. intros _. by apply (renamed_incompat _ _ _ _ _ _ K).
    - exists (geo_incompat g). rewrite with_incompat_same, O by lia. split; [done | lia]. }
  exists d', inc. split_and!; try done; [|intros a Ha; by apply N].
  split; [by apply layout_with_incompat; eapply layout_later | exact Gi | | by eapply clean_kept].
  intros a Ha. change (sb_at d' (with_incompat g inc) a) with (sb_at d' g a).
  apply sb_ok_with_incompat. cbn in Ha. destruct (Z.ltb_spec a k); [apply N; lia | rewrite O by lia; by apply Hsb].
Qed.

(** What [set_uuid] leaves: the new UUID in every superblock, the metadata
    UUID kept, the log clean in the next cycle under the new UUID. *)
Lemma set_uuid_mixed d g start bbs uuids meta fnames s u :
  fs_mixed d g start bbs uuids meta fnames s -> length u = 16%nat -> ls_cycle s + 1 < HEADER_MAGIC ->
  exists d' s' inc', set_uuid u d = (d', Ok tt) /\ later d d' /\
    fs_mixed d' (with_incompat g inc') start bbs (fun _ => u) meta fnames s' /\
    has_meta_uuid inc' = negb (bool_decide (u = meta)) /\ ls_cycle s' = ls_cycle s + 1 /\
    log_names d' start u /\
    (forall a, 0 <= a < geo_agcount g -> renamed g u meta (sb_at d g a) (sb_at d' g a)) /\
    forall i, off_sbs g i -> i < start \/ start + bbs * 512 <= i -> contents d' i = contents d i.
Proof.
  intros F Hu Hcy. pose proof (fx_layout _ _ _ _ _ _ _ _ F) as L. destruct (ly_ags _ _ _ _ L) as (A1 & _).
  destruct (log_moved _ _ _ _ _ _ _ _ u F Hu Hcy) as (d1 & d2 & s' & E1 & E2 & _ & L2 & _ & F2 & Y & N & _ & O2).
  destruct (uuid_upto _ _ _ _ _ _ _ _ u (geo_agcount g) F2 Hu ltac:(lia))
    as (d3 & inc & E3 & L3 & F3 & M & K & C3).
  destruct (io_flush_ok d3 (lt_valid _ _ L3)) as (d' & E4 & L4 & C4).
  assert (forall a, sb_at d' g a = sb_at d3 g a) as Es by (intros a; by apply bytes_of_ext).
  exists d', s', inc. split_and!; try done.
  - rewrite (set_uuid_eq _ _ _ _ _ _ _ _ _ F Hcy).
    rewrite (io_bind_step _ _ _ _ _ E1), (io_bind_step _ _ _ _ _ E2). unfold update_sbs.
    by rewrite (io_bind_step _ _ _ _ _ E3).
  - eapply later_trans; [exact L2|]. by eapply later_trans.
  - eapply fs_mixed_ext with (fnames := fnames); [|by eapply fs_mixed_same; [exact F3 | exact L4 | exact C4]].
    intros a Ha. split; [|done]. cbv beta. by rewrite (proj2 (Z.ltb_lt _ _)) by (cbn in Ha; lia).
  - apply M. lia.
  - eapply names_kept; [apply (fx_layout _ _ _ _ _ _ _ _ F2) | | exact N]. intros i Hi. by rewrite C4, C3.
  - intros a Ha. rewrite Es. rewrite <- (sb_at_outside d d2 g start bbs a L Ha O2). by apply K.
  - intros i Hi Ho. by rewrite C4, C3, O2.
Qed.

Lemma set_uuid_fs d g start bbs uuid meta fname s u :
  fs_ok d g start bbs uuid meta fname s -> length u = 16%nat ->
  ls_cycle s + 1 < HEADER_MAGIC ->
  exists d' s' inc', set_uuid u d = (d', Ok tt) /\ later d d' /\
    fs_ok d' (with_incompat g inc') start bbs u meta fname s' /\
    has_meta_uuid inc' = negb (bool_decide (u = meta)) /\ ls_cycle s' = ls_cycle s + 1 /\
    (forall a, 0 <= a < geo_agcount g -> renamed g u meta (sb_at d g a) (sb_at d' g a)) /\
    forall i, off_sbs g i -> i < start \/ start + bbs * 512 <= i -> contents d' i = contents d i.
Proof.
  intros F Hu Hcy.
  destruct (set_uuid_mixed _ _ _ _ _ _ _ _ u (fs_ok_mixed _ _ _ _ _ _ _ _ F) Hu Hcy)
    as (d' & s' & inc & E & Lt & [L G Hsb C] & M & Y & N & K & O).
  by exists d', s', inc.
Qed.

(** Without [META_UUID] there is nothing to restore; with it the UUID becomes
    the metadata's. *)
Lemma restore_uuid_fs d g start bbs uuid meta fname s :
  fs_ok d g start bbs uuid meta fname s ->
  restore_uuid d = if has_meta_uuid (geo_incompat g)
                   then match set_uuid meta d with
                        | (d', Ok _) => (d', Ok true)
                        | (d', Err e) => (d', Err e)
                        | (d', Panic) => (d', Panic)
                        | (d', OutOfFuel) => (d', OutOfFuel)
                        end
                   else (d, Ok false).
Proof.
  intros [L G Hsb _ _]. destruct (ly_ags _ _ _ _ L) as (A1 & _).
  unfold restore_uuid. rewrite (io_bind_step _ _ _ _ _ (Fs_open_ok L _ _ _ G (Hsb 0 ltac:(lia)))).
  cbn [fs_primary]. rewrite (geo_incompat_of _ _ G), lift_bind.
  destruct (has_meta_uuid (geo_incompat g)); [cbn [negb] | done].
  rewrite (sb_ok_meta g _ uuid meta fname) by (apply Hsb; lia). rewrite lift_bind, io_bind_eq.
  by destruct (set_uuid meta d) as [d' []].
Qed.

(** The metadata's UUID has 16 bytes when it is one's own. *)
Lemma uuid_length d g start bbs uuid meta fname s : fs_ok d g start bbs uuid meta fname s ->
  length uuid = 16%nat /\ length meta = 16%nat.
Proof.
  intros [L _ Hsb _ _]. destruct (ly_ags _ _ _ _ L) as (A1 & _).
  pose proof (Hsb 0 ltac:(lia)) as S. pose proof (slice_length _ _ _ _ (so_uuid _ _ _ _ _ S)) as Hl.
  split; [exact Hl|]. destruct (so_incompat _ _ _ _ _ S) as (inc & _ & _ & _ & _ & M).
  destruct (has_meta_uuid inc); [exact (slice_length _ _ _ _ M) | by subst].
Qed.
End Admin.
