(* ===== verification/InspectFacts.v ===== *)
(** The reader on what the formatter wrote.

    [Geo_parse] accepts an encoded superblock and gets the geometry back, and
    the image [format] leaves is a filesystem the administrator accepts: its
    superblocks are [sb_ok], its log is clean, in its first cycle. *)

From Stdlib Require Import ZArith Lia.
From stdpp Require Import base tactics list numbers.
From coqutil Require Import Byte Word.LittleEndianList.
From S2P Require Import Prelude Bytes Crc Geometry GeometryFacts Structs Superblock LogRecord.
From S2P Require Import Device Plan PlanFacts Io Format HeadFacts ChunkFacts FormatFacts.
From S2P Require Import Inspect Admin LogFacts ClearFacts SbFacts AdminFacts.

(** * The superblock *)

(** What a reader learns of a geometry. *)
Definition geo_of (g : Geometry) : Geo :=
  mkGeo (blocksize g) (blocklog g) (sectsize g) (agsize g) (agcount g) (dblocks g) (agblklog g)
    (inodesize g) (inopblog g) (logstart g) (logblocks g)
    (if big_sectors g then lsectsize g else 0) (logsunit g) (ro_compat g) (incompat g).

Section Superblock.
Variables (g : Geometry) (W : wf g).

Lemma wf_ranges : 512 <= sectsize g <= blocksize g /\ blocksize g <= 16384 /\
  512 <= inodesize g <= 2048 /\ 0 < agsize g < 2 ^ 32 /\ 2 <= agcount g < 2 ^ 32 /\
  0 < dblocks g < 2 ^ 54 /\ 0 < logblocks g < 2 ^ 32 /\ 0 < agblklog g < 2 ^ 8 /\
  0 <= inopblog g < 2 ^ 8 /\ 0 <= blocklog g < 2 ^ 8 /\ lsectsize g = sectsize g /\
  (logsunit g = 1 \/ logsunit g = blocksize g).
Proof.
  destruct (wf_agcount g W) as [A1 A2]. unfold MAX_AGNUMBER in A2.
  pose proof (wf_agsize_range g W). pose proof (wf_dblocks g W). pose proof (wf_logblocks g W) as [L1 L2].
  unfold MAX_LOG_BLOCKS in L2. pose proof (wf_blocklog g W). pose proof (wf_sectlog g W).
  pose proof (wf_inodelog g W). pose proof (wf_inode_block g W). pose proof (wf_agblklog g W).
  pose proof (pow2_pos (26 - blocklog g) ltac:(lia)).
  rewrite (wf_sectsize g W), (wf_blocksize g W), (wf_inodesize g W), (wf_inopblog g W), (wf_lsectsize g W).
  pose proof (pow2_le 9 (sectlog g) ltac:(lia)). pose proof (pow2_le (sectlog g) (blocklog g) ltac:(lia)).
  pose proof (pow2_le (blocklog g) 14 ltac:(lia)).
  pose proof (pow2_le 9 (inodelog g) ltac:(lia)). pose proof (pow2_le (inodelog g) 11 ltac:(lia)).
  split_and!; try lia; try apply (wf_sectsize g W).
  unfold logsunit, lsunit_bytes. rewrite (wf_blocksize g W). destruct (_ <? _); cbn [Z.eqb]; [|by left].
  destruct (Z.eqb_spec (2 ^ blocklog g) 0); [lia|by right].
Qed.

Lemma geo_of_ok : Geo_ok (geo_of g) = true.
Proof.
  destruct wf_ranges as (R1 & R2 & R3 & R4 & R5 & R6 & R7 & R8 & R9 & R10 & _).
  pose proof (wf_blocklog g W). pose proof (wf_sectlog g W). pose proof (wf_inodelog g W).
  pose proof (wf_agblklog g W). pose proof (wf_agblklog_spec g W) as [_ As].
  pose proof (wf_covered g W).
  assert (agcount g * agsize g < 2 ^ 64) by nia.
  assert (forall k, 0 <= k -> is_power_of_two (2 ^ k) = true) as Hp
    by (intros k Hk; apply is_power_of_two_spec; by exists k).
  unfold Geo_ok, geo_of. cbn [geo_blocksize geo_blocklog geo_sectsize geo_agblocks geo_agcount
    geo_dblocks geo_agblklog geo_inodesize].
  rewrite (shl64_1 (blocklog g)), (shl64_1 (agblklog g)), (u64_id (_ * _)) by lia.
  assert (is_power_of_two (blocksize g) = true) as -> by (rewrite (wf_blocksize g W); auto with lia).
  assert (is_power_of_two (sectsize g) = true) as -> by (rewrite (wf_sectsize g W); apply Hp; lia).
  assert (is_power_of_two (inodesize g) = true) as -> by (rewrite (wf_inodesize g W); apply Hp; lia).
  rewrite <- (wf_blocksize g W), Z.eqb_refl.
  repeat match goal with
  | |- context [?a <=? ?b] => rewrite (proj2 (Z.leb_le a b)) by lia
  | |- context [?a <? ?b] => rewrite (proj2 (Z.ltb_lt a b)) by lia
  end. done.
Qed.

Lemma logstart_split : logstart g = logagno g * 2 ^ agblklog g + log_agbno g /\
  0 <= log_agbno g < 2 ^ agblklog g /\ 0 < logstart g < 2 ^ 64.
Proof.
  destruct wf_ranges as (_ & _ & _ & R4 & R5 & _). pose proof (wf_agblklog g W) as A.
  pose proof (wf_agblklog_spec g W) as [_ As]. pose proof (logagno_range g W).
  pose proof (wf_log_usable g W). pose proof (wf_prealloc g W). pose proof (wf_header g W).
  pose proof (wf_logblocks g W) as [L1 _]. pose proof (wf_blocklog g W).
  pose proof (pow2_pos (26 - blocklog g) ltac:(lia)).
  pose proof (pow2_le (agblklog g) 30 ltac:(lia)).
  unfold logstart, agb_to_fsb. rewrite (wf_log_agbno g W).
  assert (0 <= prealloc_blocks g < 2 ^ agblklog g) by lia.
  rewrite shl64_mul by (try lia; nia). rewrite lor_add_shift by lia. split_and!; try lia; nia.
Qed.

(** Drop every wrap of a value that is in range. *)
Ltac drop_wraps :=
  repeat first
    [ rewrite u8_id by first [apply u8_range | lia] | rewrite u16_id by first [apply u16_range | lia]
    | rewrite u32_id by first [apply u32_range | lia] | rewrite u64_id by first [apply u64_range | lia] ].

(** An encoded superblock gives the geometry back. *)
Lemma encoded_geometry sbs x : length (Superblock.uuid sbs) = 16%nat ->
  Superblock.encode g sbs (zeroes (Z.to_nat (sectsize g))) = Ok x -> Geo_parse x = Ok (geo_of g).
Proof.
  intros Hu E. destruct wf_ranges as (R1 & R2 & R3 & R4 & R5 & R6 & R7 & R8 & R9 & R10 & R11 & R12).
  destruct (encode_sealed g sbs (zeroes (Z.to_nat (sectsize g)))) as (x' & E' & S);
    rewrite ?length_zeroes; [lia | lia | done | apply (wf_label g W) |].
  assert (x' = x) as -> by congruence. clear E E'.
  destruct (versionnum_range g) as [V1 V2]. pose proof (ro_compat_range g). pose proof (incompat_range g).
  destruct logstart_split as (_ & _ & Hls). pose proof geo_of_ok as Hok.
  unfold fields, log_sector_fields in S.
  assert (be16 x off.LOGSECTSIZE = Ok (if big_sectors g then lsectsize g else 0)) as El.
  { destruct (big_sectors g); [read_sealed S; drop_wraps; done|].
    rewrite be16_slice, (sealed_untouched S) by done. rewrite slice_zeroes by (unfold off.LOGSECTSIZE; lia). by vm_compute. }
  assert (Geo_fields x = Ok (geo_of g)) as Ef.
  { unfold Geo_fields. rewrite El.
    destruct (big_sectors g) eqn:Eb.
    all: repeat (read_sealed S; cbn [mbind result_bind]).
    all: unfold geo_of; rewrite Eb; drop_wraps; reflexivity. }
  unfold Geo_parse. rewrite Ef.
  destruct (big_sectors g); repeat (read_sealed S; cbn [mbind result_bind]).
  all: change (u32 MAGIC =? MAGIC) with true; cbn [negb bail_if mbind result_bind].
  all: drop_wraps; rewrite V2, Hok; done.
Qed.
End Superblock.

(** * The image *)

Section Image.
Context {D : Type} `{DeviceSpec D}.
Variables (g : Geometry) (d : D) (uuid : buf) (t : Timestamp) (gen fdb : Z).
Hypothesis W : wf g.
Hypothesis Hv : valid d.
Hypothesis Hserves : serves_blocks d (bs g).
Hypothesis Hsize : dblocks g * bs g <= dev_size d.
Hypothesis Hsector : accepts d 0 (Z.min (Z.max (logical_sector_size d) 512) (dev_size d)) = true.
Hypothesis Hlog : prealloc_blocks g + logblocks g + min_freelist g <= ag_blocks g (logagno g).
Hypothesis Hu : length uuid = 16%nat.
Hypothesis Im : image g uuid t gen fdb (contents d).

Definition log_byte : Z := (logagno g * agsize g + log_agbno g) * bs g.
Definition log_bbs : Z := logblocks g * bs g / 512.

Lemma blocks_512 : bs g mod 512 = 0 /\ bs g mod 1024 = 0 /\ CHUNK mod bs g = 0 /\
  WINDOW mod bs g = 0 /\ 1024 <= bs g <= 16384.
Proof.
  pose proof (wf_blocklog g W). unfold bs. rewrite (wf_blocksize g W).
  assert (forall a b, 0 <= a <= b -> 2 ^ b mod 2 ^ a = 0) as Hm.
  { intros a b Hab. replace b with (b - a + a) by lia. rewrite Z.pow_add_r by lia. apply Z.mod_mul.
    pose proof (pow2_pos a ltac:(lia)). lia. }
  change 512 with (2 ^ 9). change 1024 with (2 ^ 10). change CHUNK with (2 ^ 22).
  change WINDOW with (2 ^ 18). change 16384 with (2 ^ 14).
  split_and!; try apply Hm; try lia; apply pow2_le; lia.
Qed.

Lemma log_bounds : logagno g * agsize g + log_agbno g + logblocks g <= dblocks g /\
  logagno g * agsize g + prealloc_blocks g + logblocks g <= logagno g * agsize g + agsize g /\
  2 ^ 26 <= logblocks g * bs g <= MAX_LOG_BYTES /\ log_bbs * 512 = logblocks g * bs g /\
  agb_to_byte g (logagno g) (log_agbno g) = log_byte /\ 1 <= log_agbno g.
Proof.
  pose proof (logagno_range g W) as Ha. destruct (ag_blocks_range g W (logagno g) ltac:(lia)) as [A1 A2].
  pose proof (min_freelist_range g). pose proof (wf_log_agbno g W). pose proof (wf_prealloc g W).
  pose proof (wf_header g W). destruct blocks_512 as (B1 & _ & _ & _ & B2).
  pose proof (wf_logblocks g W) as [L1 _]. pose proof (wf_blocklog g W).
  assert (2 ^ 26 <= logblocks g * bs g).
  { unfold bs. rewrite (wf_blocksize g W). replace 26 with (26 - blocklog g + blocklog g) at 1 by lia.
    rewrite Z.pow_add_r by lia. apply Z.mul_le_mono_nonneg_r; [|lia]. pose proof (pow2_pos (blocklog g) ltac:(lia)). lia. }
  split_and!; try lia.
  - apply (wf_log_bytes g W).
  - unfold log_bbs. apply Z.mod_divide in B1 as [k Hk]; [|lia]. rewrite Hk.
    rewrite Z.mul_assoc, Z.div_mul by lia. done.
  - destruct (agb_to_byte_eq g W (logagno g) (log_agbno g)) as [-> _]; [lia..|]. done.
Qed.

Lemma geo_extent : log_extent (geo_of g) = (log_byte, log_bbs).
Proof.
  destruct (logstart_split g W) as (E & L1 & L2). destruct log_bounds as (G1 & G2 & G3 & G4 & G5 & G6).
  destruct (wf_ranges g W) as (_ & _ & _ & R4 & R5 & R6 & R7 & R8 & _). destruct blocks_512 as (_ & _ & _ & _ & B).
  pose proof (wf_agblklog g W). pose proof (wf_blocklog g W). pose proof (logagno_range g W). pose proof (wf_bytes g W).
  assert (MAX_LOG_BYTES < 2 ^ 31) by (by vm_compute).
  pose proof (pow2_le (agblklog g) 30 ltac:(lia)).
  unfold log_extent, geo_of. cbn [geo_logstart geo_agblklog geo_agblocks geo_blocksize geo_logblocks].
  pose proof (pow2_pos (agblklog g) ltac:(lia)).
  rewrite (shl64_1 (agblklog g)), (u64_id (2 ^ agblklog g - 1)) by lia. rewrite shr64_div by lia. rewrite E.
  destruct (split_shift (logagno g) (log_agbno g) (agblklog g) ltac:(lia) L1) as [-> ->].
  unfold log_byte, log_bbs, bs in *. f_equal.
  - assert (0 <= logagno g * agsize g) by (apply Z.mul_nonneg_nonneg; lia).
    set (b := logagno g * agsize g + log_agbno g).
    assert (0 <= b * blocksize g <= dblocks g * blocksize g)
      by (split; [apply Z.mul_nonneg_nonneg | apply Z.mul_le_mono_nonneg_r]; lia).
    rewrite (u64_id (_ * agsize g)) by lia. fold b. rewrite (u64_id b), u64_id by lia. done.
  - f_equal. apply u64_id. lia.
Qed.

Lemma geo_layout : layout d (geo_of g) log_byte log_bbs.
Proof.
  destruct log_bounds as (G1 & G2 & G3 & G4 & G5 & G6). destruct blocks_512 as (B0 & B1 & B2 & B3 & B4).
  destruct (wf_ranges g W) as (R1 & R2 & _ & R4 & R5 & R6 & R7 & _ & _ & _ & _ & R12).
  pose proof (logagno_range g W). pose proof (wf_last g W). pose proof (wf_prealloc g W).
  pose proof (wf_header g W). pose proof (wf_blocklog g W). pose proof (wf_log_agbno g W).
  pose proof (pow2_pos (24 - blocklog g) ltac:(lia)). pose proof (size_range d Hv).
  destruct (logstart_split g W) as (_ & _ & Hls).
  assert (16 * 2 ^ 20 <= dev_size d) by (pose proof (GeometryFacts.wf_size g W); unfold bs, MIB in *; lia).
  assert (forall a b, a <= b -> a * bs g <= b * bs g) as Hb by (intros a b; apply Z.mul_le_mono_nonneg_r; lia).
  assert (0 <= logagno g * agsize g) by (apply Z.mul_nonneg_nonneg; lia).
  split; unfold geo_of; cbn [geo_blocksize geo_sectsize geo_agcount geo_agblocks geo_logstart geo_logsunit];
    fold (bs g); try done.
  - split_and!; done || lia.
  - unfold bs in *. lia.
  - split; [lia | done].
  - split_and!; [lia | lia |]. etrans; [|exact Hsize]. apply Hb. lia.
  - split_and!; [apply geo_extent | lia |]. change TOTAL_REC_BBS with 4096. lia.
  - unfold log_byte. rewrite G4. split_and!.
    + apply Z.mul_nonneg_nonneg; lia.
    + apply Z.mod_mul; lia.
    + apply Z.mod_mul; lia.
    + rewrite <- Z.mul_add_distr_r. etrans; [|exact Hsize]. apply Hb. lia.
  - unfold first_len. change (BDSTRAT_SIZE / 512) with 512. fold (bs g) in R12.
    split; [lia|]. destruct (Z.ltb_spec 0 (logsunit g)); [|lia].
    pose proof (div_ceil_bounds (logsunit g) 512 ltac:(lia)). lia.
  - intros a Ha. unfold log_byte. rewrite G4, <- Z.mul_add_distr_r.
    destruct (Z.le_gt_cases a (logagno g)) as [Hle|Hlt]; [left|right]; apply Hb.
    + assert (a * agsize g <= logagno g * agsize g) by (apply Z.mul_le_mono_nonneg_r; lia). lia.
    + assert ((logagno g + 1) * agsize g <= a * agsize g) by (apply Z.mul_le_mono_nonneg_r; lia). lia.
Qed.

(** The superblock sector of an AG. *)
Lemma geo_sector a : 0 <= a < agcount g -> exists x,
  slice (sb_at d (geo_of g) a) 0 (Z.to_nat (sectsize g)) = Ok x /\
  Superblock.encode g (final_sbs g uuid fdb a) (zeroes (Z.to_nat (sectsize g))) = Ok x.
Proof.
  intros Ha. destruct (im_heads _ _ _ _ _ _ Im a Ha) as (p & b & _ & Hs & Hb).
  destruct (hs_sb _ _ _ _ _ Hs) as (x & Hx & E). exists x. split; [|done]. rewrite <- Hx, <- Hb.
  destruct (head_byte g W a Ha) as (-> & _).
  destruct (wf_ranges g W) as (R1 & R2 & _). pose proof (wf_prealloc g W). pose proof (wf_header g W).
  unfold bs in *.
  assert (1 * blocksize g <= prealloc_blocks g * blocksize g) by (apply Z.mul_le_mono_nonneg_r; lia).
  unfold sb_at, geo_of. cbn [geo_agblocks geo_blocksize].
  rewrite !slice_bytes_of by lia. done.
Qed.

Lemma sb_final_uuid a : Superblock.uuid (final_sbs g uuid fdb a) = uuid.
Proof. unfold final_sbs. by destruct (a =? 0). Qed.

Lemma incompat_known : Z.land (incompat g) version.IN_NEEDSREPAIR = 0 /\
  Z.land (incompat g) UNKNOWN_INCOMPAT = 0 /\ has_meta_uuid (incompat g) = false.
Proof. unfold incompat. destruct (features g) as [? ? ? ? [] [] []]; by vm_compute. Qed.

Lemma geo_sb_ok a : 0 <= a < agcount g ->
  sb_ok (geo_of g) (sb_at d (geo_of g) a) uuid uuid (label g).
Proof.
  intros Ha. destruct (geo_sector a Ha) as (x & Hx & E).
  destruct (wf_ranges g W) as (R1 & R2 & _). pose proof (incompat_range g).
  destruct (encode_sealed g (final_sbs g uuid fdb a) (zeroes (Z.to_nat (sectsize g)))) as (x' & E' & S);
    rewrite ?length_zeroes, ?sb_final_uuid; [lia | lia | done | apply (wf_label g W) |].
  assert (x' = x) as -> by congruence. clear E E'.
  assert (264 <= Z.to_nat (sectsize g))%nat as Hss by lia.
  destruct incompat_known as (I1 & I2 & I3). unfold fields, log_sector_fields in S.
  set (sb := sb_at d (geo_of g) a) in *.
  assert (forall o, (o + 4 <= Z.to_nat (sectsize g))%nat -> be32 sb o = be32 x o) as H32
    by (intros o Ho; by apply (slice_be32 sb x 0 (Z.to_nat (sectsize g)))).
  assert (forall o, (o + 8 <= Z.to_nat (sectsize g))%nat -> be64 sb o = be64 x o) as H64
    by (intros o Ho; by apply (slice_be64 sb x 0 (Z.to_nat (sectsize g)))).
  assert (forall o k, (o + k <= Z.to_nat (sectsize g))%nat -> slice sb o (o + k) = slice x o (o + k))
    as Hsl by (intros o k Ho; by apply (slice_sub sb x 0 (Z.to_nat (sectsize g)))).
  split.
  - unfold sb, sb_at. rewrite length_bytes_of; [done | unfold geo_of; cbn; lia].
  - rewrite H32 by (unfold off.MAGICNUM, off.FEATURES_INCOMPAT; lia). destruct (big_sectors g); read_sealed S; done.
  - unfold geo_of. cbn [geo_sectsize]. rewrite Hx. cbn [mbind result_bind].
    apply (sealed_verify_all S). by rewrite length_zeroes.
  - rewrite Hsl by (unfold off.UUID; lia).
    rewrite <- (sb_final_uuid a). destruct (big_sectors g); by apply (sealed_bytes S).
  - rewrite Hsl by (unfold off.FNAME, LABEL_MAX; lia).
    destruct (big_sectors g); by apply (sealed_bytes S).
  - rewrite H64 by (unfold off.RBLOCKS; lia). destruct (big_sectors g); read_sealed S; done.
  - exists (incompat g). rewrite I3. split_and!; try done; try lia.
    rewrite H32 by (unfold off.MAGICNUM, off.FEATURES_INCOMPAT; lia).
    destruct (big_sectors g); read_sealed S; by rewrite u32_id.
Qed.

Lemma geo_parsed : Geo_parse (sb_at d (geo_of g) 0) = Ok (geo_of g).
Proof.
  destruct (wf_ranges g W) as (R1 & R2 & _). pose proof (wf_agcount g W).
  destruct (geo_sector 0 ltac:(lia)) as (x & Hx & E).
  rewrite <- (Geo_parse_prefix _ _ _ Hx) by lia.
  apply (encoded_geometry g W _ _) in E; [done|]. by rewrite sb_final_uuid.
Qed.

(** ** The log *)

Lemma geo_log : exists s, clean_log d log_byte log_bbs s /\ ls_cycle s = 1 /\ log_names d log_byte uuid.
Proof.
  destruct log_bounds as (G1 & G2 & G3 & G4 & G5 & G6). destruct blocks_512 as (B0 & B1 & B2 & B3 & B4).
  destruct (im_log _ _ _ _ _ _ Im) as (b & [_ Lb (r & Hr & Wf) Lr] & Hb). rewrite G5 in Hb.
  pose proof (im_log_rest _ _ _ _ _ _ Im) as Z0. rewrite G5 in Z0.
  destruct (log_sunit_fits g W) as [Hs Hl]. set (su := log_sunit g) in *.
  pose proof (LogRecord.wf_length _ _ _ _ _ Wf) as Lw.
  assert (0 <= su < 2 ^ 32 - 1024) as Hs'.
  { unfold len_bb in Hl. destruct (Z.ltb_spec 0 su); [|lia].
    pose proof (div_ceil_bounds su 512 ltac:(lia)). lia. }
  destruct (record_lengths su Hs') as (_ & _ & _ & Hh).
  assert (holds d log_byte 0 r) as Hh0.
  { unfold holds. rewrite Z.add_0_r. rewrite <- Hb in Hr.
    apply slice_Ok in Hr as Hr'. rewrite length_bytes_of in Hr' by lia.
    rewrite slice_bytes_of in Hr by lia. apply Ok_inj in Hr.
    rewrite <- Hr at 2. f_equal; lia. }
  exists (mkLogState (len_bb su) (len_bb su) 1). split_and!; [|done|].
  - apply clean_fresh. split.
    + eapply record_is_unmount; [exact Wf | done | done | by vm_compute | done].
    + change TOTAL_REC_BBS with 4096. lia.
    + intros n Hn. apply zero_bytes_word. intros i Hi.
      destruct (Z.lt_ge_cases i (log_byte + bs g)); [|apply Z0; lia].
      specialize (Lr (Z.to_nat (n * 512)) ltac:(unfold BBSIZE; lia)).
      rewrite <- Hb in Lr. rewrite length_bytes_of in Lr by lia.
      rewrite slice_bytes_of in Lr by lia. apply Ok_inj in Lr.
      assert (0 <= i - (log_byte + n * 512) < bs g - n * 512) by lia.
      pose proof (f_equal (fun l => l !! Z.to_nat (i - (log_byte + n * 512))) Lr) as Li.
      cbv beta in Li. unfold zeroes in Li. rewrite lookup_replicate_2, lookup_bytes_of in Li by lia. injection Li as Li. rewrite <- Li. f_equal. lia.
  - exists r, su, (lsn 1 0), (lsn 1 0). split_and!; try done. change BDSTRAT_SIZE with 262144.
    unfold BBSIZE in Lw. lia.
Qed.

(** The image is a filesystem the administrator accepts, in its first
    cycle. *)
Lemma image_fs_ok : exists s,
  fs_ok d (geo_of g) log_byte log_bbs uuid uuid (label g) s /\ ls_cycle s = 1.
Proof.
  destruct geo_log as (s & C & Y & N). exists s. split; [|done].
  split; [apply geo_layout | apply geo_parsed | apply geo_sb_ok | done..].
Qed.
End Image.

(** * What [format] leaves *)

(** The first read of [geometry] is not whole blocks; the device serves it. *)
Definition serves_first {D} `{DeviceSpec D} (d : D) : Prop :=
  accepts d 0 (Z.min (Z.max (logical_sector_size d) 512) (dev_size d)) = true.

Lemma format_fs_ok {D} `{DeviceSpec D} env params (d : D) g :
  request env params d g -> serves_first d ->
  exists d' r s, format env params d = (d', Ok r) /\ later d d' /\
    fs_ok d' (geo_of g) (log_byte g) (log_bbs g) (run_uuid env params) (run_uuid env params)
      (label g) s /\ ls_cycle s = 1.
Proof.
  intros R Hf. destruct (format_image env params d g R) as (ps & d' & _ & E & Lt & I).
  destruct (request_running env params d g R) as (? & ? & ? & ? & ? & Rn).
  destruct (image_fs_ok g d' (run_uuid env params) (run_time env params) (run_gen env params)
    (planned_fdblocks ps) (rn_wf _ _ _ _ _ _ _ _ _ Rn) (lt_valid _ _ Lt)) as (s & F & Y); try done.
  - eapply later_serves; [done | apply R].
  - rewrite (lt_size _ _ Lt). apply Rn.
  - unfold serves_first in Hf. by rewrite (lt_accepts _ _ Lt), (lt_size _ _ Lt), (lt_sector _ _ Lt).
  - apply R.
  - apply R.
  - eexists d', _, s. split_and!; done.
Qed.

(** * A formatted device *)

Lemma serves_first0 : serves_first dev0.
Proof. by vm_compute. Qed.

Definition uuid0 : buf := replicate 16 (byte.of_Z 7).

(** The device after [format], and what it holds. *)
Lemma formatted0 : exists d r s, format env0 Params_new dev0 = (d, Ok r) /\
  fs_ok d (geo_of geo512m) (log_byte geo512m) (log_bbs geo512m) uuid0 uuid0 (label geo512m) s /\
  ls_cycle s = 1.
Proof.
  destruct (format_fs_ok env0 Params_new dev0 geo512m request0 serves_first0) as (d & r & s & E & _ & F & Y).
  exists d, r, s. split; [exact E | split; [exact F | exact Y]].
Qed.
