(* ===== verification/AdminSpec.v ===== *)
(** What the administrator promises, as a state machine.

    A filesystem is five things to the administrator ([Names]): the UUID it
    carries, the UUID its metadata carries, its label, whether the two UUIDs
    are told apart by the feature bit, and the cycle of its log.  [step] says
    what each operation makes of them; [rep] says when a device holds them.
    The operations refine the steps ([admin_refines_steps]), so what rule
    induction shows of the steps holds of every sequence of operations on a
    device, one that [format] left in particular. *)

From Stdlib Require Import ZArith Lia String.
From stdpp Require Import base tactics list numbers.
From coqutil Require Import Byte Word.LittleEndianList.
From S2P Require Import Prelude Bytes Geometry GeometryFacts Superblock LogRecord Device Io.
From S2P Require Import Format FormatFacts Inspect Admin LogFacts ClearFacts SbFacts AdminFacts.
From S2P Require Import InspectFacts.

(** * The state machine *)

Record Names : Type := mkNames {
  n_uuid : buf;
  n_meta : buf;
  n_label : buf;
  n_changed : bool;
  n_cycle : Z;
}.

Inductive AdminOp : Type :=
| SetUuid (u : buf)
| RestoreUuid
| SetLabel (l : string).

(** The log's cycle must not run into the log header's magic number. *)
Inductive step : Names -> AdminOp -> Names -> Prop :=
| step_uuid a u : length u = 16%nat -> n_cycle a + 1 < HEADER_MAGIC ->
    step a (SetUuid u)
      (mkNames u (n_meta a) (n_label a) (negb (bool_decide (u = n_meta a))) (n_cycle a + 1))
| step_restore a : n_changed a = true -> n_cycle a + 1 < HEADER_MAGIC ->
    step a RestoreUuid (mkNames (n_meta a) (n_meta a) (n_label a) false (n_cycle a + 1))
| step_unchanged a : n_changed a = false -> step a RestoreUuid a
| step_label a l : label_ok l = true ->
    step a (SetLabel l) (mkNames (n_uuid a) (n_meta a) (padded l) (n_changed a) (n_cycle a)).

Inductive steps : Names -> list AdminOp -> Names -> Prop :=
| steps_nil a : steps a [] a
| steps_cons a o a1 os a2 : step a o a1 -> steps a1 os a2 -> steps a (o :: os) a2.

(** The metadata's UUID never changes, and the feature bit is what tells the
    two apart. *)
Definition names_ok (a : Names) : Prop := n_changed a = false -> n_uuid a = n_meta a.

Lemma step_meta a o a' : step a o a' -> n_meta a' = n_meta a /\ (names_ok a -> names_ok a').
Proof.
  intros [a0 u Hu Hc|a0 Hch Hc|a0 Hch|a0 l Hl]; split; try done; unfold names_ok; cbn.
  by intros _ ?%negb_false_iff%bool_decide_eq_true.
Qed.

Lemma steps_meta a os a' : steps a os a' -> n_meta a' = n_meta a /\ (names_ok a -> names_ok a').
Proof.
  induction 1 as [|a o a1 os a2 Hs _ [IH1 IH2]]; [done|].
  destruct (step_meta _ _ _ Hs) as [M1 M2]. split; [by rewrite IH1 | auto].
Qed.

(** The cycle goes up by the number of rewrites of the log. *)
Lemma step_cycle a o a' : step a o a' -> n_cycle a <= n_cycle a' <= n_cycle a + 1.
Proof. intros [a0 u Hu Hc|a0 Hch Hc|a0 Hch|a0 l Hl]; cbn; lia. Qed.

Lemma steps_app_inv a os os' a' : steps a (os ++ os') a' ->
  exists a1, steps a os a1 /\ steps a1 os' a'.
Proof.
  revert a. induction os as [|o os IH]; intros a Hs; [exists a; by split; [constructor|]|].
  inversion Hs as [|? ? a1 ? ? Ho Hr]; subst. destruct (IH _ Hr) as (a2 & S1 & S2).
  exists a2. split; [by econstructor | done].
Qed.

(** * On a device *)

Section Admin.
Context {D : Type} `{DeviceSpec D}.

(** The device holds the state; its geometry is [g] but for the incompat
    word. *)
Definition rep (d : D) (a : Names) : Prop := exists g start bbs s,
  fs_ok d g start bbs (n_uuid a) (n_meta a) (n_label a) s /\
  n_changed a = has_meta_uuid (geo_incompat g) /\ n_cycle a = ls_cycle s.

Definition run_admin (o : AdminOp) : io D unit :=
  match o with
  | SetUuid u => set_uuid u
  | RestoreUuid => restore_uuid;; mret tt
  | SetLabel l => set_label l
  end.

Lemma step_runs d a o a' : rep d a -> step a o a' ->
  exists d', run_admin o d = (d', Ok tt) /\ later d d' /\ rep d' a'.
Proof.
  intros (g & start & bbs & s & F & Hc & Hy) Hs.
  destruct Hs as [a0 u Hu Hcy|a0 Hch Hcy|a0 Hch|a0 l Hl].
  - destruct (set_uuid_fs _ _ _ _ _ _ _ _ u F Hu) as (d' & s' & inc & E & Lt & F' & M & Y & _);
      [lia|]. exists d'. split_and!; try done. exists (with_incompat g inc), start, bbs, s'.
    split_and!; [done | by cbn; rewrite M | cbn; lia].
  - destruct (uuid_length _ _ _ _ _ _ _ _ F) as [_ Hm].
    destruct (set_uuid_fs _ _ _ _ _ _ _ _ (n_meta a0) F Hm) as (d' & s' & inc & E & Lt & F' & M & Y & _);
      [lia|]. exists d'. split_and!; [|done|].
    + cbn [run_admin]. rewrite io_bind_eq, (restore_uuid_fs _ _ _ _ _ _ _ _ F), <- Hc, Hch, E. done.
    + exists (with_incompat g inc), start, bbs, s'. rewrite bool_decide_true in M by done.
      split_and!; [done | by cbn; rewrite M | cbn; lia].
  - exists d. split_and!; [|apply later_refl, F|by exists g, start, bbs, s].
    cbn [run_admin]. by rewrite io_bind_eq, (restore_uuid_fs _ _ _ _ _ _ _ _ F), <- Hc, Hch.
  - destruct (set_label_fs _ _ _ _ _ _ _ _ l F Hl) as (d' & E & Lt & F' & _).
    exists d'. split_and!; try done. by exists g, start, bbs, s.
Qed.

Lemma steps_run d a os a' : rep d a -> steps a os a' ->
  exists d', io_for run_admin os d = (d', Ok tt) /\ later d d' /\ rep d' a'.
Proof.
  intros Hr Hs. revert d Hr. induction Hs as [a|a o a1 os a2 Ho _ IH]; intros d Hr.
  - exists d. destruct Hr as (g & start & bbs & s & F & Hc). split_and!; [done | apply later_refl, F |].
    by exists g, start, bbs, s.
  - destruct (step_runs d a o a1 Hr Ho) as (d1 & E1 & L1 & R1).
    destruct (IH d1 R1) as (d2 & E2 & L2 & R2). exists d2. split_and!; [|by eapply later_trans|done].
    cbn [io_for]. by rewrite (io_bind_step _ _ _ _ _ E1).
Qed.

(** The state [format] leaves. *)
Definition formatted (env : Env) (params : Params) (g : Geometry) : Names :=
  mkNames (run_uuid env params) (run_uuid env params) (label g) false 1.

Lemma format_rep env params (d : D) g : request env params d g -> serves_first d ->
  exists d' r, format env params d = (d', Ok r) /\ rep d' (formatted env params g).
Proof.
  intros R Hf. destruct (format_fs_ok env params d g R Hf) as (d' & r & s & E & _ & F & Y).
  exists d', r. split; [done|]. exists (geo_of g), (log_byte g), (log_bbs g), s. split_and!; try done.
  destruct (incompat_known g) as (_ & _ & M). by cbn; rewrite M.
Qed.

(** Every superblock of a device in a state says so. *)
Lemma rep_superblocks d a : rep d a -> exists g, Geo_parse (sb_at d g 0) = Ok g /\
  forall n, 0 <= n < geo_agcount g -> sb_ok g (sb_at d g n) (n_uuid a) (n_meta a) (n_label a).
Proof. intros (g & start & bbs & s & F & _). exists g. split; apply F. Qed.
End Admin.
