(* ===== verification/AdminProps.v ===== *)
(** The administrator's properties, and their witnesses on the filesystem
    [format] leaves on a 512 MiB device. *)

From Stdlib Require Import ZArith Lia String.
From stdpp Require Import base tactics list numbers.
From coqutil Require Import Byte Word.LittleEndianList.
From S2P Require Import Prelude Bytes Geometry GeometryFacts Superblock LogRecord Device Io.
From S2P Require Import Format FormatFacts Inspect Admin LogFacts ClearFacts SbFacts AdminFacts.
From S2P Require Import InspectFacts AdminSpec.

Section Properties.
Context {D : Type} `{DeviceSpec D}.

(** C5: the administrator's operations refine the state machine: whatever
    sequence of steps it can make from the state a device holds, the
    operations run, succeed, and leave the device in the state the steps end
    in: every superblock names the new UUID and label under a good checksum,
    the metadata keeps its own, the log is clean in its cycle. *)
Theorem admin_refines_steps d a os a' : rep d a -> steps a os a' ->
  exists d', io_for run_admin os d = (d', Ok tt) /\ later d d' /\ rep d' a'.
Proof. apply steps_run. Qed.

(** C6: [set_uuid] on a whole filesystem: it succeeds, and every superblock is
    [renamed]: the new UUID; one bit of the incompat word, set exactly when the
    UUID is not the metadata's; the metadata's UUID in [sb_meta_uuid] when it
    is not, and otherwise that field cleared if it was in use and untouched if
    it was not; a quota inode of 0 made the null inode and any other left;
    [bad_features2] made what [features2] says; a good checksum; every other
    byte kept.  The log is clean in the next cycle and names the new UUID, and
    nothing outside the superblocks and the log changes. *)
Theorem set_uuid_keeps_the_filesystem d g start bbs uuid meta fname s u :
  fs_ok d g start bbs uuid meta fname s -> length u = 16%nat ->
  ls_cycle s + 1 < HEADER_MAGIC ->
  exists d' s' inc', set_uuid u d = (d', Ok tt) /\ later d d' /\
    fs_ok d' (with_incompat g inc') start bbs u meta fname s' /\
    has_meta_uuid inc' = negb (bool_decide (u = meta)) /\ ls_cycle s' = ls_cycle s + 1 /\
    (forall a, 0 <= a < geo_agcount g -> renamed g u meta (sb_at d g a) (sb_at d' g a)) /\
    forall i, off_sbs g i -> i < start \/ start + bbs * 512 <= i -> contents d' i = contents d i.
Proof. apply set_uuid_fs. Qed.

(** C32: [set_label] on a whole filesystem: a label of at most 12 bytes without
    a NUL goes, padded with zeroes, into every superblock, in which nothing
    else changes but what every rewrite does ([relabelled]): a quota inode of
    0 becomes the null inode and any other stays, [bad_features2] becomes what
    [features2] says, the checksum is good.  The rest of the device, the log
    among it, is as it was. *)
Theorem set_label_changes_only_the_label d g start bbs uuid meta fname s label :
  fs_ok d g start bbs uuid meta fname s -> label_ok label = true ->
  exists d', set_label label d = (d', Ok tt) /\ later d d' /\
    fs_ok d' g start bbs uuid meta (padded label) s /\
    (forall a, 0 <= a < geo_agcount g -> relabelled g (padded label) (sb_at d g a) (sb_at d' g a)) /\
    forall i, off_sbs g i -> contents d' i = contents d i.
Proof. apply set_label_fs. Qed.

(** C11: however often the UUID of a formatted filesystem was changed, and
    whatever else was done to it, [restore_uuid] gives it back the UUID
    [format] gave it and clears the feature bit. *)
Theorem restore_gives_back_the_formatted_uuid env params d g os a :
  request env params d g -> serves_first d -> steps (formatted env params g) os a ->
  n_cycle a + 1 < HEADER_MAGIC ->
  exists d1 r d2 a2, format env params d = (d1, Ok r) /\
    io_for run_admin (os ++ [RestoreUuid]) d1 = (d2, Ok tt) /\ rep d2 a2 /\
    n_uuid a2 = run_uuid env params /\ n_meta a2 = run_uuid env params /\
    n_label a2 = n_label a /\ n_changed a2 = false.
Proof.
  intros R Hf Hs Hc. destruct (format_rep env params d g R Hf) as (d1 & r & E1 & R1).
  destruct (steps_meta _ _ _ Hs) as [Hm Hn]. cbn [n_meta formatted] in Hm.
  specialize (Hn ltac:(done)).
  destruct (steps_run d1 _ os a R1 Hs) as (d2 & E2 & _ & R2).
  assert (exists a2, step a RestoreUuid a2 /\ n_uuid a2 = n_meta a /\ n_meta a2 = n_meta a /\
    n_label a2 = n_label a /\ n_changed a2 = false) as (a2 & Ha & N1 & N2 & N3 & N4).
  { destruct (n_changed a) eqn:E.
    - eexists. split; [by apply step_restore|]. done.
    - exists a. split_and!; try done; [by apply step_unchanged | by apply Hn]. }
  destruct (step_runs d2 a _ a2 R2 Ha) as (d3 & E3 & _ & R3).
  exists d1, r, d3, a2. rewrite N1, N2, Hm. split_and!; try done.
  rewrite io_for_app, (io_bind_step _ _ _ _ _ E2). cbn [io_for]. by rewrite (io_bind_step _ _ _ _ _ E3).
Qed.

(** C15: a log [clear_log] wrote reads back: [find_tail] says it is clean and
    in the cycle it was given, in the first cycle as in any later one. *)
Theorem cleared_log_reads_back d g start bbs uuid p c : layout d g start bbs ->
  length uuid = 16%nat -> 1 <= c < HEADER_MAGIC ->
  exists d' s, clear_log g uuid c d = (d', Ok tt) /\
    log_find_tail (mkFs g p) d' = (d', Ok s) /\ dirty s = false /\ ls_cycle s = c.
Proof.
  intros L Hu Hc. destruct (ly_log _ _ _ _ L) as (El & _ & T).
  destruct (clear_log_clean d g uuid start bbs (geo_blocksize g) El (layout_room L)
    (proj1 (proj2 (ly_block _ _ _ _ L))) T Hu (proj1 (ly_sunit _ _ _ _ L))
    (proj2 (ly_sunit _ _ _ _ L)) c eq_refl Hc) as (d' & s & E & Lt & C & Y & _).
  exists d', s. split_and!; [done | | by eapply clean_not_dirty | done].
  eapply log_find_tail_ok; [eapply layout_later; [exact L | done] | done].
Qed.

(** C33: what [format] leaves, the reader of [inspect.rs] and the
    administrator accept: [geometry] gives the formatted geometry back,
    [Fs::open] passes its checks, and the log's state is clean, in the first
    cycle. *)
Theorem formatted_filesystem_opens env params d g :
  request env params d g -> serves_first d ->
  exists d' r s, format env params d = (d', Ok r) /\
    geometry d' = (d', Ok (geo_of g)) /\
    (exists p, Fs_open d' = (d', Ok (mkFs (geo_of g) p))) /\
    log_state d' = (d', Ok s) /\ dirty s = false /\ ls_cycle s = 1.
Proof.
  intros R Hf. destruct (format_fs_ok env params d g R Hf) as (d' & r & s & E & _ & F & Y).
  destruct F as [L G Sb C N]. destruct (ly_ags _ _ _ _ L) as (A1 & _).
  exists d', r, s. split_and!; [done | by eapply geometry_ok | | | by eapply clean_not_dirty | done].
  - eexists. eapply Fs_open_ok; [done..|]. apply Sb. lia.
  - unfold log_state. erewrite io_bind_step; [|eapply Fs_open_ok; [done..|]; apply Sb; lia].
    by eapply log_find_tail_ok.
Qed.
End Properties.

(** * Refusals *)

Section Refusals.
Context {D : Type} `{BlockDevice D}.

(** [Fs::open] only reads. *)
Lemma Fs_open_reads (d : D) : exists r, Fs_open d = (d, r).
Proof.
  unfold Fs_open, geometry, asks, read_sb, read, lift. rewrite !io_bind_eq.
  destruct (read_at _ _ _) as [b| | |]; [|by eexists..]. cbn.
  destruct (Geo_parse b) as [geo| | |]; [|by eexists..]. rewrite !io_bind_eq.
  destruct (read_at _ _ _) as [p| | |]; [|by eexists..]. rewrite !io_bind_eq.
  destruct (check_sb _ _ _); [|by eexists..]. cbn. rewrite !io_bind_eq.
  destruct (check_features _ _); by eexists.
Qed.

(** C34: an operation that is refused writes nothing.  What [Fs::open] refuses,
    every operation refuses with the same error; a label too long or with a
    NUL is refused before the device is read; a log that cannot be read or
    that holds changes to replay stops [set_uuid].  The device is left as it
    was each time. *)
Theorem refused_operations_write_nothing (d : D) uuid label :
  (forall e, snd (Fs_open d) = Err e ->
     set_uuid uuid d = (d, Err e) /\ restore_uuid d = (d, Err e) /\ log_state d = (d, Err e) /\
     (label_ok label = true -> set_label label d = (d, Err e))) /\
  (label_ok label = false -> exists m, set_label label d = (d, Err (InvalidParams m))) /\
  (forall fs e, Fs_open d = (d, Ok fs) -> log_find_tail fs d = (d, Err e) ->
     set_uuid uuid d = (d, Err e)) /\
  (forall fs s, Fs_open d = (d, Ok fs) -> log_find_tail fs d = (d, Ok s) -> dirty s = true ->
     exists m, set_uuid uuid d = (d, Err (NeedsRecovery m))).
Proof.
  split_and!.
  - intros e He. destruct (Fs_open_reads d) as [r E]. rewrite E in He. cbn in He. subst r.
    unfold set_uuid, restore_uuid, log_state. rewrite !io_bind_eq, E. split_and!; try done.
    intros [Hl1%Nat.leb_le Hl2%negb_true_iff]%andb_prop. unfold set_label.
    rewrite (proj2 (Nat.ltb_ge _ _) Hl1), Hl2. cbn [orb bail_if].
    by rewrite lift_bind, io_bind_eq, E.
  - intros Hl. unfold set_label. assert ((LABEL_MAX <? String.length label)%nat || contains_nul label = true)
      as ->.
    { unfold label_ok in Hl. apply andb_false_iff in Hl as [Hl%Nat.leb_gt|Hl%negb_false_iff].
      - by rewrite (proj2 (Nat.ltb_lt _ _) Hl).
      - rewrite Hl. apply orb_true_r. }
    by eexists.
  - intros fs e E1 E2. unfold set_uuid. by rewrite (io_bind_step _ _ _ _ _ E1), io_bind_eq, E2.
  - intros fs s E1 E2 Hd. unfold set_uuid.
    rewrite (io_bind_step _ _ _ _ _ E1), (io_bind_step _ _ _ _ _ E2), Hd. by eexists.
Qed.

(** [Fs::open] takes a superblock with readable features exactly when it
    is not marked for repair, has no incompat feature the crate does not know,
    no realtime device and an internal log; a mark for repair is told apart
    from the rest. *)
Theorem check_features_exactly g p incompat rblocks :
  be32 p Superblock.off.FEATURES_INCOMPAT = Ok incompat -> be64 p Superblock.off.RBLOCKS = Ok rblocks ->
  (check_features g p = Ok tt <->
     Z.land incompat version.IN_NEEDSREPAIR = 0 /\ Z.land incompat UNKNOWN_INCOMPAT = 0 /\
     rblocks = 0 /\ geo_logstart g <> 0) /\
  (Z.land incompat version.IN_NEEDSREPAIR <> 0 -> exists m, check_features g p = Err (NeedsRecovery m)) /\
  (Z.land incompat version.IN_NEEDSREPAIR = 0 -> check_features g p <> Ok tt ->
     exists m, check_features g p = Err (Unsupported m)).
Proof.
  intros E1 E2. unfold check_features. rewrite E1. cbn [mbind result_bind]. fold UNKNOWN_INCOMPAT.
  destruct (Z.eqb_spec (Z.land incompat version.IN_NEEDSREPAIR) 0) as [->|Hn]; cbn [negb bail_if mbind result_bind];
    [|split_and!; [split; [done|lia] | by eexists | lia]].
  destruct (Z.eqb_spec (Z.land incompat UNKNOWN_INCOMPAT) 0) as [->|Hu]; cbn [negb bail_if mbind result_bind];
    [|split_and!; [split; [done|lia] | done | by eexists]].
  rewrite E2. cbn [mbind result_bind].
  destruct (Z.eqb_spec rblocks 0); cbn [negb bail_if mbind result_bind];
    [|split_and!; [split; [done|lia] | done | by eexists]].
  destruct (Z.eqb_spec (geo_logstart g) 0); cbn [bail_if]; [|by split_and!].
  split_and!; [split; [done|lia] | done | by eexists].
Qed.
End Refusals.

(** * Witnesses *)

Definition uuid1 : buf := replicate 16 (byte.of_Z 9).

(** A change of UUID, a label, and the UUID back. *)
Lemma steps0 : steps (formatted env0 Params_new geo512m)
  [SetUuid uuid1; SetLabel "data"; RestoreUuid]
  (mkNames uuid0 uuid0 (padded "data") false 3).
Proof.
  eapply steps_cons; [apply step_uuid; [done | by vm_compute]|].
  eapply steps_cons; [apply step_label; by vm_compute|].
  eapply steps_cons; [|apply steps_nil].
  change 3 with (1 + 1 + 1). apply step_restore; [by vm_compute | by vm_compute].
Qed.

Lemma admin_refines_steps_witness : exists d d',
  io_for run_admin [SetUuid uuid1; SetLabel "data"; RestoreUuid] d = (d', Ok tt) /\
  rep d' (mkNames uuid0 uuid0 (padded "data") false 3).
Proof.
  destruct (format_rep env0 Params_new dev0 geo512m request0 serves_first0) as (d & r & _ & R).
  destruct (admin_refines_steps d _ _ _ R steps0) as (d' & E & _ & R').
  exists d, d'. split; [exact E | exact R'].
Defined.

Lemma set_uuid_keeps_the_filesystem_witness : exists d d' s' inc',
  set_uuid uuid1 d = (d', Ok tt) /\
  fs_ok d' (with_incompat (geo_of geo512m) inc') (log_byte geo512m) (log_bbs geo512m)
    uuid1 uuid0 (label geo512m) s' /\ has_meta_uuid inc' = true /\ ls_cycle s' = 2.
Proof.
  destruct formatted0 as (d & r & s & _ & F & Y).
  destruct (set_uuid_keeps_the_filesystem d _ _ _ _ _ _ s uuid1 F) as (d' & s' & inc & E & _ & F' & M & Y' & _);
    [done | by rewrite Y |].
  exists d, d', s', inc. rewrite Y', Y. split; [exact E | split; [exact F' | split; [by rewrite M | reflexivity]]].
Defined.

Lemma set_label_changes_only_the_label_witness : exists d d' s,
  set_label "data" d = (d', Ok tt) /\
  fs_ok d' (geo_of geo512m) (log_byte geo512m) (log_bbs geo512m) uuid0 uuid0 (padded "data") s /\
  padded "data" = byte.of_Z 100 :: byte.of_Z 97 :: byte.of_Z 116 :: byte.of_Z 97 :: zeroes 8.
Proof.
  destruct formatted0 as (d & r & s & _ & F & Y).
  destruct (set_label_changes_only_the_label d _ _ _ _ _ _ s "data" F) as (d' & E & _ & F' & _);
    [by vm_compute|].
  exists d, d', s. split; [exact E | split; [exact F' | by vm_compute]].
Defined.

Lemma restore_gives_back_the_formatted_uuid_witness : exists d1 r d2 a2,
  format env0 Params_new dev0 = (d1, Ok r) /\
  io_for run_admin ([SetUuid uuid1; SetLabel "data"; RestoreUuid] ++ [RestoreUuid]) d1 = (d2, Ok tt) /\
  rep d2 a2 /\ n_uuid a2 = uuid0 /\ n_meta a2 = uuid0 /\ n_label a2 = padded "data" /\
  n_changed a2 = false.
Proof.
  apply (restore_gives_back_the_formatted_uuid env0 Params_new dev0 geo512m _ _
    request0 serves_first0 steps0). by vm_compute.
Defined.

Lemma cleared_log_reads_back_witness : exists d d' s,
  clear_log (geo_of geo512m) uuid1 7 d = (d', Ok tt) /\
  log_find_tail (mkFs (geo_of geo512m) []) d' = (d', Ok s) /\ dirty s = false /\ ls_cycle s = 7.
Proof.
  destruct formatted0 as (d & r & s & _ & F & _).
  destruct (cleared_log_reads_back d _ _ _ uuid1 [] 7 (fo_layout _ _ _ _ _ _ _ _ F)) as (d' & s' & T);
    [done | by vm_compute |].
  exists d, d', s'. exact T.
Defined.

Lemma formatted_filesystem_opens_witness : exists d' r s,
  format env0 Params_new dev0 = (d', Ok r) /\ geometry d' = (d', Ok (geo_of geo512m)) /\
  (exists p, Fs_open d' = (d', Ok (mkFs (geo_of geo512m) p))) /\
  log_state d' = (d', Ok s) /\ dirty s = false /\ ls_cycle s = 1.
Proof.
  apply (formatted_filesystem_opens env0 Params_new dev0 geo512m request0 serves_first0).
Defined.

Lemma check_features_exactly_witness :
  (exists m, check_features (geo_of geo512m) (replicate 219 (byte.of_Z 0) ++ [byte.of_Z 0x10] ++ zeroes 44)
     = Err (NeedsRecovery m)).
Proof.
  apply (check_features_exactly (geo_of geo512m)
    (replicate 219 (byte.of_Z 0) ++ [byte.of_Z 0x10] ++ zeroes 44) 0x10 0); [reflexivity.. | done].
Defined.
