(* ===== verification/Fuse.v ===== *)
(** A device that fails, and what a failure leaves of the writes before it.

    A [Fused] device serves a number of requests that write and then no more:
    whichever request of a run fails, some fuse makes that one the first to
    fail.  Requests are not durable until a flush, as [flush] of
    [src/src/device.rs] has it, so the device keeps the states it has been in
    since the last one; the request that fails leaves a [wreck] of them, in
    which every 512-byte sector is as it was in some one of them, that
    request's own outcome among them.  A device that does nothing when it
    fails ([in_order]), a write torn between sectors, and a cache lost with
    the power are all such.

    [lockstep] relates the code on a device and on the fused one: with fuse
    enough they do the same, and with less the run ends with the device's
    error in a state [Q]. *)

From Stdlib Require Import ZArith Lia String.
From stdpp Require Import base tactics list numbers fin_maps gmap.
From coqutil Require Import Byte.
From S2P Require Import Prelude Bytes Device Io Inspect Admin.

(** * A device with a fuse *)

Record Fused (D : Type) : Type := mkFused {
  fu_dev : D;
  fu_past : list D;
  fu_left : nat;
  fu_fault : Error;
  fu_wreck : list D -> D -> D -> D;
}.
Arguments mkFused {D} fu_dev fu_past fu_left fu_fault fu_wreck.
Arguments fu_dev {D} f.
Arguments fu_past {D} f.
Arguments fu_left {D} f.
Arguments fu_fault {D} f.
Arguments fu_wreck {D} f.

(** A request that writes.  [sync] says that, once it is served, what was
    written before it is durable. *)
Definition burn {D} (sync : bool) (op : D -> D * result unit) (f : Fused D) : Fused D * result unit :=
  let '(d, r) := op (fu_dev f) in
  match fu_left f with
  | O => (mkFused (fu_wreck f (fu_past f) (fu_dev f) d) [] 0 (fu_fault f) (fu_wreck f), Err (fu_fault f))
  | S n => (mkFused d (if sync then [] else fu_past f ++ [fu_dev f]) n (fu_fault f) (fu_wreck f), r)
  end.

#[export] Instance Fused_BlockDevice {D} `{BlockDevice D} : BlockDevice (Fused D) := {
  dev_size f := dev_size (fu_dev f);
  logical_sector_size f := logical_sector_size (fu_dev f);
  physical_sector_size f := physical_sector_size (fu_dev f);
  read_at f off len := read_at (fu_dev f) off len;
  write_at f off b := burn false (fun d => write_at d off b) f;
  flush f := burn true flush f;
  write_zeroes f off len := burn false (fun d => write_zeroes d off len) f;
}.

(** ** Wrecks *)

Definition sector (i : Z) : Z := i / 512.

Lemma sector_0 i : sector i = 0 <-> 0 <= i < 512.
Proof.
  unfold sector. split; [|intros Hi; by apply Z.div_small].
  intros E. pose proof (Z.div_mod i 512 ltac:(done)). pose proof (Z.mod_pos_bound i 512 ltac:(done)). lia.
Qed.

(** The states a failing request may leave: the same device, each sector of
    which is one of a state since the last flush. *)
Definition wrecks {D} `{DeviceSpec D} (w : list D -> D -> D -> D) : Prop :=
  forall d0 past d d1, (forall x, x ∈ past ++ [d; d1] -> later d0 x) ->
    later d0 (w past d d1) /\
    forall j, exists x, x ∈ past ++ [d; d1] /\
      forall i, sector i = j -> contents (w past d d1) i = contents x i.

(** Nothing is lost, and the request that fails does nothing. *)
Definition in_order {D} (past : list D) (d d1 : D) : D := d.

Lemma in_order_wrecks {D} `{DeviceSpec D} : wrecks (in_order (D := D)).
Proof.
  intros d0 past d d1 Hl. unfold in_order.
  assert (d ∈ past ++ [d; d1]) as Hd by (rewrite elem_of_app; right; left).
  split; [by apply Hl|]. intros j. by exists d.
Qed.

(** A [MemDevice] that keeps everything but its first 64 KiB, which are as
    they were at the last flush. *)
Definition lost_chunk (past : list MemDevice) (d d1 : MemDevice) : MemDevice :=
  set_chunks d1 (partial_alter (fun _ => chunks (hd d past) !! 0) 0 (chunks d1)).

Lemma lost_chunk_contents past d d1 i : contents (lost_chunk past d d1) i =
  if decide (i / Device.CHUNK = 0) then contents (hd d past) i else contents d1 i.
Proof.
  cbn. unfold byte_at. destruct (decide _) as [E|E].
  - by rewrite E, lookup_partial_alter_eq.
  - by rewrite lookup_partial_alter_ne.
Qed.

Lemma lost_chunk_wrecks : wrecks lost_chunk.
Proof.
  intros d0 past d d1 Hl. set (o := hd d past).
  assert (o ∈ past ++ [d; d1]) as Ho by (unfold o; destruct past; [left | left]).
  assert (d1 ∈ past ++ [d; d1]) as H1 by (rewrite elem_of_app; right; right; left).
  pose proof (Hl o Ho) as [Vo _ _ _]. pose proof (Hl d1 H1) as [V1 S1 L1 A1]. split.
  - split; [|exact S1 | exact L1 | exact A1].
    apply set_chunks_valid; [exact V1|]. destruct V1 as [C1 _], Vo as [Co _].
    intros k c Hk. destruct (decide (k = 0)) as [->|Hn].
    + rewrite lookup_partial_alter_eq in Hk. by apply (Co 0).
    + rewrite lookup_partial_alter_ne in Hk by done. by apply (C1 k).
  - intros j. assert (forall i, sector i = j -> i / Device.CHUNK = j / 128) as Ec
      by (intros i <-; unfold sector; rewrite Z.div_div by lia; reflexivity).
    destruct (decide (j / 128 = 0)) as [E|E]; [exists o | exists d1]; (split; [done|]);
      intros i Hi; rewrite lost_chunk_contents, (Ec i Hi); by destruct (decide _).
Qed.

(** * Lockstep *)

Section Lockstep.
Context {D : Type} `{BlockDevice D}.
Variables (e : Error) (w : list D -> D -> D -> D).
Implicit Types (d : D) (V Q : D -> Prop).

Local Notation "'fused' d past n" := (mkFused d past n e w)
  (at level 10, d at level 9, past at level 9, n at level 9).

(** [m'] is [m] on a fused device; [m] makes [N] requests that write.  The
    states since the last flush are all [V] before it, [V'] after. *)
Record lockstep {A} (V V' Q : D -> Prop) (m : io D A) (m' : io (Fused D) A) (d : D) (N : nat) : Prop := {
  ls_whole past j : Forall V past -> exists past', Forall V' past' /\
    m' (fused d past (N + j)) = (fused (fst (m d)) past' j, snd (m d));
  ls_cut past n : Forall V past -> (n < N)%nat ->
    exists d', m' (fused d past n) = (fused d' [] 0, Err e) /\ Q d';
}.
Definition locked {A} V V' Q (m : io D A) m' d : Prop := exists N, lockstep V V' Q m m' d N.

Lemma lockstep_quiet {A} V Q (m : io D A) m' d r : m d = (d, r) ->
  (forall past n, m' (fused d past n) = (fused d past n, r)) -> lockstep V V Q m m' d 0.
Proof. intros E E'. split; [intros past j HV; exists past; by rewrite E', E | lia]. Qed.
Lemma locked_quiet {A} V Q (m : io D A) m' d r : m d = (d, r) ->
  (forall past n, m' (fused d past n) = (fused d past n, r)) -> locked V V Q m m' d.
Proof. intros E E'. exists 0%nat. by eapply lockstep_quiet. Qed.

Lemma locked_ret {A} V Q (a : A) d : locked V V Q (mret a) (mret a) d.
Proof. by eapply locked_quiet. Qed.
Lemma locked_lift {A} V Q (r : result A) d : locked V V Q (lift r) (lift r) d.
Proof. by eapply locked_quiet. Qed.

Lemma lockstep_bind {A B} V V1 V' Q (m : io D A) m' (f : A -> io D B) f' d d1 a N1 N2 :
  lockstep V V1 Q m m' d N1 -> m d = (d1, Ok a) -> lockstep V1 V' Q (f a) (f' a) d1 N2 ->
  lockstep V V' Q (m ≫= f) (m' ≫= f') d (N1 + N2).
Proof.
  intros [W1 C1] E [W2 C2]. split.
  - intros past j HV. destruct (W1 past (N2 + j)%nat HV) as (p1 & Hp1 & E1).
    destruct (W2 p1 j Hp1) as (p2 & Hp2 & E2). exists p2. split; [done|].
    rewrite <- Nat.add_assoc, !io_bind_eq, E1, E. exact E2.
  - intros past n HV Hn. rewrite io_bind_eq. destruct (Nat.lt_ge_cases n N1) as [Hl|Hl].
    + destruct (C1 past n HV Hl) as (d' & -> & HQ). by exists d'.
    + destruct (W1 past (n - N1)%nat HV) as (p1 & Hp1 & E1).
      replace n with (N1 + (n - N1))%nat by lia. rewrite E1, E. cbn [fst snd]. apply C2; [done | lia].
Qed.

Lemma locked_bind {A B} V V1 V' Q (m : io D A) m' (f : A -> io D B) f' d d1 a :
  locked V V1 Q m m' d -> m d = (d1, Ok a) -> locked V1 V' Q (f a) (f' a) d1 ->
  locked V V' Q (m ≫= f) (m' ≫= f') d.
Proof. intros [N1 L1] E [N2 L2]. exists (N1 + N2)%nat. by eapply lockstep_bind. Qed.

Lemma locked_weaken {A} V V' V1 V1' Q Q1 (m : io D A) m' d :
  (forall x, V1 x -> V x) -> (forall x, V' x -> V1' x) -> (forall x, Q x -> Q1 x) ->
  locked V V' Q m m' d -> locked V1 V1' Q1 m m' d.
Proof.
  intros HV HV' HQ [N [W C]]. exists N. split.
  - intros past j Hp. destruct (W past j) as (p & Hp' & E); [by eapply Forall_impl|].
    exists p. split; [by eapply Forall_impl | done].
  - intros past n Hp Hn. destruct (C past n) as (d' & E & Hd); [by eapply Forall_impl | done|]. eauto.
Qed.

Lemma locked_cut {A} V V' Q Q1 (m : io D A) m' d : (forall x, Q x -> Q1 x) ->
  locked V V' Q m m' d -> locked V V' Q1 m m' d.
Proof. intros HQ. by apply locked_weaken. Qed.

Lemma locked_ext {A} V V' Q (m m1 : io D A) m' m1' d : m d = m1 d ->
  (forall past n, m' (fused d past n) = m1' (fused d past n)) ->
  locked V V' Q m1 m1' d -> locked V V' Q m m' d.
Proof.
  intros E E' [N [W C]]. exists N. split.
  - intros past j. rewrite E', E. apply W.
  - intros past n. rewrite E'. apply C.
Qed.

(** A run of code in lockstep ends as the whole one does or is cut short. *)
Lemma locked_run {A} V V' Q (m : io D A) m' d n : locked V V' Q m m' d ->
  (exists past j, m' (fused d [] n) = (fused (fst (m d)) past j, snd (m d))) \/
  (exists d', m' (fused d [] n) = (fused d' [] 0, Err e) /\ Q d').
Proof.
  intros [N [W C]]. destruct (Nat.lt_ge_cases n N) as [Hn|Hn]; [right; by apply C|].
  left. destruct (W [] (n - N)%nat) as (past & _ & E); [done|]. exists past, (n - N)%nat.
  by replace (N + (n - N))%nat with n in E by lia.
Qed.

(** A run of one piece of code after another: the first ends well, and then the
    second as the whole one does or cut short, or the first is cut short. *)
Lemma locked_run_bind {A B} V V1 V' Q1 Q2 (m : io D A) m' (f : A -> io D B) f' d d1 a n :
  locked V V1 Q1 m m' d -> m d = (d1, Ok a) -> locked V1 V' Q2 (f a) (f' a) d1 ->
  (snd (m' (fused d [] n)) = Ok a /\
   ((exists past j, (m' ≫= f') (fused d [] n) = (fused (fst ((m ≫= f) d)) past j, snd ((m ≫= f) d))) \/
    exists d', (m' ≫= f') (fused d [] n) = (fused d' [] 0, Err e) /\ Q2 d')) \/
  (snd (m' (fused d [] n)) = Err e /\
   exists d', (m' ≫= f') (fused d [] n) = (fused d' [] 0, Err e) /\ Q1 d').
Proof.
  intros [N1 [W1 C1]] E [N2 [W2 C2]]. rewrite !io_bind_eq, E.
  destruct (Nat.lt_ge_cases n N1) as [Hn|Hn].
  - right. destruct (C1 [] n) as (d' & -> & HQ); [done..|]. split; [done|]. by exists d'.
  - left. destruct (W1 [] (n - N1)%nat) as (p1 & Hp1 & E1); [done|].
    replace (N1 + (n - N1))%nat with n in E1 by lia. rewrite E1, E. split; [done|]. cbn [fst snd].
    destruct (Nat.lt_ge_cases (n - N1) N2) as [Hn2|Hn2]; [right; by apply C2|].
    left. destruct (W2 p1 (n - N1 - N2)%nat Hp1) as (p2 & _ & E2).
    replace (N2 + (n - N1 - N2))%nat with (n - N1)%nat in E2 by lia. by exists p2, (n - N1 - N2)%nat.
Qed.

(** ** One request *)

(** Every wreck of states that are [V] is [Q]. *)
Definition survives V Q : Prop := forall past d d1, Forall V past -> V d -> V d1 -> Q (w past d d1).

Lemma lockstep_burn V Q (op : D -> D * result unit) d d1 : op d = (d1, Ok tt) -> V d ->
  (forall past, Forall V past -> Q (w past d d1)) -> lockstep V V Q op (burn false op) d 1.
Proof.
  intros E Hd HQ. unfold burn. split.
  - intros past j Hp. exists (past ++ [d]). cbn. rewrite E. split; [|done].
    apply Forall_app_2; [done|]. by constructor.
  - intros past n Hp Hn. assert (n = 0%nat) as -> by lia. exists (w past d d1). cbn. rewrite E. auto.
Qed.

Lemma lockstep_flush V V' Q d d1 : io_flush d = (d1, Ok tt) ->
  (forall past, Forall V past -> Q (w past d d1)) -> lockstep V V' Q io_flush io_flush d 1.
Proof.
  unfold io_flush. intros E HQ. cbn. unfold burn. split.
  - intros past j Hp. exists []. cbn. by rewrite E.
  - intros past n Hp Hn. assert (n = 0%nat) as -> by lia. exists (w past d d1). cbn. rewrite E. auto.
Qed.

Lemma locked_write V Q off b d d1 : survives V Q -> io_write off b d = (d1, Ok tt) -> V d -> V d1 ->
  locked V V Q (io_write off b) (io_write off b) d.
Proof.
  intros Hs E V0 V1. exists 1%nat. apply (lockstep_burn V Q (fun d => write_at d off b) d d1); auto.
Qed.
Lemma locked_zeroes V Q off len d d1 : survives V Q -> io_zeroes off len d = (d1, Ok tt) -> V d -> V d1 ->
  locked V V Q (io_zeroes off len) (io_zeroes off len) d.
Proof.
  intros Hs E V0 V1. exists 1%nat. apply (lockstep_burn V Q (fun d => write_zeroes d off len) d d1); auto.
Qed.
Lemma locked_flush V V' Q d d1 : survives V Q -> io_flush d = (d1, Ok tt) -> V d -> V d1 ->
  locked V V' Q io_flush io_flush d.
Proof. intros Hs E V0 V1. exists 1%nat. apply (lockstep_flush V V' Q d d1); auto. Qed.

(** ** Loops *)

Lemma lockstep_for {A} V Q (f : A -> io D unit) f' l d d1 :
  (forall x d d', V d -> V d' -> f x d = (d', Ok tt) -> lockstep V V Q (f x) (f' x) d 1) ->
  io_for f l d = (d1, Ok tt) -> (forall k, (k <= length l)%nat -> V (fst (io_for f (take k l) d))) ->
  lockstep V V Q (io_for f l) (io_for f' l) d (length l).
Proof.
  intros Hf. revert d. induction l as [|x l IH]; intros d E HV; [by eapply lockstep_quiet|].
  cbn [io_for length] in *. rewrite io_bind_eq in E. destruct (f x d) as [d2 [[]| | |]] eqn:Ex; try done.
  assert (forall k, (k <= length l)%nat -> V (fst (io_for f (take k l) d2))) as HV2.
  { intros k Hk. specialize (HV (S k) ltac:(lia)). cbn [take io_for] in HV.
    by rewrite (io_bind_step _ _ _ _ _ Ex) in HV. }
  apply (lockstep_bind V V V Q _ _ _ _ d d2 tt 1); [|exact Ex | by apply IH].
  apply (Hf x d d2); [apply (HV 0%nat); lia | apply (HV2 0%nat); lia | exact Ex].
Qed.

(** ** Code that only reads *)

Lemma geometry_eq {E} `{BlockDevice E} (x : E) : geometry x =
  (x, h ← read_at x 0 (Z.min (Z.max (logical_sector_size x) 512) (dev_size x)); Geo_parse h).
Proof. unfold geometry, asks, read, lift, mbind, io_bind. by destruct (read_at x _ _). Qed.

Lemma fused_geometry d past n : geometry (fused d past n) = (fused d past n, snd (geometry d)).
Proof. by rewrite !geometry_eq. Qed.

Lemma read_sb_eq {E} `{BlockDevice E} g a (x : E) : read_sb g a x =
  (x, b ← read_at x (sb_offset g a) (geo_blocksize g); check_sb g a b;; Ok b).
Proof.
  unfold read_sb, read, lift, mbind, io_bind. destruct (read_at x _ _) as [b| | |]; try done. cbn.
  by destruct (check_sb g a b) as [[]| | |].
Qed.

Lemma fused_read_sb g a d past n :
  read_sb g a (fused d past n) = (fused d past n, snd (read_sb g a d)).
Proof. by rewrite !read_sb_eq. Qed.

Lemma Fs_open_eq {E} `{BlockDevice E} (x : E) : Fs_open x =
  (x, g ← snd (geometry x); p ← snd (read_sb g 0 x); check_features g p;; Ok (mkFs g p)).
Proof.
  unfold Fs_open. rewrite io_bind_eq, geometry_eq. cbn [snd].
  destruct (_ ≫= Geo_parse) as [g| | |]; try done. cbn [mbind result_bind].
  rewrite io_bind_eq, read_sb_eq. cbn [snd].
  destruct (read_at x _ _ ≫= _) as [p| | |]; try done. cbn [mbind result_bind].
  rewrite io_bind_eq. unfold lift. by destruct (check_features g p) as [[]| | |].
Qed.

Lemma fused_Fs_open d past n : Fs_open (fused d past n) = (fused d past n, snd (Fs_open d)).
Proof.
  rewrite !Fs_open_eq, fused_geometry. cbn [snd]. destruct (snd (geometry d)) as [g| | |]; try done.
  cbn [mbind result_bind]. by rewrite fused_read_sb.
Qed.

Lemma fused_find_tail fs d past n :
  log_find_tail fs (fused d past n) = (fused d past n, snd (log_find_tail fs d)).
Proof.
  unfold log_find_tail. destruct (log_extent (fs_geo fs)) as [start bbs].
  destruct (bbs <? TOTAL_REC_BBS); [done|]. reflexivity.
Qed.

(** ** One superblock is one request *)

Lemma lockstep_update_sb V Q g f a d d1 : update_sb g f a d = (d1, Ok tt) -> V d ->
  (forall past, Forall V past -> Q (w past d d1)) ->
  lockstep V V Q (update_sb g f a) (update_sb g f a) d 1.
Proof.
  intros E Hd HQ. unfold update_sb in *.
  destruct (read_sb g a d) as [d2 r] eqn:Er. assert (d2 = d) as -> by (rewrite read_sb_eq in Er; by injection Er).
  assert (forall past n, read_sb g a (fused d past n) = (fused d past n, r)) as Ef
    by (intros; by rewrite fused_read_sb, Er).
  rewrite io_bind_eq, Er in E. destruct r as [b| | |]; try done.
  apply (lockstep_bind V V V Q _ _ _ _ d d b 0 1); [by eapply lockstep_quiet | done |].
  destruct (f b) as [b1| | |] eqn:E1; try (by rewrite io_bind_eq in E). rewrite lift_bind in E.
  apply (lockstep_bind V V V Q _ _ _ _ d d b1 0 1); [by eapply lockstep_quiet | done |].
  unfold write_sb in *. destruct (sb_to_disk g b1) as [b2| | |] eqn:E2; try (by rewrite io_bind_eq in E).
  rewrite lift_bind in E.
  apply (lockstep_bind V V V Q _ _ _ _ d d b2 0 1); [by eapply lockstep_quiet | done |].
  by apply (lockstep_burn V Q (fun d => write_at d (sb_offset g a) b2) d d1).
Qed.
End Lockstep.

(** A byte no state since the last flush differs in. *)
Lemma wreck_same {D} `{DeviceSpec D} (w : list D -> D -> D -> D) d0 past d d1 (c : byte) i : wrecks w ->
  (forall x, x ∈ past ++ [d; d1] -> later d0 x) ->
  (forall x, x ∈ past ++ [d; d1] -> contents x i = c) -> contents (w past d d1) i = c.
Proof.
  intros Hw Hl Hc. destruct (Hw d0 past d d1 Hl) as [_ Hs].
  destruct (Hs (sector i)) as (x & Hx & E). by rewrite E, Hc.
Qed.

(** The states of a wreck, one by one. *)
Lemma Forall_states {D} (V : D -> Prop) past d d1 :
  Forall V past -> V d -> V d1 -> forall x, x ∈ past ++ [d; d1] -> V x.
Proof.
  intros Hp Hd H1 x. rewrite elem_of_app, !elem_of_cons. rewrite List.Forall_forall in Hp.
  intros [Hx|[->|[->|Hx]]]; [by apply Hp, list_elem_of_In | done | done | by apply not_elem_of_nil in Hx].
Qed.

(** A fault, for the witnesses. *)
Definition fault0 : Error := Error_io 0 "device gone".
