(* ===== verification/Crash.v ===== *)
(** The formatter on a device that fails.

    [format] on a [Fused] device, whose failing request may leave any wreck
    of the writes since the last flush: a run that is cut short never leaves
    a first sector that looks finished over a filesystem that is not
    ([failed_format_is_whole_or_unfinished]).  The flush before the last
    write is what makes it so: before it, no state looks finished but for an
    old first sector no flush has yet replaced
    ([lost_cache_keeps_the_old_superblock]); after it, everything else is
    durable, and a finished superblock differs from the unfinished one in its
    first 512 bytes alone. *)

From Stdlib Require Import ZArith Lia String.
From stdpp Require Import base tactics list numbers.
From coqutil Require Import Byte Word.LittleEndianList.
From S2P Require Import Prelude Bytes Geometry GeometryFacts Structs Superblock Device Plan PlanFacts.
From S2P Require Import Io Format HeadFacts ChunkFacts FormatFacts LogFacts Fuse.

(** * The first sector *)

Lemma first_bytes_same (f f' : Z -> byte) n lo hi : (forall i, 0 <= i < 512 -> f' i = f i) ->
  512 <= n -> (lo <= hi <= 512)%nat -> slice (bytes_of f' 0 n) lo hi = slice (bytes_of f 0 n) lo hi.
Proof.
  intros E Hn Hh. rewrite !slice_bytes_of by lia. f_equal. apply bytes_of_ext. intros i Hi. apply E. lia.
Qed.

Lemma looks_finished_same (f f' : Z -> byte) n : (forall i, 0 <= i < 512 -> f' i = f i) -> 512 <= n ->
  looks_finished (bytes_of f' 0 n) -> looks_finished (bytes_of f 0 n).
Proof.
  intros E Hn. unfold looks_finished, be32. rewrite !index_slice.
  by rewrite !(first_bytes_same f f' n) by (done || (cbv; lia)).
Qed.

(** A superblock's sector is zero past its fields. *)
Lemma encode_rest g sbs x i : wf g -> length (Superblock.uuid sbs) = 16%nat ->
  Superblock.encode g sbs (zeroes (Z.to_nat (sectsize g))) = Ok x -> (264 <= i < Z.to_nat (sectsize g))%nat ->
  x !! i = Some (byte.of_Z 0).
Proof.
  intros W Hu E Hi. destruct (block_bytes_of g W) as (_ & K & _).
  destruct (encode_sealed g sbs (zeroes (Z.to_nat (sectsize g)))) as (x' & E' & S);
    rewrite ?length_zeroes; [lia | lia | done | apply (wf_label g W) |].
  assert (x' = x) as -> by congruence. pose proof (sealed_length _ _ _ _ _ S) as L. rewrite length_zeroes in L.
  assert (slice x i (i + 1) = slice (zeroes (Z.to_nat (sectsize g))) i (i + 1)) as A.
  { apply (sealed_apart S); [right; unfold Superblock.off.CRC; lia|].
    assert (forallb (fun s => store_off s + store_len s <=? 264)%nat (fields g sbs) = true) as Hf
      by (unfold fields, log_sector_fields; by destruct (big_sectors g)).
    rewrite forallb_forall in Hf. apply List.Forall_forall. intros s Hs%Hf%Nat.leb_le. right. lia. }
  rewrite !slice_in in A by (rewrite ?length_zeroes; lia).
  replace (i + 1 - i)%nat with 1%nat in A by lia. injection A as A.
  pose proof (f_equal (fun l => l !! 0%nat) A) as A0. cbn beta in A0.
  rewrite !lookup_take_lt, !lookup_drop, !Nat.add_0_r in A0 by lia. rewrite A0.
  apply lookup_replicate_2. lia.
Qed.

(** A head finished and unfinished: the same past the first 512 bytes. *)
Lemma head_sectors_same g p p' uuid sbs sbs' b b' i : wf g ->
  length (Superblock.uuid sbs) = 16%nat -> length (Superblock.uuid sbs') = 16%nat ->
  head_spec g p uuid sbs b -> head_spec g p' uuid sbs' b' -> (512 <= i < Z.to_nat (sectsize g))%nat ->
  b !! i = b' !! i.
Proof.
  intros W Hu Hu' S S' Hi.
  destruct (hs_sb _ _ _ _ _ S) as (x & Hx & E). destruct (hs_sb _ _ _ _ _ S') as (x' & Hx' & E').
  pose proof (encode_rest g sbs x i W Hu E ltac:(lia)) as R.
  pose proof (encode_rest g sbs' x' i W Hu' E' ltac:(lia)) as R'.
  apply slice_Ok in Hx as [_ ->]. apply slice_Ok in Hx' as [_ ->].
  rewrite Nat.sub_0_r, drop_0, lookup_take_lt in R, R' by lia. by rewrite R, R'.
Qed.

(** * What a wreck of the requests leaves *)

(** Cut short, a run leaves the first sector it found, or one that does not
    look finished, or the whole image. *)
Definition whole_or_unfinished (g : Geometry) (uuid : buf) (t : Timestamp) (gen fdb : Z)
    (f0 f : Z -> byte) : Prop :=
  (forall i, 0 <= i < 512 -> f i = f0 i) \/
  ~ looks_finished (bytes_of f 0 (sectsize g)) \/
  image g uuid t gen fdb f.

Section Sequence.
Variables (g : Geometry) (ps : list AgPlan) (uuid : buf) (t : Timestamp) (gen size : Z).
Variables (order : list Z) (logb : buf) (heads : Z -> buf) (chunk last : buf).
Hypothesis W : wf g.
Hypothesis Hsize : dblocks g * bs g <= size.
Hypothesis Hord : order ≡ₚ seqZ 0 (agcount g).
Hypothesis Hpo : pieces_ok g ps uuid t gen logb heads chunk last.
Hypothesis Hu : length uuid = 16%nat.

Let un := unfinished_ops g size order logb heads chunk.
Let ops := format_ops g size order logb heads chunk last.

Lemma header_written i : 0 <= i < header_blocks g * bs g ->
  last_written un i = heads 0 !! Z.to_nat i.
Proof.
  intros Hi. pose proof (wf_agcount g W). destruct (header_bytes g W) as (_ & Hb & _).
  destruct (head_byte g W 0 ltac:(lia)) as (Eb & _ & A2).
  destruct (block_positions g ps uuid t gen size logb heads chunk last W Hsize Hpo 0 ltac:(lia)) as (_ & _ & _ & _ & Q5 & _).
  destruct (ops_around_head g ps uuid t gen size order logb heads chunk last W Hsize Hord Hpo)
    as (r1 & r2 & Eu & Hr1 & Hr2).
  unfold un. rewrite Eu, app_comm_cons, (last_written_at (0 * bs g) ((0 + header_blocks g) * bs g)).
  - cbn [ag_op written]. rewrite Eb, Z.mul_0_l. destruct (Z.leb_spec 0 i); [|lia]. by rewrite Z.sub_0_r.
  - lia.
  - cbn [ag_op op_off op_len]. rewrite Eb, (heads_length g ps uuid t gen logb heads chunk last W Hpo) by lia. nia.
  - done.
  - done.
Qed.

(** The last write changes the first 512 bytes and nothing else. *)
Lemma last_write_same i : ~ 0 <= i < 512 -> last_written ops i = last_written un i.
Proof.
  intros Hi. unfold ops, format_ops. fold un. rewrite last_written_app. cbn [last_written written].
  destruct (Z.leb_spec 0 i) as [H0|H0]; [|done]. rewrite Z.sub_0_r.
  destruct (last !! Z.to_nat i) as [x|] eqn:Ex; [|done]. pose proof (lookup_lt_Some _ _ _ Ex) as Hl.
  destruct (pieces_lengths g ps uuid t gen logb heads chunk last W Hpo) as (_ & _ & P3).
  rewrite header_written by lia. pose proof (wf_agcount g W). destruct (header_bytes g W) as (_ & Hb & _).
  destruct (po_last _ _ _ _ _ _ _ _ _ Hpo) as (p & b & Hp & Hs & Hsl & Hr).
  destruct (po_heads _ _ _ _ _ _ _ _ _ Hpo 0 ltac:(lia)) as (p' & Hp' & Hs').
  apply slice_Ok in Hsl as [_ ->]. rewrite Nat.sub_0_r, drop_0, lookup_take_lt in Ex by lia.
  rewrite <- Ex. destruct (Z.lt_ge_cases i (sectsize g)) as [Hlt|Hge]; [|symmetry; apply Hr; lia].
  eapply head_sectors_same; [done | | | exact Hs | exact Hs' | lia]; done.
Qed.

(** The states between two flushes: the device after some of the requests,
    [lo] of them at the least and [hi] at the most. *)
Section Versions.
Context {D : Type} `{DeviceSpec D}.
Variables (d : D) (k : list D -> D -> D -> D).
Hypothesis Hk : wrecks k.

Record version (lo hi : nat) (x : D) : Prop := {
  vs_later : later d x;
  vs_after : exists m, (lo <= m <= hi)%nat /\
    forall i, contents x i = default (contents d i) (last_written (take m ops) i);
}.

Definition cut_state (x : D) : Prop :=
  whole_or_unfinished g uuid t gen (planned_fdblocks ps) (contents d) (contents x).

Lemma ops_length : length ops = (length un + 2)%nat.
Proof. unfold ops, format_ops. by rewrite length_app. Qed.
Lemma take_un m : (m <= length un)%nat -> take m ops = take m un.
Proof. intros Hm. unfold ops, format_ops. fold un. by rewrite take_app_le. Qed.

(** One state, up to the last write. *)
Lemma version_unfinished x m f : (m <= length un)%nat ->
  (forall i, contents x i = default (contents d i) (last_written (take m ops) i)) ->
  (forall i, 0 <= i < 512 -> f i = contents x i) ->
  (forall i, 0 <= i < 512 -> f i = contents d i) \/ ~ looks_finished (bytes_of f 0 (sectsize g)).
Proof.
  intros Hm C E. rewrite take_un in C by done. destruct m as [|m].
  - left. intros i Hi. by rewrite E, C.
  - right. intros Lf. pose proof (sector_in_header g W) as Hs.
    apply (looks_finished_same (contents x)) in Lf; [|done | lia]. revert Lf.
    by eapply prefix_looks_unfinished with (k := S m); [done | done | done | exact Hpo | done | lia | exact C].
Qed.

Lemma before_flush_survives : survives k (version 0 (length un)) cut_state.
Proof.
  intros past y z Hp Hy Hz. pose proof (Forall_states _ _ _ _ Hp Hy Hz) as Hs.
  destruct (Hk d past y z) as [_ Hw]; [intros x Hx; by apply (vs_later _ _ _ (Hs x Hx))|].
  destruct (Hw 0) as (x & Hx & E). destruct (vs_after _ _ _ (Hs x Hx)) as (m & Hm & C).
  destruct (version_unfinished x m (contents (k past y z)) ltac:(lia) C) as [Hl|Hr];
    [intros i Hi; by apply E, sector_0 | by left | by right; left].
Qed.

(** Past the flush, only the first 512 bytes are in doubt. *)
Lemma after_flush_survives : survives k (version (length un) (length ops)) cut_state.
Proof.
  intros past y z Hp Hy Hz. pose proof (Forall_states _ _ _ _ Hp Hy Hz) as Hs.
  assert (forall x, x ∈ past ++ [y; z] -> later d x) as Hl by (intros x Hx; by apply (vs_later _ _ _ (Hs x Hx))).
  destruct (Hk d past y z Hl) as [_ Hw]. destruct (Hw 0) as (x & Hx & E).
  destruct (vs_after _ _ _ (Hs x Hx)) as (m & Hm & C).
  destruct (decide (m = length un)) as [->|Hn].
  { destruct (version_unfinished x (length un) (contents (k past y z)) ltac:(lia) C) as [Hl'|Hr];
      [intros i Hi; by apply E, sector_0 | by left | by right; left]. }
  assert (forall m' i, (length un < m')%nat -> last_written (take m' ops) i = last_written ops i) as Hfull.
  { intros m' i Hm'. unfold ops, format_ops. fold un. rewrite take_app_ge by lia.
    destruct (m' - length un)%nat as [|[|n]] eqn:En; [lia | |]; cbn [take].
    - by rewrite !last_written_app.
    - by rewrite take_nil. }
  right; right. eapply run_image; [exact W | exact Hsize | exact Hord | exact Hpo |]. fold ops. intros i.
  destruct (decide (0 <= i < 512)) as [Hi|Hi].
  { rewrite E by (by apply sector_0). rewrite C, Hfull by lia. reflexivity. }
  apply (wreck_same k d); [done | done |]. intros x' Hx'.
  destruct (vs_after _ _ _ (Hs x' Hx')) as (m' & Hm' & C'). rewrite C'. f_equal.
  destruct (decide (m' = length un)) as [->|Hn']; [|by apply Hfull; lia].
  rewrite take_un, take_ge by lia. symmetry. by apply last_write_same.
Qed.
End Versions.
End Sequence.

(** The requests before the flush, the flush, and the last two. *)
Section Flushless.
Variables (g : Geometry) (size : Z) (order : list Z) (logb : buf) (heads : Z -> buf) (chunk last : buf).

Definition flushless : list op :=
  prepare_ops g size logb ++ (ag_op g heads <$> order) ++ [chunk_op g chunk].

Lemma unfinished_split : unfinished_ops g size order logb heads chunk = flushless ++ [OpFlush].
Proof. unfold unfinished_ops, flushless. by rewrite <- !app_assoc. Qed.
Lemma format_split :
  format_ops g size order logb heads chunk last = flushless ++ OpFlush :: [OpWrite 0 last; OpFlush].
Proof. unfold format_ops. by rewrite unfinished_split, <- app_assoc. Qed.
Lemma flushless_no_flush : OpFlush ∉ flushless.
Proof.
  unfold flushless, prepare_ops. rewrite !elem_of_app, list_elem_of_fmap.
  intros [Hi|[(a & Ha & _)|Hi]]; [|done|];
    repeat (apply elem_of_cons in Hi as [Hi|Hi]; [done|]); by apply not_elem_of_nil in Hi.
Qed.
End Flushless.

(** * The requests of a run on a fused device *)

Section Run.
Context {D : Type} `{DeviceSpec D}.
Variables (e : Error) (k : list D -> D -> D -> D).

Lemma lockstep_run_op V Q o (d d1 : D) : run_op o d = (d1, Ok tt) -> V d ->
  (forall past, Forall V past -> Q (k past d d1)) -> lockstep e k V V Q (run_op o) (run_op o) d 1.
Proof.
  intros E Hd HQ. destruct o as [off len|off b|]; cbn [run_op] in *.
  - by apply (lockstep_burn e k V Q (fun d => write_zeroes d off len) d d1).
  - by apply (lockstep_burn e k V Q (fun d => write_at d off b) d d1).
  - by apply (lockstep_flush e k V V Q d d1).
Qed.

(** Requests in a row, each state on the way [V]. *)
Lemma lockstep_run_ops V Q ops (d d1 : D) : survives k V Q -> run_ops ops d = (d1, Ok tt) ->
  (forall m, (m <= length ops)%nat -> V (fst (run_ops (take m ops) d))) ->
  lockstep e k V V Q (run_ops ops) (run_ops ops) d (length ops).
Proof.
  intros Hs E HV. eapply lockstep_for; [|exact E | exact HV].
  intros o x x' Vx Vx' Eo. eapply lockstep_run_op; [exact Eo | done | auto].
Qed.

Lemma run_ops_shift (P : D -> Prop) o ops (d d1 : D) m : run_op o d = (d1, Ok tt) ->
  P (fst (run_ops (take (S m) (o :: ops)) d)) -> P (fst (run_ops (take m ops) d1)).
Proof. intros E. cbn [take]. unfold run_ops. cbn [io_for]. by rewrite (io_bind_step _ _ _ _ _ E). Qed.

(** With a flush among them: the states before it are [V1], after it [V2]. *)
Lemma lockstep_flushed V1 V2 Q l1 l2 (d d1 : D) : survives k V1 Q -> survives k V2 Q ->
  run_ops (l1 ++ OpFlush :: l2) d = (d1, Ok tt) ->
  (forall m, (m <= S (length l1))%nat -> V1 (fst (run_ops (take m (l1 ++ OpFlush :: l2)) d))) ->
  (forall m, (length l1 < m <= length (l1 ++ OpFlush :: l2))%nat ->
     V2 (fst (run_ops (take m (l1 ++ OpFlush :: l2)) d))) ->
  lockstep e k V1 V2 Q (run_ops (l1 ++ OpFlush :: l2)) (run_ops (l1 ++ OpFlush :: l2)) d
    (length (l1 ++ OpFlush :: l2)).
Proof.
  intros S1 S2. revert d. induction l1 as [|o l1 IH]; intros d E H1 H2; cbn [app length] in *;
    unfold run_ops in E; cbn [io_for] in E; rewrite io_bind_eq in E;
    destruct (run_op _ d) as [d2 [[]| | |]] eqn:Eo; try done.
  - apply (lockstep_bind e k V1 V2 V2 Q _ _ _ _ d d2 tt 1); [|exact Eo|].
    + apply (lockstep_flush e k V1 V2 Q d d2 Eo). intros past Hp. apply S1; [done | apply (H1 0%nat); lia |].
      apply (run_ops_shift V1 OpFlush l2 d d2 0 Eo), H1. lia.
    + apply (lockstep_run_ops V2 Q l2 d2 d1 S2 E). intros m Hm.
      apply (run_ops_shift V2 OpFlush l2 d d2 m Eo), H2. lia.
  - apply (lockstep_bind e k V1 V1 V2 Q _ _ _ _ d d2 tt 1); [|exact Eo|].
    + apply (lockstep_run_op V1 Q o d d2 Eo); [apply (H1 0%nat); lia|].
      intros past Hp. apply S1; [done | apply (H1 0%nat); lia |].
      apply (run_ops_shift V1 o (l1 ++ OpFlush :: l2) d d2 0 Eo), H1. lia.
    + apply (IH d2 E); intros m Hm; [apply (run_ops_shift V1 o (l1 ++ OpFlush :: l2) d d2 m Eo), H1; lia|].
      apply (run_ops_shift V2 o (l1 ++ OpFlush :: l2) d d2 m Eo), H2. lia.
Qed.

Lemma run_ops_take ops m (d : D) : valid d -> Forall (served d) ops ->
  later d (fst (run_ops (take m ops) d)) /\
  forall i, contents (fst (run_ops (take m ops) d)) i = default (contents d i) (last_written (take m ops) i).
Proof.
  intros V Hs. destruct (run_ops_later d _ V (Forall_take _ m _ Hs)) as (d' & -> & Lt & C). by split.
Qed.
End Run.

Section Format.
Context {D : Type} `{DeviceSpec D}.
Variables (env : Env) (params : Params) (d : D) (g : Geometry) (ps : list AgPlan).
Variables (logb : buf) (heads : Z -> buf) (chunk last : buf).
Hypothesis R : request env params d g.
Hypothesis Rn : running env params d g ps logb heads chunk last.
Variables (e : Error) (k : list D -> D -> D -> D).
Hypothesis Hk : wrecks k.

Let un := unfinished_ops g (dev_size d) (e_order env) logb heads chunk.
Let ops := format_ops g (dev_size d) (e_order env) logb heads chunk last.
Let ver := version g (dev_size d) (e_order env) logb heads chunk last d.
Let cut := cut_state g ps (run_uuid env params) (run_time env params) (run_gen env params) d.

Lemma requests : length ops = (Z.to_nat (agcount g) + 8)%nat.
Proof.
  pose proof (Permutation_length (rq_order _ _ _ _ R)) as Hp. rewrite length_seqZ in Hp.
  unfold ops, format_ops, unfinished_ops, prepare_ops. rewrite !length_app, length_fmap. cbn [length]. lia.
Qed.

Lemma fused_format past n :
  Format.format env params (mkFused d past n e k) =
    (run_ops ops;; mret (mkReport g (run_uuid env params) (rootino g) (planned_fdblocks ps)))
      (mkFused d past n e k).
Proof.
  etransitivity; [apply (format_runs env params (mkFused d past n e k) g ps (run_uuid env params)
    (run_time env params) (run_gen env params) logb heads chunk last) | reflexivity];
    try reflexivity; try apply Rn; [apply R|].
  intros a Ha. rewrite (rq_order _ _ _ _ R) in Ha. apply elem_of_seqZ in Ha. lia.
Qed.

(** The requests up to the flush, the flush, and the last two. *)
Lemma lockstep_format : exists V', lockstep e k (ver 0 (length un)) V' cut (run_ops ops) (run_ops ops) d (length ops).
Proof.
  pose proof (rn_served _ _ _ _ _ _ _ _ _ Rn _ (reflexivity _)) as Hs. fold ops in Hs.
  pose proof (rq_valid _ _ _ _ R) as V.
  pose proof (before_flush_survives g ps _ _ _ _ _ _ _ _ last (rn_wf _ _ _ _ _ _ _ _ _ Rn)
    (rn_size _ _ _ _ _ _ _ _ _ Rn) (rq_order _ _ _ _ R) (rn_pieces _ _ _ _ _ _ _ _ _ Rn)
    (rq_uuid _ _ _ _ R) d k Hk) as S1.
  pose proof (after_flush_survives g ps _ _ _ _ _ _ _ _ last (rn_wf _ _ _ _ _ _ _ _ _ Rn)
    (rn_size _ _ _ _ _ _ _ _ _ Rn) (rq_order _ _ _ _ R) (rn_pieces _ _ _ _ _ _ _ _ _ Rn)
    (rq_uuid _ _ _ _ R) d k Hk) as S2.
  set (pre := flushless g (dev_size d) (e_order env) logb heads chunk).
  assert (un = pre ++ [OpFlush]) as Eun by apply unfinished_split.
  assert (ops = pre ++ OpFlush :: [OpWrite 0 last; OpFlush]) as Eops by apply format_split.
  assert (length un = S (length pre)) as Lun by (rewrite Eun, length_app; cbn; lia).
  assert (forall m, (m <= length ops)%nat -> forall lo hi, (lo <= m <= hi)%nat ->
    ver lo hi (fst (run_ops (take m ops) d))) as Hv.
  { intros m Hm lo hi Hlh. destruct (run_ops_take ops m d V Hs) as [Lt C]. split; [done|]. by exists m. }
  destruct (run_ops_later d ops V Hs) as (d4 & E & _ & _).
  exists (ver (length un) (length ops)). fold un in S1, S2. fold ops in S2.
  assert (length ops = length (pre ++ OpFlush :: [OpWrite 0 last; OpFlush])) as Lops by (by rewrite <- Eops).
  rewrite Eops in E, Hv |- *.
  eapply lockstep_flushed; [exact S1 | rewrite <- Eops; exact S2 | exact E | |]; intros m Hm; apply Hv; rewrite length_app in *; cbn [length] in *; lia.
Qed.
End Format.

(** * A device that loses nothing, and one that loses its first chunk *)

(** The states requests leave behind. *)
Fixpoint states {D} `{BlockDevice D} (ops : list op) (d : D) : list D :=
  match ops with [] => [] | o :: ops => d :: states ops (fst (run_op o d)) end.

Lemma fused_run_ops {D} `{BlockDevice D} ops (d d1 : D) e k past j : OpFlush ∉ ops ->
  run_ops ops d = (d1, Ok tt) ->
  run_ops ops (mkFused d past (length ops + j) e k) = (mkFused d1 (past ++ states ops d) j e k, Ok tt).
Proof.
  revert d past. induction ops as [|o ops IH]; intros d past Hf E.
  { injection E as <-. cbn. by rewrite app_nil_r. }
  apply not_elem_of_cons in Hf as [Ho Hf]. unfold run_ops in E. cbn [io_for] in E. rewrite io_bind_eq in E.
  destruct (run_op o d) as [d2 [[]| | |]] eqn:Eo; try done.
  assert (run_op o (mkFused d past (S (length ops + j)) e k) =
    (mkFused d2 (past ++ [d]) (length ops + j) e k, Ok tt)) as Ef.
  { destruct o; [| |done]; cbn in *; unfold io_zeroes, io_write in *; cbn; unfold burn; cbn; by rewrite Eo. }
  unfold run_ops. cbn [io_for length Nat.add states]. rewrite (io_bind_step _ _ _ _ _ Ef), Eo. cbn [fst].
  change (io_for run_op ops) with (run_ops (D := Fused D) ops). rewrite (IH d2 (past ++ [d]) Hf E). by rewrite <- app_assoc.
Qed.

Lemma in_order_run_ops {D} `{BlockDevice D} ops (d d1 : D) e past n : run_ops ops d = (d1, Ok tt) ->
  (n < length ops)%nat ->
  run_ops ops (mkFused d past n e in_order) = (mkFused (fst (run_ops (take n ops) d)) [] 0 e in_order, Err e).
Proof.
  unfold run_ops. revert d past n. induction ops as [|o ops IH]; intros d past n E Hn; [cbn in Hn; lia|].
  cbn [io_for] in E. rewrite io_bind_eq in E. destruct (run_op o d) as [d2 [[]| | |]] eqn:Eo; try done.
  assert (exists past', run_op o (mkFused d past n e in_order) =
    match n with O => (mkFused d [] 0 e in_order, Err e) | S n => (mkFused d2 past' n e in_order, Ok tt) end)
    as [past' Ef].
  { destruct o, n; cbn in *; unfold io_zeroes, io_write, io_flush in *; cbn; unfold burn; cbn;
      rewrite Eo; by eexists. }
  cbn [io_for]. rewrite io_bind_eq, Ef. destruct n as [|n]; [done|]. cbn [length] in Hn.
  rewrite (IH d2 past' n E) by lia. cbn [take io_for]. by rewrite (io_bind_step _ _ _ _ _ Eo).
Qed.

(** * Properties *)

Section Properties.
Context {D : Type} `{DeviceSpec D}.

(** C13: a [format] that is cut short is recognisably unfinished, on a device
    that may lose the writes since the last flush or tear them between
    sectors.  Whichever of its requests fails, eight and one for every AG,
    the run returns the device's error, and the device then begins as it did
    before, or with a sector that does not look finished, or is the finished
    filesystem, byte for byte; with all of them served, the run succeeds and
    it is. *)
Theorem failed_format_is_whole_or_unfinished env params (d : D) g n e k :
  request env params d g -> wrecks k ->
  exists ps, plans g = Ok ps /\
    let '(f, r) := Format.format env params (mkFused d [] n e k) in
    let finished := image g (run_uuid env params) (run_time env params) (run_gen env params)
      (planned_fdblocks ps) (contents (fu_dev f)) in
    if (n <? Z.to_nat (agcount g) + 8)%nat
    then r = Err e /\
      ((forall i, 0 <= i < 512 -> contents (fu_dev f) i = contents d i) \/
       ~ looks_finished (bytes_of (contents (fu_dev f)) 0 (sectsize g)) \/ finished)
    else r = Ok (mkReport g (run_uuid env params) (rootino g) (planned_fdblocks ps)) /\ finished.
Proof.
  intros R Hk. destruct (request_running env params d g R) as (ps & logb & heads & chunk & last & Rn).
  exists ps. split; [apply Rn|].
  destruct (lockstep_format env params d g ps logb heads chunk last R Rn e k Hk) as (V' & Ls).
  rewrite (fused_format env params d g ps logb heads chunk last R Rn e k).
  rewrite <- (requests env params d g logb heads chunk last R).
  pose proof (rn_served _ _ _ _ _ _ _ _ _ Rn _ (reflexivity _)) as Hs.
  destruct (run_ops_later d _ (rq_valid _ _ _ _ R) Hs) as (d' & E & _ & C).
  set (ops := format_ops g (dev_size d) (e_order env) logb heads chunk last) in *.
  destruct (Nat.ltb_spec n (length ops)) as [Hn|Hn].
  - destruct (ls_cut _ _ _ _ _ _ _ _ _ Ls [] n ltac:(by constructor) Hn) as (d1 & E1 & Hc).
    rewrite io_bind_eq, E1. by split.
  - destruct (ls_whole _ _ _ _ _ _ _ _ _ Ls [] (n - length ops)%nat ltac:(by constructor)) as (past & _ & E1).
    replace (length ops + (n - length ops))%nat with n in E1 by lia.
    rewrite io_bind_eq, E1, E. split; [done|].
    eapply run_image; [apply Rn | apply Rn | apply (rq_order _ _ _ _ R) | apply Rn | exact C].
Qed.

(** On a device that loses nothing, with fewer requests served than a run
    makes, the device is as it was before the first, and short of the last
    two does not look formatted. *)
Theorem failed_format_is_reported env params (d : D) g n e : request env params d g ->
  let '(f, r) := Format.format env params (mkFused d [] n e in_order) in
  let first := bytes_of (contents (fu_dev f)) 0 (sectsize g) in
  let requests := (Z.to_nat (agcount g) + 8)%nat in
  (n < requests)%nat -> r = Err e /\ (n = 0%nat -> fu_dev f = d) /\
    ((0 < n)%nat -> (n + 1 < requests)%nat -> ~ looks_finished first).
Proof.
  intros R. destruct (request_running env params d g R) as (ps & logb & heads & chunk & last & Rn).
  rewrite (fused_format env params d g ps logb heads chunk last R Rn e in_order).
  rewrite <- (requests env params d g logb heads chunk last R).
  pose proof (rn_served _ _ _ _ _ _ _ _ _ Rn _ (reflexivity _)) as Hs. pose proof (rq_valid _ _ _ _ R) as V.
  destruct (run_ops_later d _ V Hs) as (d' & E & _ & C). rewrite io_bind_eq.
  set (ops := format_ops g (dev_size d) (e_order env) logb heads chunk last) in *.
  destruct (run_ops ops (mkFused d [] n e in_order)) as [f r] eqn:Ef. cbv zeta.
  destruct (Nat.lt_ge_cases n (length ops)) as [Hn|Hn]; [|match goal with |- let '(_, _) := ?x in _ => destruct x end; lia].
  rewrite (in_order_run_ops ops d d' e [] n E Hn) in Ef. injection Ef as <- <-. intros _.
  split; [done|]. cbn [fu_dev]. split; [by intros ->|]. intros Hn0 Hn1.
  destruct (run_ops_take ops n d V Hs) as [_ Ck].
  assert (take n ops = take n (unfinished_ops g (dev_size d) (e_order env) logb heads chunk)) as Et
    by (apply take_un; unfold ops in Hn1; rewrite ops_length in Hn1; lia).
  rewrite Et in Ck |- *.
  eapply prefix_looks_unfinished;
    [apply Rn | apply Rn | apply (rq_order _ _ _ _ R) | apply Rn | apply R | exact Hn0 | exact Ck].
Qed.
End Properties.

(** * A flush that comes too late *)

Lemma ag_start_far g a : wf g -> 1 <= a < agcount g -> 2 ^ 24 <= agb_to_byte g a 0.
Proof.
  intros W Ha. destruct (head_byte g W a ltac:(lia)) as (-> & _).
  pose proof (wf_agsize g W) as [Hag _]. pose proof (wf_blocklog g W).
  assert (2 ^ 24 <= agsize g * bs g); [|nia].
  replace 24 with (24 - blocklog g + blocklog g) by lia. rewrite Z.pow_add_r by lia.
  unfold bs. rewrite (wf_blocksize g W). apply Z.mul_le_mono_nonneg_r; [apply Z.pow_nonneg; lia | done].
Qed.

(** The zeroes over the old signatures are not flushed before the new
    filesystem is written: when the device fails at the flush that follows,
    a cache that loses its first 64 KiB keeps the old superblock in front of
    the new allocation groups. *)
Theorem lost_cache_keeps_the_old_superblock env params (d : MemDevice) g e : request env params d g ->
  exists ps n f, plans g = Ok ps /\
    Format.format env params (mkFused d [] n e lost_chunk) = (f, Err e) /\
    (forall i, 0 <= i < Device.CHUNK -> contents (fu_dev f) i = contents d i) /\
    forall a, 1 <= a < agcount g -> exists p b, plan_ag g a = Ok p /\
      head_spec g p (run_uuid env params) (final_sbs g (run_uuid env params) (planned_fdblocks ps) a) b /\
      bytes_of (contents (fu_dev f)) (agb_to_byte g a 0) (prealloc_blocks g * bs g) = b.
Proof.
  intros R. destruct (request_running env params d g R) as (ps & logb & heads & chunk & last & Rn).
  pose proof (rn_served _ _ _ _ _ _ _ _ _ Rn _ (reflexivity _)) as Hs. pose proof (rq_valid _ _ _ _ R) as V.
  pose proof (rn_wf _ _ _ _ _ _ _ _ _ Rn) as W.
  set (pre := flushless g (dev_size d) (e_order env) logb heads chunk).
  set (ops := format_ops g (dev_size d) (e_order env) logb heads chunk last).
  assert (ops = pre ++ OpFlush :: [OpWrite 0 last; OpFlush]) as Eops by apply format_split.
  destruct (run_ops_later d ops V Hs) as (d4 & E4 & _ & C4).
  destruct (run_ops_take ops (length pre) d V Hs) as [L1 C1].
  assert (take (length pre) ops = pre) as Et by (by rewrite Eops, take_app_length). rewrite Et in *.
  destruct (run_ops_later d pre V) as (d1 & E1 & _); [rewrite <- Et; by apply Forall_take|].
  rewrite E1 in L1, C1. cbn [fst] in L1, C1.
  pose proof (fused_run_ops pre d d1 e lost_chunk [] 0 (flushless_no_flush _ _ _ _ _ _) E1) as X. rewrite Nat.add_0_r in X.
  set (past := [] ++ states pre d) in X.
  assert (hd d1 past = d) as Hpast by reflexivity.
  exists ps, (length pre), (mkFused (lost_chunk past d1 d1) [] 0 e lost_chunk). split; [apply Rn|].
  split.
  { rewrite (fused_format env params d g ps logb heads chunk last R Rn). fold ops. rewrite io_bind_eq, Eops.
    unfold run_ops in *. rewrite io_for_app, (io_bind_step _ _ _ _ _ X). reflexivity. }
  cbn [fu_dev]. split.
  { intros i Hi. rewrite lost_chunk_contents, Hpast. destruct (decide _) as [|Hn]; [done|].
    exfalso. apply Hn. by apply Z.div_small. }
  assert (forall i, Device.CHUNK <= i -> contents (lost_chunk past d1 d1) i = contents d4 i) as Hrest.
  { intros i Hi. rewrite lost_chunk_contents. destruct (decide _) as [Hz|_].
    { pose proof (Z.div_le_lower_bound i Device.CHUNK 1 ltac:(done) ltac:(lia)). lia. }
    rewrite C1, C4. f_equal.
    pose proof (last_write_same g ps _ _ _ _ _ _ _ _ last W (rn_size _ _ _ _ _ _ _ _ _ Rn)
      (rq_order _ _ _ _ R) (rn_pieces _ _ _ _ _ _ _ _ _ Rn) (rq_uuid _ _ _ _ R) i) as Hl.
    fold ops in Hl. rewrite Hl by (assert (512 < Device.CHUNK) by done; lia).
    rewrite unfinished_split, last_written_app. reflexivity. }
  pose proof (run_image g ps _ _ _ _ _ _ _ _ _ _ _ W (rn_size _ _ _ _ _ _ _ _ _ Rn)
    (rq_order _ _ _ _ R) (rn_pieces _ _ _ _ _ _ _ _ _ Rn) C4) as I.
  intros a Ha. destruct (im_heads _ _ _ _ _ _ I a ltac:(lia)) as (p & b & Hp & Hh & Hb).
  exists p, b. split_and!; [done..|]. rewrite <- Hb. apply bytes_of_ext. intros i Hi. apply Hrest.
  pose proof (ag_start_far g a W ltac:(lia)). change Device.CHUNK with 65536. lia.
Qed.

(** * Witness *)

(** The flush before the last write fails, and the cache loses a chunk. *)
Lemma failed_format_is_whole_or_unfinished_witness : exists ps f,
  Format.format env0 Params_new (mkFused dev0 [] 9 fault0 lost_chunk) = (f, Err fault0) /\
  ((forall i, 0 <= i < 512 -> contents (fu_dev f) i = contents dev0 i) \/
   ~ looks_finished (bytes_of (contents (fu_dev f)) 0 512) \/
   image geo512m (run_uuid env0 Params_new) (run_time env0 Params_new) (run_gen env0 Params_new)
     (planned_fdblocks ps) (contents (fu_dev f))).
Proof.
  destruct (failed_format_is_whole_or_unfinished env0 Params_new dev0 geo512m 9 fault0 lost_chunk request0
    lost_chunk_wrecks) as (ps & _ & R).
  destruct (Format.format env0 Params_new (mkFused dev0 [] 9 fault0 lost_chunk)) as [f r]. exists ps, f.
  change (9 <? Z.to_nat (agcount geo512m) + 8)%nat with true in R. destruct R as (-> & R).
  split; [reflexivity | exact R].
Defined.
