(* ===== verification/Failure.v ===== *)
(** The administrator on a device that fails.

    What [set_uuid] and [set_label] leave when a request fails on a [Fused]
    device, whatever wreck it makes of the writes since the last flush, and
    that running them again finishes the job where the log was rewritten;
    [restore_uuid] is the exception.

    Before the flush between them the log alone has been written
    ([only_log]); after it, every superblock is as it was or as the operation
    rewrites it ([rewriting]): a superblock's fields are in one sector, so no
    wreck breaks one. *)

From Stdlib Require Import ZArith Lia String.
From stdpp Require Import base tactics list numbers.
From coqutil Require Import Byte Word.LittleEndianList.
From S2P Require Import Prelude Bytes Geometry GeometryFacts Structs Superblock LogRecord Device Plan.
From S2P Require Import PlanFacts Io Format FormatFacts Inspect Admin LogFacts ClearFacts SbFacts.
From S2P Require Import AdminFacts InspectFacts Fuse.

(** * The log rewritten on a device that fails *)

Section Writer.
Context {D : Type} `{DeviceSpec D}.
Variables (e : Error) (k : list D -> D -> D -> D).
Hypothesis Hk : wrecks k.
Variables (d0 : D) (start N bsz : Z).
Hypothesis Rm : room d0 start N bsz.

(** Only the log was written. *)
Definition only_log (d : D) : Prop :=
  later d0 d /\ forall i, i < start \/ start + N <= i -> contents d i = contents d0 i.

Lemma only_log_survives : survives k only_log only_log.
Proof using Hk.
  intros past d d1 Hp Hd H1. pose proof (Forall_states _ _ _ _ Hp Hd H1) as Hs. split.
  - apply (Hk d0). intros x Hx. by apply Hs.
  - intros i Hi. apply (wreck_same k d0); [done | intros x Hx; by apply Hs |].
    intros x Hx. by apply Hs.
Qed.

Local Notation "'going' m m' d" := (locked e k only_log only_log only_log m m' d)
  (at level 10, m at level 9, m' at level 9, d at level 9).

Lemma stream_only_log d w s : stream d0 start N d w s -> only_log d.
Proof using Rm.
  intros S. destruct (stream_bounds _ _ _ _ Rm _ _ _ S) as (B1 & B2 & B3 & _).
  split; [apply S|]. intros i Hi. rewrite (st_contents _ _ _ _ _ _ S). apply overlay_out.
  rewrite length_take. lia.
Qed.

Lemma going_write off b d d1 w s : stream d0 start N d w s -> io_write off b d = (d1, Ok tt) ->
  only_log d1 -> going (io_write off b) (io_write off b) d.
Proof using Hk Rm.
  intros S E O1. eapply locked_write; [apply only_log_survives | exact E | | done].
  by eapply stream_only_log.
Qed.

Lemma going_push_loop fuel d w s : stream d0 start N d w s -> (length (w_buf w) < fuel)%nat ->
  going (push_loop start fuel w) (push_loop start fuel w) d.
Proof using Hk Rm.
  assert (0 < CHUNK) as HC by done.
  revert d w. induction fuel as [|fuel IH]; intros d w S Hf; [lia|].
  cbn [push_loop]. destruct (Z.leb_spec CHUNK (Z.of_nat (length (w_buf w)))) as [Hl|Hl]; [|apply locked_ret].
  destruct (push_step _ _ _ _ Rm d w s S Hl) as (d1 & E & S1).
  eapply locked_bind; [eapply going_write; [exact S | exact E | by eapply stream_only_log] | exact E |].
  apply IH; [exact S1|]. cbn [after_chunk w_buf]. rewrite length_drop. lia.
Qed.

Lemma going_push d w s data : stream d0 start N d w s -> Z.of_nat (length (s ++ data)) <= N ->
  going (push start w data) (push start w data) d.
Proof using Hk Rm.
  intros S Hn. apply (going_push_loop _ _ (mkWriter (w_at w) (w_buf w ++ data)) (s ++ data)).
  - by apply (stream_more d0 start N).
  - cbn [w_buf]. lia.
Qed.

Lemma going_zeroes_loop fuel end_ d w s : stream d0 start N d w s -> end_ <= N ->
  going (zeroes_loop start fuel end_ w) (zeroes_loop start fuel end_ w) d.
Proof using Hk Rm.
  revert d w s. induction fuel as [|fuel IH]; intros d w s S He; [apply locked_lift|].
  cbn [zeroes_loop]. rewrite (stream_end _ _ _ _ Rm _ _ _ S).
  destruct (stream_bounds _ _ _ _ Rm _ _ _ S) as (B1 & B2 & B3 & _).
  pose proof (st_length _ _ _ _ _ _ S) as L.
  destruct (Z.ltb_spec (Z.of_nat (length s)) end_) as [Hlt|Hge]; [|apply locked_ret].
  rewrite (u64_id (end_ - w_at w)), u64_id by lia. set (n := Z.min _ CHUNK).
  assert (Z.of_nat (length (s ++ zeroes (Z.to_nat n))) <= N) as Hn.
  { rewrite length_app, length_zeroes. unfold n. assert (0 < CHUNK) by done. lia. }
  destruct (push_ok _ _ _ _ Rm d w s _ S Hn) as (d1 & w1 & E1 & S1).
  eapply locked_bind; [by eapply going_push | exact E1 |]. by eapply IH.
Qed.

Lemma going_finish d w s : stream d0 start N d w s -> Z.of_nat (length s) mod bsz = 0 ->
  going (finish start w) (finish start w) d.
Proof using Hk Rm.
  intros S Hm. destruct (stream_bounds _ _ _ _ Rm _ _ _ S) as (B1 & B2 & B3 & _).
  destruct (finish_ok _ _ _ _ Rm d w s S Hm) as (d1 & E & L1 & C1). revert E. unfold finish.
  destruct (w_buf w) as [|x b]; [intros _; apply locked_ret|]. intros E.
  eapply going_write; [exact S | exact E |]. split; [done|]. intros i Hi. rewrite C1.
  apply overlay_out. pose proof (st_fits _ _ _ _ _ _ S). lia.
Qed.
End Writer.

(** Seen from any of them. *)
Lemma only_log_base {D} `{DeviceSpec D} (d0 d1 : D) start N : only_log d0 start N d0 ->
  only_log d0 start N d1 -> forall d, only_log d1 start N d <-> only_log d0 start N d.
Proof.
  intros [[V0 _ _ _] _] [[V1 S1 L1 A1] C1] d. split; intros [[V S L A] C]; (split; [split|]);
    rewrite ?S, ?L, ?S1, ?L1; try done.
  all: try (intros; by rewrite A, A1). all: intros i Hi; by rewrite C, C1.
Qed.

Section Clear.
Context {D : Type} `{DeviceSpec D}.
Variables (e : Error) (k : list D -> D -> D -> D).
Hypothesis Hk : wrecks k.
Variables (d0 : D) (start bbs bsz : Z) (uuid : buf).
Hypothesis Rm : room d0 start (bbs * 512) bsz.
Hypothesis Hu : length uuid = 16%nat.

Local Notation "'going' base m m' d" :=
  (locked e k (only_log base start (bbs * 512)) (only_log base start (bbs * 512))
     (only_log base start (bbs * 512)) m m' d)
  (at level 10, base at level 9, m at level 9, m' at level 9, d at level 9).

Lemma going_fill_loop fuel c d w s blk n :
  stream d0 start (bbs * 512) d w s -> filling bbs blk n s ->
  going d0 (fill_loop uuid fuel start bbs c blk n w) (fill_loop uuid fuel start bbs c blk n w) d.
Proof using Hk Hu Rm.
  revert d w s blk n. induction fuel as [|fuel IH]; intros d w s blk n S Fl; [apply locked_lift|].
  cbn [fill_loop]. destruct (Z.ltb_spec blk bbs) as [Hlt|Hge]; [|apply locked_ret].
  destruct (fill_round d0 start bsz uuid bbs c Rm Hu d w s blk n S Fl Hlt)
    as (U1 & U2 & U3 & Hn & r & d1 & w1 & E & W & Lr & Ls & E1 & S1 & Fl1).
  rewrite U1, E. eapply locked_bind; [apply locked_lift | reflexivity |].
  cbv beta. rewrite Lr, Z.eqb_refl. cbn [negb].
  eapply locked_bind; [by eapply going_push | exact E1 |]. cbv zeta. rewrite U2, U3. by eapply IH.
Qed.

Variable (g : Geo).
Hypothesis He : log_extent g = (start, bbs).
Hypothesis Hbsz : bsz mod 1024 = 0.
Hypothesis Hbbs : TOTAL_REC_BBS <= bbs.
Hypothesis Hsunit : 0 <= geo_logsunit g < 2 ^ 32 - 1024.
Hypothesis Hlen : first_len (geo_logsunit g) <= BDSTRAT_SIZE / 512.

Hypothesis Eb : geo_blocksize g = bsz.

Lemma locked_clear_log cycle : 1 <= cycle < HEADER_MAGIC -> 
  going d0 (clear_log g uuid cycle) (clear_log g uuid cycle) d0.
Proof using He Eb Hbbs Hbsz Hk Hu Hsunit Hlen Rm.
  intros Hc. unfold HEADER_MAGIC in Hc.
  destruct (clear_bounds d0 g uuid start bbs bsz Rm Hbsz Hbbs Hu Hsunit Hlen) as (B1 & B2 & B3 & B4 & B5 & B6).
  unfold clear_log. rewrite He. cbv zeta. rewrite B6. set (len := len_bb (geo_logsunit g)) in *.
  set (t := if cycle =? INIT_CYCLE then _ else _).
  assert (0 <= t < 2 ^ 64) as Ht.
  { unfold t. destruct (cycle =? INIT_CYCLE); apply lsn_range; [lia | apply u32_range]. }
  destruct (record_ok uuid (geo_logsunit g) (lsn cycle 0) t) as (first & E & W & L);
    [lia | done | apply lsn_range; lia | done |].
  rewrite E. eapply locked_bind; [apply locked_lift | reflexivity |]. cbv beta.
  fold len in L. rewrite L, (u64_id (len * 512)), Z.eqb_refl by lia. cbn [negb].
  assert (only_log d0 start (bbs * 512) d0) as O0 by (split; [by apply later_refl, (rm_valid _ _ _ _ Rm) | done]).
  destruct (cycle =? INIT_CYCLE).
  - rewrite u64_id by lia.
    destruct (log_zeroed d0 g uuid start bbs bsz Rm Hbsz Hbbs Hu Hsunit Hlen) as (d1 & E1 & L1 & Rm1 & C1).
    assert (only_log d0 start (bbs * 512) d1) as O1.
    { split; [done|]. intros i Hi. rewrite C1. unfold zeroed.
      destruct (Z.leb_spec start i), (Z.ltb_spec i (start + bbs * 512)); done || lia. }
    pose proof (stream_start _ _ _ _ Rm1) as S1. pose proof (only_log_base _ _ _ _ O0 O1) as B.
    eapply locked_bind; [by eapply locked_zeroes; [apply only_log_survives | exact E1 | |] | exact E1 |].
    destruct (push_ok _ _ _ _ Rm1 d1 (mkWriter 0 []) [] first S1 ltac:(cbn; lia)) as (d2 & w2 & E2 & S2).
    destruct (pad_stream _ _ _ _ Rm1 _ _ _ S2) as (n & S3 & M).
    apply (locked_weaken e k (only_log d1 start (bbs * 512)) (only_log d1 start (bbs * 512))
      (only_log d0 start (bbs * 512)) (only_log d0 start (bbs * 512)) (only_log d1 start (bbs * 512))
      (only_log d0 start (bbs * 512))); [apply B..|].
    eapply locked_bind; [by eapply going_push; [exact Hk | exact Rm1 | exact S1 | cbn; lia] | exact E2 |].
    rewrite Eb. by eapply going_finish.
  - change (BDSTRAT_SIZE / 512) with 512.
    replace (Z.min (saturating_sub bbs 512) 512) with 512 by (unfold saturating_sub; lia).
    rewrite (Z.min_l 512 bbs), u64_id by lia.
    pose proof (stream_start _ _ _ _ Rm) as S1.
    destruct (push_ok _ _ _ _ Rm d0 (mkWriter 0 []) [] first S1 ltac:(cbn; lia)) as (d1 & w1 & E1 & S2).
    eapply locked_bind; [by eapply going_push; [exact Hk | exact Rm | exact S1 | cbn; lia] | exact E1 |].
    destruct (zeroes_to_ok _ _ _ _ Rm (512 * 512) d1 w1 first S2 ltac:(lia)) as (d2 & w2 & E2 & S3).
    eapply locked_bind; [by eapply going_zeroes_loop; [exact Hk | exact Rm | exact S2 | lia] | exact E2 |].
    assert (filling bbs 512 512 (first ++ zeroes (Z.to_nat (512 * 512 - Z.of_nat (length first))))) as Fl.
    { split; [rewrite length_app, length_zeroes; lia | lia | | lia | lia].
      split; [by apply sub_mod_0 | done]. }
    destruct (fill_loop_ok d0 start bsz uuid bbs (u32 (cycle - 1)) Rm Hu (S (Z.to_nat bbs)) d2 w2 _ 512 512 S3 Fl ltac:(lia))
      as (d3 & w3 & body & E3 & S4 & _ & Lb).
    eapply locked_bind; [by eapply going_fill_loop | exact E3 |]. eapply going_finish; [done..|].
    rewrite length_app, Nat2Z.inj_add, Lb, (fl_length _ _ _ _ Fl).
    replace (512 * 512 + (bbs - 512) * 512) with (bbs * 512) by lia. apply (rm_N _ _ _ _ Rm).
Qed.
End Clear.

(** * Superblocks rewritten on a device that fails *)

(** A byte past the fields of a superblock is not in its first sector alone. *)
Lemma kept_tail b b' i : kept ADMIN_FIELDS b b' -> (264 <= i)%nat -> b' !! i = b !! i.
Proof.
  intros [L K] Hi. destruct (Nat.lt_ge_cases i (length b)) as [Hl|Hl]; [|by rewrite !lookup_ge_None_2 by lia].
  assert (forallb (clear_field i 1) ADMIN_FIELDS = true) as Hc.
  { apply forallb_forall. intros x Hx. unfold clear_field. apply orb_true_iff. right.
    apply Nat.leb_le. etransitivity; [|exact Hi].
    assert (forallb (fun x => fst x + snd x <=? 264)%nat ADMIN_FIELDS = true) as Hf by reflexivity.
    rewrite forallb_forall in Hf. by apply Nat.leb_le, Hf. }
  specialize (K i 1%nat Hc). rewrite !slice_in in K by lia. injection K as K.
  replace (i + 1 - i)%nat with 1%nat in K by lia.
  pose proof (f_equal (fun l => l !! 0%nat) K) as K0. cbn beta in K0.
  by rewrite !lookup_take_lt, !lookup_drop, !Nat.add_0_r in K0 by lia.
Qed.

Section Rewriting.
Context {D : Type} `{DeviceSpec D}.
Variables (e : Error) (k : list D -> D -> D -> D).
Hypothesis Hk : wrecks k.
Variables (d : D) (g : Geo) (start bbs : Z) (uuids : Z -> buf) (meta : buf) (fnames : Z -> buf) (s : LogState).
Variable (f : buf -> result buf).
Hypothesis F : fs_mixed d g start bbs uuids meta fnames s.

(** Each superblock is as it was or rewritten. *)
Record rewriting (d' : D) : Prop := {
  rw_later : later d d';
  rw_sbs a : 0 <= a < geo_agcount g ->
    sb_at d' g a = sb_at d g a \/ update_block g f (sb_at d g a) = Ok (sb_at d' g a);
  rw_rest i : off_sbs g i -> contents d' i = contents d i;
}.

Lemma rewriting_same d1 d2 : rewriting d1 -> later d1 d2 ->
  (forall i, contents d2 i = contents d1 i) -> rewriting d2.
Proof.
  intros [Lt Hsb O] L2 O2. split; [by eapply later_trans | | intros i Hi; by rewrite O2, O].
  intros a Ha. assert (sb_at d2 g a = sb_at d1 g a) as -> by (by apply bytes_of_ext; intros; apply O2).
  by apply Hsb.
Qed.

Hypothesis Hf : forall a, 0 <= a < geo_agcount g -> exists b',
  update_block g f (sb_at d g a) = Ok b' /\ kept ADMIN_FIELDS (sb_at d g a) b'.

Lemma rewriting_tail d' a i : rewriting d' -> 0 <= a < geo_agcount g ->
  a * geo_agblocks g * geo_blocksize g + 264 <= i < a * geo_agblocks g * geo_blocksize g + geo_blocksize g ->
  contents d' i = contents d i.
Proof using F Hf.
  intros R Ha. set (o := a * geo_agblocks g * geo_blocksize g). intros Hi.
  assert (sb_at d' g a !! Z.to_nat (i - o) = sb_at d g a !! Z.to_nat (i - o)) as E.
  { destruct (rw_sbs _ R a Ha) as [->|E]; [done|]. destruct (Hf a Ha) as (b' & E' & K).
    rewrite E in E'. injection E' as ->. apply kept_tail; [done | lia]. }
  unfold sb_at in E. fold o in E. rewrite !lookup_bytes_of in E by lia. injection E as E.
  by replace (o + Z.of_nat (Z.to_nat (i - o))) with i in E by lia.
Qed.

(** The fields of a superblock are in its block's first sector. *)
Lemma rewriting_survives : survives k rewriting rewriting.
Proof using F Hf Hk.
  intros past d0 d1 Hp V0 V1. pose proof (Forall_states _ _ _ _ Hp V0 V1) as Hs.
  assert (forall x, x ∈ past ++ [d0; d1] -> later d x) as Hl by (intros x Hx; by apply Hs).
  destruct (Hk d past d0 d1 Hl) as [Lw Hw]. split; [done | | ].
  - intros a Ha. set (o := a * geo_agblocks g * geo_blocksize g).
    destruct (sb_range (fx_layout _ _ _ _ _ _ _ _ F) a Ha) as (_ & O1 & O2 & _). fold o in O1, O2.
    destruct (ly_block _ _ _ _ (fx_layout _ _ _ _ _ _ _ _ F)) as (B1 & B2 & _).
    assert (o mod 512 = 0) as Ho.
    { apply (mod_trans o (geo_blocksize g)); try lia. apply (mod_trans _ 1024); done || lia. }
    destruct (Hw (sector o)) as (x & Hx & Ex).
    assert (sb_at (k past d0 d1) g a = sb_at x g a) as ->; [|by apply (rw_sbs x (Hs x Hx))].
    apply bytes_of_ext. intros i Hi. fold o in Hi. destruct (Z.lt_ge_cases i (o + 512)) as [Hlt|Hge].
    + apply Ex. unfold sector. apply Z.mod_divide in Ho as [q ->]; [|done].
      rewrite Z.div_mul by done. symmetry. apply (Z.div_unique _ _ _ (i - q * 512)); lia.
    + rewrite (rewriting_tail x a i (Hs x Hx) Ha) by (fold o; lia).
      eapply wreck_same; [done | done |]. intros y Hy. apply (rewriting_tail y a i (Hs y Hy) Ha). fold o. lia.
  - intros i Hi. eapply wreck_same; [done | done |]. intros y Hy. by apply (rw_rest y (Hs y Hy)).
Qed.

Lemma take_seqZ n c : 0 <= c -> (n <= Z.to_nat c)%nat -> take n (seqZ 0 c) = seqZ 0 (Z.of_nat n).
Proof.
  intros Hc Hn. replace c with (Z.of_nat n + (c - Z.of_nat n)) by lia.
  rewrite seqZ_app, take_app_length' by (rewrite ?length_seqZ; lia). done.
Qed.

Lemma rewriting_upto n : (n <= Z.to_nat (geo_agcount g))%nat -> exists d',
  io_for (update_sb g f) (take n (seqZ 0 (geo_agcount g))) d = (d', Ok tt) /\ rewriting d'.
Proof using F Hf.
  intros Hn. destruct F as [L _ Hsb _]. destruct (ly_ags _ _ _ _ L) as (A1 & _). rewrite take_seqZ by lia.
  destruct (rewrite_upto d g start bbs uuids meta fnames f (fun a b' => update_block g f (sb_at d g a) = Ok b')
    (Z.of_nat n) L ltac:(lia) Hsb) as (d' & E & Lt & N & O & C).
  { intros a Ha. destruct (Hf a Ha) as (b' & E & K). exists b'. split_and!; try done. apply K. }
  exists d'. split; [done|]. split; [done | | done]. intros a Ha.
  destruct (Z.lt_ge_cases a (Z.of_nat n)); [right; apply N | left; apply O]; lia.
Qed.

Lemma lockstep_update_sbs : exists d', update_sbs g f d = (d', Ok tt) /\ rewriting d' /\
  locked e k rewriting rewriting rewriting (update_sbs g f) (update_sbs g f) d.
Proof using F Hf Hk.
  destruct (rewriting_upto (Z.to_nat (geo_agcount g)) ltac:(lia)) as (d' & E & R).
  rewrite take_ge in E by (rewrite length_seqZ; lia). exists d'. split_and!; [done..|].
  eexists. unfold update_sbs. eapply lockstep_for; [|exact E|].
  - intros a d1 d2 V1 V2 Ea. eapply lockstep_update_sb; [exact Ea | done |].
    intros past Hp. by apply rewriting_survives.
  - intros n Hn. rewrite length_seqZ in Hn. destruct (rewriting_upto n Hn) as (d1 & -> & R1). done.
Qed.
End Rewriting.

Lemma sb_ok_any_incompat g inc b uuid meta fname :
  sb_ok (with_incompat g inc) b uuid meta fname -> sb_ok g b uuid meta fname.
Proof. by intros []; split. Qed.

Section Operations.
Context {D : Type} `{DeviceSpec D}.
Context {d : D} {g : Geo} {start bbs : Z} {uuids : Z -> buf} {meta : buf} {fnames : Z -> buf} {s : LogState}.
Hypothesis F : fs_mixed d g start bbs uuids meta fnames s.

Lemma uuid_rewrites u : length u = 16%nat -> forall a, 0 <= a < geo_agcount g -> exists b',
  update_block g (do_uuid meta u) (sb_at d g a) = Ok b' /\ sb_ok g b' u meta (fnames a) /\
  kept ADMIN_FIELDS (sb_at d g a) b'.
Proof.
  intros Hu a Ha. destruct F as [L _ Hsb _].
  destruct (update_uuid g _ _ meta _ (layout_sector _ _ _ _ L) (Hsb a Ha) u Hu)
    as (b' & E & S & R). exists b'. split_and!; try done.
  apply (kept_more _ _ _ _ uuid_in_admin (rd_kept _ _ _ _ _ R)).
Qed.

Lemma label_rewrites label : label_ok label = true -> forall a, 0 <= a < geo_agcount g -> exists b',
  update_block g (put_fname (padded label)) (sb_at d g a) = Ok b' /\
  sb_ok g b' (uuids a) meta (padded label) /\ kept (LABEL_FIELDS ++ REWRITTEN) (sb_at d g a) b'.
Proof.
  intros Hl a Ha. destruct F as [L _ Hsb _]. destruct (label_fname_ok label Hl) as [_ Lf].
  destruct (update_label g _ _ meta _ (layout_sector _ _ _ _ L) (Hsb a Ha) _ Lf) as (b' & E & S & R).
  exists b'. split_and!; try done. apply R.
Qed.

(** Some of the superblocks rewritten, whichever. *)
Lemma uuid_some u d' : length u = 16%nat -> rewriting d g (do_uuid meta u) d' ->
  exists inc uuids', (forall a, uuids' a = u \/ uuids' a = uuids a) /\
    fs_mixed d' (with_incompat g inc) start bbs uuids' meta fnames s.
Proof.
  intros Hu [Lt Hsb O]. pose proof F as [L G Ho Hlog]. destruct (ly_ags _ _ _ _ L) as (A1 & _).
  assert (exists inc, Geo_parse (sb_at d' g 0) = Ok (with_incompat g inc)) as (inc & Gi).
  { destruct (Hsb 0 ltac:(lia)) as [->|E]; [exists (geo_incompat g); by rewrite with_incompat_same|].
    destruct (uuid_rewrites u Hu 0 ltac:(lia)) as (b' & E' & _ & K). rewrite E in E'. injection E' as <-.
    destruct (kept_parses d d' g start bbs _ L G (reflexivity _) K) as (inc & _ & Gi). by exists inc. }
  exists inc, (fun a => if decide (sb_at d' g a = sb_at d g a) then uuids a else u).
  split; [intros a; cbv beta; destruct (decide _); auto|].
  split; [by apply layout_with_incompat; eapply layout_later | exact Gi | | by eapply clean_kept].
  intros a Ha. change (sb_at d' (with_incompat g inc) a) with (sb_at d' g a).
  apply sb_ok_with_incompat. cbv beta. destruct (decide _) as [->|Hn]; [by apply Ho|].
  destruct (Hsb a Ha) as [|E]; [done|]. destruct (uuid_rewrites u Hu a Ha) as (b' & E' & S & _).
  rewrite E in E'. by injection E' as ->.
Qed.

Lemma label_some label d' : label_ok label = true -> rewriting d g (put_fname (padded label)) d' ->
  exists fnames', (forall a, fnames' a = padded label \/ fnames' a = fnames a) /\
    fs_mixed d' g start bbs uuids meta fnames' s.
Proof.
  intros Hl [Lt Hsb O]. pose proof F as [L G Ho Hlog]. destruct (ly_ags _ _ _ _ L) as (A1 & _).
  exists (fun a => if decide (sb_at d' g a = sb_at d g a) then fnames a else padded label).
  split; [intros a; cbv beta; destruct (decide _); auto|].
  split; [by eapply layout_later | | | by eapply clean_kept].
  - destruct (Hsb 0 ltac:(lia)) as [->|E]; [done|].
    destruct (label_rewrites label Hl 0 ltac:(lia)) as (b' & E' & _ & K). rewrite E in E'. injection E' as <-.
    destruct (kept_parses d d' g start bbs _ L G label_in_admin K) as (inc & I & ->).
    revert I. read_kept K. rewrite (geo_incompat_of _ _ G). intros [= <-]. by rewrite with_incompat_same.
  - intros a Ha. cbv beta. destruct (decide _) as [->|Hn]; [by apply Ho|].
    destruct (Hsb a Ha) as [|E]; [done|]. destruct (label_rewrites label Hl a Ha) as (b' & E' & S & _).
    rewrite E in E'. by injection E' as ->.
Qed.
End Operations.

(** * The operations on a device that fails *)

Section Admin.
Context {D : Type} `{DeviceSpec D}.
Variables (e : Error) (k : list D -> D -> D -> D).
Hypothesis Hk : wrecks k.
Context {d : D} {g : Geo} {start bbs : Z} {uuids : Z -> buf} {meta : buf} {fnames : Z -> buf} {s : LogState}.
Hypothesis F : fs_mixed d g start bbs uuids meta fnames s.

Lemma mixed_opens : Fs_open d = (d, Ok (mkFs g (sb_at d g 0))).
Proof using F.
  destruct F as [L G Hsb _]. destruct (ly_ags _ _ _ _ L) as (A1 & _). eapply Fs_open_ok; [done..|].
  apply Hsb. lia.
Qed.

Lemma mixed_meta : meta_uuid (mkFs g (sb_at d g 0)) = Ok meta.
Proof using F.
  destruct F as [L _ Hsb _]. destruct (ly_ags _ _ _ _ L) as (A1 & _). eapply sb_ok_meta, Hsb. lia.
Qed.

Lemma fused_set_uuid_eq u past n : ls_cycle s + 1 < HEADER_MAGIC ->
  set_uuid u (mkFused d past n e k) =
    (clear_log g u (ls_cycle s + 1);; io_flush;; update_sbs g (do_uuid meta u);; io_flush)
      (mkFused d past n e k).
Proof using F.
  intros Hcy. pose proof (fs_mixed_cycle _ _ _ _ _ _ _ _ F). unfold HEADER_MAGIC in Hcy.
  rewrite <- (u32_id (ls_cycle s + 1)) by lia.
  apply (set_uuid_after _ (mkFs g (sb_at d g 0)) s).
  - by rewrite fused_Fs_open, mixed_opens.
  - rewrite fused_find_tail, (log_find_tail_ok (fx_layout _ _ _ _ _ _ _ _ F) _ s); [done | apply F].
  - eapply clean_not_dirty, F.
  - apply mixed_meta.
Qed.

(** A run of [set_uuid] cut short with the log rewritten and some of the
    superblocks. *)
Definition uuid_cut (u : buf) (d' : D) : Prop :=
  exists inc uuids' s', (forall a, uuids' a = u \/ uuids' a = uuids a) /\ later d d' /\
    fs_mixed d' (with_incompat g inc) start bbs uuids' meta fnames s' /\
    ls_cycle s' = ls_cycle s + 1 /\
    forall i, off_sbs g i -> i < start \/ start + bbs * 512 <= i -> contents d' i = contents d i.

Lemma only_log_clear u : length u = 16%nat -> ls_cycle s + 1 < HEADER_MAGIC ->
  locked e k (only_log d start (bbs * 512)) (only_log d start (bbs * 512)) (only_log d start (bbs * 512))
    (clear_log g u (ls_cycle s + 1)) (clear_log g u (ls_cycle s + 1)) d.
Proof using F Hk.
  intros Hu Hcy. pose proof (fs_mixed_cycle _ _ _ _ _ _ _ _ F) as Hc0.
  pose proof (fx_layout _ _ _ _ _ _ _ _ F) as L. destruct (ly_log _ _ _ _ L) as (El & _ & T).
  eapply (locked_clear_log e k Hk d start bbs (geo_blocksize g) u (layout_room L) Hu g El);
    try apply L; lia.
Qed.

(** The two halves of [set_uuid]: up to the flush of the log, and after it. *)
Local Notation "'log_half' u" := (clear_log g u (ls_cycle s + 1);; io_flush) (at level 10, u at level 9).
Local Notation "'sbs_half' u" := (update_sbs g (do_uuid meta u);; io_flush) (at level 10, u at level 9).

Lemma fused_set_uuid_halves u n : ls_cycle s + 1 < HEADER_MAGIC ->
  set_uuid u (mkFused d [] n e k) = (log_half u;; sbs_half u) (mkFused d [] n e k).
Proof using F.
  intros Hcy. rewrite fused_set_uuid_eq, !io_bind_eq by done.
  by destruct (clear_log _ _ _ _) as [x [[]| | |]].
Qed.

Lemma set_uuid_halves u : length u = 16%nat -> ls_cycle s + 1 < HEADER_MAGIC -> exists d2 V,
  log_half u d = (d2, Ok tt) /\ (log_half u;; sbs_half u) d = set_uuid u d /\
  locked e k (only_log d start (bbs * 512)) V (only_log d start (bbs * 512)) (log_half u) (log_half u) d /\
  locked e k V (fun _ => True) (uuid_cut u) (sbs_half u) (sbs_half u) d2.
Proof using F Hk.
  intros Hu Hcy. destruct (log_moved _ _ _ _ _ _ _ _ u F Hu Hcy)
    as (d1 & d2 & s' & E1 & E2 & L1 & L2 & F1 & F2 & Y & N & O12 & O2).
  assert (forall a, 0 <= a < geo_agcount g -> exists b', update_block g (do_uuid meta u) (sb_at d2 g a) = Ok b' /\
    kept ADMIN_FIELDS (sb_at d2 g a) b') as Hr.
  { intros a Ha. destruct (uuid_rewrites F2 u Hu a Ha) as (b' & E & _ & K). by exists b'. }
  assert (forall dx, rewriting d2 g (do_uuid meta u) dx -> uuid_cut u dx) as Hcut.
  { intros dx R. destruct (uuid_some F2 u dx Hu R) as (inc & uuids' & Hn & Fx).
    exists inc, uuids', s'. split_and!; try done; [by eapply later_trans, R|].
    intros i Hi Ho. by rewrite (rw_rest _ _ _ _ R), O2. }
  destruct (lockstep_update_sbs e k Hk d2 g start bbs uuids meta fnames s' (do_uuid meta u) F2 Hr)
    as (d3 & E3 & R3 & L3).
  exists d2, (rewriting d2 g (do_uuid meta u)). split_and!.
  - by rewrite (io_bind_step _ _ _ _ _ E1).
  - rewrite (set_uuid_eq _ _ _ _ _ _ _ _ _ F Hcy). by rewrite !io_bind_eq, E1, !io_bind_eq, E2.
  - eapply locked_bind; [by apply only_log_clear | exact E1 |]. exists 1%nat.
    eapply lockstep_flush; [exact E2|]. intros past Hp. apply only_log_survives; [done | done | |done].
    split; [done | intros i Hi; by rewrite <- O12, O2].
  - eapply locked_bind; [eapply locked_cut; [exact Hcut | exact L3] | exact E3 |].
    destruct (io_flush_ok d3) as (d4 & E4 & L4 & O4); [apply R3|].
    eapply (locked_flush _ _ _ (fun _ => True)); [| exact E4 | exact R3 | by eapply rewriting_same].
    intros past x y Hp Hx Hy. apply Hcut. by eapply rewriting_survives.
Qed.

(** A run of [set_label] cut short. *)
Definition label_cut (label : string) (d' : D) : Prop :=
  exists fnames', (forall a, fnames' a = padded label \/ fnames' a = fnames a) /\ later d d' /\
    fs_mixed d' g start bbs uuids meta fnames' s /\
    forall i, off_sbs g i -> contents d' i = contents d i.

Lemma fused_set_label_eq label past n : label_ok label = true ->
  set_label label (mkFused d past n e k) =
    (update_sbs g (put_fname (padded label));; io_flush) (mkFused d past n e k).
Proof using F.
  intros Hl. destruct (label_fname_ok label Hl) as [Ef _].
  unfold set_label. apply andb_prop in Hl as [Hl1%Nat.leb_le Hl2%negb_true_iff].
  rewrite (proj2 (Nat.ltb_ge _ _) Hl1), Hl2. cbn [orb bail_if]. rewrite lift_bind.
  erewrite io_bind_step; [|by rewrite fused_Fs_open, mixed_opens]. by rewrite Ef, lift_bind.
Qed.

Lemma locked_set_label label : label_ok label = true ->
  exists V V', V d /\ locked e k V V' (label_cut label) (set_label label) (set_label label) d.
Proof using F Hk.
  intros Hl. set (V := rewriting d g (put_fname (padded label))).
  assert (forall dx, V dx -> label_cut label dx) as Hcut.
  { intros dx R. destruct (label_some F label dx Hl R) as (fnames' & Hn & Fx).
    exists fnames'. split_and!; try done; apply R. }
  assert (forall a, 0 <= a < geo_agcount g -> exists b',
    update_block g (put_fname (padded label)) (sb_at d g a) = Ok b' /\ kept ADMIN_FIELDS (sb_at d g a) b') as Hr.
  { intros a Ha. destruct (label_rewrites F label Hl a Ha) as (b' & E & _ & K). exists b'.
    split; [done|]. by apply (kept_more _ _ _ _ label_in_admin K). }
  destruct (lockstep_update_sbs e k Hk d g start bbs uuids meta fnames s _ F Hr) as (d1 & E1 & R1 & L1).
  exists V, (fun _ => True). split.
  { split; [apply later_refl, F | by left | done]. }
  eapply locked_ext; [by eapply set_label_eq | intros; by apply fused_set_label_eq |].
  eapply locked_bind; [|exact E1|].
  - eapply locked_cut; [exact Hcut | exact L1].
  - destruct (io_flush_ok d1) as (d2 & E2 & L2 & O2); [apply R1|].
    eapply locked_flush; [| exact E2 | exact R1 |].
    + intros past x y Hp Hx Hy. apply Hcut. by eapply rewriting_survives.
    + by eapply rewriting_same.
Qed.
End Admin.

(** * Properties *)

Section Properties.
Context {D : Type} `{DeviceSpec D}.

Lemma with_incompat_twice g inc inc' : with_incompat (with_incompat g inc) inc' = with_incompat g inc'.
Proof. done. Qed.

(** C12: a request that fails in the middle of [set_uuid] is reported, and leaves
    no superblock broken, whatever wreck it makes of the writes since the
    last flush: each superblock names the old UUID or the new one, the
    metadata's UUID and the label are kept, and nothing but the log and the
    superblocks has changed.  Where the log had been rewritten and flushed,
    whether or not a superblock was, [set_uuid] on what is left finishes the
    job; where it had not, no superblock has been touched. *)
Theorem failed_set_uuid_can_be_run_again d g start bbs uuid meta fname s u n e k :
  fs_ok d g start bbs uuid meta fname s -> length u = 16%nat -> ls_cycle s + 2 < HEADER_MAGIC ->
  wrecks k ->
  let '(f, r) := set_uuid u (mkFused d [] n e k) in
  let d' := fu_dev f in
  let logged := snd ((clear_log g u (ls_cycle s + 1);; io_flush) (mkFused d [] n e k)) in
  (r = Ok tt /\ exists inc s', fs_ok d' (with_incompat g inc) start bbs u meta fname s') \/
  (r = Err e /\
   (forall a, 0 <= a < geo_agcount g -> exists name, (name = uuid \/ name = u) /\
      sb_ok g (sb_at d' g a) name meta fname) /\
   (forall i, off_sbs g i -> i < start \/ start + bbs * 512 <= i -> contents d' i = contents d i) /\
   (logged = Ok tt -> exists d2 inc s', set_uuid u d' = (d2, Ok tt) /\
      fs_ok d2 (with_incompat g inc) start bbs u meta fname s') /\
   (logged <> Ok tt -> forall a, 0 <= a < geo_agcount g -> sb_at d' g a = sb_at d g a)).
Proof.
  intros F Hu Hcy Hk. pose proof (fs_ok_mixed _ _ _ _ _ _ _ _ F) as Fm.
  destruct (set_uuid_halves e k Hk Fm u Hu ltac:(lia)) as (d2 & V & E2 & E3 & K1 & K2).
  rewrite (fused_set_uuid_halves e k Fm u n) by lia.
  destruct (locked_run_bind _ _ _ _ _ _ _ _ _ (fun _ => update_sbs g (do_uuid meta u);; io_flush)
    (fun _ => update_sbs g (do_uuid meta u);; io_flush) d d2 tt n K1 E2 K2)
    as [(-> & [(past & j & ->)|(d' & -> & Hc)])|(-> & d' & -> & [Lt O])]; cbn [fu_dev].
  - left. rewrite E3. destruct (set_uuid_fs _ _ _ _ _ _ _ _ u F Hu ltac:(lia)) as (d1 & s' & inc & -> & _ & F1 & _).
    split; [done|]. by exists inc, s'.
  - right. destruct Hc as (inc & uuids' & s' & Hn & _ & Fx & Y & O). split_and!; try done.
    + intros a Ha. pose proof (fx_sbs _ _ _ _ _ _ _ _ Fx a Ha) as S. exists (uuids' a).
      split; [destruct (Hn a); auto|]. by eapply sb_ok_any_incompat.
    + intros _. destruct (set_uuid_mixed _ _ _ _ _ _ _ _ u Fx Hu ltac:(lia))
        as (d3 & s2 & inc2 & E & _ & [L2 G2 S2 C2] & _ & _ & N2 & _).
      exists d3, inc2, s2. split; [done|]. rewrite with_incompat_twice in *. by split.
  - right. assert (forall a, 0 <= a < geo_agcount g -> sb_at d' g a = sb_at d g a) as Hsb.
    { intros a Ha. by eapply sb_at_outside; [apply F | |]. }
    split_and!; try done.
    + intros a Ha. exists uuid. split; [by left|]. rewrite Hsb by done. by apply F.
    + intros i _. apply O.
Qed.

(** C39: a request that fails in the middle of [set_label] is reported and leaves
    every superblock good, under the old label or the new one, whatever wreck
    it makes of the writes before it, and nothing else changed; [set_label]
    on what is left finishes the job. *)
Theorem failed_set_label_can_be_run_again d g start bbs uuid meta fname s label n e k :
  fs_ok d g start bbs uuid meta fname s -> label_ok label = true -> wrecks k ->
  let '(f, r) := set_label label (mkFused d [] n e k) in
  let d' := fu_dev f in
  (r = Ok tt /\ fs_ok d' g start bbs uuid meta (padded label) s) \/
  (r = Err e /\
   (forall a, 0 <= a < geo_agcount g -> exists name, (name = fname \/ name = padded label) /\
      sb_ok g (sb_at d' g a) uuid meta name) /\
   (forall i, off_sbs g i -> contents d' i = contents d i) /\
   exists d2, set_label label d' = (d2, Ok tt) /\ fs_ok d2 g start bbs uuid meta (padded label) s).
Proof.
  intros F Hl Hk. pose proof (fs_ok_mixed _ _ _ _ _ _ _ _ F) as Fm.
  destruct (locked_set_label e k Hk Fm label Hl) as (V & V' & _ & Lk).
  destruct (locked_run _ _ _ _ _ _ _ d n Lk) as [(past & j & ->)|(d' & -> & names & Hn & Lt & Fx & O)];
    cbn [fu_dev].
  - left. destruct (set_label_fs _ _ _ _ _ _ _ _ label F Hl) as (d1 & -> & _ & F1 & _). by split.
  - right. split_and!; try done.
    + intros a Ha. exists (names a). split; [destruct (Hn a); auto | by apply (fx_sbs _ _ _ _ _ _ _ _ Fx)].
    + destruct (set_label_mixed _ _ _ _ _ _ _ _ label Fx Hl) as (d2 & E2 & _ & [L2 G2 S2 C2] & _ & O2).
      exists d2. split; [done|]. split; try done.
      eapply names_kept; [apply Fx | exact O2|]. eapply names_kept; [apply F | exact O | apply F].
Qed.

(** The run that is cut between the first superblock and the second. *)
Lemma cut_after_first d g start bbs uuid meta fname s u e :
  fs_ok d g start bbs uuid meta fname s -> length u = 16%nat -> ls_cycle s + 1 < HEADER_MAGIC ->
  2 <= geo_agcount g ->
  exists n d' inc s', set_uuid u (mkFused d [] n e in_order) = (mkFused d' [] 0 e in_order, Err e) /\
    fs_mixed d' (with_incompat g inc) start bbs (fun a => if a <? 1 then u else uuid) meta (fun _ => fname) s' /\
    has_meta_uuid inc = negb (bool_decide (u = meta)).
Proof.
  intros F Hu Hcy Hag. pose proof (fs_ok_mixed _ _ _ _ _ _ _ _ F) as Fm.
  destruct (log_moved _ _ _ _ _ _ _ _ u Fm Hu Hcy)
    as (d1 & d2 & s' & E1 & E2 & L1 & L2 & F1 & F2 & Y & N & O12 & O2).
  destruct (uuid_upto _ _ _ _ _ _ _ _ u 1 F2 Hu ltac:(lia)) as (d3 & inc & E3 & L3 & F3 & M & _ & C3).
  destruct (uuid_upto _ _ _ _ _ _ _ _ u 2 F2 Hu ltac:(lia)) as (d4 & inc4 & E4 & _).
  change (seqZ 0 1) with [0] in E3. change (seqZ 0 2) with [0; 1] in E4. cbn [io_for] in E3, E4.
  rewrite io_bind_eq in E3, E4. destruct (update_sb g (do_uuid meta u) 0 d2) as [d3' [[]| | |]] eqn:E0; try done.
  injection E3 as ->.
  rewrite io_bind_eq in E4. destruct (update_sb g (do_uuid meta u) 1 d3) as [d4' [[]| | |]] eqn:E5; try done.
  clear E4. destruct (only_log_clear e in_order in_order_wrecks Fm u Hu Hcy) as [N1 [W1 _]].
  set (any := fun _ : D => True).
  destruct (lockstep_flush e in_order (only_log d start (bbs * 512)) any any d1 d2 E2 (fun _ _ => I)) as [Wf _].
  destruct (lockstep_update_sb e in_order any any g (do_uuid meta u) 0 d2 d3 E0 I (fun _ _ => I)) as [W3 _].
  destruct (lockstep_update_sb e in_order any (eq d3) g (do_uuid meta u) 1 d3 d4' E5 I (fun _ _ => eq_refl)) as [_ C4].
  destruct (W1 [] (1 + (1 + 0))%nat) as (p1 & Hp1 & X1); [done|].
  destruct (Wf p1 (1 + 0)%nat Hp1) as (p2 & Hp2 & X2). destruct (W3 p2 0%nat Hp2) as (p3 & Hp3 & X3).
  destruct (C4 p3 0%nat Hp3 ltac:(lia)) as (d5 & X4 & <-).
  exists (N1 + (1 + (1 + 0)))%nat, d3, inc, s'. split_and!; [|exact F3|apply M; lia].
  rewrite (fused_set_uuid_eq e in_order Fm) by done.
  erewrite io_bind_step; [|by rewrite X1, E1]. cbn [fst].
  erewrite io_bind_step; [|by rewrite X2, E2]. cbn [fst].
  rewrite io_bind_eq. unfold update_sbs.
  rewrite (seqZ_cons 0 (geo_agcount g)) by lia. rewrite (seqZ_cons (Z.succ 0)) by lia. cbn [io_for].
  erewrite (io_bind_step _ (update_sb g _ 0)); [|by rewrite X3, E0]. cbn [fst].
  change (Z.succ 0) with 1. by rewrite io_bind_eq, X4.
Qed.

(** C40: [restore_uuid] cannot be run again as [set_uuid] can: where the device
    fails after the first superblock, a second [restore_uuid] finds nothing
    to restore there and reports that the UUID was never changed, while every
    other superblock still names the changed one. *)
Theorem failed_restore_is_not_resumed d g start bbs uuid meta fname s e :
  fs_ok d g start bbs uuid meta fname s -> has_meta_uuid (geo_incompat g) = true ->
  ls_cycle s + 1 < HEADER_MAGIC -> 2 <= geo_agcount g ->
  exists n d', restore_uuid (mkFused d [] n e in_order) = (mkFused d' [] 0 e in_order, Err e) /\
    restore_uuid d' = (d', Ok false) /\
    sb_ok g (sb_at d' g 0) meta meta fname /\
    forall a, 1 <= a < geo_agcount g -> sb_ok g (sb_at d' g a) uuid meta fname.
Proof.
  intros F Hm Hcy Hag. pose proof (fs_ok_mixed _ _ _ _ _ _ _ _ F) as Fm.
  destruct (uuid_length _ _ _ _ _ _ _ _ F) as [_ Lm].
  destruct (cut_after_first d g start bbs uuid meta fname s meta e F Lm Hcy Hag)
    as (n & d' & inc & s' & E & Fx & M). rewrite bool_decide_true in M by done.
  exists n, d'. split_and!.
  - unfold restore_uuid. erewrite io_bind_step; [|by rewrite fused_Fs_open, (mixed_opens Fm)].
    cbn [fs_primary]. rewrite (geo_incompat_of _ _ (fo_geo _ _ _ _ _ _ _ _ F)), lift_bind, Hm. cbn [negb].
    by rewrite (mixed_meta Fm), lift_bind, io_bind_eq, E.
  - unfold restore_uuid. rewrite (io_bind_step _ _ _ _ _ (mixed_opens Fx)). cbn [fs_primary].
    rewrite (geo_incompat_of _ _ (fx_geo _ _ _ _ _ _ _ _ Fx)), lift_bind. cbn [geo_incompat with_incompat].
    by rewrite M.
  - eapply sb_ok_any_incompat. apply (fx_sbs _ _ _ _ _ _ _ _ Fx 0). cbn. lia.
  - intros a Ha. pose proof (fx_sbs _ _ _ _ _ _ _ _ Fx a ltac:(cbn; lia)) as S.
    cbv beta in S. rewrite (proj2 (Z.ltb_ge a 1)) in S by lia. by eapply sb_ok_any_incompat.
Qed.
End Properties.

(** * Witnesses *)

(** On the filesystem [format] leaves, and a device that fails after some
    writes and loses some of those it has not flushed. *)

Lemma failed_set_uuid_can_be_run_again_witness : exists d f r,
  set_uuid (zeroes 16) (mkFused d [] 20 fault0 lost_chunk) = (f, r) /\
  (r = Ok tt \/ r = Err fault0 /\
   (forall a, 0 <= a < 4 -> exists name, (name = uuid0 \/ name = zeroes 16) /\
      sb_ok (geo_of geo512m) (sb_at (fu_dev f) (geo_of geo512m) a) name uuid0 (label geo512m)) /\
   ((exists d2, set_uuid (zeroes 16) (fu_dev f) = (d2, Ok tt)) \/
    forall a, 0 <= a < 4 -> sb_at (fu_dev f) (geo_of geo512m) a = sb_at d (geo_of geo512m) a)).
Proof.
  destruct formatted0 as (d & r & s & _ & F & Y).
  pose proof (failed_set_uuid_can_be_run_again d _ _ _ _ _ _ s (zeroes 16) 20 fault0 lost_chunk F eq_refl
    ltac:(rewrite Y; reflexivity) lost_chunk_wrecks) as R.
  exists d. destruct (set_uuid (zeroes 16) (mkFused d [] 20 fault0 lost_chunk)) as [f r1].
  exists f, r1. split; [reflexivity|]. destruct R as [[-> _]|(-> & R & _ & R1 & R2)]; [by left | right].
  split; [reflexivity | split; [exact R |]].
  destruct (snd ((clear_log _ _ _;; io_flush) _)) as [[]| | |] in R1, R2; [left | right; by apply R2..].
  destruct (R1 eq_refl) as (d2 & _ & _ & E & _). by exists d2.
Defined.

Lemma failed_set_label_can_be_run_again_witness : exists d f r,
  set_label "data" (mkFused d [] 2 fault0 lost_chunk) = (f, r) /\
  (r = Ok tt \/ r = Err fault0 /\ exists d2, set_label "data" (fu_dev f) = (d2, Ok tt)).
Proof.
  destruct formatted0 as (d & r & s & _ & F & Y).
  pose proof (failed_set_label_can_be_run_again d _ _ _ _ _ _ s "data" 2 fault0 lost_chunk F eq_refl
    lost_chunk_wrecks) as R.
  exists d. destruct (set_label "data" (mkFused d [] 2 fault0 lost_chunk)) as [f r1].
  exists f, r1. split; [reflexivity|].
  destruct R as [[-> _]|(-> & _ & _ & d2 & E & _)]; [by left | right; split; [reflexivity | by exists d2]].
Defined.

(** The same, renamed first. *)
Lemma failed_restore_is_not_resumed_witness : exists d n d',
  restore_uuid (mkFused d [] n fault0 in_order) = (mkFused d' [] 0 fault0 in_order, Err fault0) /\
  restore_uuid d' = (d', Ok false).
Proof.
  destruct formatted0 as (d & r & s & _ & F & Y).
  destruct (set_uuid_fs d _ _ _ _ _ _ s (zeroes 16) F) as (d1 & s1 & inc & _ & _ & F1 & M & Y1 & _);
    [reflexivity | by rewrite Y |].
  destruct (failed_restore_is_not_resumed d1 _ _ _ _ _ _ s1 fault0 F1) as (n & d' & E & E' & _);
    [exact M | by rewrite Y1, Y | done |].
  exists d1, n, d'. split; [exact E | exact E'].
Defined.
