(* ===== verification/LogSafety.v ===== *)
(** The log's reader on any log at all.

    [find_tail] reads what a disk holds: nothing is known of the bytes.  Here
    every function of the reader is shown to answer, with a value in range or
    with an error: no index, slice or remainder panics, and no loop outlasts
    its fuel.  The invariant of [Io.safe] here is a good window. *)

From Stdlib Require Import ZArith Lia.
From stdpp Require Import base tactics list numbers gmap.
From coqutil Require Import Byte Word.LittleEndianList.
From S2P Require Import Prelude Bytes LogRecord Device Io Inspect Admin LogFacts.

Section Safety.
Context {D : Type} `{DeviceSpec D}.
Context {dev : D} {start bbs : Z} (R : readable dev start bbs).

#[local] Abbreviation safe := (safe (window_ok dev start bbs)).

Lemma safe_ok {A} (P : A -> Prop) (r : result A) a : r = Ok a -> P a -> safe P (lift r).
Proof. intros -> HP. by apply safe_lift. Qed.
Lemma safe_reads {A} (P : A -> Prop) (m : io Window A) a :
  reads dev start bbs m a -> P a -> safe P m.
Proof. intros Hm HP w Hw. destruct (Hm w Hw) as (w' & E & W). by exists w', (Ok a). Qed.

(** A read whose value is known but does not matter. *)
Lemma safe_after {A B} (Q : B -> Prop) (m : io Window A) a f :
  reads dev start bbs m a -> safe Q (f a) -> safe Q (m ≫= f).
Proof.
  intros Hm Hf. apply (safe_bind (fun x => x = a)); [by eapply safe_reads | by intros ? ->].
Qed.

(** A field of a block. *)
Lemma safe_be32 {B} (Q : B -> Prop) n o (f : Z -> io Window B) : (o + 4 <= BBSIZE)%nat ->
  (forall x, 0 <= x < 2 ^ 32 -> safe Q (f x)) ->
  safe Q (lift (be32 (block dev start n) o) ≫= f).
Proof.
  intros Ho Hf. apply (safe_bind (fun x => 0 <= x < 2 ^ 32)); [|done].
  eapply safe_ok; [by apply block_be32|].
  pose proof (of_be_bytes_range (take 4 (drop o (block dev start n)))) as Hr.
  rewrite length_take, length_drop, length_block in Hr.
  replace (4 `min` (BBSIZE - o))%nat with 4%nat in Hr by lia. exact Hr.
Qed.

Lemma safe_cycle n : 0 <= n < bbs -> safe (fun _ => True) (cycle dev start bbs n).
Proof. intros Hn. by eapply safe_reads; [apply (cycle_reads dev start bbs R)|]. Qed.

(** ** The scans *)

Lemma safe_find_cycle_from n i stop : 0 <= i -> i + Z.of_nat n <= bbs ->
  safe (fun o => forall x, o = Some x -> i <= x < i + Z.of_nat n)
    (find_cycle_from dev start bbs n i stop).
Proof.
  revert i. induction n as [|n IH]; intros i Hi Hn; [by apply safe_ret|]. cbn [find_cycle_from].
  eapply safe_bind; [apply safe_cycle; lia|]. intros c _. destruct (c =? stop).
  - apply safe_ret. intros x [= <-]. lia.
  - eapply safe_weaken; [|apply IH; lia]. intros o Ho x E. specialize (Ho x E). lia.
Qed.

Lemma safe_find_verify_cycle s n stop : 0 <= s -> 0 <= n -> s + n <= bbs ->
  safe (fun o => forall x, o = Some x -> s <= x < s + n) (find_verify_cycle dev start bbs s n stop).
Proof.
  intros Hs Hn Hb. destruct (bounds dev start bbs R) as (B1 & B2 & _ & B3).
  unfold find_verify_cycle. rewrite u64_id by lia.
  eapply safe_weaken; [|apply safe_find_cycle_from; lia].
  intros o Ho x E. specialize (Ho x E). lia.
Qed.

Lemma safe_find_header_down n s : Z.of_nat n <= bbs ->
  safe (fun o => forall i, o = Some i -> s <= i < Z.of_nat n) (find_header_down dev start bbs n s).
Proof.
  induction n as [|n IH]; intros Hn; [by apply safe_ret|]. cbn [find_header_down].
  destruct (Z.ltb_spec (Z.of_nat n) s); [apply safe_err|].
  eapply safe_after; [apply (is_header_reads dev start bbs R); lia|].
  destruct (hdr _ _ _).
  - apply safe_ret. intros i [= <-]. lia.
  - eapply safe_weaken; [|apply IH; lia]. intros o Ho i E. specialize (Ho i E). lia.
Qed.

Lemma safe_last_header n lo : 0 <= lo -> lo + Z.of_nat n <= bbs ->
  safe (fun o => forall i, o = Some i -> lo <= i < lo + Z.of_nat n) (last_header dev start bbs n lo).
Proof.
  induction n as [|n IH]; intros Hlo Hn; [by apply safe_ret|]. cbn [last_header].
  eapply safe_after; [apply (is_header_reads dev start bbs R); lia|].
  destruct (hdr _ _ _).
  - apply safe_ret. intros i [= <-]. lia.
  - eapply safe_weaken; [|apply IH; lia]. intros o Ho i E. specialize (Ho i E). lia.
Qed.

Lemma safe_find_verify_log_record s last extra : 0 <= s -> 0 <= last <= bbs ->
  safe (fun r => 0 <= snd r <= last /\ (fst r = NoHeader -> snd r = last))
    (find_verify_log_record dev start bbs s last extra).
Proof.
  intros Hs Hl. unfold find_verify_log_record.
  eapply safe_bind; [apply safe_find_header_down; lia|]. intros [i|] Hi; [|apply safe_ret; cbn; lia].
  specialize (Hi i eq_refl).
  eapply safe_after; [apply (bb_reads dev start bbs R); lia|].
  apply safe_be32; [by unfold BBSIZE, LogRecord.off.SIZE; lia|]. intros size _. cbv zeta.
  apply safe_be32; [by unfold BBSIZE, LogRecord.off.LEN; lia|]. intros len _.
  apply safe_ret. cbn [fst snd]. split; [destruct (_ =? _); lia | done].
Qed.

(** ** The head *)

Lemma safe_find_cycle_start last c : 0 < last < bbs ->
  safe (fun e => 0 < e <= last) (find_cycle_start dev start bbs 0 last c).
Proof.
  intros Hl. destruct (find_cycle_start_reads dev start bbs R 0 last c) as (e & Hr & He & _); [lia..|].
  by eapply safe_reads.
Qed.

Lemma safe_find_zeroed :
  safe (fun o => forall b, o = Some b -> 0 <= b < bbs) (find_zeroed dev start bbs).
Proof.
  destruct (bounds dev start bbs R) as (B1 & B2 & B4 & B3). pose proof (rd_bbs _ _ _ R).
  unfold find_zeroed. eapply safe_bind; [apply safe_cycle; lia|]. intros first _.
  destruct (first =? 0); [apply safe_ret; intros b [= <-]; lia|].
  rewrite (u64_id (bbs - 1)) by lia.
  eapply safe_bind; [apply safe_cycle; lia|]. intros c _.
  destruct (negb _); [by apply safe_ret|]. destruct (negb _); [apply safe_err|].
  eapply safe_bind; [apply safe_find_cycle_start; lia|]. intros last Hl. cbv beta in Hl.
  rewrite (u64_id (last - _)) by lia.
  eapply safe_bind; [apply safe_find_verify_cycle; lia|]. intros b Hb.
  assert (0 <= default last b < bbs) as Hd.
  { destruct b as [x|]; cbn; [specialize (Hb x eq_refl)|]; lia. }
  eapply safe_bind; [apply safe_find_verify_log_record; lia|]. intros [[] l] [Hr _]; cbn in Hr.
  - apply safe_ret. intros b' [= <-]. lia.
  - apply safe_err.
Qed.

Lemma safe_check_window head stop : 0 <= head <= bbs ->
  safe (fun h => 0 <= h <= bbs) (check_window dev start bbs bbs head stop).
Proof.
  intros Hh. destruct (bounds dev start bbs R) as (B1 & B2 & B4 & B3). pose proof (rd_bbs _ _ _ R).
  unfold check_window. destruct (Z.leb_spec TOTAL_REC_BBS head).
  - rewrite u64_id by lia. eapply safe_bind; [apply safe_find_verify_cycle; lia|].
    intros b Hb. apply safe_ret. destruct b as [x|]; cbn; [specialize (Hb x eq_refl)|]; lia.
  - rewrite (u64_id (TOTAL_REC_BBS - head)), (u64_id (bbs - _)) by lia.
    eapply safe_bind; [apply safe_find_verify_cycle; lia|]. intros [x|] Hb.
    { apply safe_ret. specialize (Hb x eq_refl). lia. }
    eapply safe_bind; [apply safe_find_verify_cycle; lia|].
    intros b Hb'. apply safe_ret. destruct b as [x|]; cbn; [specialize (Hb' x eq_refl)|]; lia.
Qed.

Lemma safe_validate_head head : 0 <= head <= bbs ->
  safe (fun h => 0 <= h <= bbs) (validate_head dev start bbs bbs head).
Proof.
  intros Hh. destruct (bounds dev start bbs R) as (B1 & B2 & B4 & B3). pose proof (rd_bbs _ _ _ R).
  assert (REC_BBS = 512) as Er by done.
  unfold validate_head. destruct (Z.leb_spec REC_BBS head).
  - rewrite u64_id by lia. eapply safe_bind; [apply safe_find_verify_log_record; lia|].
    intros [[] h] [Hr _]; cbn in Hr; [apply safe_ret; lia | apply safe_err].
  - eapply safe_bind; [apply safe_find_verify_log_record; lia|].
    intros [[] h] [Hr Hn]; cbn in Hr, Hn; [apply safe_ret; lia|]. specialize (Hn eq_refl). subst h.
    rewrite (u64_id (REC_BBS - head)), u64_id by lia.
    eapply safe_bind; [apply safe_find_verify_log_record; lia|].
    intros [[] h] [Hr' _]; cbn in Hr'; [|apply safe_err].
    apply safe_ret. destruct (negb _); lia.
Qed.

Lemma safe_find_head : safe (fun h => 0 <= h < bbs) (find_head dev start bbs).
Proof.
  destruct (bounds dev start bbs R) as (B1 & B2 & B4 & B3). pose proof (rd_bbs _ _ _ R).
  unfold find_head. eapply safe_bind; [apply safe_find_zeroed|]. intros [b|] Hb.
  { apply safe_ret. by apply Hb. }
  cbv zeta. rewrite (u64_id (bbs - 1)) by lia.
  eapply safe_bind; [apply safe_cycle; lia|]. intros c0 _.
  eapply safe_bind; [apply safe_cycle; lia|]. intros c1 _.
  apply (safe_bind (fun r => 0 <= fst r <= bbs)).
  { destruct (c0 =? c1); [apply safe_ret; cbn; lia|].
    eapply safe_bind; [apply safe_find_cycle_start; lia|]. intros e He. apply safe_ret. cbn in *. lia. }
  intros [head stop] Hh. cbn [fst] in Hh.
  eapply safe_bind; [by apply safe_check_window|]. intros h1 Hh1.
  eapply safe_bind; [by apply safe_validate_head|]. intros h2 Hh2. cbv beta in Hh2.
  apply safe_ret. destruct (Z.eqb_spec h2 bbs); lia.
Qed.

(** ** The tail *)

Lemma safe_tail_of head i wrapped : 0 <= i < bbs -> safe (fun s => ls_head s = head) (tail_of dev start bbs head i wrapped).
Proof.
  intros Hi. destruct (bounds dev start bbs R) as (B1 & B2 & B4 & B3).
  unfold tail_of. eapply safe_after; [apply (bb_reads dev start bbs R); lia|].
  apply (safe_bind (fun _ => True)).
  { unfold be64. rewrite slice_in by (rewrite length_block; unfold BBSIZE, LogRecord.off.TAIL_LSN; lia).
    by eapply safe_ok. }
  intros lsn _. cbv zeta.
  do 4 (apply safe_be32; [unfold BBSIZE, LogRecord.off.CYCLE, LogRecord.off.SIZE, LogRecord.off.VERSION,
    LogRecord.off.LEN; lia|]; intros ? _).
  apply safe_be32; [unfold BBSIZE, LogRecord.off.NUM_LOGOPS; lia|]. intros ops _.
  unfold rem_or_panic. destruct (Z.eqb_spec bbs 0); [lia|].
  eapply safe_after; [by apply reads_lift|].
  destruct (_ && _); [|by apply safe_ret].
  eapply safe_after; [by apply reads_lift|].
  eapply safe_after; [apply (bb_reads dev start bbs R); by apply Z.mod_pos_bound|].
  apply (safe_bind (fun _ => True)); [|intros; by apply safe_ret].
  rewrite index_slice, slice_in by (rewrite length_block; unfold BBSIZE; lia). by eapply safe_ok.
Qed.

Lemma safe_find_tail : safe (fun s => 0 <= ls_head s < bbs) (find_tail dev start bbs).
Proof.
  destruct (bounds dev start bbs R) as (B1 & B2 & B4 & B3).
  unfold find_tail. eapply safe_bind; [apply safe_find_head|]. intros head Hh. cbv beta in Hh.
  apply (safe_bind (fun _ => True)).
  { destruct (head =? 0); [by apply safe_cycle | by apply safe_ret]. }
  intros c0 _. destruct (_ && _); [apply safe_ret; cbn; lia|].
  eapply safe_bind; [apply safe_last_header; lia|]. intros [i|] Hi.
  { specialize (Hi i eq_refl). eapply safe_weaken; [|apply safe_tail_of; lia]. intros s ->. lia. }
  eapply safe_bind; [apply safe_last_header; lia|]. intros [i|] Hi'; [|apply safe_err].
  specialize (Hi' i eq_refl). eapply safe_weaken; [|apply safe_tail_of; lia]. intros s ->. lia.
Qed.

(** * Properties *)

(** C14: whatever the log holds, finding its head and tail answers: the head is
    a block of the log, or the log is reported corrupt.  The binary search,
    the scans and the walk back to a header end; no block outside the log is
    asked for, and no field of one is read past its end. *)
Theorem find_tail_always_answers : exists w r,
  find_tail dev start bbs (mkWindow 0 []) = (w, r) /\ answers r /\
  forall s, r = Ok s -> 0 <= ls_head s < bbs.
Proof.
  destruct (safe_find_tail (mkWindow 0 [])) as (w & r & E & _ & Hr); [by left|].
  exists w, r. split; [done|]. destruct r as [s|e| |]; [|by split; [right; eexists|]|done..].
  split; [left; by eexists|]. intros s' [= <-]. exact Hr.
Qed.

(** The binary search for a cycle's first block ends, and answers with a
    boundary: a block of [(first, last]] that is in the cycle unless it is
    [last], whose predecessor is not in it unless it is [first]; on a log
    whose cycle changes once, that place. *)
Theorem find_cycle_start_finds_the_boundary first last c : 0 <= first < last -> last < bbs ->
  (exists e, reads dev start bbs (find_cycle_start dev start bbs first last c) e /\
     starts_cycle dev start first last c e) /\
  forall e, first < e <= last ->
    (forall n, first < n < e -> cyc dev start n <> c) ->
    (forall n, e <= n < last -> cyc dev start n = c) ->
    reads dev start bbs (find_cycle_start dev start bbs first last c) e.
Proof.
  intros Hf Hl. split; [by apply find_cycle_start_reads|].
  intros e He H1 H2. apply find_cycle_start_at; [done | lia | lia | done..].
Qed.
End Safety.

(** * Witnesses *)

(** Four mebibytes of anything: here, zeroes but for a first word that is no
    cycle a clean log has. *)
Definition blank : MemDevice := Mem_new (4 * 2 ^ 20).
Definition scrambled : MemDevice := fst (write_at blank 0 (replicate 4 (byte.of_Z 0xab))).

Lemma readable_scrambled : readable scrambled 0 8192.
Proof.
  destruct (write_spec blank 0 (replicate 4 (byte.of_Z 0xab))) as (d' & E & V & S & _ & A & _);
    [split; [apply map_Forall_empty | by vm_compute] | done | by vm_compute |].
  unfold scrambled. rewrite E. cbn [fst]. split; try done.
  - by rewrite S.
  - intros k Hk Hb. rewrite A. unfold WINDOW in *. cbn. unfold Mem_accepts. cbn.
    apply andb_true_intro. split; [apply Z.leb_le; lia | done].
Qed.

Lemma find_tail_always_answers_witness : exists w r,
  find_tail scrambled 0 8192 (mkWindow 0 []) = (w, r) /\ answers r /\
  forall s, r = Ok s -> 0 <= ls_head s < 8192.
Proof. apply (find_tail_always_answers readable_scrambled). Defined.

Lemma find_cycle_start_finds_the_boundary_witness :
  reads scrambled 0 8192 (find_cycle_start scrambled 0 8192 0 8191 0) 1.
Proof.
  apply (find_cycle_start_finds_the_boundary readable_scrambled 0 8191 0); [done | done | done | |].
  - intros n Hn. exfalso. clear - Hn. lia.
  - intros n Hn. apply zero_block. unfold word.
    replace (block scrambled 0 n) with (zeroes 512); [by vm_compute|].
    symmetry. unfold block. change 512 with (Z.of_nat (length (zeroes 512))) at 2.
    apply bytes_of_eq. intros i x Hx.
    destruct (write_spec blank 0 (replicate 4 (byte.of_Z 0xab))) as (d' & E & _ & _ & _ & _ & C);
      [split; [apply map_Forall_empty | by vm_compute] | done | by vm_compute |].
    unfold scrambled. rewrite E. cbn [fst]. rewrite C, overlay_out by (cbn [length replicate]; lia).
    apply lookup_replicate in Hx as [-> _]. done.
Defined.
