(* ===== verification/InspectDump.v ===== *)
(** [src/src/inspect.rs], the dump: every structure of a filesystem as a flat
    list of named fields.

    [dump] reads every AG's headers, walks every btree from its root, reads
    every inode the inode btree lists, and the log.  A field is pushed with
    how a difference in it is to be judged.  The functions over bytes are
    pure; those that read the device run in [io].  Theorems are in
    [DumpFacts.v]. *)

From Stdlib Require Import ZArith Lia String.
From stdpp Require Import base tactics list numbers strings pretty.
From coqutil Require Import Byte Word.LittleEndianList.
From S2P Require Import Prelude Bytes Fmt Crc Geometry Structs Superblock AgHeaders Btree Inode.
From S2P Require Import LogRecord Device Io Inspect.

Inductive Class : Type := Structural | Identity | Incidental.
#[export] Instance Class_eq_dec : EqDecision Class.
Proof. solve_decision. Defined.

Record Field : Type := mkField { f_key : string; f_value : string; f_class : Class }.
#[export] Instance Field_eq_dec : EqDecision Field.
Proof. solve_decision. Defined.

Record Dump : Type := mkDump { d_fields : list Field }.
Definition Dump_default : Dump := mkDump [].

Definition Dump_push (d : Dump) (key value : string) (class : Class) : Dump :=
  mkDump (d_fields d ++ [mkField key value class]).
Definition Dump_s (d : Dump) (key value : string) : Dump := Dump_push d key value Structural.
Definition Dump_get (d : Dump) (key : string) : option string :=
  f_value <$> List.find (fun f => String.eqb (f_key f) key) (d_fields d).

(** One line per field. *)
Definition to_text (d : Dump) : string :=
  String.concat EmptyString ((fun f => f_key f +:+ " = " +:+ f_value f +:+ "
") <$> d_fields d).

(** * Rendering *)

Definition uuid_str (b : buf) : string :=
  let h := hex_bytes b in
  String.substring 0 8 h +:+ "-" +:+ String.substring 8 4 h +:+ "-" +:+ String.substring 12 4 h
    +:+ "-" +:+ String.substring 16 4 h +:+ "-" +:+ String.substring 20 12 h.

(** One past the last byte that is not zero. *)
Fixpoint trimmed_len (b : buf) : nat :=
  match b with
  | [] => 0
  | x :: b =>
      match trimmed_len b with
      | O => if byte.unsigned x =? 0 then 0 else 1
      | S n => S (S n)
      end
  end.
Definition hex_trimmed (b : buf) : string := hex_bytes (take (trimmed_len b) b).
Definition hex_trimmed_full (b : buf) : string := hex_bytes b.

(** [{p}.{name}]. *)
Definition dot (p name : string) : string := p +:+ "." +:+ name.

(** A field read and shown: the read first, then the push. *)
Definition push_read (d : Dump) (key : string) (class : Class) (r : result string)
    : result Dump := v ← r; Ok (Dump_push d key v class).
Definition s_read (d : Dump) (key : string) (r : result string) : result Dump :=
  push_read d key Structural r.
(** [for (name, o) in [..] { d.s(format!("{p}.{name}"), ..) }]. *)
Definition s_each (p : string) (show : nat -> result string) (names : list (string * nat)) (d : Dump)
    : result Dump :=
  fold_result (fun d no => s_read d (dot p (fst no)) (show (snd no))) d names.

Definition dec8 (b : buf) (o : nat) : result string := pretty <$> index b o.
Definition dec16 (b : buf) (o : nat) : result string := pretty <$> be16 b o.
Definition dec32 (b : buf) (o : nat) : result string := pretty <$> be32 b o.
Definition dec64 (b : buf) (o : nat) : result string := pretty <$> be64 b o.
Definition hex16 (b : buf) (o : nat) : result string := alt_hex <$> be16 b o.
Definition hex32 (b : buf) (o : nat) : result string := alt_hex <$> be32 b o.
Definition hex64 (b : buf) (o : nat) : result string := alt_hex <$> be64 b o.
Definition uuid_at (b : buf) (o : nat) : result string := uuid_str <$> slice b o (o + 16).
Definition trimmed (b : buf) (lo hi : nat) : result string := hex_trimmed <$> slice b lo hi.

(** * One structure *)

Definition crc_fields (d : Dump) (p : string) (b : buf) (off : nat) : result Dump :=
  d ← push_read d (dot p "crc") Incidental (alt_hex_10 <$> le32 b off);
  s_read d (dot p "crc_ok") (show_bool <$> verify b off).

Definition dump_sb (d : Dump) (p : string) (b : buf) (sectsize : nat) : result Dump :=
  d ← s_each p (dec32 b) [("magicnum", Superblock.off.MAGICNUM); ("blocksize", Superblock.off.BLOCKSIZE)] d;
  d ← s_each p (dec64 b) [("dblocks", Superblock.off.DBLOCKS); ("rblocks", Superblock.off.RBLOCKS);
        ("rextents", Superblock.off.REXTENTS)] d;
  d ← push_read d (dot p "uuid") Identity (uuid_at b Superblock.off.UUID);
  d ← s_each p (dec64 b) [("logstart", Superblock.off.LOGSTART); ("rootino", Superblock.off.ROOTINO);
        ("rbmino", Superblock.off.RBMINO); ("rsumino", Superblock.off.RSUMINO)] d;
  d ← s_each p (dec32 b) [("rextsize", Superblock.off.REXTSIZE); ("agblocks", Superblock.off.AGBLOCKS);
        ("agcount", Superblock.off.AGCOUNT); ("rbmblocks", Superblock.off.RBMBLOCKS);
        ("logblocks", Superblock.off.LOGBLOCKS)] d;
  d ← s_read d (dot p "versionnum") (hex16 b Superblock.off.VERSIONNUM);
  d ← s_each p (dec16 b) [("sectsize", Superblock.off.SECTSIZE); ("inodesize", Superblock.off.INODESIZE);
        ("inopblock", Superblock.off.INOPBLOCK)] d;
  d ← s_read d (dot p "fname") (trimmed b Superblock.off.FNAME (Superblock.off.FNAME + 12));
  d ← s_each p (dec8 b) [("blocklog", Superblock.off.BLOCKLOG); ("sectlog", Superblock.off.SECTLOG);
        ("inodelog", Superblock.off.INODELOG); ("inopblog", Superblock.off.INOPBLOG);
        ("agblklog", Superblock.off.AGBLKLOG); ("rextslog", Superblock.off.REXTSLOG);
        ("inprogress", Superblock.off.INPROGRESS); ("imax_pct", Superblock.off.IMAX_PCT)] d;
  d ← s_each p (dec64 b) [("icount", Superblock.off.ICOUNT); ("ifree", Superblock.off.IFREE);
        ("fdblocks", Superblock.off.FDBLOCKS); ("frextents", Superblock.off.FREXTENTS);
        ("uquotino", Superblock.off.UQUOTINO); ("gquotino", Superblock.off.GQUOTINO)] d;
  d ← s_read d (dot p "qflags") (dec16 b Superblock.off.QFLAGS);
  d ← s_each p (dec8 b) [("flags", Superblock.off.FLAGS); ("shared_vn", Superblock.off.SHARED_VN)] d;
  d ← s_each p (dec32 b) [("inoalignmt", Superblock.off.INOALIGNMT); ("unit", Superblock.off.UNIT);
        ("width", Superblock.off.WIDTH)] d;
  d ← s_each p (dec8 b) [("dirblklog", Superblock.off.DIRBLKLOG); ("logsectlog", Superblock.off.LOGSECTLOG)] d;
  d ← s_read d (dot p "logsectsize") (dec16 b Superblock.off.LOGSECTSIZE);
  d ← s_read d (dot p "logsunit") (dec32 b Superblock.off.LOGSUNIT);
  d ← s_each p (hex32 b) [("features2", Superblock.off.FEATURES2);
        ("bad_features2", Superblock.off.BAD_FEATURES2); ("features_compat", Superblock.off.FEATURES_COMPAT);
        ("features_ro_compat", Superblock.off.FEATURES_RO_COMPAT);
        ("features_incompat", Superblock.off.FEATURES_INCOMPAT);
        ("features_log_incompat", Superblock.off.FEATURES_LOG_INCOMPAT)] d;
  d ← s_read d (dot p "spino_align") (dec32 b Superblock.off.SPINO_ALIGN);
  d ← s_each p (dec64 b) [("pquotino", Superblock.off.PQUOTINO); ("lsn", Superblock.off.LSN)] d;
  d ← s_read d (dot p "meta_uuid") (trimmed b Superblock.off.META_UUID (Superblock.off.META_UUID + 16));
  d ← s_read d (dot p "tail") (trimmed b Superblock.off.END sectsize);
  s ← slice b 0 sectsize;
  crc_fields d p s Superblock.off.CRC.

Definition dump_agf (d : Dump) (p : string) (b : buf) : result Dump :=
  d ← s_each p (dec32 b) [("magicnum", agf.MAGICNUM); ("versionnum", agf.VERSIONNUM); ("seqno", agf.SEQNO);
        ("length", agf.LENGTH); ("bnoroot", agf.BNO_ROOT); ("cntroot", agf.CNT_ROOT);
        ("rmaproot", agf.RMAP_ROOT); ("bnolevel", agf.BNO_LEVEL); ("cntlevel", agf.CNT_LEVEL);
        ("rmaplevel", agf.RMAP_LEVEL); ("flfirst", agf.FLFIRST); ("fllast", agf.FLLAST);
        ("flcount", agf.FLCOUNT); ("freeblks", agf.FREEBLKS); ("longest", agf.LONGEST);
        ("btreeblks", agf.BTREEBLKS); ("rmapblocks", agf.RMAP_BLOCKS);
        ("refcntblocks", agf.REFCOUNT_BLOCKS); ("refcntroot", agf.REFCOUNT_ROOT);
        ("refcntlevel", agf.REFCOUNT_LEVEL)] d;
  d ← push_read d (dot p "uuid") Identity (uuid_at b agf.UUID);
  d ← s_read d (dot p "spare") (trimmed b (agf.REFCOUNT_LEVEL + 4) agf.LSN);
  d ← s_read d (dot p "lsn") (dec64 b agf.LSN);
  d ← s_read d (dot p "tail") (trimmed b (agf.CRC + 4) (length b));
  crc_fields d p b agf.CRC.

(** The entries of a table of block numbers that are not null. *)
Definition unlinked (b : buf) : result (list string) :=
  vs ← collect (A := nat) (B := Z) (fun i => be32 b (agi.UNLINKED + 4 * i)) (seq 0 64);
  Ok (pretty <$> filter (fun v => v <> NULL32) (vs : list Z)).

Definition dump_agi (d : Dump) (p : string) (b : buf) : result Dump :=
  d ← s_each p (dec32 b) [("magicnum", agi.MAGICNUM); ("versionnum", agi.VERSIONNUM); ("seqno", agi.SEQNO);
        ("length", agi.LENGTH); ("count", agi.COUNT); ("root", agi.ROOT); ("level", agi.LEVEL);
        ("freecount", agi.FREECOUNT); ("newino", agi.NEWINO); ("dirino", agi.DIRINO);
        ("free_root", agi.FREE_ROOT); ("free_level", agi.FREE_LEVEL); ("iblocks", agi.IBLOCKS);
        ("fblocks", agi.FBLOCKS)] d;
  d ← s_read d (dot p "unlinked") (String.concat "," <$> unlinked b);
  d ← push_read d (dot p "uuid") Identity (uuid_at b agi.UUID);
  d ← s_read d (dot p "lsn") (dec64 b agi.LSN);
  d ← s_read d (dot p "pad") (dec32 b (agi.CRC + 4));
  d ← s_read d (dot p "tail") (trimmed b agi.END (length b));
  crc_fields d p b agi.CRC.

Definition agfl_list (b : buf) : result (list string) :=
  vs ← collect (A := nat) (B := nat * Z) (fun i => (fun v => (i, v)) <$> be32 b (agfl.BNO + 4 * i)) (seq 0 ((length b - agfl.BNO) / 4));
  Ok ((fun iv => pretty (fst iv) +:+ ":" +:+ pretty (snd iv)) <$> filter (fun iv => snd iv <> NULL32) (vs : list (nat * Z))).

Definition dump_agfl (d : Dump) (p : string) (b : buf) : result Dump :=
  d ← s_each p (dec32 b) [("magicnum", agfl.MAGICNUM); ("seqno", agfl.SEQNO)] d;
  d ← push_read d (dot p "uuid") Identity (uuid_at b agfl.UUID);
  d ← s_read d (dot p "lsn") (dec64 b agfl.LSN);
  (if (length b <? agfl.BNO)%nat then Panic else Ok tt);;
  d ← s_read d (dot p "bno") (String.concat "," <$> agfl_list b);
  crc_fields d p b agfl.CRC.

Definition show_time (b : buf) (bigtime : bool) (o : nat) : result string :=
  raw ← be64 b o;
  let t := decode_time raw bigtime in
  Ok (pretty (secs t) +:+ "." +:+ pad_zero 9 (pretty (nsecs t))).

Definition dump_inode (d : Dump) (p : string) (b : buf) : result Dump :=
  flags2 ← be64 b Inode.off.FLAGS2;
  let bigtime := negb (Z.land flags2 DIFLAG2_BIGTIME =? 0) in
  d ← s_read d (dot p "magic") (hex16 b Inode.off.MAGIC);
  d ← s_read d (dot p "mode") (octal <$> be16 b Inode.off.MODE);
  d ← s_each p (dec8 b) [("version", Inode.off.VERSION); ("format", Inode.off.FORMAT)] d;
  d ← s_read d (dot p "metatype") (dec16 b Inode.off.METATYPE);
  d ← s_each p (dec32 b) [("uid", Inode.off.UID); ("gid", Inode.off.GID); ("nlink", Inode.off.NLINK)] d;
  d ← s_read d (dot p "projid")
        (hi ← be16 b Inode.off.PROJID_HI; lo ← be16 b Inode.off.PROJID_LO;
         Ok (pretty (Z.lor (shl32 hi 16) lo)));
  d ← s_read d (dot p "big_nextents") (dec64 b Inode.off.BIG_NEXTENTS);
  d ← fold_result (fun d no => push_read d (dot p (fst no)) Incidental (show_time b bigtime (snd no))) d
        [("atime", Inode.off.ATIME); ("mtime", Inode.off.MTIME); ("ctime", Inode.off.CTIME);
         ("crtime", Inode.off.CRTIME)];
  d ← s_each p (dec64 b) [("size", Inode.off.SIZE); ("nblocks", Inode.off.NBLOCKS)] d;
  d ← s_each p (dec32 b) [("extsize", Inode.off.EXTSIZE); ("nextents", Inode.off.NEXTENTS)] d;
  d ← s_read d (dot p "anextents") (dec16 b Inode.off.ANEXTENTS);
  d ← s_each p (dec8 b) [("forkoff", Inode.off.FORKOFF); ("aformat", Inode.off.AFORMAT)] d;
  d ← s_read d (dot p "dmevmask") (dec32 b Inode.off.DMEVMASK);
  d ← s_read d (dot p "dmstate") (dec16 b Inode.off.DMSTATE);
  d ← s_read d (dot p "flags") (hex16 b Inode.off.FLAGS);
  d ← push_read d (dot p "gen") Incidental (dec32 b Inode.off.GEN);
  d ← s_read d (dot p "next_unlinked") (dec32 b Inode.off.NEXT_UNLINKED);
  d ← s_each p (dec64 b) [("changecount", Inode.off.CHANGECOUNT); ("lsn", Inode.off.LSN)] d;
  let d := Dump_s d (dot p "flags2") (alt_hex flags2) in
  d ← s_read d (dot p "cowextsize") (dec32 b Inode.off.COWEXTSIZE);
  d ← s_read d (dot p "pad2") (trimmed b (Inode.off.COWEXTSIZE + 4) Inode.off.CRTIME);
  d ← s_read d (dot p "ino") (dec64 b Inode.off.INO);
  d ← push_read d (dot p "uuid") Identity (uuid_at b Inode.off.UUID);
  d ← s_read d (dot p "literal") (trimmed b CORE_SIZE (length b));
  crc_fields d p b Inode.off.CRC.

(** * The btrees *)

(** [struct Tree]: a per-AG btree. *)
Record Tree : Type := mkTree { t_name : string; t_magic : Z; t_key : nat; t_rec : nat }.

Definition BNOBT : Tree := mkTree "bnobt" magic.BNO 8 ALLOC_REC.
Definition CNTBT : Tree := mkTree "cntbt" magic.CNT 8 ALLOC_REC.
Definition INOBT : Tree := mkTree "inobt" magic.INO 4 INOBT_REC.
Definition FINOBT : Tree := mkTree "finobt" magic.FINO 4 INOBT_REC.
Definition RMAPBT : Tree := mkTree "rmapbt" magic.RMAP 40 RMAP_REC.
Definition REFCBT : Tree := mkTree "refcntbt" magic.REFC 4 REFC_REC.

(** What the walk gathers: the dump, the leaf records, the next level. *)
Record Walk : Type := mkWalk { k_dump : Dump; k_leaves : list buf; k_next : list Z }.

(** [{p}.rec[{r}]]. *)
Definition nth_of (p name : string) (r : nat) : string := dot p name +:+ "[" +:+ pretty r +:+ "]".

(** [for r in 0..n] over a leaf's records. *)
Definition leaf_rec (t : Tree) (bp : string) (b : buf) (w : Walk) (r : nat) : result Walk :=
  let at_ := (Btree.off.RECS + r * t_rec t)%nat in
  rec ← slice b at_ (at_ + t_rec t);
  Ok (mkWalk (Dump_s (k_dump w) (nth_of bp "rec" r) (hex_trimmed_full rec))
        (k_leaves w ++ [rec]) (k_next w)).
(** [for r in 0..n] over a node's keys and pointers. *)
Definition node_rec (t : Tree) (bp : string) (b : buf) (maxrecs : nat) (w : Walk) (r : nat) : result Walk :=
  let k := (Btree.off.RECS + r * t_key t)%nat in
  ptr ← be32 b (Btree.off.RECS + maxrecs * t_key t + 4 * r);
  key ← slice b k (k + t_key t);
  let d := Dump_s (k_dump w) (nth_of bp "key" r) (hex_trimmed_full key) in
  Ok (mkWalk (Dump_s d (nth_of bp "ptr" r) (pretty ptr)) (k_leaves w) (k_next w ++ [ptr])).

(** A block of the tree whose magic is right. *)
Definition tree_header (t : Tree) (bp : string) (b : buf) (d : Dump) : result (Dump * Z * nat) :=
  level ← be16 b Btree.off.LEVEL;
  n ← be16 b Btree.off.NUMRECS;
  let d := Dump_s d (dot bp "level") (pretty level) in
  let d := Dump_s d (dot bp "numrecs") (pretty n) in
  d ← s_each bp (dec32 b) [("leftsib", Btree.off.LEFTSIB); ("rightsib", Btree.off.RIGHTSIB)] d;
  d ← s_each bp (dec64 b) [("blkno", Btree.off.BLKNO); ("lsn", Btree.off.LSN)] d;
  d ← push_read d (dot bp "uuid") Identity (uuid_at b Btree.off.UUID);
  d ← s_read d (dot bp "owner") (dec32 b Btree.off.OWNER);
  d ← crc_fields d bp b Btree.off.CRC;
  Ok (d, level, Z.to_nat n).

Definition tree_records (t : Tree) (bp : string) (b : buf) (level : Z) (n : nat) (w : Walk) : result Walk :=
  let space := (length b - Btree.off.RECS)%nat in
  if level =? 0 then
    let n := Nat.min n (space / t_rec t) in
    w ← fold_result (leaf_rec t bp b) w (seq 0 n);
    d ← s_read (k_dump w) (dot bp "slack") (trimmed b (Btree.off.RECS + n * t_rec t) (length b));
    Ok (mkWalk d (k_leaves w) (k_next w))
  else
    let maxrecs := (space / (t_key t + 4))%nat in
    fold_result (node_rec t bp b maxrecs) w (seq 0 (Nat.min n maxrecs)).

(** One block read. *)
Definition tree_block (t : Tree) (bp : string) (agbno : Z) (b : buf) (w : Walk) : result Walk :=
  let d := Dump_s (k_dump w) (dot bp "block") (pretty agbno) in
  m ← be32 b Btree.off.MAGIC;
  let d := Dump_s d (dot bp "magic") (alt_hex m) in
  if negb (m =? t_magic t) then Ok (mkWalk d (k_leaves w) (k_next w))
  else
    '(d, level, n) ← tree_header t bp b d;
    tree_records t bp b level n (mkWalk d (k_leaves w) (k_next w)).

Section Walk.
Context {D : Type} `{BlockDevice D}.
Variables (g : Geo) (agno : Z) (t : Tree).

(** [{p}.l{depth}[{i}]]. *)
Definition block_name (depth i : nat) : string :=
  "ag[" +:+ pretty agno +:+ "]." +:+ t_name t +:+ ".l" +:+ pretty depth +:+ "[" +:+ pretty i +:+ "]".

(** The blocks of a level, in order. *)
Fixpoint walk_level (depth i : nat) (blocks : list Z) (w : Walk) : io D Walk :=
  match blocks with
  | [] => mret w
  | agbno :: blocks =>
      let bp := block_name depth i in
      w ← (if Geo_ag_len g agno <=? agbno
           then mret (mkWalk (Dump_s (k_dump w) (dot bp "block") (pretty agbno +:+ " (outside the AG)"))
                        (k_leaves w) (k_next w))
           else b ← read (Geo_byte g agno agbno) (geo_blocksize g); lift (tree_block t bp agbno b w));
      walk_level depth (S i) blocks w
  end.

(** [while !level_blocks.is_empty()]: no more than 17 levels. *)
Fixpoint walk_levels (fuel depth : nat) (blocks : list Z) (d : Dump) (leaves : list buf)
    : io D (Dump * list buf) :=
  match blocks with
  | [] => mret (d, leaves)
  | _ =>
      match fuel with
      | O => lift OutOfFuel
      | S fuel =>
          w ← walk_level depth 0 blocks (mkWalk d leaves []);
          if (16 <? S depth)%nat
          then lift (Err (Corrupt ("ag[" +:+ pretty agno +:+ "]." +:+ t_name t
                                   +:+ " is deeper than any real btree")))
          else walk_levels fuel (S depth) (k_next w) (k_dump w) (k_leaves w)
      end
  end.
Definition dump_tree (d : Dump) (root : Z) : io D (Dump * list buf) := walk_levels 18 0 [root] d [].
End Walk.

(** * Everything *)

Section Dump.
Context {D : Type} `{BlockDevice D}.

Section Group.
Variables (g : Geo) (agno : Z).

(** One inode of a chunk, holes skipped. *)
Definition chunk_inode (startino holemask : Z) (d : Dump) (i : Z) : io D Dump :=
  if negb (Z.land holemask (Z.shiftl 1 (i / 4)) =? 0) then mret d else
  let agino := u64 (startino + i) in
  let agbno := shr64 agino (geo_inopblog g) in
  let slot := Z.land agino (u64 (shl64 1 (geo_inopblog g) - 1)) in
  if Geo_ag_len g agno <=? agbno
  then lift (Err (Corrupt ("inode chunk at " +:+ pretty startino +:+ " runs out of AG " +:+ pretty agno)))
  else
    block ← read (Geo_byte g agno agbno) (geo_blocksize g);
    let at_ := u64 (slot * geo_inodesize g) in
    let ino := Z.lor (shl64 agno (u32 (geo_agblklog g + geo_inopblog g))) agino in
    b ← lift (slice block (Z.to_nat at_) (Z.to_nat (u64 (at_ + geo_inodesize g))));
    lift (dump_inode d ("inode[" +:+ pretty ino +:+ "]") b).

Fixpoint io_fold {A S} (f : S -> A -> io D S) (s : S) (l : list A) : io D S :=
  match l with
  | [] => mret s
  | x :: l => s ← f s x; io_fold f s l
  end.

(** The inodes of a record of the inode btree. *)
Definition dump_chunk (d : Dump) (rec : buf) : io D Dump :=
  startino ← lift (be32 rec 0);
  holemask ← (if negb (Z.land (geo_incompat g) version.IN_SPINODES =? 0)
              then lift (be16 rec 4) else mret 0);
  io_fold (chunk_inode startino holemask) d (seqZ 0 64).

(** The btrees of an AG, and its inodes. *)
Definition dump_trees (agf_b agi_b : buf) (d : Dump) : io D Dump :=
  r ← lift (be32 agf_b agf.BNO_ROOT);
  '(d, _) ← dump_tree g agno BNOBT d r;
  r ← lift (be32 agf_b agf.CNT_ROOT);
  '(d, _) ← dump_tree g agno CNTBT d r;
  d ← (if Geo_has g version.RO_RMAPBT then
         r ← lift (be32 agf_b agf.RMAP_ROOT);
         '(d, _) ← dump_tree g agno RMAPBT d r; mret d
       else mret d);
  d ← (if Geo_has g version.RO_REFLINK then
         r ← lift (be32 agf_b agf.REFCOUNT_ROOT);
         '(d, _) ← dump_tree g agno REFCBT d r; mret d
       else mret d);
  r ← lift (be32 agi_b agi.ROOT);
  '(d, chunks) ← dump_tree g agno INOBT d r;
  d ← (if Geo_has g version.RO_FINOBT then
         r ← lift (be32 agi_b agi.FREE_ROOT);
         '(d, _) ← dump_tree g agno FINOBT d r; mret d
       else mret d);
  io_fold dump_chunk d chunks.

(** The headers of an AG, then what they point at. *)
Definition headers_bad (agf_b agi_b agfl_b : buf) : result bool :=
  a ← be32 agf_b agf.MAGICNUM;
  if negb (a =? AGF_MAGIC) then Ok true else
  i ← be32 agi_b agi.MAGICNUM;
  if negb (i =? AGI_MAGIC) then Ok true else
  l ← be32 agfl_b agfl.MAGICNUM;
  Ok (negb (l =? AGFL_MAGIC)).

Definition dump_ag (d : Dump) : io D Dump :=
  let ss := Z.to_nat (geo_sectsize g) in
  let hblocks := div_ceil (u64 (4 * geo_sectsize g)) (geo_blocksize g) in
  head ← read (Geo_byte g agno 0) (u64 (hblocks * geo_blocksize g));
  let p := "ag[" +:+ pretty agno +:+ "]" in
  sb_b ← lift (slice head 0 ss);
  d ← lift (dump_sb d (dot p "sb") sb_b ss);
  agf_b ← lift (slice head ss (2 * ss));
  agi_b ← lift (slice head (2 * ss) (3 * ss));
  agfl_b ← lift (slice head (3 * ss) (4 * ss));
  bad ← lift (headers_bad agf_b agi_b agfl_b);
  if (bad : bool) then mret (Dump_s d (dot p "headers") "bad magic")
  else
    d ← lift (dump_agf d (dot p "agf") agf_b);
    d ← lift (dump_agi d (dot p "agi") agi_b);
    d ← lift (dump_agfl d (dot p "agfl") agfl_b);
    dump_trees agf_b agi_b d.
End Group.

(** ** The log *)

(** Its header, from the first block. *)
Definition dump_log_header (d : Dump) (first : buf) (rec_len : nat) : result Dump :=
  h ← slice first 0 512;
  d ← s_each "log.header" (hex32 h) [("magicno", LogRecord.off.MAGICNO); ("cycle", LogRecord.off.CYCLE);
        ("version", LogRecord.off.VERSION); ("len", LogRecord.off.LEN); ("crc", LogRecord.off.CRC);
        ("prev_block", LogRecord.off.PREV_BLOCK); ("num_logops", LogRecord.off.NUM_LOGOPS);
        ("cycle_data0", LogRecord.off.CYCLE_DATA); ("fmt", LogRecord.off.FMT); ("size", LogRecord.off.SIZE)] d;
  d ← s_read d "log.header.lsn" (hex64 h LogRecord.off.LSN);
  d ← s_read d "log.header.tail_lsn" (hex64 h LogRecord.off.TAIL_LSN);
  d ← push_read d "log.header.uuid" Identity (uuid_at h LogRecord.off.FS_UUID);
  d ← s_read d "log.header.rest" (trimmed h (LogRecord.off.SIZE + 4) (length h));
  s_read d "log.record" (trimmed first 512 (Nat.min rec_len (length first))).

Definition any_nonzero (b : buf) : bool := existsb (fun x => negb (byte.unsigned x =? 0)) b.
(** [buf.chunks(bs).filter(nonzero).count()]; [chunks] panics on 0. *)
Definition count_nonzero (bs : nat) (b : buf) : result Z :=
  if (bs =? 0)%nat then Panic
  else Ok (Z.of_nat (length (filter (fun i => any_nonzero (take bs (drop (i * bs) b)) = true)
         (seq 0 (Z.to_nat (div_ceil (Z.of_nat (length b)) (Z.of_nat bs))))))).

(** [while at < log_len]: a MiB at a time. *)
Fixpoint scan_log (fuel : nat) (bs log_at log_len at_ nonzero : Z) : io D Z :=
  match fuel with
  | O => lift OutOfFuel
  | S fuel =>
      if at_ <? log_len then
        let n := Z.min (Z.shiftl 1 20) (log_len - at_) in
        b ← read (u64 (log_at + at_)) n;
        c ← lift (count_nonzero (Z.to_nat bs) b);
        scan_log fuel bs log_at log_len (u64 (at_ + n)) (u64 (nonzero + c))
      else mret nonzero
  end.

Definition dump_log (g : Geo) (d : Dump) : io D Dump :=
  let bs := geo_blocksize g in
  let log_ag := shr64 (geo_logstart g) (geo_agblklog g) in
  let log_agbno := Z.land (geo_logstart g) (u64 (shl64 1 (geo_agblklog g) - 1)) in
  let log_at := Geo_byte g log_ag log_agbno in
  first ← read log_at bs;
  let sunit := clear_sunit (geo_logsunit g) (geo_logsectsize g) in
  let rec_len := Z.to_nat (Z.max (if 0 <? sunit then div_ceil sunit 512 else 2) 2 * 512) in
  d ← lift (dump_log_header d first rec_len);
  rest ← lift (slice first (Nat.min rec_len (length first)) (length first));
  let log_len := u64 (geo_logblocks g * bs) in
  nonzero ← scan_log (Z.to_nat (log_len / 2 ^ 20 + 2)) bs log_at log_len bs (Z.b2z (any_nonzero rest));
  mret (Dump_s d "log.nonzero_blocks_after_first_record" (pretty nonzero)).

Definition dump : io D Dump :=
  g ← geometry;
  d ← io_fold (fun d agno => dump_ag g agno d) Dump_default (seqZ 0 (geo_agcount g));
  dump_log g d.
End Dump.
