(* ===== verification/DumpFacts.v ===== *)
(** The dump on any device at all.

    Nothing is known of the bytes: every function answers, with a value or an
    error, and no slice, index or shift is out of range, as long as the
    superblock's inode geometry agrees with its block size.  [Geo_parse] does
    not check that it does: [dump_panics_on_a_bad_inopblog] is an image it
    accepts and the dump panics on. *)

From Stdlib Require Import ZArith Lia String.
From stdpp Require Import base tactics list numbers strings pretty.
From coqutil Require Import Byte Word.LittleEndianList.
From S2P Require Import Prelude Bytes Fmt Crc Geometry GeometryFacts Structs Superblock AgHeaders.
From S2P Require Import Btree Inode LogRecord Device Io Inspect InspectDump Admin AdminFacts.
From S2P Require Import Format FormatFacts InspectFacts.

(** * Fields *)

Definition any {A} (_ : A) : Prop := True.

Lemma good_slice b lo hi : (lo <= hi <= length b)%nat ->
  good (fun s => length s = (hi - lo)%nat) (slice b lo hi).
Proof. intros Hb. rewrite slice_in by done. cbn. rewrite length_take, length_drop. lia. Qed.

Lemma good_be32 b o : (o + 4 <= length b)%nat -> good (fun v => 0 <= v < 2 ^ 32) (be32 b o).
Proof.
  intros Ho. unfold be32. rewrite slice_in by lia. cbn.
  pose proof (of_be_bytes_range (take (o + 4 - o) (drop o b))) as Hr.
  rewrite length_take, length_drop in Hr. replace (_ `min` _)%nat with 4%nat in Hr by lia. exact Hr.
Qed.
Lemma good_be64 b o : (o + 8 <= length b)%nat -> good (fun v => 0 <= v < 2 ^ 64) (be64 b o).
Proof.
  intros Ho. unfold be64. rewrite slice_in by lia. cbn.
  pose proof (of_be_bytes_range (take (o + 8 - o) (drop o b))) as Hr.
  rewrite length_take, length_drop in Hr. replace (_ `min` _)%nat with 8%nat in Hr by lia. exact Hr.
Qed.
Lemma good_le32 b o : (o + 4 <= length b)%nat -> good any (le32 b o).
Proof. intros Ho. unfold le32. by rewrite slice_in by lia. Qed.
Lemma good_be16 b o : (o + 2 <= length b)%nat -> good (fun v => 0 <= v < 2 ^ 16) (be16 b o).
Proof.
  intros Ho. rewrite be16_slice, slice_in by lia. cbn.
  pose proof (of_be_bytes_range (take (o + 2 - o) (drop o b))) as Hr.
  rewrite length_take, length_drop in Hr. replace (_ `min` _)%nat with 2%nat in Hr by lia. exact Hr.
Qed.
Lemma good_index b o : (o + 1 <= length b)%nat -> good (fun v => 0 <= v < 2 ^ 8) (index b o).
Proof.
  intros Ho. rewrite index_slice, slice_in by lia. cbn.
  pose proof (of_be_bytes_range (take (o + 1 - o) (drop o b))) as Hr.
  rewrite length_take, length_drop in Hr. replace (_ `min` _)%nat with 1%nat in Hr by lia. exact Hr.
Qed.

Lemma good_any {A} (P : A -> Prop) r : good P r -> good any r.
Proof. intros Hr. by eapply good_weaken. Qed.

Lemma good_dec8 b o : (o + 1 <= length b)%nat -> good any (dec8 b o).
Proof. intros Ho. apply good_fmap. eapply good_any, good_index, Ho. Qed.
Lemma good_dec16 b o : (o + 2 <= length b)%nat -> good any (dec16 b o).
Proof. intros Ho. apply good_fmap. eapply good_any, good_be16, Ho. Qed.
Lemma good_dec32 b o : (o + 4 <= length b)%nat -> good any (dec32 b o).
Proof. intros Ho. apply good_fmap. eapply good_any, good_be32, Ho. Qed.
Lemma good_dec64 b o : (o + 8 <= length b)%nat -> good any (dec64 b o).
Proof. intros Ho. apply good_fmap. eapply good_any, good_be64, Ho. Qed.
Lemma good_hex16 b o : (o + 2 <= length b)%nat -> good any (hex16 b o).
Proof. intros Ho. apply good_fmap. eapply good_any, good_be16, Ho. Qed.
Lemma good_hex32 b o : (o + 4 <= length b)%nat -> good any (hex32 b o).
Proof. intros Ho. apply good_fmap. eapply good_any, good_be32, Ho. Qed.
Lemma good_hex64 b o : (o + 8 <= length b)%nat -> good any (hex64 b o).
Proof. intros Ho. apply good_fmap. eapply good_any, good_be64, Ho. Qed.
Lemma good_uuid_at b o : (o + 16 <= length b)%nat -> good any (uuid_at b o).
Proof. intros Ho. apply good_fmap. eapply good_any, good_slice. lia. Qed.
Lemma good_trimmed b lo hi : (lo <= hi <= length b)%nat -> good any (trimmed b lo hi).
Proof. intros Ho. apply good_fmap. by eapply good_any, good_slice. Qed.
Lemma good_verify b o : (o + 4 <= length b)%nat -> good any (verify b o).
Proof.
  intros Ho. unfold verify, cksum, le32. rewrite (proj2 (Nat.leb_le _ _) Ho), !slice_in by lia.
  exact I.
Qed.

Lemma good_push_read d key c r : good any r -> good any (push_read d key c r).
Proof. intros Hr. by apply (good_bind any). Qed.
Lemma good_s_read d key r : good any r -> good any (s_read d key r).
Proof. apply good_push_read. Qed.

(** A list of fields that end before [n]. *)
Definition within (n k : nat) (names : list (string * nat)) : bool :=
  forallb (fun no => (snd no + k <=? n)%nat) names.

Lemma good_s_each n k p show names d : within n k names = true ->
  (forall o, (o + k <= n)%nat -> good any (show o)) -> good any (s_each p show names d).
Proof.
  intros Hw Hs. apply good_fold; [done|]. intros s no _ Hin. apply good_s_read, Hs.
  unfold within in Hw. rewrite forallb_forall in Hw. apply Nat.leb_le, Hw. by apply list_elem_of_In.
Qed.

Lemma good_crc_fields d p b o : (o + 4 <= length b)%nat -> good any (crc_fields d p b o).
Proof.
  intros Ho. apply (good_bind any); [by apply good_push_read, good_fmap, good_le32|].
  intros d' _. by apply good_s_read, good_fmap, good_verify.
Qed.

(** Walk down the pushes of a structure of at least [n] bytes. *)
Ltac good_fields n :=
  repeat match goal with
  | |- good any (slice _ ?lo ?hi ≫= _) =>
      apply (good_bind (fun s => length s = (hi - lo)%nat)); [apply good_slice; lia | intros ? ?]
  | |- good any (_ ≫= _) => apply (good_bind any); [|intros ? _]
  | |- good any (s_each _ (dec8 _) _ _) => apply (good_s_each n 1); [reflexivity | intros ? ?; apply good_dec8; lia]
  | |- good any (s_each _ (dec16 _) _ _) => apply (good_s_each n 2); [reflexivity | intros ? ?; apply good_dec16; lia]
  | |- good any (s_each _ (dec32 _) _ _) => apply (good_s_each n 4); [reflexivity | intros ? ?; apply good_dec32; lia]
  | |- good any (s_each _ (dec64 _) _ _) => apply (good_s_each n 8); [reflexivity | intros ? ?; apply good_dec64; lia]
  | |- good any (s_each _ (hex32 _) _ _) => apply (good_s_each n 4); [reflexivity | intros ? ?; apply good_hex32; lia]
  | |- good any (push_read _ _ _ (uuid_at _ ?o)) => apply good_push_read, good_uuid_at; unfold o
  | |- good any (push_read _ _ _ (dec32 _ ?o)) => apply good_push_read, good_dec32; unfold o
  | |- good any (s_read _ _ (dec16 _ ?o)) => apply good_s_read, good_dec16; unfold o
  | |- good any (s_read _ _ (dec32 _ _)) => apply good_s_read, good_dec32
  | |- good any (s_read _ _ (dec64 _ ?o)) => apply good_s_read, good_dec64; unfold o
  | |- good any (s_read _ _ (hex16 _ ?o)) => apply good_s_read, good_hex16; unfold o
  | |- good any (s_read _ _ (hex64 _ ?o)) => apply good_s_read, good_hex64; unfold o
  | |- good any (s_read _ _ (trimmed _ _ _)) => apply good_s_read, good_trimmed
  | |- good any (crc_fields _ _ _ ?o) => apply good_crc_fields; unfold o
  end; try lia.

(** * Structures *)

Lemma good_dump_sb d p b ss : (512 <= ss <= length b)%nat -> good any (dump_sb d p b ss).
Proof.
  intros Hs. unfold dump_sb. good_fields 264%nat; unfold Superblock.off.FNAME, Superblock.off.META_UUID, Superblock.off.END,
    Superblock.off.SPINO_ALIGN, Superblock.off.LOGSUNIT; lia.
Qed.

Lemma good_dump_agf d p b : (512 <= length b)%nat -> good any (dump_agf d p b).
Proof.
  intros Hs. unfold dump_agf. good_fields 264%nat; unfold agf.REFCOUNT_LEVEL, agf.LSN, agf.CRC; lia.
Qed.

Lemma good_dump_agi d p b : (512 <= length b)%nat -> good any (dump_agi d p b).
Proof.
  intros Hs. unfold dump_agi. good_fields 400%nat; unfold agi.CRC, agi.END; try lia.
  apply good_s_read, good_fmap, (good_bind any); [|done].
  eapply good_any, good_collect. intros i Hi%elem_of_seq. eapply good_be32. unfold agi.UNLINKED. lia.
Qed.

Lemma good_dump_agfl d p b : (512 <= length b)%nat -> good any (dump_agfl d p b).
Proof.
  intros Hs. unfold dump_agfl. good_fields 400%nat.
  - unfold agfl.BNO. by rewrite (proj2 (Nat.ltb_ge _ _)) by lia.
  - apply good_s_read, good_fmap, (good_bind any); [|done].
    eapply good_any, (good_collect any). intros i Hi%elem_of_seq. apply good_fmap.
    eapply good_any, good_be32. pose proof (Nat.Div0.mul_div_le (length b - agfl.BNO) 4).
    unfold agfl.BNO in *. lia.
Qed.

Lemma good_dump_inode d p b : (256 <= length b)%nat -> good any (dump_inode d p b).
Proof.
  intros Hs. unfold dump_inode. apply (good_bind any); [eapply good_any, good_be64; unfold Inode.off.FLAGS2; lia|].
  intros flags2 _. cbv zeta. good_fields 256%nat;
    unfold Inode.off.DMEVMASK, Inode.off.NEXT_UNLINKED, Inode.off.COWEXTSIZE, Inode.off.CRTIME, CORE_SIZE; try lia.
  - eapply good_s_read, good_fmap, good_any, good_be16. unfold Inode.off.MODE. lia.
  - apply good_s_read. do 2 (apply (good_bind any); [eapply good_any, good_be16;
      unfold Inode.off.PROJID_HI, Inode.off.PROJID_LO; lia | intros ? _]). done.
  - apply good_fold; [done|]. intros d' no _ Hin. apply good_push_read, (good_bind any); [|done].
    eapply good_any, good_be64. rewrite !elem_of_cons in Hin.
    destruct Hin as [->|[->|[->|[->|[]%elem_of_nil]]]]; cbn [snd];
      unfold Inode.off.ATIME, Inode.off.MTIME, Inode.off.CTIME; lia.
Qed.

(** * The btrees *)

(** A tree whose records and keys take room; every tree of the program. *)
Definition tree_ok (t : Tree) : Prop := (0 < t_rec t)%nat.

(** The records gathered are whole. *)
Definition walk_ok (t : Tree) (w : Walk) : Prop :=
  Forall (fun r => length r = t_rec t) (k_leaves w) /\ Forall (fun n => 0 <= n < 2 ^ 32) (k_next w).

Lemma good_leaf_rec t bp b w r n : walk_ok t w -> (r < n)%nat ->
  (n <= (length b - Btree.off.RECS) / t_rec t)%nat -> (Btree.off.RECS <= length b)%nat -> tree_ok t ->
  good (walk_ok t) (leaf_rec t bp b w r).
Proof.
  intros [Wl Wn] Hr Hn Hb Ht. unfold leaf_rec. unfold tree_ok in Ht.
  pose proof (Nat.Div0.mul_div_le (length b - Btree.off.RECS) (t_rec t)).
  assert ((r + 1) * t_rec t <= (length b - Btree.off.RECS) / t_rec t * t_rec t)%nat
    by (apply Nat.mul_le_mono_r; lia).
  apply (good_bind (fun s => length s = t_rec t)).
  { eapply good_weaken; [apply good_slice; lia | cbn; lia]. }
  intros rec Hl. cbn. split; [|done]. cbn. apply Forall_app. by rewrite Forall_singleton.
Qed.

Lemma good_node_rec t bp b maxrecs w r : walk_ok t w -> (r < maxrecs)%nat ->
  (maxrecs * (t_key t + 4) <= length b - Btree.off.RECS)%nat -> (Btree.off.RECS <= length b)%nat ->
  good (walk_ok t) (node_rec t bp b maxrecs w r).
Proof.
  intros [Wl Wn] Hr Hm Hb. unfold node_rec.
  assert ((r + 1) * t_key t <= maxrecs * t_key t)%nat by (apply Nat.mul_le_mono_r; lia).
  eapply good_bind; [apply good_be32; lia|]. intros ptr Hp. cbv beta in Hp.
  apply (good_bind any); [eapply good_any, good_slice; lia|]. intros key _. cbn.
  split; [done|]. cbn. apply Forall_app. by rewrite Forall_singleton.
Qed.

Lemma good_tree_records t bp b level n w : walk_ok t w -> (Btree.off.RECS <= length b)%nat -> tree_ok t ->
  good (walk_ok t) (tree_records t bp b level n w).
Proof.
  intros Hw Hb Ht. unfold tree_records. destruct (level =? 0).
  - pose proof (Nat.Div0.mul_div_le (length b - Btree.off.RECS) (t_rec t)).
    set (m := (n `min` _)%nat).
    assert (m * t_rec t <= (length b - Btree.off.RECS) / t_rec t * t_rec t)%nat
      by (apply Nat.mul_le_mono_r; lia).
    apply (good_bind (walk_ok t)).
    { apply good_fold; [done|]. intros w' r Hw' Hr%elem_of_seq.
      apply (good_leaf_rec _ _ _ _ _ m); done || lia. }
    intros w' [Wl Wn]. apply (good_bind any); [apply good_s_read, good_trimmed; lia | done].
  - set (m := (_ / _)%nat).
    assert (m * (t_key t + 4) <= length b - Btree.off.RECS)%nat.
    { unfold m. rewrite Nat.mul_comm. apply Nat.Div0.mul_div_le. }
    apply good_fold; [done|]. intros w' r Hw' Hr%elem_of_seq. apply good_node_rec; done || lia.
Qed.

Lemma good_tree_block t bp agbno b w : walk_ok t w -> (512 <= length b)%nat -> tree_ok t ->
  good (walk_ok t) (tree_block t bp agbno b w).
Proof.
  intros Hw Hb Ht. unfold tree_block. cbv zeta.
  apply (good_bind any); [eapply good_any, good_be32; unfold Btree.off.MAGIC; lia|]. intros m _.
  destruct (negb _); [exact Hw|].
  apply (good_bind any).
  { unfold tree_header. do 2 (apply (good_bind any);
      [eapply good_any, good_be16; unfold Btree.off.LEVEL, Btree.off.NUMRECS; lia | intros ? _]).
    cbv zeta. good_fields 64%nat; [unfold Btree.off.OWNER; lia | done]. }
  intros [[d' level] n] _. apply good_tree_records; [exact Hw | unfold Btree.off.RECS; lia | done].
Qed.

(** * The device *)

Section Device.
Context {D : Type} `{DeviceSpec D}.
Variable (d : D) (Hv : valid d).

(** The device is only read. *)
#[local] Abbreviation safe := (safe (fun x => x = d)).

Lemma safe_read off len : 0 <= off -> 0 <= len ->
  safe (fun b => length b = Z.to_nat len) (read off len).
Proof.
  intros Ho Hl d' ->. exists d, (read_at d off len). split_and!; [done..|].
  destruct (accepts d off len) eqn:Ha.
  - rewrite read_spec by done. cbn. by rewrite length_bytes_of.
  - destruct (read_refused d off len) as [e ->]; done.
Qed.

Lemma safe_fold {A S} (P : S -> Prop) (f : S -> A -> io D S) l s :
  P s -> (forall s x, P s -> x ∈ l -> safe P (f s x)) -> safe P (io_fold f s l).
Proof.
  revert s. induction l as [|x l IH]; intros s Hs Hf; [by apply safe_ret|]. cbn [io_fold].
  apply (safe_bind P); [apply Hf; [done | by left]|]. intros s' Hs'. apply IH; [done|].
  intros s2 y H2 Hy. apply Hf; [done | by right].
Qed.

Section Geometry.
Context {g : Geo} (G : Geo_ok g = true).

Lemma geo_bounds : 512 <= geo_blocksize g <= 65536 /\ 512 <= geo_sectsize g <= geo_blocksize g /\
  256 <= geo_inodesize g <= 2048.
Proof. unfold Geo_ok in G. bools. lia. Qed.

Lemma byte_nonneg agno agbno : 0 <= Geo_byte g agno agbno.
Proof. unfold Geo_byte, shl64. apply u64_range. Qed.

Lemma safe_walk_level agno t depth i blocks w : tree_ok t -> walk_ok t w ->
  safe (walk_ok t) (walk_level g agno t depth i blocks w).
Proof.
  intros Ht. revert i w. induction blocks as [|agbno blocks IH]; intros i w Hw; [by apply safe_ret|].
  cbn [walk_level]. cbv zeta. apply (safe_bind (walk_ok t)); [|intros w' Hw'; by apply IH].
  destruct (_ <=? _); [by apply safe_ret|]. destruct geo_bounds as (B & _).
  eapply safe_bind; [apply safe_read; [apply byte_nonneg | lia]|]. intros b Hb. cbv beta in Hb.
  apply safe_lift, good_tree_block; [done | lia | done].
Qed.

(** The walk ends within 17 levels. *)
Lemma safe_walk_levels agno t fuel depth blocks dm leaves : tree_ok t ->
  (17 < fuel + depth)%nat -> (depth <= 16)%nat -> Forall (fun r => length r = t_rec t) leaves ->
  safe (fun r => Forall (fun x => length x = t_rec t) (snd r)) (walk_levels g agno t fuel depth blocks dm leaves).
Proof.
  intros Ht. revert depth blocks dm leaves.
  induction fuel as [|fuel IH]; intros depth blocks dm leaves Hf Hd Hl; [lia|].
  destruct blocks as [|x blocks]; [by apply safe_ret|]. cbn [walk_levels].
  eapply safe_bind; [apply safe_walk_level; [done|]; by split|]. intros w [Wl Wn].
  destruct (16 <? S depth)%nat eqn:E; [by apply safe_err|]. apply Nat.ltb_ge in E.
  apply IH; [lia..|done].
Qed.

Lemma safe_dump_tree agno t dm root : tree_ok t ->
  safe (fun r => Forall (fun x => length x = t_rec t) (snd r)) (dump_tree g agno t dm root).
Proof. intros Ht. apply safe_walk_levels; [done | lia | lia | done]. Qed.

(** ** The inodes *)

(** The superblock's inode geometry agrees with its block size. *)
Definition inodes_fit (g : Geo) : Prop := 0 <= geo_inopblog g < 64 /\
  2 ^ geo_inopblog g * geo_inodesize g <= geo_blocksize g.

Lemma safe_chunk_inode agno startino holemask dm i : inodes_fit g ->
  safe any (chunk_inode g agno startino holemask dm i).
Proof.
  intros [F1 F2]. destruct geo_bounds as (B & _ & Bi). unfold chunk_inode.
  destruct (negb _); [by apply safe_ret|]. cbv zeta. set (agino := u64 (startino + i)).
  destruct (_ <=? _); [apply safe_err|].
  eapply safe_bind; [apply safe_read; [apply byte_nonneg | lia]|]. intros b Hb. cbv beta in Hb.
  rewrite shl64_1 by lia. pose proof (pow2_pos (geo_inopblog g) ltac:(lia)).
  rewrite (u64_id (2 ^ geo_inopblog g - 1)) by (pose proof (pow2_lt (geo_inopblog g) 64 ltac:(lia)); lia).
  replace (2 ^ geo_inopblog g - 1) with (Z.ones (geo_inopblog g)) by (rewrite Z.ones_equiv; lia).
  rewrite Z.land_ones by lia. set (slot := agino mod 2 ^ geo_inopblog g).
  assert (0 <= slot < 2 ^ geo_inopblog g) by (by apply Z.mod_pos_bound).
  assert ((slot + 1) * geo_inodesize g <= 2 ^ geo_inopblog g * geo_inodesize g)
    by (apply Z.mul_le_mono_nonneg_r; lia).
  assert (0 <= slot * geo_inodesize g) by (apply Z.mul_nonneg_nonneg; lia).
  rewrite (u64_id (slot * _)), u64_id by lia.
  apply (safe_bind (fun s => length s = Z.to_nat (geo_inodesize g))).
  { apply safe_lift. eapply good_weaken; [apply good_slice; lia|]. cbn. intros s Hs. lia. }
  intros s Hs. apply safe_lift, good_dump_inode. lia.
Qed.

Lemma safe_dump_chunk agno dm rec : inodes_fit g -> length rec = 16%nat ->
  safe any (dump_chunk g agno dm rec).
Proof.
  intros Hf Hr. unfold dump_chunk.
  apply (safe_bind any); [eapply safe_lift, good_any, good_be32; lia|]. intros startino _.
  apply (safe_bind any).
  { destruct (negb _); [eapply safe_lift, good_any, good_be16; lia | by apply safe_ret]. }
  intros holemask _. apply safe_fold; [done|]. intros dm' i _ _. by apply safe_chunk_inode.
Qed.

(** ** An AG *)

(** A tree that is walked only for its dump. *)
Lemma safe_tree_only agno t b o dm : tree_ok t -> (o + 4 <= length b)%nat ->
  safe any (r ← lift (be32 b o); '(dm, _) ← dump_tree g agno t dm r; mret dm).
Proof.
  intros Ht Ho. apply (safe_bind any); [eapply safe_lift, good_any, good_be32; lia|]. intros r _.
  eapply safe_bind; [by apply safe_dump_tree|]. intros [dm' l] _. by apply safe_ret.
Qed.

Lemma safe_dump_trees agno agf_b agi_b dm : inodes_fit g ->
  (512 <= length agf_b)%nat -> (512 <= length agi_b)%nat -> safe any (dump_trees g agno agf_b agi_b dm).
Proof.
  intros Hf H1 H2. unfold dump_trees.
  do 2 (apply (safe_bind any); [eapply safe_lift, good_any, good_be32;
      unfold agf.BNO_ROOT, agf.CNT_ROOT; lia | intros ? _];
    eapply safe_bind; [apply safe_dump_tree, Nat.lt_0_succ | intros [? ?] _]).
  apply (safe_bind any).
  { destruct (Geo_has _ _); [|by apply safe_ret].
    apply safe_tree_only; [apply Nat.lt_0_succ | unfold agf.RMAP_ROOT; lia]. }
  intros d3 _. apply (safe_bind any).
  { destruct (Geo_has _ _); [|by apply safe_ret].
    apply safe_tree_only; [apply Nat.lt_0_succ | unfold agf.REFCOUNT_ROOT; lia]. }
  intros d4 _. apply (safe_bind any); [eapply safe_lift, good_any, good_be32; unfold agi.ROOT; lia|].
  intros r _. eapply safe_bind; [apply safe_dump_tree, Nat.lt_0_succ|]. intros [d5 chunks] Hc.
  cbn [snd] in Hc. apply (safe_bind any).
  { destruct (Geo_has _ _); [|by apply safe_ret].
    apply safe_tree_only; [apply Nat.lt_0_succ | unfold agi.FREE_ROOT; lia]. }
  intros d6 _. apply safe_fold; [done|]. intros dm' rec _ Hin. apply safe_dump_chunk; [done|].
  by eapply (Forall_forall (fun x => length x = t_rec INOBT)).
Qed.

Lemma safe_dump_ag agno dm : inodes_fit g -> safe any (dump_ag g agno dm).
Proof.
  intros Hf. destruct geo_bounds as (B & S & _). unfold dump_ag. cbv zeta.
  rewrite (u64_id (4 * _)) by lia.
  pose proof (div_ceil_bounds (4 * geo_sectsize g) (geo_blocksize g) ltac:(lia)).
  pose proof (div_ceil_nonneg (4 * geo_sectsize g) (geo_blocksize g) ltac:(lia) ltac:(lia)).
  rewrite u64_id by lia. set (ss := Z.to_nat (geo_sectsize g)).
  eapply safe_bind; [apply safe_read; [apply byte_nonneg | lia]|]. intros head Hh. cbv beta in Hh.
  assert (4 * ss <= length head)%nat by lia.
  assert (forall lo hi, (lo <= hi)%nat -> (hi <= 4 * ss)%nat -> (hi - lo = ss)%nat ->
    safe (fun s => length s = ss) (lift (slice head lo hi))) as Hsl.
  { intros lo hi K1 K2 K3. apply safe_lift. rewrite <- K3. apply good_slice. lia. }
  eapply safe_bind; [apply Hsl; lia|]. intros sb Hsb. cbv beta in Hsb.
  apply (safe_bind any); [apply safe_lift, good_dump_sb; lia|]. intros d1 _.
  do 3 (eapply safe_bind; [apply Hsl; lia | intros ? ?]). cbv beta in *.
  apply (safe_bind any).
  { apply safe_lift. unfold headers_bad.
    do 2 (apply (good_bind any); [eapply good_any, good_be32; unfold agf.MAGICNUM, agi.MAGICNUM; lia|];
      intros ? _; destruct (negb _); [done|]).
    apply (good_bind any); [eapply good_any, good_be32; unfold agfl.MAGICNUM; lia | done]. }
  intros bad _. destruct bad; [by apply safe_ret|].
  apply (safe_bind any); [apply safe_lift, good_dump_agf; lia|]. intros d2 _.
  apply (safe_bind any); [apply safe_lift, good_dump_agi; lia|]. intros d3 _.
  apply (safe_bind any); [apply safe_lift, good_dump_agfl; lia|]. intros d4 _.
  apply safe_dump_trees; [done | lia | lia].
Qed.

(** ** The log *)

Lemma safe_scan_log bs log_at log_len fuel at_ nz : 0 < bs -> 0 <= at_ -> 0 <= log_len < 2 ^ 62 ->
  (log_len - at_ <= 2 ^ 20 * (Z.of_nat fuel - 1)) -> (0 < fuel)%nat ->
  safe any (scan_log fuel bs log_at log_len at_ nz).
Proof.
  intros Hb. revert at_ nz. induction fuel as [|fuel IH]; intros at_ nz Ha Hl Hf Hp; [lia|].
  cbn [scan_log]. destruct (Z.ltb_spec at_ log_len); [|by apply safe_ret].
  cbv zeta. change (Z.shiftl 1 20) with (2 ^ 20).
  eapply safe_bind; [apply safe_read; [apply u64_range | lia]|]. intros b _.
  apply (safe_bind any).
  { apply safe_lift. unfold count_nonzero. by destruct (Nat.eqb_spec (Z.to_nat bs) 0); [lia|]. }
  intros c _. rewrite u64_id by lia. apply IH; lia.
Qed.

Lemma safe_dump_log dm : 0 <= geo_logblocks g < 2 ^ 32 -> safe any (dump_log g dm).
Proof.
  intros Hl. destruct geo_bounds as (B & _). unfold dump_log. cbv zeta.
  assert (0 <= geo_logblocks g * geo_blocksize g < 2 ^ 32 * 65537) by nia.
  set (len := u64 (geo_logblocks g * geo_blocksize g)).
  assert (len = geo_logblocks g * geo_blocksize g) as El by (apply u64_id; lia).
  eapply safe_bind; [apply safe_read; [apply byte_nonneg | lia]|]. intros first Hf. cbv beta in Hf.
  set (rl := Z.to_nat (Z.max _ 2 * 512)). assert (1024 <= rl)%nat by (unfold rl; lia).
  apply (safe_bind any).
  { apply safe_lift. unfold dump_log_header. good_fields 512%nat;
      unfold LogRecord.off.SIZE; lia. }
  intros d1 _. apply (safe_bind any); [eapply safe_lift, good_any, good_slice; lia|]. intros rest _.
  pose proof (Z.div_mod len (2 ^ 20) ltac:(lia)). pose proof (Z.mod_pos_bound len (2 ^ 20) ltac:(lia)).
  pose proof (Z.div_pos len (2 ^ 20) ltac:(lia) ltac:(lia)).
  apply (safe_bind any); [apply safe_scan_log; lia|]. intros nz _. by apply safe_ret.
Qed.
End Geometry.

(** ** The whole dump *)

(** A field named by its offset lies in a buffer long enough. *)
Ltac off_bound := match goal with |- (?o + _ <= _)%nat => unfold o; lia end.

Lemma good_Geo_parse b : (264 <= length b)%nat ->
  good (fun g => Geo_ok g = true /\ 0 <= geo_logblocks g < 2 ^ 32) (Geo_parse b).
Proof.
  intros Hb. unfold Geo_parse.
  apply (good_bind any); [eapply good_any, good_be32; unfold Superblock.off.MAGICNUM; lia|]. intros m _.
  destruct (negb _); [done|]. cbn [bail_if mbind result_bind].
  apply (good_bind any); [eapply good_any, good_be16; unfold Superblock.off.VERSIONNUM; lia|]. intros v _.
  destruct (negb _); [done|]. cbn [bail_if mbind result_bind].
  apply (good_bind (fun g => 0 <= geo_logblocks g < 2 ^ 32)).
  - unfold Geo_fields.
    repeat first
      [ apply (good_bind (fun v => 0 <= v < 2 ^ 32)); [apply good_be32; off_bound | intros ? ?]
      | apply (good_bind any); [eapply good_any, good_index; off_bound | intros ? _]
      | apply (good_bind any); [eapply good_any, good_be16; off_bound | intros ? _]
      | apply (good_bind any); [eapply good_any, good_be64; off_bound | intros ? _] ].
    done.
  - intros g Hl. destruct (Geo_ok g) eqn:E; [by split | done].
Qed.

(** As much of the device as [geometry] reads. *)
Definition first_read : Z := Z.min (Z.max (logical_sector_size d) 512) (dev_size d).

Lemma safe_geometry : 264 <= first_read ->
  safe (fun g => Geo_ok g = true /\ 0 <= geo_logblocks g < 2 ^ 32) geometry.
Proof.
  intros Hf. unfold geometry. apply (safe_bind (fun x => x = d)).
  { intros d' ->. by exists d, (Ok d). }
  intros d' ->. cbv zeta. fold first_read.
  eapply safe_bind; [apply safe_read; lia|]. intros b Hb. cbv beta in Hb.
  apply safe_lift, good_Geo_parse. lia.
Qed.
End Device.

(** * Properties *)

(** C17: on a device of which [geometry] reads at least the 264 bytes of a
    superblock's fields, and whose superblock, if it is accepted, has an inode
    geometry that fits its blocks, the dump answers whatever the other bytes
    are: it only reads, and it ends with the fields or with an error, never in
    a panic or an endless walk.  On a shorter device, or without the fit
    ([dump_panics_on_a_bad_inopblog]), it can panic. *)
Theorem dump_always_answers {D} `{DeviceSpec D} (d : D) : valid d -> 264 <= first_read d ->
  (forall g, geometry d = (d, Ok g) -> inodes_fit g) ->
  exists r, dump d = (d, r) /\ answers r.
Proof.
  intros Hv Hf Hfit. destruct (safe_geometry d Hv Hf d eq_refl) as (d' & r & E & -> & Hr).
  unfold dump. rewrite io_bind_eq, E.
  destruct r as [g|e| |]; [|exists (Err e); split; [done | apply answers_Err] | done..].
  destruct Hr as [G Hl]. specialize (Hfit g E).
  assert (Io.safe (fun x => x = d) any
    (dm ← io_fold (fun dm agno => dump_ag g agno dm) Dump_default (seqZ 0 (geo_agcount g)); dump_log g dm)) as Hs.
  { apply (safe_bind any).
    - apply safe_fold; [done|]. intros dm agno _ _. by apply (safe_dump_ag d Hv G).
    - intros dm _. by apply (safe_dump_log d Hv G). }
  destruct (Hs d eq_refl) as (d' & r & E' & -> & Hr). exists r. split; [exact E'|].
  by eapply good_answers.
Qed.

(** A one-AG image of 512-byte blocks whose superblock says 2^5 inodes to a
    block, and whose inode btree lists one chunk. *)
Definition bad_inopblog : buf := patches
  [ P32 Superblock.off.MAGICNUM Superblock.MAGIC; P32 Superblock.off.BLOCKSIZE 512;
    P64 Superblock.off.DBLOCKS 16; P32 Superblock.off.AGBLOCKS 16; P32 Superblock.off.AGCOUNT 1;
    P16 Superblock.off.VERSIONNUM 5; P16 Superblock.off.SECTSIZE 512; P16 Superblock.off.INODESIZE 256;
    P8 Superblock.off.BLOCKLOG 9; P8 Superblock.off.INOPBLOG 5; P8 Superblock.off.AGBLKLOG 4;
    P32 512 AGF_MAGIC; P32 (512 + agf.BNO_ROOT) 100; P32 (512 + agf.CNT_ROOT) 100;
    P32 1024 AGI_MAGIC; P32 (1024 + agi.ROOT) 4; P32 1536 AGFL_MAGIC;
    P32 2048 magic.INO; P16 (2048 + Btree.off.NUMRECS) 1 ] (zeroes (Z.to_nat 8192)).
Definition bad_device : MemDevice := fst (write_at (Mem_new 8192) 0 bad_inopblog).

(** Without the second proviso it does not hold: of an image of 512-byte blocks
    whose superblock says 2^5 inodes of 256 bytes to a block, [Geo_parse]
    accepts the superblock, and the dump indexes past the end of a block and
    panics. *)
Theorem dump_panics_on_a_bad_inopblog :
  snd (geometry bad_device) = Ok (mkGeo 512 9 512 16 1 16 4 256 5 0 0 0 0 0 0) /\
  snd (dump bad_device) = Panic.
Proof. by vm_compute. Qed.

(** * Witnesses *)

Lemma formatted_inodes_fit g : wf g -> inodes_fit (geo_of g).
Proof.
  intros W. unfold inodes_fit, geo_of. cbn [geo_inopblog geo_inodesize geo_blocksize].
  pose proof (wf_inodelog g W). pose proof (wf_inode_block g W). pose proof (wf_blocklog g W).
  rewrite (wf_inopblog g W), (wf_inodesize g W), (wf_blocksize g W). split; [lia|].
  rewrite <- Z.pow_add_r by lia. apply pow2_le. lia.
Qed.

Lemma dump_always_answers_witness : exists d r, valid d /\ dump (D := MemDevice) d = (d, r) /\ answers r.
Proof.
  destruct formatted0 as (d & rep & s & _ & F & _).
  pose proof (fo_layout _ _ _ _ _ _ _ _ F) as L.
  destruct (dump_always_answers d (ly_valid _ _ _ _ L) (proj1 (ly_first _ _ _ _ L))) as (r & E & A).
  { intros g Hg. rewrite (geometry_ok L (fo_geo _ _ _ _ _ _ _ _ F)) in Hg.
    assert (geo_of geo512m = g) as <- by congruence. apply formatted_inodes_fit, geo512m_wf. }
  exists d, r. split; [exact (ly_valid _ _ _ _ L) | split; [exact E | exact A]].
Defined.
