(* ===== verification/Compare.v ===== *)
(** [src/src/compare.rs]: two dumps, field by field.

    [diff] collects each side into a map by key, takes the keys of both in
    order, and keeps those whose values differ; [compare] runs it on the dumps
    of two devices.  The theorems say that it finds every difference and
    nothing else ([diff_finds_exactly_the_differences]), that it is empty
    exactly when the dumps agree, and that swapping the sides swaps the
    differences. *)

From Stdlib Require Import ZArith Lia String.
From stdpp Require Import base tactics list numbers gmap sorting strings.
From coqutil Require Import Byte Word.LittleEndianList.
From S2P Require Import Prelude Bytes Device Io Inspect InspectDump.

Record Difference : Type := mkDifference {
  df_key : string;
  df_ours : option string;
  df_theirs : option string;
  df_class : Class;
}.

Definition show_class (c : Class) : string :=
  match c with Structural => "Structural" | Identity => "Identity" | Incidental => "Incidental" end.
(** [Display]. *)
Definition show_difference (d : Difference) : string :=
  let show v := default "<absent>" v in
  show_class (df_class d) +:+ " " +:+ df_key d +:+ ": ours " +:+ show (df_ours d)
    +:+ " theirs " +:+ show (df_theirs d).

(** [collect] into a [BTreeMap]: a later field of the same key wins. *)
Definition by_key (d : Dump) : gmap string (string * Class) :=
  foldl (fun m f => <[f_key f := (f_value f, f_class f)]> m) ∅ (d_fields d).

(** [dedup]: equal neighbours, the first kept. *)
Fixpoint dedup (l : list string) : list string :=
  match l with
  | x :: ((y :: _) as l') => if bool_decide (x = y) then dedup l' else x :: dedup l'
  | _ => l
  end.

Definition diff_keys (a b : gmap string (string * Class)) : list string :=
  dedup (merge_sort String.le ((map_to_list a).*1 ++ (map_to_list b).*1)).

(** The closure of [filter_map]. *)
Definition diff_at (a b : gmap string (string * Class)) (k : string) : option Difference :=
  let x := a !! k in
  let y := b !! k in
  if bool_decide (fst <$> x = fst <$> y) then None
  else
    let class := match x, y with Some v, Some _ => snd v | _, _ => Structural end in
    Some (mkDifference k (fst <$> x) (fst <$> y) class).

Definition diff (ours theirs : Dump) : list Difference :=
  let a := by_key ours in
  let b := by_key theirs in
  omap (diff_at a b) (diff_keys a b).

Definition structural (diffs : list Difference) : list Difference :=
  filter (fun d => df_class d = Structural) diffs.

(** The two devices are only read. *)
Definition compare {A B} `{BlockDevice A} `{BlockDevice B} (ours : A) (theirs : B)
    : result (list Difference) :=
  x ← snd (dump ours); y ← snd (dump theirs); Ok (diff x y).

(** * Lemmas *)

(** The order of the keys. *)
Definition str_lt (x y : string) : Prop := String.le x y /\ x <> y.

Lemma dedup_cons x y l :
  dedup (x :: y :: l) = if bool_decide (x = y) then dedup (y :: l) else x :: dedup (y :: l).
Proof. done. Qed.

Lemma dedup_in x l : x ∈ dedup l <-> x ∈ l.
Proof.
  induction l as [|y [|z l] IH]; [done..|]. rewrite dedup_cons. case_bool_decide as E.
  - subst z. rewrite IH, !elem_of_cons. tauto.
  - rewrite elem_of_cons, IH, !elem_of_cons. tauto.
Qed.

Lemma dedup_sorted l : StronglySorted String.le l -> StronglySorted str_lt (dedup l).
Proof.
  induction l as [|y [|z l] IH]; intros Hs; [constructor | repeat constructor|].
  inversion Hs as [|? ? Hs' Hy]; subst. specialize (IH Hs'). rewrite dedup_cons.
  case_bool_decide as E; [done|]. constructor; [exact IH|].
  apply Forall_forall. intros x Hx. rewrite dedup_in in Hx. split.
  - rewrite Forall_forall in Hy. by apply Hy.
  - intros ->. inversion Hs' as [|? ? _ Hz]; subst. apply elem_of_cons in Hx as [->|Hx]; [done|].
    rewrite Forall_forall in Hz, Hy. apply E. apply (anti_symm String.le).
    + apply Hy. by left.
    + by apply Hz.
Qed.

Lemma diff_keys_in a b k : k ∈ diff_keys a b <-> is_Some (a !! k) \/ is_Some (b !! k).
Proof.
  unfold diff_keys. rewrite dedup_in, merge_sort_Permutation, elem_of_app, !list_elem_of_fmap.
  split.
  - intros [([k' v] & -> & Hv%elem_of_map_to_list)|([k' v] & -> & Hv%elem_of_map_to_list)];
      [left | right]; by eexists.
  - intros [[v Hv]|[v Hv]]; [left | right]; exists (k, v); by rewrite elem_of_map_to_list.
Qed.

Lemma diff_keys_sorted a b : StronglySorted str_lt (diff_keys a b).
Proof. apply dedup_sorted, (StronglySorted_merge_sort String.le). Qed.

(** The last field of a key, its value and its class. *)
Definition last_field (d : Dump) (k : string) : option Field :=
  List.find (fun f => String.eqb (f_key f) k) (reverse (d_fields d)).
Definition value_of (d : Dump) (k : string) : option string := f_value <$> last_field d k.
Definition class_of (d : Dump) (k : string) : option Class := f_class <$> last_field d k.

Lemma by_key_last d k : by_key d !! k = (fun f => (f_value f, f_class f)) <$> last_field d k.
Proof.
  destruct d as [l]. unfold by_key, last_field. cbn [d_fields].
  induction l as [|f l IH] using rev_ind; [done|].
  rewrite foldl_app, reverse_app. cbn. destruct (String.eqb_spec (f_key f) k) as [->|Hn].
  - by rewrite lookup_insert_eq.
  - by rewrite lookup_insert_ne.
Qed.

Lemma by_key_value d k : fst <$> by_key d !! k = value_of d k.
Proof. rewrite by_key_last. unfold value_of. by destruct (last_field d k). Qed.

Lemma diff_at_spec a b k x : diff_at a b k = Some x <->
  fst <$> a !! k <> fst <$> b !! k /\
  x = mkDifference k (fst <$> a !! k) (fst <$> b !! k)
        (match a !! k, b !! k with Some v, Some _ => snd v | _, _ => Structural end).
Proof. unfold diff_at. case_bool_decide; split; try done; [by intros [] | by intros [= <-] | by intros [_ ->]]. Qed.

Lemma diff_at_key a b k x : diff_at a b k = Some x -> df_key x = k.
Proof. by intros [_ ->]%diff_at_spec. Qed.

(** Differences in the order of their keys. *)
Lemma omap_sorted a b l : StronglySorted str_lt l ->
  StronglySorted str_lt (df_key <$> omap (diff_at a b) l).
Proof.
  induction 1 as [|k l Hs IH Hk]; [constructor|]. cbn. destruct (diff_at a b k) as [x|] eqn:E; [|done].
  cbn. constructor; [done|]. apply Forall_forall. intros y Hy.
  apply list_elem_of_fmap in Hy as (z & -> & Hz). apply list_elem_of_omap in Hz as (k' & Hk' & E').
  rewrite (diff_at_key _ _ _ _ E), (diff_at_key _ _ _ _ E'). rewrite Forall_forall in Hk. by apply Hk.
Qed.

Lemma diff_in ours theirs x : x ∈ diff ours theirs <->
  exists k, diff_at (by_key ours) (by_key theirs) k = Some x.
Proof.
  unfold diff. rewrite list_elem_of_omap. split.
  - intros (k & _ & E). by exists k.
  - intros (k & E). exists k. split; [|done]. apply diff_keys_in.
    apply diff_at_spec in E as [Hn _].
    destruct (by_key ours !! k), (by_key theirs !! k); [left | left | right |]; try by eexists. done.
Qed.

Lemma diff_nil ours theirs : diff ours theirs = [] <-> forall k, value_of ours k = value_of theirs k.
Proof.
  split.
  - intros E k. rewrite <- !by_key_value. destruct (decide (fst <$> by_key ours !! k = fst <$> by_key theirs !! k))
      as [|Hn]; [done|]. exfalso.
    eassert (_ ∈ diff ours theirs) as Hin by (apply diff_in; exists k; by apply diff_at_spec).
    rewrite E in Hin. by apply elem_of_nil in Hin.
  - intros Hk. destruct (diff ours theirs) as [|x l] eqn:E; [done|]. exfalso.
    assert (x ∈ diff ours theirs) as (k & [Hn _]%diff_at_spec)%diff_in by (rewrite E; by left).
    apply Hn. rewrite !by_key_value. apply Hk.
Qed.

Lemma diff_keys_comm a b : diff_keys a b = diff_keys b a.
Proof.
  unfold diff_keys. f_equal. apply (StronglySorted_unique String.le).
  1,2: apply (StronglySorted_merge_sort String.le).
  rewrite !merge_sort_Permutation. apply Permutation_app_comm.
Qed.

Definition swap (d : Difference) : Difference :=
  mkDifference (df_key d) (df_theirs d) (df_ours d) (df_class d).

(** A key both sides have is classed alike. *)
Definition same_classes (a b : Dump) : Prop :=
  forall k c c', class_of a k = Some c -> class_of b k = Some c' -> c = c'.

Lemma diff_at_swap ours theirs k : same_classes ours theirs ->
  diff_at (by_key theirs) (by_key ours) k = swap <$> diff_at (by_key ours) (by_key theirs) k.
Proof.
  intros Hc. unfold diff_at. specialize (Hc k). unfold class_of in Hc.
  rewrite !by_key_last. destruct (last_field ours k) as [f|], (last_field theirs k) as [f'|]; cbn; try done.
  rewrite (Hc _ _ eq_refl eq_refl). case_bool_decide as E1; case_bool_decide as E2; congruence || done.
Qed.

(** * Properties *)

(** C35: [diff] finds exactly the differences: its keys are strictly increasing,
    and a difference is in it just when the two sides' last fields of its key
    have different values or one side has none; it carries both values, and
    the class of our field, structural when a side lacks it. *)
Theorem diff_finds_exactly_the_differences ours theirs :
  StronglySorted str_lt (df_key <$> diff ours theirs) /\
  forall x, x ∈ diff ours theirs <->
    value_of ours (df_key x) <> value_of theirs (df_key x) /\
    df_ours x = value_of ours (df_key x) /\ df_theirs x = value_of theirs (df_key x) /\
    df_class x = match value_of theirs (df_key x) with
                 | Some _ => default Structural (class_of ours (df_key x))
                 | None => Structural
                 end.
Proof.
  split; [apply omap_sorted, diff_keys_sorted|]. intros x. rewrite diff_in. unfold class_of. split.
  - intros (k & E). pose proof (diff_at_key _ _ _ _ E) as Ek. apply diff_at_spec in E as [Hn ->].
    cbn [df_key df_ours df_theirs df_class]. rewrite <- !by_key_value. split_and!; try done.
    rewrite !by_key_last in *. by destruct (last_field ours k), (last_field theirs k).
  - intros (Hn & Ho & Ht & Hc). exists (df_key x). apply diff_at_spec. rewrite !by_key_value.
    split; [done|]. destruct x as [k o t c]; cbn [df_key df_ours df_theirs df_class] in *. subst o t c. f_equal.
    rewrite !by_key_last. unfold value_of. by destruct (last_field ours k), (last_field theirs k).
Qed.

(** Two dumps have no difference exactly when every key has the same value
    on both sides; a dump differs from itself in nothing; and the differences
    of the sides swapped are the differences with their sides swapped, when
    the two class each key alike. *)
Theorem diff_is_symmetric ours theirs :
  (diff ours theirs = [] <-> forall k, value_of ours k = value_of theirs k) /\
  diff ours ours = [] /\
  (same_classes ours theirs -> diff theirs ours = swap <$> diff ours theirs).
Proof.
  split_and!; [apply diff_nil | by apply diff_nil |]. intros Hc. unfold diff.
  rewrite (diff_keys_comm (by_key theirs)). generalize (diff_keys (by_key ours) (by_key theirs)).
  intros l. induction l as [|k l IH]; [done|]. cbn. rewrite (diff_at_swap _ _ _ Hc).
  destruct (diff_at (by_key ours) (by_key theirs) k); cbn; by rewrite IH.
Qed.

(** A later field of a key hides an earlier one. *)
Example diff_shown :
  diff (mkDump [mkField "b" "1" Structural; mkField "a" "2" Identity; mkField "b" "3" Incidental])
       (mkDump [mkField "a" "4" Identity; mkField "b" "5" Incidental; mkField "c" "6" Identity])
  = [mkDifference "a" (Some "2") (Some "4") Identity; mkDifference "b" (Some "3") (Some "5") Incidental;
     mkDifference "c" None (Some "6") Structural].
Proof. by vm_compute. Qed.

Lemma diff_is_symmetric_witness :
  diff (mkDump [mkField "a" "4" Identity]) (mkDump [mkField "a" "2" Identity; mkField "b" "1" Structural])
  = [mkDifference "a" (Some "4") (Some "2") Identity; mkDifference "b" None (Some "1") Structural].
Proof.
  assert (same_classes (mkDump [mkField "a" "2" Identity; mkField "b" "1" Structural])
    (mkDump [mkField "a" "4" Identity])) as Hc.
  { intros k x y. unfold class_of, last_field. cbn [reverse rev_append d_fields List.find f_key].
    destruct (String.eqb_spec "b" k) as [<-|]; [done|]. destruct (String.eqb "a" k); [|done].
    cbn. congruence. }
  rewrite (proj2 (proj2 (diff_is_symmetric (mkDump [mkField "a" "2" Identity; mkField "b" "1" Structural])
    (mkDump [mkField "a" "4" Identity]))) Hc).
  vm_compute. reflexivity.
Defined.
