(* ===== verification/Twins.v ===== *)
(** Two buffers that agree but for some fields, and the dumps of both.

    Two filesystems of one geometry differ in their UUID, their times and
    generations, and the checksums over them: [twins ms] says that two buffers
    agree outside the fields [ms].  [both R] is the relational logic of two
    computations that succeed.  Every structure's dump of twins is [alike]:
    the same keys and classes, and the same values but for the fields the dump
    itself classes as identity or incidental. *)

From Stdlib Require Import ZArith Lia String.
From stdpp Require Import base tactics list numbers strings pretty.
From coqutil Require Import Byte Word.LittleEndianList.
From S2P Require Import Prelude Bytes Fmt Crc Geometry Structs Superblock AgHeaders Btree Inode.
From S2P Require Import LogRecord Device Io Inspect InspectDump.

(** * Two computations *)

Definition both {A B} (R : A -> B -> Prop) (r1 : result A) (r2 : result B) : Prop :=
  exists a b, r1 = Ok a /\ r2 = Ok b /\ R a b.

Lemma both_ret {A B} (R : A -> B -> Prop) a b : R a b -> both R (Ok a) (Ok b).
Proof. intros HR. by exists a, b. Qed.
Lemma both_bind {A B A' B'} (R : A -> B -> Prop) (R' : A' -> B' -> Prop) m1 m2
    (f1 : A -> result A') (f2 : B -> result B') :
  both R m1 m2 -> (forall a b, R a b -> both R' (f1 a) (f2 b)) -> both R' (m1 ≫= f1) (m2 ≫= f2).
Proof. intros (a & b & -> & -> & HR) Hf. by apply Hf. Qed.
Lemma both_fmap {A B A' B'} (R : A' -> B' -> Prop) (f1 : A -> A') (f2 : B -> B') m1 m2 :
  both (fun a b => R (f1 a) (f2 b)) m1 m2 -> both R (f1 <$> m1) (f2 <$> m2).
Proof. intros (a & b & -> & -> & HR). by exists (f1 a), (f2 b). Qed.
Lemma both_weaken {A B} (R R' : A -> B -> Prop) m1 m2 :
  both R m1 m2 -> (forall a b, R a b -> R' a b) -> both R' m1 m2.
Proof. intros (a & b & E1 & E2 & HR) Hw. exists a, b. auto. Qed.
Lemma both_fold {A S T} (R : S -> T -> Prop) (f1 : S -> A -> result S) (f2 : T -> A -> result T) l s t :
  R s t -> (forall s t x, R s t -> x ∈ l -> both R (f1 s x) (f2 t x)) ->
  both R (fold_result f1 s l) (fold_result f2 t l).
Proof.
  revert s t. induction l as [|x l IH]; intros s t HR Hf; [by apply both_ret|]. cbn [fold_result].
  eapply both_bind; [apply Hf; [done | by left]|]. intros s' t' HR'. apply IH; [done|].
  intros s2 t2 y H2 Hy. apply Hf; [done | by right].
Qed.
Lemma both_collect {A B} (f1 f2 : A -> result B) l :
  (forall x, x ∈ l -> both eq (f1 x) (f2 x)) -> both eq (collect f1 l) (collect f2 l).
Proof.
  induction l as [|x l IH]; intros Hf; [by apply both_ret|]. cbn [collect].
  eapply both_bind; [apply Hf; by left|]. intros y ? <-.
  eapply both_bind; [apply IH; intros z Hz; apply Hf; by right|]. intros ys ? <-. by apply both_ret.
Qed.

(** * Two buffers *)

(** Fields, by offset and length. *)
Definition off_at (ms : list (nat * nat)) (i : nat) : bool :=
  forallb (fun m => (i <? fst m)%nat || (fst m + snd m <=? i)%nat) ms.
Definition off_range (ms : list (nat * nat)) (o k : nat) : bool :=
  forallb (fun m => (o + k <=? fst m)%nat || (fst m + snd m <=? o)%nat) ms.

(** All of the fields end before [o]. *)
Definition past (ms : list (nat * nat)) (o : nat) : bool :=
  forallb (fun m => fst m + snd m <=? o)%nat ms.

Record twins (ms : list (nat * nat)) (b1 b2 : buf) : Prop := {
  tw_length : length b1 = length b2;
  tw_at : forall i, off_at ms i = true -> b1 !! i = b2 !! i;
}.

Lemma off_range_at ms o k i : off_range ms o k = true -> (o <= i < o + k)%nat -> off_at ms i = true.
Proof.
  unfold off_range, off_at. rewrite !forallb_forall. intros Hm Hi m Hin. specialize (Hm m Hin).
  apply orb_true_iff in Hm as [Hm%Nat.leb_le|Hm%Nat.leb_le]; apply orb_true_iff;
    [left; apply Nat.ltb_lt | right; apply Nat.leb_le]; lia.
Qed.

Lemma past_range ms o k : past ms o = true -> off_range ms o k = true.
Proof.
  unfold past, off_range. rewrite !forallb_forall. intros Hm m Hin. by rewrite Hm, orb_true_r.
Qed.

Lemma twins_refl ms b : twins ms b b.
Proof. by split. Qed.

Section Reads.
Context {ms : list (nat * nat)} {b1 b2 : buf} (T : twins ms b1 b2).

Lemma twins_slice o k : off_range ms o k = true -> slice b1 o (o + k) = slice b2 o (o + k).
Proof.
  intros Ho. unfold slice. rewrite (tw_length _ _ _ T). destruct (_ && _); [|done]. f_equal.
  apply list_eq. intros i. destruct (decide (i < o + k - o)%nat).
  - rewrite !lookup_take_lt, !lookup_drop by done. apply (tw_at _ _ _ T).
    eapply off_range_at; [done|lia].
  - by rewrite !lookup_take_ge by lia.
Qed.
Lemma twins_slice_from o hi : past ms o = true -> slice b1 o hi = slice b2 o hi.
Proof.
  intros Ho%(past_range _ _ (length b1)). unfold slice. rewrite <- (tw_length _ _ _ T).
  destruct (_ && _) eqn:E; [|done]. apply andb_prop in E as [E1%Nat.leb_le E2%Nat.leb_le]. f_equal.
  apply list_eq. intros i. destruct (decide (i < hi - o)%nat).
  - rewrite !lookup_take_lt, !lookup_drop by done. apply (tw_at _ _ _ T).
    eapply off_range_at; [done|lia].
  - by rewrite !lookup_take_ge by lia.
Qed.

Lemma both_slice o k : (o + k <= length b1)%nat -> off_range ms o k = true ->
  both eq (slice b1 o (o + k)) (slice b2 o (o + k)).
Proof. intros Hl Ho. rewrite <- twins_slice by done. rewrite slice_in by lia. by eexists _, _. Qed.
Lemma both_index o : (o + 1 <= length b1)%nat -> off_range ms o 1 = true -> both eq (index b1 o) (index b2 o).
Proof.
  intros. rewrite !index_slice. apply both_fmap. eapply both_weaken; [by apply both_slice|].
  by intros ? ? <-.
Qed.
Lemma both_be16 o : (o + 2 <= length b1)%nat -> off_range ms o 2 = true -> both eq (be16 b1 o) (be16 b2 o).
Proof.
  intros. rewrite !be16_slice. apply both_fmap. eapply both_weaken; [by apply both_slice|].
  by intros ? ? <-.
Qed.
Lemma both_be32 o : (o + 4 <= length b1)%nat -> off_range ms o 4 = true -> both eq (be32 b1 o) (be32 b2 o).
Proof.
  intros. unfold be32. eapply both_bind; [by apply both_slice|]. intros ? ? <-. by apply both_ret.
Qed.
Lemma both_be64 o : (o + 8 <= length b1)%nat -> off_range ms o 8 = true -> both eq (be64 b1 o) (be64 b2 o).
Proof.
  intros. unfold be64. eapply both_bind; [by apply both_slice|]. intros ? ? <-. by apply both_ret.
Qed.
Lemma both_show {A} (f : A -> string) m1 m2 : both eq m1 m2 -> both eq (f <$> m1) (f <$> m2).
Proof. intros Hm. apply both_fmap. eapply both_weaken; [exact Hm|]. by intros ? ? <-. Qed.
Lemma both_trimmed lo hi : (lo <= hi <= length b1)%nat -> off_range ms lo (hi - lo) = true ->
  both eq (trimmed b1 lo hi) (trimmed b2 lo hi).
Proof.
  intros Hl Ho. apply both_show. replace hi with (lo + (hi - lo))%nat by lia. apply both_slice; [lia | done].
Qed.
Lemma both_trimmed_from lo hi : (lo <= hi <= length b1)%nat -> past ms lo = true ->
  both eq (trimmed b1 lo hi) (trimmed b2 lo hi).
Proof.
  intros Hl Ho. apply both_show. rewrite <- twins_slice_from by done. rewrite slice_in by done.
  by eexists _, _.
Qed.
(** A field of any content: both sides read it. *)
Lemma both_uuid_at o : (o + 16 <= length b1)%nat ->
  both (fun _ _ => True) (uuid_at b1 o) (uuid_at b2 o).
Proof.
  intros Ho. pose proof (tw_length _ _ _ T). apply both_fmap. rewrite !slice_in by lia. by eexists _, _.
Qed.
Lemma both_le32_any o : (o + 4 <= length b1)%nat ->
  both (fun _ _ => True) (alt_hex_10 <$> le32 b1 o) (alt_hex_10 <$> le32 b2 o).
Proof.
  intros Ho. pose proof (tw_length _ _ _ T). apply both_fmap. unfold le32.
  rewrite !slice_in by lia. by eexists _, _.
Qed.
Lemma both_be32_any o : (o + 4 <= length b1)%nat ->
  both (fun _ _ => True) (dec32 b1 o) (dec32 b2 o).
Proof.
  intros Ho. pose proof (tw_length _ _ _ T). apply both_fmap. unfold be32.
  rewrite !slice_in by lia. by eexists _, _.
Qed.
Lemma both_time_any bt o : (o + 8 <= length b1)%nat ->
  both (fun _ _ => True) (show_time b1 bt o) (show_time b2 bt o).
Proof.
  intros Ho. pose proof (tw_length _ _ _ T). unfold show_time, be64.
  rewrite !slice_in by lia. by eexists _, _.
Qed.
End Reads.

(** * Two dumps *)

Record alike_field (f1 f2 : Field) : Prop := {
  af_key : f_key f1 = f_key f2;
  af_class : f_class f1 = f_class f2;
  af_value : f_class f1 = Structural -> f_value f1 = f_value f2;
}.
Definition alike (d1 d2 : Dump) : Prop := Forall2 alike_field (d_fields d1) (d_fields d2).

Lemma alike_push d1 d2 key v1 v2 c : alike d1 d2 -> (c = Structural -> v1 = v2) ->
  alike (Dump_push d1 key v1 c) (Dump_push d2 key v2 c).
Proof. intros Ha Hv. apply Forall2_app; [done|]. by repeat constructor. Qed.
Lemma alike_s d1 d2 key v : alike d1 d2 -> alike (Dump_s d1 key v) (Dump_s d2 key v).
Proof. intros Ha. by apply alike_push. Qed.

Lemma both_s_read d1 d2 key r1 r2 : alike d1 d2 -> both eq r1 r2 ->
  both alike (s_read d1 key r1) (s_read d2 key r2).
Proof.
  intros Ha Hr. eapply both_bind; [exact Hr|]. intros v ? <-. by apply both_ret, alike_push.
Qed.
Lemma both_push_any d1 d2 key c r1 r2 : alike d1 d2 -> c <> Structural ->
  both (fun _ _ => True) r1 r2 -> both alike (push_read d1 key c r1) (push_read d2 key c r2).
Proof.
  intros Ha Hc Hr. eapply both_bind; [exact Hr|]. intros v1 v2 _. by apply both_ret, alike_push.
Qed.
Lemma both_push_identity d1 d2 key r1 r2 : alike d1 d2 ->
  both (fun _ _ => True) r1 r2 -> both alike (push_read d1 key Identity r1) (push_read d2 key Identity r2).
Proof. intros Ha. by apply both_push_any. Qed.
Lemma both_push_incidental d1 d2 key r1 r2 : alike d1 d2 -> both (fun _ _ => True) r1 r2 ->
  both alike (push_read d1 key Incidental r1) (push_read d2 key Incidental r2).
Proof. intros Ha. by apply both_push_any. Qed.

(** A list of fields of [k] bytes below [n], clear of [ms]. *)
Definition clear_fields (ms : list (nat * nat)) (n k : nat) (names : list (string * nat)) : bool :=
  forallb (fun no => (snd no + k <=? n)%nat && off_range ms (snd no) k) names.

Lemma both_s_each ms n k p show1 show2 names d1 d2 : clear_fields ms n k names = true ->
  (forall o, (o + k <= n)%nat -> off_range ms o k = true -> both eq (show1 o) (show2 o)) ->
  alike d1 d2 -> both alike (s_each p show1 names d1) (s_each p show2 names d2).
Proof.
  intros Hn Hs Ha. apply both_fold; [done|]. intros s1 s2 no Hs' Hin. apply both_s_read; [done|].
  unfold clear_fields in Hn. rewrite forallb_forall in Hn.
  apply list_elem_of_In, Hn, andb_prop in Hin as [H1%Nat.leb_le H2]. by apply Hs.
Qed.

Lemma both_crc_fields ms b1 b2 d1 d2 p o : twins ms b1 b2 -> (o + 4 <= length b1)%nat ->
  verify b1 o = Ok true -> verify b2 o = Ok true -> alike d1 d2 ->
  both alike (crc_fields d1 p b1 o) (crc_fields d2 p b2 o).
Proof.
  intros T Ho V1 V2 Ha. eapply both_bind; [by eapply both_push_incidental, both_le32_any|].
  intros e1 e2 He. apply both_s_read; [done|]. rewrite V1, V2. by eexists _, _.
Qed.

(** * Two structures *)

(** A bound on a named offset, below the [n] bytes that are there. *)
Ltac in_range n :=
  try (split; [first [lia | apply Nat.leb_le; reflexivity | apply (Nat.le_trans _ n); [apply Nat.leb_le; reflexivity | lia]]|]);
  first [lia | apply Nat.leb_le; reflexivity | apply (Nat.le_trans _ n); [apply Nat.leb_le; reflexivity | lia]].
(** Down the pushes of two buffers of at least [n] bytes that are twins [T]. *)
Ltac twin_show T n :=
  match goal with
  | |- both eq (dec8 _ _) _ => apply both_show, (both_index T); [in_range n | done]
  | |- both eq (dec16 _ _) _ => apply both_show, (both_be16 T); [in_range n | done]
  | |- both eq (dec32 _ _) _ => apply both_show, (both_be32 T); [in_range n | done]
  | |- both eq (dec64 _ _) _ => apply both_show, (both_be64 T); [in_range n | done]
  | |- both eq (hex16 _ _) _ => apply both_show, (both_be16 T); [in_range n | done]
  | |- both eq (hex32 _ _) _ => apply both_show, (both_be32 T); [in_range n | done]
  | |- both eq (hex64 _ _) _ => apply both_show, (both_be64 T); [in_range n | done]
  | |- both eq (trimmed _ _ (length _)) _ => apply (both_trimmed_from T); [in_range n | reflexivity]
  | |- both eq (trimmed _ _ _) _ => apply (both_trimmed T); [in_range n | reflexivity]
  | |- both _ (uuid_at _ _) _ => apply (both_uuid_at T); in_range n
  | |- both _ (dec32 _ _) _ => apply (both_be32_any T); in_range n
  end.
Ltac twin_fields ms T n :=
  repeat match goal with
  | |- both alike (_ ≫= _) (_ ≫= _) => apply (both_bind alike); [|intros ? ? ?]
  | |- both alike (s_each _ (?f _) _ _) _ =>
      let w := match f with dec8 => constr:(1%nat) | dec16 => constr:(2%nat) | dec32 => constr:(4%nat)
               | dec64 => constr:(8%nat) | hex32 => constr:(4%nat) end in
      apply (both_s_each ms n w); [reflexivity | intros ? ? ?; twin_show T n | assumption]
  | |- both alike (s_read _ _ _) _ => apply both_s_read; [first [assumption | apply alike_s; assumption]|]
  | |- both alike (push_read _ _ Identity _) _ => apply both_push_identity; [assumption|]
  | |- both alike (push_read _ _ Incidental _) _ => apply both_push_incidental; [assumption|]
  | |- both alike (crc_fields _ _ _ _) _ => eapply (both_crc_fields ms); [exact T | | assumption..]
  | |- both _ _ _ => twin_show T n
  end; try in_range n.

Definition sb_mask : list (nat * nat) := [(Superblock.off.UUID, 16); (Superblock.off.CRC, 4)]%nat.
Definition agf_mask : list (nat * nat) := [(agf.UUID, 16); (agf.CRC, 4)]%nat.
Definition agi_mask : list (nat * nat) := [(agi.UUID, 16); (agi.CRC, 4)]%nat.
Definition agfl_mask : list (nat * nat) := [(agfl.UUID, 16); (agfl.CRC, 4)]%nat.
Definition leaf_mask : list (nat * nat) := [(Btree.off.UUID, 16); (Btree.off.CRC, 4)]%nat.
Definition inode_mask : list (nat * nat) :=
  [(Inode.off.ATIME, 8); (Inode.off.MTIME, 8); (Inode.off.CTIME, 8); (Inode.off.GEN, 4);
   (Inode.off.CRTIME, 8); (Inode.off.UUID, 16); (Inode.off.CRC, 4)]%nat.
Definition log_mask : list (nat * nat) := [(LogRecord.off.FS_UUID, 16)]%nat.

(** Twins whose checksums verify. *)
Record sealed_twins (ms : list (nat * nat)) (crc : nat) (b1 b2 : buf) : Prop := {
  st_twins : twins ms b1 b2;
  st_verify1 : verify b1 crc = Ok true;
  st_verify2 : verify b2 crc = Ok true;
}.

Section Structures.
Variables (b1 b2 : buf) (d1 d2 : Dump) (p : string).
Hypothesis Ha : alike d1 d2.

Lemma both_dump_sb : sealed_twins sb_mask Superblock.off.CRC b1 b2 -> (512 <= length b1)%nat ->
  both alike (dump_sb d1 p b1 (length b1)) (dump_sb d2 p b2 (length b1)).
Proof.
  intros [T V1 V2] Hl. pose proof (tw_length _ _ _ T) as El. unfold dump_sb.
  twin_fields sb_mask T 264%nat.
  rewrite !slice_in by lia. cbn [mbind result_bind]. rewrite Nat.sub_0_r, !drop_0, !take_ge by lia.
  twin_fields sb_mask T 264%nat.
Qed.

Lemma both_dump_agf : sealed_twins agf_mask agf.CRC b1 b2 -> (512 <= length b1)%nat ->
  both alike (dump_agf d1 p b1) (dump_agf d2 p b2).
Proof.
  intros [T V1 V2] Hl. pose proof (tw_length _ _ _ T) as El. unfold dump_agf. rewrite <- El.
  twin_fields agf_mask T 264%nat.
Qed.

Lemma both_dump_agi : sealed_twins agi_mask agi.CRC b1 b2 -> (512 <= length b1)%nat ->
  both alike (dump_agi d1 p b1) (dump_agi d2 p b2).
Proof.
  intros [T V1 V2] Hl. pose proof (tw_length _ _ _ T) as El. unfold dump_agi. rewrite <- El.
  twin_fields agi_mask T 400%nat.
  apply both_show, (both_bind eq); [|intros vs ? <-; by apply both_ret].
  apply both_collect. intros i Hi%elem_of_seq.
  assert (off_range agi_mask (agi.UNLINKED + 4 * i) 4 = true) as Ho.
  { unfold off_range, agi_mask, agi.UNLINKED, agi.UUID, agi.CRC. cbn [forallb fst snd].
    by rewrite (proj2 (Nat.leb_le _ 296)), (proj2 (Nat.leb_le _ 312)) by lia. }
  apply (both_be32 T); [unfold agi.UNLINKED; lia | done].
Qed.

Lemma both_dump_agfl : sealed_twins agfl_mask agfl.CRC b1 b2 -> (512 <= length b1)%nat ->
  both alike (dump_agfl d1 p b1) (dump_agfl d2 p b2).
Proof.
  intros [T V1 V2] Hl. pose proof (tw_length _ _ _ T) as El. unfold dump_agfl. rewrite <- El.
  twin_fields agfl_mask T 400%nat.
  rewrite (proj2 (Nat.ltb_ge (length b1) agfl.BNO)) by (unfold agfl.BNO; lia). cbn [mbind result_bind].
  twin_fields agfl_mask T 400%nat.
  unfold agfl_list. rewrite <- El. apply both_show, (both_bind eq); [|intros vs ? <-; by apply both_ret].
  apply both_collect. intros i Hi%elem_of_seq. apply both_fmap.
  pose proof (Nat.Div0.mul_div_le (length b1 - agfl.BNO) 4). unfold agfl.BNO in *.
  assert (off_range agfl_mask (36 + 4 * i) 4 = true) as Ho.
  { apply past_range. unfold past, agfl_mask, agfl.UUID, agfl.CRC. cbn [forallb fst snd].
    by rewrite (proj2 (Nat.leb_le (8 + 16) _)), (proj2 (Nat.leb_le (32 + 4) _)) by lia. }
  eapply both_weaken; [apply (both_be32 T); [lia | done]|]. by intros v ? <-.
Qed.

Lemma both_dump_inode : sealed_twins inode_mask Inode.off.CRC b1 b2 -> (256 <= length b1)%nat ->
  both alike (dump_inode d1 p b1) (dump_inode d2 p b2).
Proof.
  intros [T V1 V2] Hl. pose proof (tw_length _ _ _ T) as El. unfold dump_inode. rewrite <- El.
  eapply both_bind; [apply (both_be64 T); [in_range 256%nat | done]|]. intros flags2 ? <-.
  twin_fields inode_mask T 256%nat.
  - apply both_show, (both_be16 T); [in_range 256%nat | done].
  - eapply both_bind; [apply (both_be16 T); [in_range 256%nat | done]|]. intros hi ? <-.
    eapply both_bind; [apply (both_be16 T); [in_range 256%nat | done]|]. intros lo ? <-.
    by apply both_ret.
  - apply both_fold; [done|]. intros e1 e2 no He Hin. apply both_push_incidental; [done|].
    apply (both_time_any T). rewrite !elem_of_cons in Hin.
    destruct Hin as [->|[->|[->|[->|[]%elem_of_nil]]]]; cbn [snd]; in_range 256%nat.
Qed.
End Structures.

(** ** A leaf of a btree *)

(** Two walks in step: alike dumps, the leaf records [l] and nothing below. *)
Record in_step (l : list buf) (w1 w2 : Walk) : Prop := {
  is_dump : alike (k_dump w1) (k_dump w2);
  is_leaves1 : k_leaves w1 = l;
  is_leaves2 : k_leaves w2 = l;
  is_next1 : k_next w1 = [];
  is_next2 : k_next w2 = [];
}.

(** The records of a leaf. *)
Definition leaf_records (t : Tree) (b : buf) (i k : nat) : result (list buf) :=
  collect (fun r => slice b (Btree.off.RECS + r * t_rec t) (Btree.off.RECS + r * t_rec t + t_rec t)) (seq i k).

Section Leaf.
Variables (t : Tree) (bp : string) (b1 b2 : buf).
Hypothesis T : sealed_twins leaf_mask Btree.off.CRC b1 b2.
Hypothesis Hl : (512 <= length b1)%nat.
Hypothesis Ht : (0 < t_rec t)%nat.

Lemma leaf_past : past leaf_mask Btree.off.RECS = true.
Proof using. reflexivity. Qed.

Lemma leaf_rec_at b w r x :
  slice b (Btree.off.RECS + r * t_rec t) (Btree.off.RECS + r * t_rec t + t_rec t) = Ok x ->
  leaf_rec t bp b w r = Ok (mkWalk (Dump_s (k_dump w) (nth_of bp "rec" r) (hex_trimmed_full x))
    (k_leaves w ++ [x]) (k_next w)).
Proof using. intros E. unfold leaf_rec. by rewrite E. Qed.

Lemma both_leaf_recs l i k w1 w2 : in_step l w1 w2 ->
  (Btree.off.RECS + (i + k) * t_rec t <= length b1)%nat ->
  exists rs, leaf_records t b1 i k = Ok rs /\
    both (in_step (l ++ rs)) (fold_result (leaf_rec t bp b1) w1 (seq i k))
      (fold_result (leaf_rec t bp b2) w2 (seq i k)).
Proof using T Hl Ht.
  revert l i w1 w2. induction k as [|k IH]; intros l i w1 w2 Hw Hk.
  - exists []. split; [done|]. rewrite app_nil_r. by apply both_ret.
  - assert (Btree.off.RECS + i * t_rec t + t_rec t <= length b1)%nat as Hi by nia.
    set (o := (Btree.off.RECS + i * t_rec t)%nat) in *.
    assert (past leaf_mask o = true) as Hp.
    { unfold past, leaf_mask, Btree.off.UUID, Btree.off.CRC, o, Btree.off.RECS. cbn [forallb fst snd].
      by rewrite (proj2 (Nat.leb_le (32 + 16) _)), (proj2 (Nat.leb_le (52 + 4) _)) by lia. }
    pose proof (both_slice (st_twins _ _ _ _ T) o (t_rec t) Hi (past_range _ _ _ Hp)) as (x & ? & E1 & E2 & <-).
    destruct Hw as [Hd H1 H2 N1 N2].
    destruct (IH (l ++ [x]) (S i)
      (mkWalk (Dump_s (k_dump w1) (nth_of bp "rec" i) (hex_trimmed_full x)) (k_leaves w1 ++ [x]) (k_next w1))
      (mkWalk (Dump_s (k_dump w2) (nth_of bp "rec" i) (hex_trimmed_full x)) (k_leaves w2 ++ [x]) (k_next w2)))
      as (rs & Er & B).
    { split; cbn; [by apply alike_s | by rewrite H1 | by rewrite H2 | done | done]. }
    { nia. }
    exists (x :: rs). split.
    + unfold leaf_records in *. cbn [seq collect]. fold o. rewrite E1. cbn [mbind result_bind]. by rewrite Er.
    + cbn [seq fold_result]. rewrite (leaf_rec_at b1 w1 i x E1), (leaf_rec_at b2 w2 i x E2).
      cbn [mbind result_bind]. by rewrite <- app_assoc in B.
Qed.

(** The header's fields, once the block and its magic are shown. *)
Lemma both_tree_header (agbno : Z) n d1 d2 : alike d1 d2 ->
  be16 b1 Btree.off.LEVEL = Ok 0 -> be16 b2 Btree.off.LEVEL = Ok 0 ->
  be16 b1 Btree.off.NUMRECS = Ok (Z.of_nat n) -> be16 b2 Btree.off.NUMRECS = Ok (Z.of_nat n) ->
  let shown d := Dump_s (Dump_s d (dot bp "block") (pretty agbno)) (dot bp "magic") (alt_hex (t_magic t)) in
  both (fun r1 r2 => alike (fst (fst r1)) (fst (fst r2)) /\
      (snd (fst r1), snd r1) = (0, n) /\ (snd (fst r2), snd r2) = (0, n))
    (tree_header t bp b1 (shown d1)) (tree_header t bp b2 (shown d2)).
Proof using T Hl.
  clear Ht. intros Ha Hv1 Hv2 Hn1 Hn2 shown. destruct T as [T' V1 V2]. unfold tree_header.
  rewrite Hv1, Hv2. cbn [mbind result_bind]. rewrite Hn1, Hn2. cbn [mbind result_bind]. cbv zeta.
  assert (alike (Dump_s (Dump_s (shown d1) (dot bp "level") (pretty 0)) (dot bp "numrecs") (pretty (Z.of_nat n)))
    (Dump_s (Dump_s (shown d2) (dot bp "level") (pretty 0)) (dot bp "numrecs") (pretty (Z.of_nat n))))
    by by do 4 apply alike_s.
  repeat (apply (both_bind alike); [solve [twin_fields leaf_mask T' 56%nat]|intros ? ? ?]).
  apply both_ret. cbn [fst snd]. by rewrite Nat2Z.id.
Qed.

(** A leaf's block: the records it gathers are its first. *)
Lemma both_leaf_block (agbno : Z) n d1 d2 : alike d1 d2 ->
  be32 b1 Btree.off.MAGIC = Ok (t_magic t) -> be16 b1 Btree.off.LEVEL = Ok 0 ->
  be16 b1 Btree.off.NUMRECS = Ok (Z.of_nat n) ->
  (Btree.off.RECS + n * t_rec t <= length b1)%nat ->
  exists rs, leaf_records t b1 0 n = Ok rs /\
    both (in_step rs) (tree_block t bp agbno b1 (mkWalk d1 [] []))
      (tree_block t bp agbno b2 (mkWalk d2 [] [])).
Proof using T Hl Ht.
  intros Ha Hm Hv Hn Hfit. destruct T as [T' V1 V2]. pose proof (tw_length _ _ _ T') as El.
  assert (forall A (f : buf -> result A) v, f b1 = Ok v -> both eq (f b1) (f b2) -> f b2 = Ok v) as Hsame.
  { intros A f v E (x & ? & E1 & E2 & <-). congruence. }
  assert (be32 b2 Btree.off.MAGIC = Ok (t_magic t)) as Hm2.
  { apply (Hsame _ (fun b => be32 b Btree.off.MAGIC) _ Hm), (both_be32 T'); [in_range 512%nat | done]. }
  assert (be16 b2 Btree.off.LEVEL = Ok 0) as Hv2.
  { apply (Hsame _ (fun b => be16 b Btree.off.LEVEL) _ Hv), (both_be16 T'); [in_range 512%nat | done]. }
  assert (be16 b2 Btree.off.NUMRECS = Ok (Z.of_nat n)) as Hn2.
  { apply (Hsame _ (fun b => be16 b Btree.off.NUMRECS) _ Hn), (both_be16 T'); [in_range 512%nat | done]. }
  unfold tree_block. cbn [k_dump k_leaves k_next]. rewrite Hm, Hm2. cbn [mbind result_bind].
  rewrite Z.eqb_refl. cbn [negb].
  destruct (both_tree_header agbno n d1 d2 Ha Hv Hv2 Hn Hn2)
    as ([[e1 v1] n1] & [[e2 v2] n2] & E1 & E2 & He & X1 & X2).
  injection X1 as -> ->. injection X2 as -> ->. rewrite E1, E2. cbn [mbind result_bind].
  destruct (both_leaf_recs [] 0 n (mkWalk e1 [] []) (mkWalk e2 [] [])) as (rs & Er & B); [done | done |].
  exists rs. split; [done|]. unfold tree_records. cbn [Z.eqb]. rewrite <- El.
  rewrite Nat.min_l by (apply Nat.div_le_lower_bound; [lia | rewrite Nat.mul_comm; lia]).
  eapply both_bind; [exact B|]. intros w1 w2 [Hd H1 H2 N1 N2].
  eapply both_bind.
  { apply both_s_read; [exact Hd|]. apply (both_trimmed_from T'); [lia|].
    unfold past, leaf_mask, Btree.off.UUID, Btree.off.CRC, Btree.off.RECS. cbn [forallb fst snd].
    by rewrite (proj2 (Nat.leb_le (32 + 16) _)), (proj2 (Nat.leb_le (52 + 4) _)) by lia. }
  intros x y Hxy. by apply both_ret.
Qed.
End Leaf.
