(* ===== verification/FormatTwins.v ===== *)
(** Two runs of the formatter on one geometry, told apart by UUID, time and
    generation seed: structure by structure, what they write are twins. *)

From Stdlib Require Import ZArith Lia String.
From stdpp Require Import base tactics list numbers.
From coqutil Require Import Byte Word.LittleEndianList.
From S2P Require Import Prelude Bytes Crc Geometry GeometryFacts Structs Superblock AgHeaders Btree.
From S2P Require Import Inode LogRecord Plan PlanFacts Device Io Format HeadFacts ChunkFacts.
From S2P Require Import FormatFacts Inspect LogFacts InspectDump Twins.

(** * Writing into twins *)

(** Two stores to one field: of the same bytes, or inside a field of [ms]. *)
Definition in_mask (ms : list (nat * nat)) (o k : nat) : bool :=
  existsb (fun m => (fst m <=? o)%nat && (o + k <=? fst m + snd m)%nat) ms.
Definition store_twin (ms : list (nat * nat)) (s1 s2 : store) : Prop :=
  store_off s1 = store_off s2 /\ store_len s1 = store_len s2 /\
  (store_bytes s1 = store_bytes s2 \/ in_mask ms (store_off s1) (store_len s1) = true).

Lemma in_mask_off ms o k i : in_mask ms o k = true -> (o <= i < o + k)%nat -> off_at ms i = false.
Proof.
  unfold in_mask, off_at. intros Hm Hi. apply existsb_exists in Hm as (m & Hin & Hm).
  apply andb_prop in Hm as [H1%Nat.leb_le H2%Nat.leb_le].
  apply not_true_is_false. rewrite forallb_forall. intros Hall. specialize (Hall m Hin).
  apply orb_true_iff in Hall as [Hx%Nat.ltb_lt|Hx%Nat.leb_le]; lia.
Qed.

Lemma run_store_Ok b s b' : run_store b s = Ok b' ->
  (store_off s + store_len s <= length b)%nat /\ length (store_bytes s) = store_len s /\
  b' = patch (store_off s) (store_bytes s) b.
Proof.
  destruct s; cbn [run_store store_off store_len store_bytes];
    unfold put8, put16, put32, put64; intros (? & ? & ->)%copy_into_Ok; split_and!; try done; lia.
Qed.

Section Writes.
Context {ms : list (nat * nat)}.

Lemma patch_twins o src1 src2 b1 b2 : twins ms b1 b2 -> length src1 = length src2 ->
  (o + length src1 <= length b1)%nat ->
  src1 = src2 \/ in_mask ms o (length src1) = true -> twins ms (patch o src1 b1) (patch o src2 b2).
Proof.
  intros [El Ea] Hs Ho Hm. split; [rewrite !length_patch by lia; done|]. intros i Hi.
  rewrite !lookup_patch by lia. rewrite <- Hs. case_decide as Hr; [|by apply Ea].
  destruct Hm as [<-|Hm]; [done|]. rewrite (in_mask_off _ _ _ _ Hm Hr) in Hi. done.
Qed.

Lemma run_stores_twins ss1 ss2 b1 b2 x1 x2 : Forall2 (store_twin ms) ss1 ss2 -> twins ms b1 b2 ->
  run_stores ss1 b1 = Ok x1 -> run_stores ss2 b2 = Ok x2 -> twins ms x1 x2.
Proof.
  intros Hss. revert b1 b2. induction Hss as [|s1 s2 ss1 ss2 (Ho & Hk & Hm) _ IH];
    intros b1 b2 T E1 E2; [cbn in *; congruence|].
  unfold run_stores in *. cbn [fold_result] in E1, E2.
  apply bind_Ok in E1 as (y1 & W1 & E1). apply bind_Ok in E2 as (y2 & W2 & E2).
  apply run_store_Ok in W1 as (R1 & L1 & ->). apply run_store_Ok in W2 as (R2 & L2 & ->).
  eapply IH; [|exact E1|exact E2]. rewrite <- Ho. apply patch_twins; [done | lia | lia |].
  destruct Hm as [Hm|Hm]; [by left | right; by rewrite L1].
Qed.

Lemma stamp_twins off b1 b2 x1 x2 : in_mask ms off 4 = true -> twins ms b1 b2 ->
  stamp off b1 = Ok x1 -> stamp off b2 = Ok x2 -> twins ms x1 x2.
Proof.
  intros Hm T [H1 ->]%stamp_Ok [H2 ->]%stamp_Ok.
  apply patch_twins; rewrite ?length_to_le_bytes; [done | done | done | by right].
Qed.

(** A stamped prefix, written back whole. *)
Lemma stamp_prefix_twins off n b1 b2 x1 x2 : in_mask ms off 4 = true -> twins ms b1 b2 ->
  with_slice 0 n (stamp off) b1 = Ok x1 -> with_slice 0 n (stamp off) b2 = Ok x2 -> twins ms x1 x2.
Proof.
  intros Hm T (s1 & t1 & S1 & E1 & L1 & -> & R1)%with_slice_Ok (s2 & t2 & S2 & E2 & L2 & -> & R2)%with_slice_Ok.
  pose proof (tw_length _ _ _ T) as El.
  apply slice_Ok in S1 as [_ ->], S2 as [_ ->]. rewrite Nat.sub_0_r, drop_0 in *.
  assert (twins ms t1 t2) as Tt.
  { eapply stamp_twins; [exact Hm | | exact E1 | exact E2]. split; [by rewrite !length_take, El|].
    intros i Hi. destruct (decide (i < n)%nat).
    - rewrite !lookup_take_lt by done. by apply T.
    - by rewrite !lookup_take_ge by lia. }
  split; [rewrite !length_patch by lia; done|]. intros i Hi.
  rewrite !lookup_patch by lia. rewrite L1, L2. case_decide; [|by apply T].
  rewrite Nat.sub_0_r. by apply Tt.
Qed.
End Writes.

Lemma store_twin_refl ms s : store_twin ms s s.
Proof. split_and!; [done | done | by left]. Qed.
Lemma stores_twin_refl ms ss : Forall2 (store_twin ms) ss ss.
Proof. induction ss; constructor; [apply store_twin_refl | done]. Qed.

(** Two lists of stores, field by field. *)
Ltac stores_twin :=
  repeat first
    [ apply stores_twin_refl
    | constructor; [first [apply store_twin_refl | split_and!; [reflexivity | reflexivity | by right]]|] ].

(** Stores, then the stamp of the whole buffer. *)
Lemma stamp_all_twins ms off ss1 ss2 b x1 x2 : in_mask ms off 4 = true -> Forall2 (store_twin ms) ss1 ss2 ->
  (b ← run_stores ss1 b; stamp_all off b) = Ok x1 -> (b ← run_stores ss2 b; stamp_all off b) = Ok x2 ->
  twins ms x1 x2.
Proof.
  unfold stamp_all. intros Hm Hs (y1 & W1 & E1)%bind_Ok (y2 & W2 & E2)%bind_Ok.
  pose proof (run_stores_twins _ _ _ _ _ _ Hs (twins_refl ms b) W1 W2) as T.
  rewrite <- (tw_length _ _ _ T) in E2. by eapply stamp_prefix_twins.
Qed.
Lemma stamp_block_twins ms off ss1 ss2 b x1 x2 : in_mask ms off 4 = true -> Forall2 (store_twin ms) ss1 ss2 ->
  (b ← run_stores ss1 b; stamp off b) = Ok x1 -> (b ← run_stores ss2 b; stamp off b) = Ok x2 ->
  twins ms x1 x2.
Proof.
  intros Hm Hs (y1 & W1 & E1)%bind_Ok (y2 & W2 & E2)%bind_Ok.
  eapply stamp_twins; [exact Hm | | exact E1 | exact E2].
  eapply run_stores_twins; [exact Hs | apply twins_refl | exact W1 | exact W2].
Qed.

(** * The structures *)

Section Encoders.
Variables (u1 u2 : buf).

(** Superblocks that differ in their UUID alone. *)
Lemma encode_twins g s1 s2 b x1 x2 : s1 = mkSbState (Superblock.uuid s1) (s_rootino s2) (s_rbmino s2)
    (s_rsumino s2) (icount s2) (ifree s2) (Superblock.fdblocks s2) (inprogress s2) ->
  Superblock.encode g s1 b = Ok x1 -> Superblock.encode g s2 b = Ok x2 -> twins sb_mask x1 x2.
Proof.
  intros Hs (y1 & W1 & E1)%bind_Ok (y2 & W2 & E2)%bind_Ok.
  eapply (stamp_prefix_twins (ms := sb_mask) Superblock.off.CRC); [reflexivity | | exact E1 | exact E2].
  eapply run_stores_twins; [|apply twins_refl|exact W1|exact W2].
  rewrite Hs. unfold fields, head_fields, tail_fields. cbn [app]. stores_twin.
Qed.

Lemma Agf_twins a b x1 x2 : Agf_encode a u1 b = Ok x1 -> Agf_encode a u2 b = Ok x2 ->
  twins agf_mask x1 x2.
Proof. apply stamp_all_twins; [reflexivity|]. unfold Agf_fields. stores_twin. Qed.

Lemma Agi_twins a b x1 x2 : Agi_encode a u1 b = Ok x1 -> Agi_encode a u2 b = Ok x2 ->
  twins agi_mask x1 x2.
Proof.
  apply stamp_all_twins; [reflexivity|]. unfold Agi_fields. rewrite !(assoc_L (++)). apply Forall2_app.
  - apply stores_twin_refl.
  - stores_twin.
Qed.

Lemma agfl_put_twins first slots l b1 b2 x1 x2 : twins agfl_mask b1 b2 ->
  fold_result (agfl_put first slots) b1 l = Ok x1 -> fold_result (agfl_put first slots) b2 l = Ok x2 ->
  twins agfl_mask x1 x2.
Proof.
  revert b1 b2. induction l as [|ib l IH]; intros b1 b2 T E1 E2; [cbn in *; congruence|].
  cbn [fold_result] in E1, E2.
  apply bind_Ok in E1 as (y1 & W1 & E1). apply bind_Ok in E2 as (y2 & W2 & E2).
  unfold agfl_put, put32 in W1, W2. destruct (slots =? 0)%nat; [done|].
  apply copy_into_Ok in W1 as (R1 & L1 & ->). apply copy_into_Ok in W2 as (R2 & L2 & ->).
  eapply IH; [|exact E1|exact E2]. apply patch_twins; [done | done | lia | by left].
Qed.

Lemma agfl_twins seqno first l b x1 x2 : encode_agfl seqno u1 first l b = Ok x1 ->
  encode_agfl seqno u2 first l b = Ok x2 -> twins agfl_mask x1 x2.
Proof.
  unfold encode_agfl, stamp_all. intros E1 E2.
  apply bind_Ok in E1 as (h1 & H1 & E1). apply bind_Ok in E2 as (h2 & H2 & E2).
  assert (twins agfl_mask h1 h2) as Th.
  { eapply run_stores_twins; [|apply twins_refl|exact H1|exact H2]. unfold agfl_header. stores_twin. }
  unfold agfl_slots in *. rewrite <- (tw_length _ _ _ Th) in E2. destruct (_ <? _)%nat; [done|].
  cbn [mbind result_bind] in E1, E2.
  apply bind_Ok in E1 as (c1 & C1 & E1). apply bind_Ok in E2 as (c2 & C2 & E2).
  assert (twins agfl_mask c1 c2) as Tc
    by (eapply run_stores_twins; [apply stores_twin_refl | exact Th | exact C1 | exact C2]).
  apply bind_Ok in E1 as (p1 & P1 & E1). apply bind_Ok in E2 as (p2 & P2 & E2).
  assert (twins agfl_mask p1 p2) as Tp by (eapply agfl_put_twins; [exact Tc | exact P1 | exact P2]).
  rewrite <- (tw_length _ _ _ Tp) in E2.
  eapply stamp_prefix_twins; [|exact Tp | exact E1 | exact E2]. reflexivity.
Qed.

Lemma leaf_twins magic daddr agno recs n bs x1 x2 :
  leaf_block magic daddr agno u1 recs n bs = Ok x1 -> leaf_block magic daddr agno u2 recs n bs = Ok x2 ->
  twins leaf_mask x1 x2.
Proof.
  apply stamp_block_twins; [reflexivity|]. unfold leaf_fields. stores_twin.
Qed.

(** Inodes that differ in their times and generation. *)
Lemma Dinode_twins d1 d2 b x1 x2 :
  d1 = mkDinode (d_ino d2) (mode d2) (d_format d2) (nlink d2) (Inode.size d2) (flags d2) (flags2 d2)
    (Inode.gen d1) (changecount d2) (atime d1) (mtime d1) (ctime d1) (crtime d1) (data d2) ->
  Dinode_encode d1 u1 b = Ok x1 -> Dinode_encode d2 u2 b = Ok x2 -> twins inode_mask x1 x2.
Proof.
  intros Hd. apply stamp_block_twins; [reflexivity|]. rewrite Hd. unfold Dinode_fields.
  cbn [d_ino mode d_format nlink Inode.size flags flags2 Inode.gen changecount atime mtime ctime crtime data].
  stores_twin.
Qed.

Lemma free_twins n_ino g1 g2 b x1 x2 : encode_free n_ino g1 u1 b = Ok x1 ->
  encode_free n_ino g2 u2 b = Ok x2 -> twins inode_mask x1 x2.
Proof. apply stamp_block_twins; [reflexivity|]. unfold free_fields. stores_twin. Qed.
End Encoders.

(** The log's first block differs in the UUID its record names. *)
Lemma log_block_twins g u1 u2 b1 b2 : wf g -> length u1 = 16%nat -> length u2 = 16%nat ->
  log_block g u1 = Ok b1 -> log_block g u2 = Ok b2 -> twins log_mask b1 b2.
Proof.
  intros W H1 H2. destruct (log_sunit_fits g W) as [Hs _]. unfold log_block. fold (log_sunit g).
  unfold first_record. rewrite !record_eq by done. cbn [mbind result_bind].
  set (n := (Z.to_nat (len_bb (log_sunit g)) * BBSIZE)%nat).
  assert (forall u, length u = 16%nat ->
    run_stores (record_stores u (log_sunit g) (lsn 1 0) (lsn 1 0)) (zeroes n) =
    Ok (patches (record_stores u (log_sunit g) (lsn 1 0) (lsn 1 0)) (zeroes n)) /\
    length (patches (record_stores u (log_sunit g) (lsn 1 0) (lsn 1 0)) (zeroes n)) = n) as Hp.
  { intros u Hu. pose proof (record_stores_in u (log_sunit g) (lsn 1 0) (lsn 1 0) Hs Hu) as Hin.
    fold n in Hin. rewrite <- (length_zeroes n) in Hin at 1.
    destruct (run_stores_in _ _ Hin) as [E L]. split; [exact E|]. etrans; [exact L | apply length_zeroes]. }
  destruct (Hp u1 H1) as [P1 L1], (Hp u2 H2) as [P2 L2]. revert P1 P2 L1 L2.
  generalize (patches (record_stores u1 (log_sunit g) (lsn 1 0) (lsn 1 0)) (zeroes n)).
  generalize (patches (record_stores u2 (log_sunit g) (lsn 1 0) (lsn 1 0)) (zeroes n)).
  intros r2 r1 P1 P2 L1 L2 (C1 & C2 & ->)%copy_into_Ok (_ & _ & ->)%copy_into_Ok.
  assert (twins log_mask r1 r2) as T.
  { eapply run_stores_twins; [|apply twins_refl|exact P1|exact P2]. unfold record_stores.
    apply Forall2_app; [|apply stores_twin_refl]. unfold header_stores. stores_twin. }
  split; [rewrite !length_patch by lia; done|]. intros i Hi.
  rewrite !lookup_patch by lia. rewrite L1, L2. rewrite Nat.sub_0_r. case_decide; [by apply T | done].
Qed.

(** * Two images *)

(** A root: a leaf of one kind with the same records on both sides. *)
Definition roots {A} (t : Tree) (parse : buf -> result A) (recs : list A) (x1 x2 : buf) : Prop :=
  sealed_twins leaf_mask Btree.off.CRC x1 x2 /\ be32 x1 Btree.off.MAGIC = Ok (t_magic t) /\
  be16 x1 Btree.off.LEVEL = Ok 0 /\ be16 x1 Btree.off.NUMRECS = Ok (Z.of_nat (length recs)) /\
  (Btree.off.RECS + length recs * t_rec t <= length x1)%nat /\
  parse_recs (t_rec t) parse Btree.off.RECS (length recs) x1 = Ok recs.

Lemma parse_recs_fit {A} rec (parse : buf -> result A) at_ n b recs :
  (at_ <= length b)%nat -> parse_recs rec parse at_ n b = Ok recs -> (at_ + n * rec <= length b)%nat.
Proof.
  intros Ha. destruct n as [|n]; [lia|]. unfold parse_recs. intros Hc.
  apply collect_Ok in Hc. rewrite Forall2_lookup in Hc. specialize (Hc n).
  rewrite lookup_seq_lt in Hc by lia. inversion Hc as [x y Hs E1 E2|]; subst.
  cbn in Hs. apply bind_Ok in Hs as (s & Hs & _). apply slice_Ok in Hs as [Hs _]. lia.
Qed.

(** What is at an offset, in bytes. *)
Definition piece (f : Z -> byte) (base : Z) (lo k : nat) : buf := bytes_of f (base + Z.of_nat lo) (Z.of_nat k).

Lemma slice_piece f base len lo k x : 0 <= len -> slice (bytes_of f base len) lo (lo + k) = Ok x ->
  x = piece f base lo k.
Proof.
  intros Hl Hx. pose proof (proj1 (slice_Ok _ _ _ _) Hx) as [Hr _]. rewrite length_bytes_of in Hr by done.
  rewrite slice_bytes_of in Hx by lia. apply Ok_inj in Hx. rewrite <- Hx. unfold piece. f_equal; lia.
Qed.

Section Pieces.
Variables (g : Geometry) (f1 f2 : Z -> byte) (base len : Z).
Hypothesis Hlen : 0 <= len.

Lemma sector_pieces {A} ms k crc enc1 enc2 (read : buf -> result A) v :
  (forall b x1 x2, enc1 b = Ok x1 -> enc2 b = Ok x2 -> twins ms x1 x2) ->
  sector_at g (bytes_of f1 base len) k crc enc1 read v ->
  sector_at g (bytes_of f2 base len) k crc enc2 read v ->
  let ss := Z.to_nat (sectsize g) in
  sealed_twins ms crc (piece f1 base (k * ss) ss) (piece f2 base (k * ss) ss) /\
  enc1 (zeroes ss) = Ok (piece f1 base (k * ss) ss) /\ read (piece f1 base (k * ss) ss) = Ok v.
Proof.
  intros He (x1 & S1 & E1 & V1 & R1) (x2 & S2 & E2 & V2 & _).
  apply slice_piece in S1; [|done]. apply slice_piece in S2; [|done]. subst x1 x2.
  split_and!; [|done|done]. split; [by eapply He | done | done].
Qed.

Lemma roots_pieces {A} p u1 u2 (t : Tree) agbno out (parse : buf -> result A) recs :
  (56 <= Z.to_nat (bs g))%nat ->
  leaf_at g p u1 (bytes_of f1 base len) (t_magic t) agbno out (t_rec t) parse recs ->
  leaf_at g p u2 (bytes_of f2 base len) (t_magic t) agbno out (t_rec t) parse recs ->
  let n := Z.to_nat (bs g) in
  roots t parse recs (piece f1 base (Z.to_nat agbno * n) n) (piece f2 base (Z.to_nat agbno * n) n).
Proof.
  intros Hb (x1 & S1 & E1 & V1 & M1 & L1 & N1 & _ & R1) (x2 & S2 & E2 & V2 & _) n.
  pose proof (slice_length _ _ _ _ S1) as Hx.
  apply slice_piece in S1; [|done]. apply slice_piece in S2; [|done]. fold n in S1, S2. subst x1 x2.
  split; [split; [by eapply leaf_twins | done | done]|]. split_and!; try done.
  eapply parse_recs_fit; [|exact R1]. rewrite Hx. unfold Btree.off.RECS. lia.
Qed.
End Pieces.

(** ** The head of a group *)

Lemma Agf_read_roots x a : Agf_read x = Ok a ->
  be32 x agf.BNO_ROOT = Ok (bno_root a) /\ be32 x agf.CNT_ROOT = Ok (cnt_root a) /\
  be32 x agf.RMAP_ROOT = Ok (rmap_root a) /\ be32 x agf.REFCOUNT_ROOT = Ok (refcount_root a).
Proof.
  unfold Agf_read. intros E.
  repeat match type of E with (_ ≫= _) = _ => let y := fresh in let W := fresh "W" in
    apply bind_Ok in E as (y & W & E) end.
  injection E as <-. by split_and!.
Qed.
Lemma Agi_read_roots x a : Agi_read x = Ok a ->
  be32 x agi.ROOT = Ok (root a) /\ be32 x agi.FREE_ROOT = Ok (free_root a).
Proof.
  unfold Agi_read. intros E.
  repeat match type of E with (_ ≫= _) = _ => let y := fresh in let W := fresh "W" in
    apply bind_Ok in E as (y & W & E) end.
  injection E as <-. by split_and!.
Qed.
Lemma Agf_magic a u n x : (224 <= n)%nat -> length u = 16%nat -> Agf_encode a u (zeroes n) = Ok x ->
  be32 x agf.MAGICNUM = Ok AGF_MAGIC.
Proof.
  intros Hn Hu E. destruct (Agf_encode_sealed a u (zeroes n)) as (x' & E' & S); rewrite ?length_zeroes; [done..|].
  assert (x' = x) as -> by congruence. unfold Agf_fields in S. by read_sealed S.
Qed.
Lemma Agi_magic a u n x : (344 <= n)%nat -> length u = 16%nat -> Agi_encode a u (zeroes n) = Ok x ->
  be32 x agi.MAGICNUM = Ok AGI_MAGIC.
Proof.
  intros Hn Hu E. destruct (Agi_encode_sealed a u (zeroes n)) as (x' & E' & S); rewrite ?length_zeroes; [done..|].
  assert (x' = x) as -> by congruence. unfold Agi_fields in S. by read_sealed S.
Qed.

(** What a field out of the mask says of the other side. *)
Lemma twins_be32 ms x1 x2 o v : twins ms x1 x2 -> off_range ms o 4 = true ->
  be32 x1 o = Ok v -> be32 x2 o = Ok v.
Proof. intros T Ho E. unfold be32 in *. by rewrite <- (twins_slice T). Qed.

Record head_twins (g : Geometry) (p : AgPlan) (q1 q2 : nat -> nat -> buf) : Prop := {
  ht_sb : let ss := Z.to_nat (sectsize g) in
    sealed_twins sb_mask Superblock.off.CRC (q1 0%nat ss) (q2 0%nat ss);
  ht_agf : let ss := Z.to_nat (sectsize g) in
    sealed_twins agf_mask agf.CRC (q1 (1 * ss)%nat ss) (q2 (1 * ss)%nat ss);
  ht_agi : let ss := Z.to_nat (sectsize g) in
    sealed_twins agi_mask agi.CRC (q1 (2 * ss)%nat ss) (q2 (2 * ss)%nat ss);
  ht_agfl : let ss := Z.to_nat (sectsize g) in
    sealed_twins agfl_mask agfl.CRC (q1 (3 * ss)%nat ss) (q2 (3 * ss)%nat ss);
  ht_magics : let ss := Z.to_nat (sectsize g) in
    be32 (q1 (1 * ss)%nat ss) agf.MAGICNUM = Ok AGF_MAGIC /\
    be32 (q1 (2 * ss)%nat ss) agi.MAGICNUM = Ok AGI_MAGIC /\
    be32 (q1 (3 * ss)%nat ss) agfl.MAGICNUM = Ok AGFL_MAGIC;
  ht_agf_read : let ss := Z.to_nat (sectsize g) in
    Agf_read (q1 (1 * ss)%nat ss) = Ok (head_agf g p);
  ht_agi_read : let ss := Z.to_nat (sectsize g) in
    Agi_read (q1 (2 * ss)%nat ss) = Ok (head_agi g p);
  ht_bno : let n := Z.to_nat (bs g) in let at_ := (Z.to_nat (bno_block g) * n)%nat in
    roots BNOBT alloc_parse (p_free p) (q1 at_ n) (q2 at_ n);
  ht_cnt : let n := Z.to_nat (bs g) in let at_ := (Z.to_nat (cnt_block g) * n)%nat in
    roots CNTBT alloc_parse (by_size p) (q1 at_ n) (q2 at_ n);
  ht_ino : let n := Z.to_nat (bs g) in let at_ := (Z.to_nat (ibt_block g) * n)%nat in
    roots INOBT inobt_parse (inobt_kept (sparse (features g)) <$> head_inodes g p) (q1 at_ n) (q2 at_ n);
  ht_fino : let n := Z.to_nat (bs g) in let at_ := (Z.to_nat (fibt_block g) * n)%nat in
    finobt (features g) = true ->
    roots FINOBT inobt_parse (inobt_kept (sparse (features g)) <$> head_inodes g p) (q1 at_ n) (q2 at_ n);
  ht_rmap : let n := Z.to_nat (bs g) in let at_ := (Z.to_nat (rmap_block g) * n)%nat in
    rmapbt (features g) = true -> roots RMAPBT rmap_parse (p_rmap p) (q1 at_ n) (q2 at_ n);
  ht_refc : let n := Z.to_nat (bs g) in let at_ := (Z.to_nat (refc_block g) * n)%nat in
    reflink (features g) = true -> roots REFCBT alloc_parse [] (q1 at_ n) (q2 at_ n);
}.

Lemma leaf_at_nil {A} g p u b magic agbno rec rec' (parse : buf -> result A) out :
  leaf_at g p u b magic agbno out rec parse [] -> leaf_at g p u b magic agbno out rec' parse [].
Proof. done. Qed.

Lemma sb_sealed g s x : wf g -> length (Superblock.uuid s) = 16%nat ->
  Superblock.encode g s (zeroes (Z.to_nat (sectsize g))) = Ok x -> verify x Superblock.off.CRC = Ok true.
Proof.
  intros W Hu E. destruct (block_bytes_of g W) as (_ & K & _).
  destruct (encode_sealed g s (zeroes (Z.to_nat (sectsize g)))) as (x' & E' & S);
    rewrite ?length_zeroes; [lia | lia | done | apply (wf_label g W) |].
  assert (x' = x) as -> by congruence. apply (sealed_verify_all S). by rewrite length_zeroes.
Qed.

Section Heads.
Variables (g : Geometry) (f1 f2 : Z -> byte) (base len : Z) (p : AgPlan) (u1 u2 : buf) (s1 s2 : SbState).
Hypothesis W : wf g.
Hypothesis Hlen : 0 <= len.
Hypothesis Hu1 : length u1 = 16%nat.
Hypothesis Hs1 : Superblock.uuid s1 = u1.
Hypothesis Hs2 : Superblock.uuid s2 = u2.
Hypothesis Hu2 : length u2 = 16%nat.
Hypothesis Hs : s1 = mkSbState u1 (s_rootino s2) (s_rbmino s2) (s_rsumino s2) (icount s2) (ifree s2)
  (Superblock.fdblocks s2) (inprogress s2).
Hypothesis H1 : head_spec g p u1 s1 (bytes_of f1 base len).
Hypothesis H2 : head_spec g p u2 s2 (bytes_of f2 base len).

Lemma head_pieces : head_twins g p (piece f1 base) (piece f2 base).
Proof.
  destruct (block_bytes_of g W) as (K1 & K2 & _).
  destruct (sector_pieces g f1 f2 base len Hlen agf_mask 1 agf.CRC _ _ _ _ (Agf_twins u1 u2 _)
    (hs_agf _ _ _ _ _ H1) (hs_agf _ _ _ _ _ H2)) as (T1 & E1 & R1).
  destruct (sector_pieces g f1 f2 base len Hlen agi_mask 2 agi.CRC _ _ _ _ (Agi_twins u1 u2 _)
    (hs_agi _ _ _ _ _ H1) (hs_agi _ _ _ _ _ H2)) as (T2 & E2 & R2).
  destruct (sector_pieces g f1 f2 base len Hlen agfl_mask 3 agfl.CRC _ _ _ _ (agfl_twins u1 u2 _ _ _)
    (hs_agfl _ _ _ _ _ H1) (hs_agfl _ _ _ _ _ H2)) as (T3 & E3 & R3).
  split; try done.
  - destruct (hs_sb _ _ _ _ _ H1) as (x1 & S1 & X1), (hs_sb _ _ _ _ _ H2) as (x2 & S2 & X2).
    pose proof (sb_sealed g s1 x1 W ltac:(by rewrite Hs1) X1). pose proof (sb_sealed g s2 x2 W ltac:(by rewrite Hs2) X2).
    apply (slice_piece f1 base len 0) in S1; [|done]. apply (slice_piece f2 base len 0) in S2; [|done].
    subst x1 x2. split; [|done..]. eapply encode_twins; [|exact X1|exact X2]. by rewrite Hs1.
  - split_and!; [eapply Agf_magic, E1; [lia | done] | eapply Agi_magic, E2; [lia | done] |].
    unfold agfl_read in R3. apply bind_Ok in R3 as (m & Hm & R3).
    destruct (Z.eqb_spec m AGFL_MAGIC); [by subst | done].
  - eapply roots_pieces; [done | lia | apply (hs_bno _ _ _ _ _ H1) | apply (hs_bno _ _ _ _ _ H2)].
  - eapply roots_pieces; [done | lia | apply (hs_cnt _ _ _ _ _ H1) | apply (hs_cnt _ _ _ _ _ H2)].
  - eapply roots_pieces; [done | lia | apply (hs_ino _ _ _ _ _ H1) | apply (hs_ino _ _ _ _ _ H2)].
  - intros n at_ Hf. eapply roots_pieces;
      [done | lia | by apply (hs_fino _ _ _ _ _ H1) | by apply (hs_fino _ _ _ _ _ H2)].
  - intros n at_ Hf. eapply roots_pieces;
      [done | lia | by apply (hs_rmap _ _ _ _ _ H1) | by apply (hs_rmap _ _ _ _ _ H2)].
  - intros n at_ Hf. eapply roots_pieces;
      [done | lia | eapply leaf_at_nil, (hs_refc _ _ _ _ _ H1 Hf) | eapply leaf_at_nil, (hs_refc _ _ _ _ _ H2 Hf)].
Qed.
End Heads.

(** ** The root inode chunk *)

Lemma inode_pieces isz u1 u2 f1 f2 base len i d1 d2 : 0 <= len ->
  d1 = mkDinode (d_ino d2) (mode d2) (d_format d2) (nlink d2) (Inode.size d2) (flags d2) (flags2 d2)
    (Inode.gen d1) (changecount d2) (atime d1) (mtime d1) (ctime d1) (crtime d1) (data d2) ->
  inode_at isz u1 (bytes_of f1 base len) i d1 -> inode_at isz u2 (bytes_of f2 base len) i d2 ->
  sealed_twins inode_mask Inode.off.CRC (piece f1 base (i * isz) isz) (piece f2 base (i * isz) isz).
Proof.
  intros Hl Hd (x1 & S1 & E1 & V1 & _) (x2 & S2 & E2 & V2 & _).
  apply slice_piece in S1; [|done]. apply slice_piece in S2; [|done]. subst x1 x2.
  split; [by eapply Dinode_twins | done | done].
Qed.
Lemma free_pieces isz u1 u2 f1 f2 base len i n g1 g2 : 0 <= len ->
  free_at_slot isz u1 (bytes_of f1 base len) i n g1 -> free_at_slot isz u2 (bytes_of f2 base len) i n g2 ->
  sealed_twins inode_mask Inode.off.CRC (piece f1 base (i * isz) isz) (piece f2 base (i * isz) isz).
Proof.
  intros Hl (x1 & S1 & E1 & V1 & _) (x2 & S2 & E2 & V2 & _).
  apply slice_piece in S1; [|done]. apply slice_piece in S2; [|done]. subst x1 x2.
  split; [by eapply free_twins | done | done].
Qed.

Lemma chunk_pieces g agbno u1 u2 t1 t2 gen1 gen2 f1 f2 base len i : 0 <= len ->
  chunk_spec g agbno u1 t1 gen1 (bytes_of f1 base len) ->
  chunk_spec g agbno u2 t2 gen2 (bytes_of f2 base len) -> (i < SLOTS)%nat ->
  let isz := Z.to_nat (inodesize g) in
  sealed_twins inode_mask Inode.off.CRC (piece f1 base (i * isz) isz) (piece f2 base (i * isz) isz).
Proof.
  intros Hl [_ _ (d1 & D1 & _ & R1) B1 Y1 F1] [_ _ (d2 & D2 & _ & R2) B2 Y2 F2] Hi isz.
  assert (d1 = d2) as <- by congruence.
  destruct (decide (i < 3)%nat).
  - assert (i = 0 \/ i = 1 \/ i = 2)%nat as [-> | [-> | ->]] by lia.
    + by eapply inode_pieces; [| |exact R1|exact R2].
    + by eapply inode_pieces; [| |exact B1|exact B2].
    + by eapply inode_pieces; [| |exact Y1|exact Y2].
  - by eapply free_pieces; [|apply F1; lia|apply F2; lia].
Qed.
