(* ===== verification/CompareFacts.v ===== *)
(** Two formats of one geometry, compared.

    Whatever their UUIDs, times, seeds and orders of completion, two devices
    formatted to one geometry hold twins of every structure ([FormatTwins.v]);
    their dumps are [alike], and [compare] finds no structural difference. *)

From Stdlib Require Import ZArith Lia String.
From stdpp Require Import base tactics list numbers strings pretty.
From coqutil Require Import Byte Word.LittleEndianList.
From S2P Require Import Prelude Bytes Fmt Crc Geometry GeometryFacts Structs Superblock AgHeaders.
From S2P Require Import Btree Inode LogRecord Plan PlanFacts Device Io Format HeadFacts ChunkFacts.
From S2P Require Import FormatFacts Inspect Admin LogFacts ClearFacts SbFacts AdminFacts InspectFacts.
From S2P Require Import InspectDump Compare Twins FormatTwins.

(** * Two runs that read *)

Section Reads.
Context {D1 D2 : Type} (d1 : D1) (d2 : D2).

(** Both runs answer, and leave their devices alone. *)
Definition both_io {A B} (R : A -> B -> Prop) (m1 : io D1 A) (m2 : io D2 B) : Prop :=
  exists a b, m1 d1 = (d1, Ok a) /\ m2 d2 = (d2, Ok b) /\ R a b.

Lemma bio_ret {A B} (R : A -> B -> Prop) a b : R a b -> both_io R (mret a) (mret b).
Proof. intros HR. by exists a, b. Qed.
Lemma bio_lift {A B} (R : A -> B -> Prop) r1 r2 : both R r1 r2 -> both_io R (lift r1) (lift r2).
Proof. intros (a & b & -> & -> & HR). by exists a, b. Qed.
Lemma bio_bind {A B A' B'} (R : A -> B -> Prop) (R' : A' -> B' -> Prop) m1 m2
    (k1 : A -> io D1 A') (k2 : B -> io D2 B') :
  both_io R m1 m2 -> (forall a b, R a b -> both_io R' (k1 a) (k2 b)) -> both_io R' (m1 ≫= k1) (m2 ≫= k2).
Proof.
  intros (a & b & E1 & E2 & HR) Hk. destruct (Hk a b HR) as (a' & b' & F1 & F2 & HR').
  exists a', b'. split_and!; [..|done].
  - by rewrite (io_bind_step _ _ _ _ _ E1).
  - by rewrite (io_bind_step _ _ _ _ _ E2).
Qed.
Lemma bio_ok {A B A' B'} (R : A' -> B' -> Prop) (a : A) (b : B) (k1 : A -> io D1 A') (k2 : B -> io D2 B') :
  both_io R (k1 a) (k2 b) -> both_io R (lift (Ok a) ≫= k1) (lift (Ok b) ≫= k2).
Proof. done. Qed.
Lemma bio_weaken {A B} (R R' : A -> B -> Prop) m1 m2 :
  both_io R m1 m2 -> (forall a b, R a b -> R' a b) -> both_io R' m1 m2.
Proof. intros (a & b & E1 & E2 & HR) Hw. exists a, b. auto. Qed.
Lemma bio_fold {A S T} (R : S -> T -> Prop) (k1 : S -> A -> io D1 S) (k2 : T -> A -> io D2 T) l s t :
  R s t -> (forall s t x, R s t -> x ∈ l -> both_io R (k1 s x) (k2 t x)) ->
  both_io R (io_fold k1 s l) (io_fold k2 t l).
Proof.
  revert s t. induction l as [|x l IH]; intros s t HR Hk; [by apply bio_ret|]. cbn [io_fold].
  eapply bio_bind; [apply Hk; [done | by left]|]. intros s' t' HR'. apply IH; [done|].
  intros s2 t2 y H2 Hy. apply Hk; [done | by right].
Qed.
End Reads.

(** The records of a leaf, parsed. *)
Lemma leaf_records_parse {A} (t : Tree) (parse : buf -> result A) b i k rs recs :
  leaf_records t b i k = Ok rs ->
  collect (fun r => s ← slice b (Btree.off.RECS + r * t_rec t) (Btree.off.RECS + r * t_rec t + t_rec t); parse s)
    (seq i k) = Ok recs ->
  collect parse rs = Ok recs /\ Forall (fun r => length r = t_rec t) rs.
Proof.
  revert i rs recs. unfold leaf_records. induction k as [|k IH]; intros i rs recs E1 E2; cbn [seq collect] in *.
  - injection E1 as <-. by injection E2 as <-.
  - apply bind_Ok in E1 as (x & X & E1). apply bind_Ok in E1 as (rs' & R & E1). injection E1 as <-.
    rewrite X in E2. cbn [mbind result_bind] in E2.
    apply bind_Ok in E2 as (y & Y & E2). apply bind_Ok in E2 as (recs' & C & E2). injection E2 as <-.
    destruct (IH _ _ _ R C) as [IHc IHl]. cbn [collect]. rewrite Y. cbn [mbind result_bind]. rewrite IHc.
    split; [done|]. constructor; [|done]. rewrite (slice_length _ _ _ _ X). lia.
Qed.

(** * Two formatted devices *)

(** What [format] leaves on a device. *)
Record holds_format {D} `{DeviceSpec D} (g : Geometry) (fdb : Z) (uuid : buf) (d : D) : Prop := {
  fm_valid : valid d;
  fm_serves : serves_blocks d (bs g);
  fm_size : dblocks g * bs g <= dev_size d;
  fm_geometry : geometry d = (d, Ok (geo_of g));
  fm_uuid : length uuid = 16%nat;
  fm_image : exists t gen, image g uuid t gen fdb (contents d);
}.

Section Formatted.
Context {D1 D2 : Type} `{DeviceSpec D1} `{DeviceSpec D2}.
Variables (g : Geometry) (fdb : Z) (u1 u2 : buf) (d1 : D1) (d2 : D2).
Hypothesis W : wf g.
Hypothesis F1 : holds_format g fdb u1 d1.
Hypothesis F2 : holds_format g fdb u2 d2.

#[local] Abbreviation both2 := (both_io d1 d2).
#[local] Abbreviation f1 := (contents d1).
#[local] Abbreviation f2 := (contents d2).
#[local] Abbreviation n := (Z.to_nat (bs g)).

Lemma block_pos : 1024 <= bs g <= 16384 /\ bs g = blocksize g /\ 0 <= dblocks g * bs g < 2 ^ 64.
Proof.
  destruct (blocks_512 g d1 u1 W (fm_uuid _ _ _ _ F1)) as (_ & _ & _ & _ & Hb). split; [exact Hb|]. split; [done|].
  destruct (wf_ranges g W) as (_ & _ & _ & _ & _ & R6 & _). split; [nia|].
  pose proof (fm_size _ _ _ _ F1). pose proof (size_range d1 (fm_valid _ _ _ _ F1)). lia.
Qed.

(** Whole blocks of the filesystem, read on both. *)
Lemma both_read o k : 0 <= o -> 0 <= k -> o + k <= dblocks g ->
  both2 (fun b1 b2 => b1 = bytes_of f1 (o * bs g) (k * bs g) /\ b2 = bytes_of f2 (o * bs g) (k * bs g))
    (read (o * bs g) (k * bs g)) (read (o * bs g) (k * bs g)).
Proof.
  intros Ho Hk Hok. destruct block_pos as (B & _).
  assert (forall D `{DeviceSpec D} u (d : D), holds_format g fdb u d ->
    read (o * bs g) (k * bs g) d = (d, Ok (bytes_of (contents d) (o * bs g) (k * bs g)))) as Hr.
  { intros D ? ? u d F. pose proof (fm_size _ _ _ _ F).
    assert ((o + k) * bs g <= dblocks g * bs g) by (apply Z.mul_le_mono_nonneg_r; lia).
    unfold read. f_equal. apply read_spec; [apply F | lia | lia |].
    apply (fm_serves _ _ _ _ F); [lia | lia | apply Z.mod_mul; lia | apply Z.mod_mul; lia | lia]. }
  eexists _, _. split_and!; [by eapply Hr | by eapply Hr | done..].
Qed.

(** A block of an AG in the reader's geometry. *)
Lemma geo_byte a x : 0 <= a < agcount g -> 0 <= x <= ag_blocks g a ->
  Geo_byte (geo_of g) a x = (a * agsize g + x) * bs g /\ a * agsize g + ag_blocks g a <= dblocks g /\
  0 <= a * agsize g.
Proof.
  intros Ha Hx. pose proof (ag_blocks_range g W a Ha) as [A1 A2]. pose proof (wf_dblocks g W).
  destruct (agb_to_byte_eq g W a x Ha Hx) as [E _]. destruct (wf_ranges g W) as (_ & _ & _ & R4 & _ & R6 & _).
  assert (0 <= a * agsize g) by nia. split_and!; [|lia|lia]. unfold bs. rewrite <- E.
  unfold Geo_byte, agb_to_byte, geo_of. cbn [geo_agblocks geo_blocklog]. by rewrite (u64_id (a * _)) by lia.
Qed.

(** ** A btree *)

(** The first byte of an AG. *)
Definition ag_base (a : Z) : Z := a * agsize g * bs g.

Lemma piece_block a x f : 0 <= x ->
  piece f (ag_base a) (Z.to_nat x * n) n = bytes_of f ((a * agsize g + x) * bs g) (bs g).
Proof.
  intros Hx. destruct block_pos as (B & _). unfold piece, ag_base.
  rewrite Nat2Z.inj_mul, !Z2Nat.id by lia. f_equal. lia.
Qed.

Lemma both_dump_tree {A} a (t : Tree) (parse : buf -> result A) recs agbno dm1 dm2 :
  0 <= a < agcount g -> 0 <= agbno < prealloc_blocks g -> (0 < t_rec t)%nat -> alike dm1 dm2 ->
  (let at_ := (Z.to_nat agbno * n)%nat in
   roots t parse recs (piece f1 (ag_base a) at_ n) (piece f2 (ag_base a) at_ n)) ->
  both2 (fun r1 r2 => alike (fst r1) (fst r2) /\ snd r1 = snd r2 /\ collect parse (snd r1) = Ok recs /\
      Forall (fun r => length r = t_rec t) (snd r1))
    (dump_tree (geo_of g) a t dm1 agbno) (dump_tree (geo_of g) a t dm2 agbno).
Proof.
  intros Ha Hb Ht Hd (T & M & L & N & Fit & P). destruct block_pos as (B & _).
  rewrite (piece_block a agbno f1) in T, M, L, N, Fit, P by lia.
  rewrite (piece_block a agbno f2) in T by lia.
  pose proof (ag_blocks_range g W a Ha) as [A1 A2]. pose proof (wf_prealloc g W). pose proof (wf_header g W).
  destruct (geo_byte a agbno Ha ltac:(lia)) as (Eb & Hin & H0').
  set (x1 := bytes_of f1 _ _) in *. set (x2 := bytes_of f2 _ _) in *.
  assert (512 <= length x1)%nat as Hl by (unfold x1; rewrite length_bytes_of; lia).
  unfold dump_tree. cbn [walk_levels walk_level].
  eapply bio_bind.
  { eapply bio_bind.
    - change (Geo_ag_len (geo_of g) a) with (ag_blocks g a).
      rewrite (proj2 (Z.leb_gt _ _)) by lia.
      eapply bio_bind; [|].
      + rewrite Eb. change (geo_blocksize (geo_of g)) with (bs g).
        pose proof (both_read (a * agsize g + agbno) 1 ltac:(lia) ltac:(lia) ltac:(lia)) as Hr.
        rewrite Z.mul_1_l in Hr. exact Hr.
      + intros b1 b2 [-> ->].
        destruct (both_leaf_block t (block_name a t 0 0) x1 x2 T Hl Ht agbno (length recs) dm1 dm2 Hd M L N Fit)
          as (rs & Ers & Hb2).
        eapply bio_weaken; [by apply bio_lift|]. intros w1 w2 Hw.
        exact (ex_intro (fun rs => leaf_records t x1 0 (length recs) = Ok rs /\ in_step rs w1 w2) rs (conj Ers Hw)).
    - intros w1 w2 Hw. apply bio_ret. exact Hw. }
  intros w1 w2 (rs & Ers & [K1 K2 K3 K4 K5]).
  change (16 <? 1)%nat with false. cbv iota. rewrite K4, K5. apply bio_ret. cbn [fst snd].
  rewrite K2, K3. destruct (leaf_records_parse t parse x1 0 _ rs recs Ers P). done.
Qed.

(** ** The root inode chunk *)

#[local] Abbreviation rc := (root_chunk_agbno g).
#[local] Abbreviation il := (inopblog g).

(** Where inode [i] of the chunk is. *)
Lemma inode_place i : 0 <= i < 64 ->
  0 <= rc * 2 ^ il < 2 ^ 31 /\ shl64 1 il = 2 ^ il /\ 0 <= il <= 5 /\
  bs g = 2 ^ il * inodesize g /\ (rc * 2 ^ il + i) / 2 ^ il = rc + i / 2 ^ il /\
  (rc * 2 ^ il + i) mod 2 ^ il = i mod 2 ^ il /\ 0 <= i / 2 ^ il < chunk_blocks g /\
  i / 2 ^ il * bs g + i mod 2 ^ il * inodesize g = i * inodesize g.
Proof.
  intros Hi. pose proof (wf_inopblog g W) as Hl. pose proof (wf_inodelog g W).
  pose proof (wf_blocklog g W). pose proof (wf_inode_block g W).
  destruct (chunk_in_ag0 g W) as (C1 & C2 & C3 & C4).
  pose proof (wf_agcount g W). pose proof (ag_blocks_range g W 0 ltac:(lia)) as [A1 _].
  pose proof (wf_agsize g W) as [_ As].
  assert (0 <= il <= 5) as Hr by lia. pose proof (pow2_pos il ltac:(lia)). pose proof (pow2_le il 5 ltac:(lia)).
  assert (bs g = 2 ^ il * inodesize g) as Eb.
  { unfold bs. rewrite (wf_blocksize g W), (wf_inodesize g W), <- Z.pow_add_r by lia. f_equal. lia. }
  pose proof (Z.div_mod i (2 ^ il) ltac:(lia)) as Em.
  assert (i / 2 ^ il * bs g + i mod 2 ^ il * inodesize g = i * inodesize g) as Es by (rewrite Eb; nia).
  pose proof (Z.mod_pos_bound i (2 ^ il) ltac:(lia)). pose proof (Z.div_pos i (2 ^ il) ltac:(lia) ltac:(lia)).
  assert (rc * 2 ^ il < 2 ^ 31).
  { apply Z.lt_le_trans with (2 ^ (40 - blocklog g) * 2 ^ il).
    - apply Z.mul_lt_mono_pos_r; lia.
    - rewrite <- Z.pow_add_r by lia. apply pow2_le. lia. }
  split; [split; [apply Z.mul_nonneg_nonneg; lia | done]|].
  split; [apply shl64_1; lia|]. split; [done|]. split; [done|].
  split; [rewrite Z.div_add_l; lia|]. split; [rewrite Z.add_comm, Z.mod_add; lia|].
  split; [|done]. split; [done|]. rewrite (chunk_blocks_eq g W).
  apply Z.div_lt_upper_bound; [lia|]. rewrite <- Z.pow_add_r by lia.
  replace (il + (6 + inodelog g - blocklog g)) with 6 by lia. lia.
Qed.

Lemma both_chunk_inode hm i dm1 dm2 : 0 <= i < 64 -> alike dm1 dm2 ->
  both2 alike (chunk_inode (geo_of g) 0 (rc * 2 ^ il) hm dm1 i)
    (chunk_inode (geo_of g) 0 (rc * 2 ^ il) hm dm2 i).
Proof.
  intros Hi Hd. destruct (inode_place i Hi) as (P1 & P2 & P3 & P4 & P5 & P6 & P7 & P8).
  destruct block_pos as (B & _). destruct (chunk_in_ag0 g W) as (C1 & C2 & C3 & _).
  destruct (wf_ranges g W) as (_ & _ & R3 & _ & R5 & _).
  pose proof (pow2_pos il ltac:(lia)). pose proof (pow2_le il 5 ltac:(lia)).
  pose proof (Z.mod_pos_bound i (2 ^ il) ltac:(lia)) as Hm.
  unfold chunk_inode. destruct (negb _); [by apply bio_ret|]. cbv zeta.
  cbn [geo_of geo_inopblog geo_inodesize geo_blocksize]. change (Geo_ag_len (geo_of g) 0) with (ag_blocks g 0).
  rewrite (u64_id (rc * 2 ^ il + i)) by lia. rewrite shr64_div by lia. rewrite P2, P5.
  rewrite (u64_id (2 ^ il - 1)) by lia.
  replace (2 ^ il - 1) with (Z.ones il) by (rewrite Z.ones_equiv; lia). rewrite Z.land_ones, P6 by lia.
  rewrite (proj2 (Z.leb_gt _ _)) by lia.
  destruct (geo_byte 0 (rc + i / 2 ^ il) ltac:(lia) ltac:(lia)) as (-> & Hin & _).
  assert (0 <= i mod 2 ^ il * inodesize g /\ i mod 2 ^ il * inodesize g + inodesize g <= bs g) as [S0 S1].
  { rewrite P4. split; [apply Z.mul_nonneg_nonneg; lia|]. nia. }
  set (o := i mod 2 ^ il * inodesize g) in *. rewrite (u64_id o), (u64_id (o + _)) by lia.
  eapply bio_bind.
  { change (blocksize g) with (bs g). rewrite Z.mul_0_l, Z.add_0_l.
    pose proof (both_read (rc + i / 2 ^ il) 1 ltac:(lia) ltac:(lia) ltac:(lia)) as Hr.
    rewrite Z.mul_1_l in Hr. exact Hr. }
  intros b1 b2 [-> ->].
  destruct (fm_image _ _ _ _ F1) as (t1 & gen1 & I1), (fm_image _ _ _ _ F2) as (t2 & gen2 & I2).
  destruct (im_chunk _ _ _ _ _ _ I1) as (c1 & X1 & Y1), (im_chunk _ _ _ _ _ _ I2) as (c2 & X2 & Y2).
  subst c1 c2. destruct (agb_to_byte_eq g W 0 rc ltac:(lia) ltac:(lia)) as [Eb _].
  rewrite Eb, Z.mul_0_l, Z.add_0_l in X1, X2. fold (bs g) in X1, X2.
  pose proof (chunk_pieces g rc u1 u2 t1 t2 gen1 gen2 f1 f2 (rc * blocksize g) (chunk_blocks g * bs g)
    (Z.to_nat i) ltac:(nia) X1 X2 ltac:(unfold SLOTS; lia)) as T. cbv zeta in T.
  assert (forall f, slice (bytes_of f ((rc + i / 2 ^ il) * bs g) (bs g)) (Z.to_nat o) (Z.to_nat (o + inodesize g)) =
    Ok (piece f (rc * blocksize g) (Z.to_nat i * Z.to_nat (inodesize g)) (Z.to_nat (inodesize g)))) as Hs.
  { intros f. rewrite slice_bytes_of by lia. unfold piece. f_equal. f_equal; [|lia].
    rewrite Nat2Z.inj_mul, !Z2Nat.id by lia. rewrite <- P8. unfold o, bs. lia. }
  rewrite !Hs. apply bio_bind with (R := fun y1 y2 =>
    sealed_twins inode_mask Inode.off.CRC y1 y2 /\ (256 <= length y1)%nat).
  { apply bio_lift, both_ret. split; [exact T|]. unfold piece. rewrite length_bytes_of; lia. }
  intros y1 y2 [Ty Ly]. by apply bio_lift, both_dump_inode.
Qed.

(** The inodes of a record of the inode btree, when it is the chunk's. *)
Lemma both_dump_chunk rec dm1 dm2 : be32 rec 0 = Ok (rc * 2 ^ il) -> length rec = INOBT_REC ->
  alike dm1 dm2 -> both2 alike (dump_chunk (geo_of g) 0 dm1 rec) (dump_chunk (geo_of g) 0 dm2 rec).
Proof.
  intros Es Hl Hd. unfold dump_chunk. rewrite Es.
  apply bio_ok, bio_bind with (R := eq).
  - destruct (negb _); [|by apply bio_ret]. apply bio_lift. rewrite be16_slice.
    rewrite slice_in by (unfold INOBT_REC in Hl; lia). by apply both_ret.
  - intros hm ? <-. apply bio_fold; [done|]. intros e1 e2 i He Hi%elem_of_seqZ.
    apply both_chunk_inode; [lia | done].
Qed.

(** ** A group *)

(** Where a group's roots are. *)
Lemma root_places : let in_head b := 0 <= b < prealloc_blocks g in
  in_head (bno_block g) /\ in_head (cnt_block g) /\ in_head (ibt_block g) /\
  (finobt (features g) = true -> in_head (fibt_block g)) /\
  (rmapbt (features g) = true -> in_head (rmap_block g)) /\
  (reflink (features g) = true -> in_head (refc_block g)) /\ prealloc_blocks g < 2 ^ 32.
Proof.
  intros in_head. unfold in_head. pose proof (wf_header g W).
  destruct (layout_blocks g ltac:(lia)) as (-> & -> & -> & -> & -> & -> & ->).
  destruct (finobt (features g)), (rmapbt (features g)), (reflink (features g)); cbn [Z.b2z];
    split_and!; (done || lia).
Qed.

(** The word [root] in both, then the tree it names. *)
Lemma both_root {A B B'} a (t : Tree) (parse : buf -> result A) recs root x1 x2 o dm1 dm2 (R : B -> B' -> Prop)
    (k1 : Dump * list buf -> io D1 B) (k2 : Dump * list buf -> io D2 B') :
  be32 x1 o = Ok (u32 root) -> be32 x2 o = Ok (u32 root) -> 0 <= a < agcount g ->
  0 <= root < prealloc_blocks g -> (0 < t_rec t)%nat -> alike dm1 dm2 ->
  (let at_ := (Z.to_nat root * n)%nat in
   roots t parse recs (piece f1 (ag_base a) at_ n) (piece f2 (ag_base a) at_ n)) ->
  (forall e1 e2 rs, alike e1 e2 -> collect parse rs = Ok recs -> Forall (fun r => length r = t_rec t) rs ->
    both2 R (k1 (e1, rs)) (k2 (e2, rs))) ->
  both2 R (r ← lift (be32 x1 o); dl ← dump_tree (geo_of g) a t dm1 r; k1 dl)
    (r ← lift (be32 x2 o); dl ← dump_tree (geo_of g) a t dm2 r; k2 dl).
Proof.
  intros E1 E2 Ha Hr Ht Hd Hroots Hk. destruct root_places as (_ & _ & _ & _ & _ & _ & Hp).
  rewrite u32_id in E1, E2 by lia. rewrite E1, E2.
  apply bio_ok. eapply bio_bind; [by eapply (both_dump_tree a t parse recs)|].
  intros [e1 rs] [e2 rs'] (He & Ers & C & L). cbn [fst snd] in *. subst rs'. by apply Hk.
Qed.

Lemma geo_features : Geo_has (geo_of g) version.RO_RMAPBT = rmapbt (features g) /\
  Geo_has (geo_of g) version.RO_REFLINK = reflink (features g) /\
  Geo_has (geo_of g) version.RO_FINOBT = finobt (features g).
Proof.
  unfold Geo_has. cbn [geo_of geo_ro_compat]. unfold ro_compat.
  destruct (finobt (features g)), (rmapbt (features g)), (reflink (features g)), (inobtcount (features g)); by vm_compute.
Qed.

(** A tree that is there when [has] says so. *)
Lemma both_optional {A} (has : bool) a (t : Tree) (parse : buf -> result A) recs root x1 x2 o dm1 dm2 :
  (has = true -> be32 x1 o = Ok (u32 root) /\ be32 x2 o = Ok (u32 root) /\ 0 <= root < prealloc_blocks g) ->
  0 <= a < agcount g -> (0 < t_rec t)%nat -> alike dm1 dm2 ->
  (let at_ := (Z.to_nat root * n)%nat in
   has = true -> roots t parse recs (piece f1 (ag_base a) at_ n) (piece f2 (ag_base a) at_ n)) ->
  both2 alike
    (if has then r ← lift (be32 x1 o); '(d, _) ← dump_tree (geo_of g) a t dm1 r; mret d else mret dm1)
    (if has then r ← lift (be32 x2 o); '(d, _) ← dump_tree (geo_of g) a t dm2 r; mret d else mret dm2).
Proof.
  intros Hw Ha Ht Hd Hroots. destruct has; [|by apply bio_ret]. destruct (Hw eq_refl) as (E1 & E2 & Hr).
  eapply (both_root a t parse recs root); [done..| by apply Hroots |]. intros e1 e2 rs He _ _. by apply bio_ret.
Qed.

Section Group.
Variables (a : Z) (p : AgPlan).
Hypothesis Ha : 0 <= a < agcount g.
Hypothesis Hp : plan_ag g a = Ok p.
Hypothesis T : head_twins g p (piece f1 (ag_base a)) (piece f2 (ag_base a)).

Let ss := Z.to_nat (sectsize g).
Let agf1 := piece f1 (ag_base a) (1 * ss) ss.
Let agf2 := piece f2 (ag_base a) (1 * ss) ss.
Let agi1 := piece f1 (ag_base a) (2 * ss) ss.
Let agi2 := piece f2 (ag_base a) (2 * ss) ss.

Lemma group_roots :
  (be32 agf1 agf.BNO_ROOT = Ok (u32 (bno_block g)) /\ be32 agf2 agf.BNO_ROOT = Ok (u32 (bno_block g))) /\
  (be32 agf1 agf.CNT_ROOT = Ok (u32 (cnt_block g)) /\ be32 agf2 agf.CNT_ROOT = Ok (u32 (cnt_block g))) /\
  (rmapbt (features g) = true ->
    be32 agf1 agf.RMAP_ROOT = Ok (u32 (rmap_block g)) /\ be32 agf2 agf.RMAP_ROOT = Ok (u32 (rmap_block g))) /\
  (reflink (features g) = true ->
    be32 agf1 agf.REFCOUNT_ROOT = Ok (u32 (refc_block g)) /\ be32 agf2 agf.REFCOUNT_ROOT = Ok (u32 (refc_block g))) /\
  (be32 agi1 agi.ROOT = Ok (u32 (ibt_block g)) /\ be32 agi2 agi.ROOT = Ok (u32 (ibt_block g))) /\
  (finobt (features g) = true ->
    be32 agi1 agi.FREE_ROOT = Ok (u32 (fibt_block g)) /\ be32 agi2 agi.FREE_ROOT = Ok (u32 (fibt_block g))).
Proof.
  destruct (Agf_read_roots _ _ (ht_agf_read _ _ _ _ T)) as (Q1 & Q2 & Q3 & Q4).
  destruct (Agi_read_roots _ _ (ht_agi_read _ _ _ _ T)) as (Q5 & Q6).
  pose proof (st_twins _ _ _ _ (ht_agf _ _ _ _ T)) as Tf. pose proof (st_twins _ _ _ _ (ht_agi _ _ _ _ T)) as Ti.
  subst agf1 agf2 agi1 agi2 ss. cbv zeta in *. unfold head_agf, head_agi in *.
  cbn [bno_root cnt_root rmap_root refcount_root root free_root] in *.
  split_and!; try done; try by eapply twins_be32.
  all: intros Hf; rewrite Hf in *; split; [done | by eapply twins_be32].
Qed.

(** The inode btree's records are the root chunk's, in AG 0 alone. *)
Lemma group_chunks rs :
  collect inobt_parse rs = Ok (inobt_kept (sparse (features g)) <$> head_inodes g p) ->
  Forall (fun r => length r = INOBT_REC) rs ->
  Forall (fun r => a = 0 /\ be32 r 0 = Ok (rc * 2 ^ il) /\ length r = INOBT_REC) rs.
Proof.
  intros C L. pose proof (pl_chunk _ _ _ (plan_planned g a p W Ha Hp)) as Pc.
  unfold head_inodes, head_chunk in C. rewrite Pc in C. destruct (Z.eqb_spec a 0) as [->|Hn].
  - cbn in C. destruct rs as [|r [|r' rs]]; cbn [collect] in C; [done| |].
    + apply Forall_cons_1 in L as [L _]. apply bind_Ok in C as (x & X & C). injection C as ->.
      unfold inobt_parse in X. apply bind_Ok in X as (s & Es & X).
      do 4 (apply bind_Ok in X as (? & _ & X)). injection X as X.
      constructor; [|constructor]. split; [done|]. split; [|done]. rewrite Es. f_equal.
      destruct (inode_place 0 ltac:(lia)) as (P1 & _ & P3 & _). destruct (chunk_in_ag0 g W) as (C1 & _).
      pose proof (pow2_pos il ltac:(lia)).
      assert (u32 (shl64 rc il) = rc * 2 ^ il) as <- by (rewrite shl64_mul by lia; apply u32_id; lia).
      destruct (sparse (features g)); cbn in X; congruence.
    + apply bind_Ok in C as (x & _ & C). apply bind_Ok in C as (y & Y & C).
      apply bind_Ok in Y as (? & _ & Y). apply bind_Ok in Y as (? & _ & Y). injection Y as <-. done.
  - cbn in C. destruct rs as [|r rs]; [constructor|]. cbn [collect] in C.
    apply bind_Ok in C as (x & _ & C). by apply bind_Ok in C as (y & _ & C).
Qed.

Lemma both_dump_trees dm1 dm2 : alike dm1 dm2 ->
  both2 alike (dump_trees (geo_of g) a agf1 agi1 dm1) (dump_trees (geo_of g) a agf2 agi2 dm2).
Proof.
  intros Hd. destruct group_roots as ((B1 & B2) & (C1 & C2) & HR & HF & (I1 & I2) & HI).
  destruct root_places as (R1 & R2 & R3 & R4 & R5 & R6 & _). destruct geo_features as (G1 & G2 & G3).
  unfold dump_trees. rewrite G1, G2, G3.
  apply (both_root a BNOBT alloc_parse (p_free p) (bno_block g));
    [done..| apply Nat.lt_0_succ | done | apply (ht_bno _ _ _ _ T) |]. clear dm1 dm2 Hd. intros dm1 dm2 _ Hd _ _.
  apply (both_root a CNTBT alloc_parse (by_size p) (cnt_block g));
    [done..| apply Nat.lt_0_succ | done | apply (ht_cnt _ _ _ _ T) |]. clear dm1 dm2 Hd. intros dm1 dm2 _ Hd _ _.
  eapply bio_bind.
  { apply (both_optional _ a RMAPBT rmap_parse (p_rmap p) (rmap_block g));
      [intros Hh; destruct (HR Hh); auto | done | apply Nat.lt_0_succ | exact Hd | apply (ht_rmap _ _ _ _ T)]. }
  clear dm1 dm2 Hd. intros dm1 dm2 Hd. eapply bio_bind.
  { apply (both_optional _ a REFCBT alloc_parse [] (refc_block g));
      [intros Hh; destruct (HF Hh); auto | done | apply Nat.lt_0_succ | exact Hd | apply (ht_refc _ _ _ _ T)]. }
  clear dm1 dm2 Hd. intros dm1 dm2 Hd.
  apply (both_root a INOBT inobt_parse (inobt_kept (sparse (features g)) <$> head_inodes g p) (ibt_block g));
    [done..| apply Nat.lt_0_succ | done | apply (ht_ino _ _ _ _ T) |]. clear dm1 dm2 Hd. intros dm1 dm2 rs Hd Hc Hl.
  eapply bio_bind.
  { apply (both_optional _ a FINOBT inobt_parse (inobt_kept (sparse (features g)) <$> head_inodes g p) (fibt_block g));
      [intros Hh; destruct (HI Hh); auto | done | apply Nat.lt_0_succ | exact Hd | apply (ht_fino _ _ _ _ T)]. }
  clear dm1 dm2 Hd. intros dm1 dm2 Hd. apply bio_fold; [done|]. intros e1 e2 r He Hr.
  pose proof (group_chunks rs Hc Hl) as Hall. rewrite Forall_forall in Hall.
  destruct (Hall r Hr) as (-> & Er & Lr). by apply both_dump_chunk.
Qed.

(** The header sectors of the head's blocks. *)
Lemma head_sectors_of f : let head := bytes_of f (ag_base a) (header_blocks g * bs g) in
  forall k lo hi, (lo = k * ss)%nat -> (hi = lo + ss)%nat -> (hi <= 4 * ss)%nat ->
  slice head lo hi = Ok (piece f (ag_base a) (k * ss) ss).
Proof.
  intros head k lo hi -> -> Hh. destruct (block_bytes_of g W) as (K1 & K2 & K3 & K4). destruct block_pos as (B & _).
  fold ss in K3. unfold head. rewrite slice_bytes_of by nia. unfold piece. f_equal. f_equal. lia.
Qed.

Lemma both_dump_ag dm1 dm2 : alike dm1 dm2 ->
  both2 alike (dump_ag (geo_of g) a dm1) (dump_ag (geo_of g) a dm2).
Proof.
  intros Hd. destruct block_pos as (B & Eb & _). destruct (wf_ranges g W) as (R1 & R2 & _).
  pose proof (wf_header g W). pose proof (wf_prealloc g W).
  pose proof (ag_blocks_range g W a Ha) as [A1 A2].
  destruct (geo_byte a 0 Ha ltac:(lia)) as (E0 & Hin & H0').
  unfold dump_ag. cbv zeta. rewrite E0. cbn [geo_of geo_sectsize geo_blocksize].
  change (div_ceil (u64 (4 * sectsize g)) (blocksize g)) with (header_blocks g). rewrite <- Eb.
  rewrite (u64_id (header_blocks g * bs g)) by nia. fold ss. rewrite Z.add_0_r.
  eapply bio_bind; [apply both_read; lia|]. intros b1 b2 [-> ->]. fold (ag_base a).
  assert (forall f, length (piece f (ag_base a) 0 ss) = ss /\ (512 <= ss)%nat) as Hl.
  { intros f. unfold piece. rewrite length_bytes_of by lia. unfold ss. split; lia. }
  assert (forall f lo, length (piece f (ag_base a) lo ss) = ss) as Hlen
    by (intros f lo; unfold piece; rewrite length_bytes_of; lia).
  destruct (Hl f1) as [L1 L2].
  rewrite !(head_sectors_of _ 0 0 ss), !(head_sectors_of _ 1 ss (2 * ss)),
    !(head_sectors_of _ 2 (2 * ss) (3 * ss)), !(head_sectors_of _ 3 (3 * ss) (4 * ss)) by lia.
  apply bio_ok.
  destruct T as [Tsb Tf Ti Tl (M1 & M2 & M3) _ _ _ _ _ _ _ _]. cbv zeta in *. fold ss in Tsb, Tf, Ti, Tl, M1, M2, M3.
  pose proof (st_twins _ _ _ _ Tf) as Wf. pose proof (st_twins _ _ _ _ Ti) as Wi. pose proof (st_twins _ _ _ _ Tl) as Wl.
  eapply bio_bind.
  { apply bio_lift. pose proof (both_dump_sb _ _ dm1 dm2 (dot ("ag[" +:+ pretty a +:+ "]") "sb") Hd Tsb) as Hs.
    rewrite Hlen in Hs. apply Hs. lia. }
  clear dm1 dm2 Hd. intros dm1 dm2 Hd. do 3 apply bio_ok.
  assert (forall x1 x2 x3, be32 x1 agf.MAGICNUM = Ok AGF_MAGIC -> be32 x2 agi.MAGICNUM = Ok AGI_MAGIC ->
    be32 x3 agfl.MAGICNUM = Ok AGFL_MAGIC -> headers_bad x1 x2 x3 = Ok false) as Hg
    by (intros x1 x2 x3 Q1 Q2 Q3; unfold headers_bad; by rewrite Q1, Q2, Q3).
  rewrite !Hg by (done || by eapply twins_be32). apply bio_ok.
  eapply bio_bind; [apply bio_lift, both_dump_agf; [done | done | by rewrite Hlen]|].
  clear dm1 dm2 Hd. intros dm1 dm2 Hd.
  eapply bio_bind; [apply bio_lift, both_dump_agi; [done | done | by rewrite Hlen]|].
  clear dm1 dm2 Hd. intros dm1 dm2 Hd.
  eapply bio_bind; [apply bio_lift, both_dump_agfl; [done | done | by rewrite Hlen]|].
  clear dm1 dm2 Hd. intros dm1 dm2 Hd. by apply both_dump_trees.
Qed.
End Group.

(** ** The log *)

Lemma twins_take ms k b1 b2 : twins ms b1 b2 -> twins ms (take k b1) (take k b2).
Proof.
  intros [El Ea]. split; [by rewrite !length_take, El|]. intros i Hi.
  destruct (decide (i < k)%nat); [|by rewrite !lookup_take_ge by lia].
  rewrite !lookup_take_lt by done. by apply Ea.
Qed.

Lemma both_log_header b1 b2 rec_len dm1 dm2 : twins log_mask b1 b2 -> (1024 <= length b1)%nat ->
  (1024 <= rec_len)%nat -> alike dm1 dm2 ->
  both alike (dump_log_header dm1 b1 rec_len) (dump_log_header dm2 b2 rec_len).
Proof.
  intros T Hl Hr Hd. pose proof (tw_length _ _ _ T) as El. unfold dump_log_header.
  rewrite !slice_in by lia. cbn [mbind result_bind]. rewrite !drop_0. cbn [Nat.sub].
  pose proof (twins_take _ 512 _ _ T) as T5.
  assert (length (take 512 b1) = 512%nat) as L1 by (rewrite length_take; lia).
  assert (length (take 512 b2) = 512%nat) as L2 by (rewrite length_take; lia).
  revert T5 L1 L2. generalize (take 512 b1), (take 512 b2). intros h1 h2 T5 L1 L2. rewrite <- El.
  replace (length h2) with (length h1) by lia.
  twin_fields log_mask T5 512%nat.
  apply (both_trimmed_from T); [lia | reflexivity].
Qed.

Hypothesis Hlog : prealloc_blocks g + logblocks g + min_freelist g <= ag_blocks g (logagno g).

#[local] Abbreviation log_len := (logblocks g * bs g).

Lemma log_place : 0 <= log_byte g /\ log_byte g mod bs g = 0 /\ log_byte g + log_len <= dblocks g * bs g /\
  2 ^ 26 <= log_len < 2 ^ 31 /\ log_byte g + log_len < 2 ^ 64 /\ 2 ^ 20 mod bs g = 0.
Proof.
  destruct (log_bounds g d1 u1 W Hlog (fm_uuid _ _ _ _ F1)) as (G1 & G2 & G3 & G4 & G5 & G6).
  destruct (blocks_512 g d1 u1 W (fm_uuid _ _ _ _ F1)) as (_ & _ & _ & B3 & B4).
  destruct block_pos as (_ & _ & B). pose proof (logagno_range g W). destruct (wf_ranges g W) as (_ & _ & _ & R4 & _).
  assert (MAX_LOG_BYTES < 2 ^ 31) by (by vm_compute).
  assert (0 <= logagno g * agsize g) by (apply Z.mul_nonneg_nonneg; lia).
  assert (log_byte g + log_len <= dblocks g * bs g)
    by (unfold log_byte; rewrite <- Z.mul_add_distr_r; apply Z.mul_le_mono_nonneg_r; lia).
  split_and!; try lia.
  - apply Z.mul_nonneg_nonneg; lia.
  - apply Z.mod_mul. lia.
  - apply Z.mod_divide in B3 as [k Hk]; [|lia]. apply Z.mod_divide; [lia|]. exists (4 * k).
    change (2 ^ 20) with (4 * WINDOW). lia.
Qed.

Lemma both_read_at off len : 0 <= off -> 0 <= len -> off mod bs g = 0 -> len mod bs g = 0 ->
  off + len <= dblocks g * bs g ->
  both2 (fun b1 b2 => b1 = bytes_of f1 off len /\ b2 = bytes_of f2 off len) (read off len) (read off len).
Proof.
  intros Ho Hk [o ->]%Z.mod_divide [k ->]%Z.mod_divide Hin; [|destruct block_pos; lia..].
  destruct block_pos as (B & _). apply both_read; nia.
Qed.

(** The log after its first block, in both. *)
Lemma log_rest off len : log_byte g + bs g <= off -> 0 <= len -> off + len <= log_byte g + log_len ->
  bytes_of f1 off len = bytes_of f2 off len.
Proof.
  intros Ho Hl Hin. destruct (log_bounds g d1 u1 W Hlog (fm_uuid _ _ _ _ F1)) as (_ & _ & _ & _ & G5 & _).
  destruct (fm_image _ _ _ _ F1) as (t1 & gen1 & I1), (fm_image _ _ _ _ F2) as (t2 & gen2 & I2).
  pose proof (im_log_rest _ _ _ _ _ _ I1) as Z1. pose proof (im_log_rest _ _ _ _ _ _ I2) as Z2.
  rewrite G5 in Z1, Z2. apply bytes_of_ext. intros i Hi. by rewrite Z1, Z2 by lia.
Qed.

Lemma both_scan_log fuel at_ nz : bs g <= at_ -> at_ mod bs g = 0 ->
  log_len - at_ <= 2 ^ 20 * (Z.of_nat fuel - 1) -> (0 < fuel)%nat ->
  both2 eq (scan_log fuel (bs g) (log_byte g) log_len at_ nz) (scan_log fuel (bs g) (log_byte g) log_len at_ nz).
Proof.
  destruct log_place as (P1 & P2 & P3 & P4 & P5 & P6). destruct block_pos as (B & _).
  revert at_ nz. induction fuel as [|fuel IH]; intros at_ nz Ha Hm Hf Hp; [lia|].
  cbn [scan_log]. destruct (Z.ltb_spec at_ log_len) as [Hlt|]; [|by apply bio_ret]. cbv zeta.
  change (Z.shiftl 1 20) with (2 ^ 20). set (k := Z.min _ _).
  assert (k mod bs g = 0) as Hk.
  { unfold k. destruct (Z.min_spec (2 ^ 20) (log_len - at_)) as [[_ ->]|[_ ->]]; [done|].
    apply Z.mod_divide; [lia|]. apply Z.divide_sub_r; [apply Z.divide_factor_r | by apply Z.mod_divide; [lia|]]. }
  assert (0 <= k /\ k <= log_len - at_ /\ k <= 2 ^ 20 /\ (k = 2 ^ 20 \/ k = log_len - at_)) as (K1 & K2 & K3 & K4)
    by (unfold k; lia).
  rewrite (u64_id (_ + at_)) by lia. eapply bio_bind.
  { apply both_read_at; [lia | lia | | done | lia]. apply Z.mod_divide; [lia|].
    apply Z.divide_add_r; by apply Z.mod_divide; [lia|]. }
  intros b1 b2 [-> ->]. rewrite (log_rest (_ + at_)) by lia. unfold count_nonzero.
  destruct (Nat.eqb_spec (Z.to_nat (bs g)) 0); [lia|]. apply bio_ok.
  rewrite (u64_id (at_ + k)) by lia. apply IH; [lia | | lia | lia].
  apply Z.mod_divide; [lia|]. apply Z.divide_add_r; by apply Z.mod_divide; [lia|].
Qed.

(** The log's first block, in both. *)
Lemma log_first : twins log_mask (bytes_of f1 (log_byte g) (bs g)) (bytes_of f2 (log_byte g) (bs g)).
Proof.
  destruct (log_bounds g d1 u1 W Hlog (fm_uuid _ _ _ _ F1)) as (_ & _ & _ & _ & G5 & _).
  destruct (fm_image _ _ _ _ F1) as (t1 & gen1 & I1), (fm_image _ _ _ _ F2) as (t2 & gen2 & I2).
  destruct (im_log _ _ _ _ _ _ I1) as (b1 & X1 & Y1), (im_log _ _ _ _ _ _ I2) as (b2 & X2 & Y2).
  rewrite G5 in Y1, Y2. rewrite Y1, Y2.
  eapply log_block_twins; [done | apply (fm_uuid _ _ _ _ F1) | apply (fm_uuid _ _ _ _ F2) | apply X1 | apply X2].
Qed.

Lemma both_dump_log dm1 dm2 : alike dm1 dm2 ->
  both2 alike (dump_log (geo_of g) dm1) (dump_log (geo_of g) dm2).
Proof.
  intros Hd. destruct log_place as (P1 & P2 & P3 & P4 & P5 & P6). destruct block_pos as (B & Eb & _).
  pose proof (geo_extent g d1 u1 W (fm_size _ _ _ _ F1) Hlog (fm_uuid _ _ _ _ F1)) as Ex.
  destruct (log_bounds g d1 u1 W Hlog (fm_uuid _ _ _ _ F1)) as (G1 & G2 & G3 & G4 & G5 & G6).
  destruct (logstart_split g W) as (E & L1 & L2). destruct (wf_ranges g W) as (_ & _ & _ & _ & _ & _ & R7 & R8 & _).
  pose proof (wf_agblklog g W). pose proof (wf_blocklog g W). pose proof (pow2_pos (agblklog g) ltac:(lia)).
  pose proof (pow2_le (agblklog g) 30 ltac:(lia)). pose proof (wf_prealloc g W). pose proof (wf_header g W).
  pose proof (logagno_range g W) as Hla. pose proof (min_freelist_range g).
  unfold dump_log. cbn [geo_of geo_blocksize geo_logstart geo_agblklog geo_logsunit geo_logsectsize geo_logblocks].
  cbv zeta. rewrite <- Eb. rewrite (shl64_1 (agblklog g)), (u64_id (2 ^ agblklog g - 1)) by lia.
  rewrite shr64_div by lia. rewrite E. destruct (split_shift (logagno g) (log_agbno g) (agblklog g) ltac:(lia) L1) as [-> ->].
  destruct (geo_byte (logagno g) (log_agbno g) ltac:(lia)) as (-> & _ & _).
  { pose proof (wf_log_agbno g W). lia. }
  fold (log_byte g). rewrite (u64_id log_len) by lia.
  set (rl := Z.to_nat (Z.max _ 2 * 512)). assert (1024 <= rl)%nat by (unfold rl; lia).
  eapply bio_bind; [apply both_read_at; [lia | lia | done | apply Z.mod_same; lia | lia]|].
  intros b1 b2 [-> ->]. pose proof log_first as T. pose proof (tw_length _ _ _ T) as El.
  set (x1 := bytes_of f1 _ _) in *. set (x2 := bytes_of f2 _ _) in *.
  assert (length x1 = Z.to_nat (bs g)) as Hx by (unfold x1; rewrite length_bytes_of; lia).
  eapply bio_bind; [apply bio_lift, both_log_header; [done | lia | done | done]|].
  clear dm1 dm2 Hd. intros dm1 dm2 Hd. rewrite <- El.
  assert (past log_mask (rl `min` length x1) = true) as Hpast.
  { unfold past, log_mask, LogRecord.off.FS_UUID. cbn [forallb fst snd]. rewrite andb_true_r. apply Nat.leb_le. lia. }
  rewrite <- (twins_slice_from T _ (length x1) Hpast). rewrite slice_in by lia. apply bio_ok.
  apply bio_bind with (R := eq); [|intros nz ? <-; by apply bio_ret, alike_s].
  pose proof (Z.div_mod log_len (2 ^ 20) ltac:(lia)). pose proof (Z.mod_pos_bound log_len (2 ^ 20) ltac:(lia)).
  apply both_scan_log; [lia | apply Z.mod_same; lia | lia | lia].
Qed.

(** ** Everything *)

Lemma both_dump : both2 alike dump dump.
Proof.
  unfold dump. eapply (bio_bind _ _ (fun x y => x = geo_of g /\ y = geo_of g)).
  { eexists _, _. split_and!; [apply (fm_geometry _ _ _ _ F1) | apply (fm_geometry _ _ _ _ F2) | done..]. }
  intros ? ? [-> ->]. apply bio_bind with (R := alike); [|intros dm1 dm2 Hd; by apply both_dump_log].
  apply bio_fold; [constructor|]. intros dm1 dm2 a Hd Ha%elem_of_seqZ.
  change (geo_agcount (geo_of g)) with (agcount g) in Ha.
  destruct (fm_image _ _ _ _ F1) as (t1 & gen1 & I1), (fm_image _ _ _ _ F2) as (t2 & gen2 & I2).
  destruct (im_heads _ _ _ _ _ _ I1 a ltac:(lia)) as (p & b1 & Pp & S1 & Y1).
  destruct (im_heads _ _ _ _ _ _ I2 a ltac:(lia)) as (p2 & b2 & Pp2 & S2 & Y2).
  assert (p2 = p) as -> by congruence. subst b1 b2.
  destruct (head_byte g W a ltac:(lia)) as (Eh & _). rewrite Eh in S1, S2.
  pose proof (wf_prealloc g W). pose proof (wf_header g W). destruct block_pos as (B & _).
  pose proof (fm_uuid _ _ _ _ F1). pose proof (fm_uuid _ _ _ _ F2).
  apply (both_dump_ag a p); [lia | done | | done].
  apply (head_pieces g f1 f2 (ag_base a) (prealloc_blocks g * bs g) p u1 u2
    (final_sbs g u1 fdb a) (final_sbs g u2 fdb a)); try done; try apply sb_final_uuid; [nia|].
  unfold final_sbs. by destruct (a =? 0).
Qed.
End Formatted.

(** * Alike dumps *)

Lemma alike_last k dm1 dm2 : alike dm1 dm2 ->
  option_Forall2 alike_field (last_field dm1 k) (last_field dm2 k).
Proof.
  unfold alike, last_field. intros Ha%Forall2_reverse. revert Ha.
  generalize (reverse (d_fields dm1)), (reverse (d_fields dm2)). intros l1 l2.
  induction 1 as [|x y l1 l2 Hxy _ IH]; [constructor|]. cbn. rewrite (af_key _ _ Hxy).
  destruct (String.eqb _ _); [by constructor | done].
Qed.

(** Dumps that are alike differ in nothing structural. *)
Lemma alike_no_structural dm1 dm2 : alike dm1 dm2 -> structural (diff dm1 dm2) = [].
Proof.
  intros Ha. unfold structural. apply elem_of_nil_inv. intros x [Hs Hx]%list_elem_of_filter.
  apply diff_in in Hx as (k & [Hn ->]%diff_at_spec). cbn [df_class] in Hs. rewrite !by_key_last in *.
  destruct (alike_last k _ _ Ha) as [x1 x2 [_ Hc Hv]|]; cbn in *; [|done].
  apply Hn. f_equal. by apply Hv.
Qed.

(** [format] leaves what [holds_format] says. *)
Lemma format_holds {D} `{DeviceSpec D} env params (d : D) g : request env params d g -> serves_first d ->
  exists ps d' r, plans g = Ok ps /\ format env params d = (d', Ok r) /\
    holds_format g (planned_fdblocks ps) (run_uuid env params) d'.
Proof.
  intros R Hf. destruct (format_image env params d g R) as (ps & d' & Hps & E & Lt & I).
  destruct (format_fs_ok env params d g R Hf) as (d2 & r2 & s & E2 & _ & F & _).
  assert (d2 = d') as -> by congruence.
  destruct (request_running env params d g R) as (? & ? & ? & ? & ? & Rn).
  eexists ps, d', _. split; [done|]. split; [exact E|]. split.
  - apply Lt.
  - eapply later_serves; [done | apply R].
  - rewrite (lt_size _ _ Lt). apply Rn.
  - eapply geometry_ok; apply F.
  - apply R.
  - by eexists _, _.
Qed.

(** * Properties *)

(** C4: formatting two devices to one geometry, whatever the UUIDs, times, random
    seeds, orders in which the allocation groups complete and kinds of device,
    leaves two filesystems whose [compare] succeeds and finds no structural
    difference: every key of one dump is in the other, and the values that
    differ are the UUIDs, times, generations and checksums alone. *)
Theorem two_formats_compare_equal {D1 D2} `{DeviceSpec D1} `{DeviceSpec D2} env1 env2 params1 params2
    (d1 : D1) (d2 : D2) g :
  request env1 params1 d1 g -> request env2 params2 d2 g -> serves_first d1 -> serves_first d2 ->
  exists d1' r1 d2' r2 ds,
    Format.format env1 params1 d1 = (d1', Ok r1) /\ Format.format env2 params2 d2 = (d2', Ok r2) /\
    compare d1' d2' = Ok ds /\ structural ds = [].
Proof.
  intros R1 R2 S1 S2.
  destruct (format_holds env1 params1 d1 g R1 S1) as (ps & d1' & r1 & P1 & E1 & F1).
  destruct (format_holds env2 params2 d2 g R2 S2) as (ps2 & d2' & r2 & P2 & E2 & F2).
  assert (ps2 = ps) as -> by congruence.
  destruct (request_running env1 params1 d1 g R1) as (? & ? & ? & ? & ? & Rn).
  destruct (both_dump g _ _ _ d1' d2' (rn_wf _ _ _ _ _ _ _ _ _ Rn) F1 F2 (rq_log _ _ _ _ R1))
    as (dm1 & dm2 & X1 & X2 & Ha).
  exists d1', r1, d2', r2, (diff dm1 dm2). split_and!; [done | done | | by apply alike_no_structural].
  unfold compare. by rewrite X1, X2.
Qed.

(** Another UUID, seed, clock and order of completion. *)
Definition env1 : Env :=
  mkEnv (replicate 16 (byte.of_Z 9)) (replicate 32 (byte.of_Z 3)) (mkTimestamp 1800000000 7) [0; 1; 2; 3].

Lemma request1 : request env1 Params_new dev0 geo512m.
Proof.
  destruct request0 as [Q1 Q2 Q3 Q4 _ _ _ Q8 Q9].
  split; [exact Q1 | exact Q2 | exact Q3 | exact Q4 | | | | exact Q8 | exact Q9]; clear.
  - apply (bool_decide_unpack _). by vm_compute.
  - done.
  - by vm_compute.
Qed.

Lemma two_formats_compare_equal_witness : exists d1 r1 d2 r2 ds,
  Format.format env0 Params_new dev0 = (d1, Ok r1) /\ Format.format env1 Params_new dev0 = (d2, Ok r2) /\
  compare d1 d2 = Ok ds /\ structural ds = [].
Proof.
  exact (two_formats_compare_equal env0 env1 Params_new Params_new dev0 dev0 geo512m request0 request1
    serves_first0 serves_first0).
Defined.
