(* ===== verification/Cli.v ===== *)
(** [src/src/bin/mkfs_xfs.rs] and [src/src/bin/xfs_admin.rs]: the command
    lines.

    Strings are their bytes.  The parser of arguments ([clap]), the [uuid]
    crate and the device are outside these two files: the models start from
    the parsed [Cli], and take as parameters what opening and creating the
    device answers, the UUID parser, printer and generator.  A command ends
    with the device it opened, if it came that far, the lines it printed, and
    its outcome.  Theorems are in [CliFacts.v]; [ToolFacts.v] runs the
    commands on files. *)

From Stdlib Require Import ZArith Lia String Ascii.
From stdpp Require Import base tactics list numbers strings pretty.
From coqutil Require Import Byte Word.LittleEndianList.
From S2P Require Import Prelude Bytes Fmt Geometry Device Io Format Admin.

(** * Errors *)

(** [anyhow::Error]: a message of the command's own, the standard library's
    refusal of a number, or an error of the crate, under a context or not. *)
Inductive CliError : Type :=
| Message (msg : string)
| ParseInt
| Lib (e : Error)
| InContext (msg : string) (e : Error).

Inductive cli (A : Type) : Type := Good (a : A) | Bad (e : CliError).
Arguments Good {A} a.
Arguments Bad {A} e.

#[export] Instance cli_ret : MRet cli := fun A a => Good a.
#[export] Instance cli_bind : MBind cli := fun A B f m =>
  match m with Good a => f a | Bad e => Bad e end.

(** [.with_context(|| msg)?] on an option. *)
Definition or_message {A} (o : option A) (msg : string) : cli A :=
  match o with Some a => Good a | None => Bad (Message msg) end.

(** * Strings *)

Definition lower_char (c : ascii) : ascii :=
  let n := nat_of_ascii c in
  if (65 <=? n)%nat && (n <=? 90)%nat then ascii_of_nat (n + 32) else c.
Fixpoint to_ascii_lowercase (s : string) : string :=
  match s with
  | EmptyString => EmptyString
  | String c s => String (lower_char c) (to_ascii_lowercase s)
  end.

(** Unicode's white space, encoded. *)
Definition bytes (l : list nat) : string := string_of_list_ascii (ascii_of_nat <$> l).
Definition white_space : list string :=
  (bytes <$> [[9]; [10]; [11]; [12]; [13]; [32]; [194; 133]; [194; 160]; [225; 154; 128];
    [226; 128; 168]; [226; 128; 169]; [226; 128; 175]; [226; 129; 159]; [227; 128; 128]])%nat
  ++ ((fun i => bytes [226; 128; 128 + i]%nat) <$> seq 0 11).

(** The rest of a string that starts with one of [ws]. *)
Fixpoint strip_prefix (w s : string) : option string :=
  match w, s with
  | EmptyString, _ => Some s
  | String c w, String c' s => if Ascii.eqb c c' then strip_prefix w s else None
  | _, _ => None
  end.
Fixpoint strip_any (ws : list string) (s : string) : option string :=
  match ws with
  | [] => None
  | w :: ws => match strip_prefix w s with Some s => Some s | None => strip_any ws s end
  end.
Fixpoint trim_loop (ws : list string) (fuel : nat) (s : string) : string :=
  match fuel with
  | O => s
  | S fuel => match strip_any ws s with Some s => trim_loop ws fuel s | None => s end
  end.
Definition rev_string (s : string) : string :=
  string_of_list_ascii (reverse (list_ascii_of_string s)).
(** Every round takes a byte, so the length is fuel enough. *)
Definition trim (s : string) : string :=
  let s := trim_loop white_space (String.length s) s in
  rev_string (trim_loop (rev_string <$> white_space) (String.length s) (rev_string s)).

(** [s.chars().last()] for the ASCII characters the code asks about, and the
    string without it. *)
Fixpoint split_last (s : string) : option (string * ascii) :=
  match s with
  | EmptyString => None
  | String c EmptyString => Some (EmptyString, c)
  | String c s => match split_last s with Some (i, l) => Some (String c i, l) | None => None end
  end.

(** [s.split(c)] and [s.split_once(c)]. *)
Fixpoint split (c : ascii) (s : string) : list string :=
  match s with
  | EmptyString => [EmptyString]
  | String c' s =>
      if Ascii.eqb c' c then EmptyString :: split c s
      else match split c s with p :: ps => String c' p :: ps | [] => [String c' EmptyString] end
  end.
Fixpoint split_once (c : ascii) (s : string) : option (string * string) :=
  match s with
  | EmptyString => None
  | String c' s =>
      if Ascii.eqb c' c then Some (EmptyString, s)
      else (fun kv => (String c' (fst kv), snd kv)) <$> split_once c s
  end.

(** [str::parse] for an unsigned integer below [max]: an optional plus sign
    and at least one digit. *)
Definition digit_of (c : ascii) : option Z :=
  let n := Z.of_nat (nat_of_ascii c) in if (48 <=? n) && (n <=? 57) then Some (n - 48) else None.
Fixpoint parse_digits (max acc : Z) (s : string) : option Z :=
  match s with
  | EmptyString => Some acc
  | String c s =>
      d ← digit_of c;
      let acc := acc * 10 + d in
      if max <=? acc then None else parse_digits max acc s
  end.
Definition parse_uint (max : Z) (s : string) : option Z :=
  let s := match s with String "+" s => s | _ => s end in
  match s with EmptyString => None | _ => parse_digits max 0 s end.

(** * [mkfs-xfs] *)

Definition size_suffix (c : ascii) : option Z :=
  match c with
  | "k" => Some 10 | "m" => Some 20 | "g" => Some 30 | "t" => Some 40 | "p" => Some 50
  | _ => None
  end%char.

Definition parse_size (s : string) : cli Z :=
  let s := to_ascii_lowercase (trim s) in
  let '(num, shift) :=
    match split_last s with
    | Some (i, c) => match size_suffix c with Some k => (i, k) | None => (s, 0) end
    | None => (s, 0)
    end in
  n ← or_message (parse_uint (2 ^ 64) num) ("bad size " +:+ debug_str s);
  or_message (checked_mul64 n (Z.shiftl 1 shift)) ("size " +:+ debug_str s +:+ " overflows").

Definition parse_bool (s : string) : cli bool :=
  if String.eqb s "1" then Good true
  else if String.eqb s "0" then Good false
  else Bad (Message ("expected 0 or 1, got " +:+ debug_str s)).

Definition parse_number (max : Z) (s : string) : cli Z :=
  match parse_uint max s with Some n => Good n | None => Bad ParseInt end.

Definition subopt (kv : string) : string * string :=
  match split_once "=" kv with Some (k, v) => (k, v) | None => (kv, "1") end.
Definition subopts (l : list string) : list (string * string) :=
  subopt <$> filter (fun kv => kv <> EmptyString) (l ≫= split ",").

(** The parsed arguments. *)
Record Cli : Type := mkCli {
  c_block : list string;
  c_data : list string;
  c_inode : list string;
  c_meta : list string;
  c_sector : list string;
  c_label : option string;
  c_dry_run : bool;
  c_quiet : bool;
  c_force : bool;
  c_create : option string;
  c_device : string;
}.

(** Assignments to the fields [Params] has no builder for. *)
Definition set_agsize (p : Params) (v : Z) : Params :=
  mkParams (p_size p) (p_block_size p) (p_sector_size p) (p_inode_size p) (p_agcount p) (Some v)
    (p_imaxpct p) (p_label p) (p_uuid p) (p_time p) (p_gen_seed p) (p_features p).
Definition set_imaxpct (p : Params) (v : Z) : Params :=
  mkParams (p_size p) (p_block_size p) (p_sector_size p) (p_inode_size p) (p_agcount p) (p_agsize p)
    (Some v) (p_label p) (p_uuid p) (p_time p) (p_gen_seed p) (p_features p).
Definition set_label_option (p : Params) (l : option string) : Params :=
  mkParams (p_size p) (p_block_size p) (p_sector_size p) (p_inode_size p) (p_agcount p) (p_agsize p)
    (p_imaxpct p) l (p_uuid p) (p_time p) (p_gen_seed p) (p_features p).
Definition set_features (p : Params) (f : Features -> Features) : Params :=
  Params_features p (f (p_features p)).
Definition set_sparse (v : bool) (f : Features) : Features :=
  mkFeatures (finobt f) (rmapbt f) (reflink f) (inobtcount f) (bigtime f) (nrext64 f) v.
Definition set_nrext64 (v : bool) (f : Features) : Features :=
  mkFeatures (finobt f) (rmapbt f) (reflink f) (inobtcount f) (bigtime f) v (sparse f).
Definition set_finobt (v : bool) (f : Features) : Features :=
  mkFeatures v (rmapbt f) (reflink f) (inobtcount f) (bigtime f) (nrext64 f) (sparse f).
Definition set_rmapbt (v : bool) (f : Features) : Features :=
  mkFeatures (finobt f) v (reflink f) (inobtcount f) (bigtime f) (nrext64 f) (sparse f).
Definition set_reflink (v : bool) (f : Features) : Features :=
  mkFeatures (finobt f) (rmapbt f) v (inobtcount f) (bigtime f) (nrext64 f) (sparse f).
Definition set_inobtcount (v : bool) (f : Features) : Features :=
  mkFeatures (finobt f) (rmapbt f) (reflink f) v (bigtime f) (nrext64 f) (sparse f).
Definition set_bigtime (v : bool) (f : Features) : Features :=
  mkFeatures (finobt f) (rmapbt f) (reflink f) (inobtcount f) v (nrext64 f) (sparse f).

(** [for (k, v) in subopts(..)]. *)
Fixpoint each_opt (f : Params -> string -> string -> cli Params) (p : Params)
    (l : list (string * string)) : cli Params :=
  match l with
  | [] => Good p
  | (k, v) :: l => p ← f p k v; each_opt f p l
  end.

Definition block_opt (p : Params) (k v : string) : cli Params :=
  if String.eqb k "size" then n ← parse_size v; Good (Params_block_size p (u32 n))
  else Bad (Message ("unknown -b option " +:+ k)).
Definition sector_opt (p : Params) (k v : string) : cli Params :=
  if String.eqb k "size" then n ← parse_size v; Good (Params_sector_size p (u32 n))
  else Bad (Message ("unknown -s option " +:+ k)).
Definition data_opt (p : Params) (k v : string) : cli Params :=
  if String.eqb k "size" then n ← parse_size v; Good (Params_size p n)
  else if String.eqb k "agcount" then n ← parse_number (2 ^ 64) v; Good (Params_agcount p n)
  else if String.eqb k "agsize" then n ← parse_size v; Good (set_agsize p n)
  else Bad (Message ("-d " +:+ k +:+ " is not supported")).
Definition inode_opt (p : Params) (k v : string) : cli Params :=
  if String.eqb k "size" then n ← parse_size v; Good (Params_inode_size p (u32 n))
  else if String.eqb k "maxpct" then n ← parse_number (2 ^ 8) v; Good (set_imaxpct p n)
  else if String.eqb k "sparse" then b ← parse_bool v; Good (set_features p (set_sparse b))
  else if String.eqb k "nrext64" then b ← parse_bool v; Good (set_features p (set_nrext64 b))
  else Bad (Message ("-i " +:+ k +:+ " is not supported")).

Section Uuid.
(** [uuid::Uuid::parse_str]. *)
Variable parse_str : string -> option buf.

Definition parse_uuid (s : string) : cli buf := or_message (parse_str s) ("bad uuid " +:+ debug_str s).

Definition meta_opt (p : Params) (k v : string) : cli Params :=
  if String.eqb k "uuid" then u ← parse_uuid v; Good (Params_uuid p u)
  else if String.eqb k "crc" && String.eqb v "1" then Good p
  else if String.eqb k "finobt" then b ← parse_bool v; Good (set_features p (set_finobt b))
  else if String.eqb k "rmapbt" then b ← parse_bool v; Good (set_features p (set_rmapbt b))
  else if String.eqb k "reflink" then b ← parse_bool v; Good (set_features p (set_reflink b))
  else if String.eqb k "inobtcount" then b ← parse_bool v; Good (set_features p (set_inobtcount b))
  else if String.eqb k "bigtime" then b ← parse_bool v; Good (set_features p (set_bigtime b))
  else Bad (Message ("-m " +:+ k +:+ "=" +:+ v +:+ " is not supported")).

Definition params (c : Cli) : cli Params :=
  p ← each_opt block_opt Params_new (subopts (c_block c));
  p ← each_opt sector_opt p (subopts (c_sector c));
  p ← each_opt data_opt p (subopts (c_data c));
  p ← each_opt inode_opt p (subopts (c_inode c));
  p ← each_opt meta_opt p (subopts (c_meta c));
  Good (set_label_option p (c_label c)).
End Uuid.

(** ** [report] *)

(** [{:<w}]: the width counts characters, and in UTF-8 a character is a byte
    that does not continue one. *)
Definition continues (c : ascii) : bool := let n := nat_of_ascii c in (128 <=? n)%nat && (n <? 192)%nat.
Definition chars (s : string) : nat :=
  length (List.filter (fun c => negb (continues c)) (list_ascii_of_string s)).
Definition pad_right (w : nat) (s : string) : string :=
  s +:+ Nat.iter (w - chars s) (String " ") EmptyString.
Definition show_flag (b : bool) : string := if b then "1" else "0".

Definition report_lines (g : Geometry) (name : string) : list string :=
  let f := features g in
  let num (w : nat) (v : Z) := pad_right w (pretty v) in
  let indent := "         =" +:+ pad_right 22 EmptyString in
  [ "meta-data=" +:+ pad_right 22 name +:+ " isize=" +:+ num 6%nat (inodesize g)
      +:+ " agcount=" +:+ pretty (agcount g) +:+ ", agsize=" +:+ pretty (agsize g) +:+ " blks";
    indent +:+ " sectsz=" +:+ num 5%nat (sectsize g) +:+ " attr=2, projid32bit=1";
    indent +:+ " crc=1        finobt=" +:+ show_flag (finobt f) +:+ ", sparse=" +:+ show_flag (sparse f)
      +:+ ", rmapbt=" +:+ show_flag (rmapbt f);
    indent +:+ " reflink=" +:+ show_flag (reflink f) +:+ "    bigtime=" +:+ show_flag (bigtime f)
      +:+ " inobtcount=" +:+ show_flag (inobtcount f) +:+ " nrext64=" +:+ show_flag (nrext64 f);
    "data     =" +:+ pad_right 22 EmptyString +:+ " bsize=" +:+ num 6%nat (blocksize g)
      +:+ " blocks=" +:+ pretty (dblocks g) +:+ ", imaxpct=" +:+ pretty (imaxpct g);
    "naming   =version 2              bsize=" +:+ num 6%nat (shl32 1 (dirblocklog g))
      +:+ " ascii-ci=0, ftype=1, parent=0";
    "log      =internal log           bsize=" +:+ num 6%nat (blocksize g)
      +:+ " blocks=" +:+ pretty (logblocks g) +:+ ", version=2";
    indent +:+ " sectsz=" +:+ num 5%nat (lsectsize g) +:+ " sunit="
      +:+ pretty (lsunit_bytes g / blocksize g) +:+ " blks, lazy-count=1" ].

(** An error of the crate ends the command; a panic ends the program. *)
Definition of_result_with {A} (f : Error -> CliError) (r : result A) : result (cli A) :=
  match r with
  | Ok a => Ok (Good a)
  | Err e => Ok (Bad (f e))
  | Panic => Panic
  | OutOfFuel => OutOfFuel
  end.
Definition of_result {A} (r : result A) : result (cli A) := of_result_with Lib r.

(** [main].  [open] is what [FileDevice::open] answers, [create n] what
    [FileDevice::create] does for [n] bytes. *)
Section Mkfs.
Context {D : Type} `{BlockDevice D}.
Variables (env : Env) (parse_str : string -> option buf).
Variables (open : result D) (create : Z -> result D).

Definition mkfs_open (c : Cli) : result (cli D) :=
  match c_create c with
  | Some size =>
      match parse_size size with
      | Good n => of_result (create n)
      | Bad e => Ok (Bad e)
      end
  | None => of_result open
  end.
Definition mkfs_run (c : Cli) (p : Params) (d : D) : D * result (cli (list string)) :=
  if c_dry_run c then
    (d, of_result (g ← compute p (dev_size d) (logical_sector_size d) (physical_sector_size d);
                   Ok (report_lines g (c_device c))))
  else
    let '(d, r) := format env p d in
    (d, of_result (r ← r; Ok (if c_quiet c then [] else report_lines (rep_geometry r) (c_device c)))).

Definition mkfs_main (c : Cli) : option D * result (cli (list string)) :=
  match params parse_str c with
  | Bad e => (None, Ok (Bad e))
  | Good p =>
      match mkfs_open c with
      | Ok (Good d) => let '(d, r) := mkfs_run c p d in (Some d, r)
      | Ok (Bad e) => (None, Ok (Bad e))
      | Err e => (None, Err e)
      | Panic => (None, Panic)
      | OutOfFuel => (None, OutOfFuel)
      end
  end.
End Mkfs.

(** * [xfs-admin] *)

Record AdminCli : Type := mkAdminCli {
  a_uuid : option string;
  a_label : option string;
  a_device : string;
}.

(** [--] or a quoted pair clears the label. *)
Definition dq : string := String (ascii_of_nat 34) EmptyString.
Definition cleared_label (l : string) : string :=
  if String.eqb l "--" || String.eqb l (dq +:+ dq) || String.eqb l "''" then EmptyString else l.

Inductive UuidWord : Type := Generate | Nil | Restore | Given (u : buf).
Definition uuid_word (parse_str : string -> option buf) (u : string) : cli UuidWord :=
  let s := to_ascii_lowercase u in
  if String.eqb s "generate" then Good Generate
  else if String.eqb s "nil" then Good Nil
  else if String.eqb s "restore" then Good Restore
  else u ← or_message (parse_str s) ("invalid UUID " +:+ debug_str s); Good (Given u).

Section AdminMain.
Context {D : Type} `{BlockDevice D}.
(** The UUID parser, the UUID [new_v4] draws, and how one is displayed. *)
Variables (parse_str : string -> option buf) (fresh : buf) (show_uuid : buf -> string).

(** A piece of the command: the device, the lines printed, the outcome. *)
Definition io_cli (A : Type) : Type := D -> D * (list string * result (cli A)).
Definition run_lib {A} (m : io D A) : io_cli A := fun d => let '(d, r) := m d in (d, ([], of_result r)).
Definition answer {A} (r : cli A) : io_cli A := fun d => (d, ([], Ok r)).
Definition say (line : string) : io_cli unit := fun d => (d, ([line], Ok (Good tt))).
Definition then_ {A B} (m : io_cli A) (f : A -> io_cli B) : io_cli B := fun d =>
  match m d with
  | (d, (out, Ok (Good a))) => let '(d, (out', r)) := f a d in (d, (out ++ out', r))
  | (d, (out, Ok (Bad e))) => (d, (out, Ok (Bad e)))
  | (d, (out, Err e)) => (d, (out, Err e))
  | (d, (out, Panic)) => (d, (out, Panic))
  | (d, (out, OutOfFuel)) => (d, (out, OutOfFuel))
  end.

Definition label_part (l : option string) : io_cli unit :=
  match l with
  | Some l =>
      let l := cleared_label l in
      then_ (run_lib (set_label l)) (fun _ => say ("new label = " +:+ dq +:+ l +:+ dq))
  | None => answer (Good tt)
  end.
Definition new_uuid (u : buf) : io_cli unit :=
  then_ (run_lib (set_uuid u)) (fun _ => say ("new UUID = " +:+ show_uuid u)).
Definition uuid_part (u : option string) : io_cli unit :=
  match u with
  | None => answer (Good tt)
  | Some u =>
      then_ (answer (uuid_word parse_str u)) (fun w =>
        match w with
        | Generate => new_uuid fresh
        | Nil => new_uuid (zeroes 16)
        | Restore => then_ (run_lib restore_uuid) (fun _ => answer (Good tt))
        | Given u => new_uuid u
        end)
  end.

(** [main]; [open] is what [FileDevice::open] answers. *)
Definition admin_main (open : result D) (c : AdminCli) : option D * (list string * result (cli unit)) :=
  match a_uuid c, a_label c with
  | None, None => (None, ([], Ok (Bad (Message "nothing to do: give -U and/or -L"))))
  | _, _ =>
      match of_result_with (InContext ("opening " +:+ a_device c)) open with
      | Ok (Good d) =>
          let '(d, r) := then_ (label_part (a_label c)) (fun _ => uuid_part (a_uuid c)) d in (Some d, r)
      | Ok (Bad e) => (None, ([], Ok (Bad e)))
      | Err e => (None, ([], Err e))
      | Panic => (None, ([], Panic))
      | OutOfFuel => (None, ([], OutOfFuel))
      end
  end.
End AdminMain.
