(* ===== verification/CliFacts.v ===== *)
(** What the command lines do with their words: numbers and sizes read back
    what was printed, option lists come apart where they were put together,
    and [xfs-admin] runs the administrator's steps.  What [mkfs-xfs] makes of
    a whole command line is in [MkfsProps.v]. *)

From Stdlib Require Import ZArith Lia String Ascii.
From stdpp Require Import base tactics list numbers strings pretty.
From coqutil Require Import Byte Word.LittleEndianList.
From S2P Require Import Prelude Bytes Fmt Geometry GeometryFacts Superblock LogRecord Device Io.
From S2P Require Import Plan PlanFacts Format FormatFacts Inspect Admin LogFacts ClearFacts SbFacts AdminFacts.
From S2P Require Import InspectFacts AdminSpec Cli.

(** * Strings *)

Fixpoint all_chars (P : ascii -> bool) (s : string) : bool :=
  match s with EmptyString => true | String c s => P c && all_chars P s end.
Definition is_digit (c : ascii) : bool := match digit_of c with Some _ => true | None => false end.
Definition is_plain (c : ascii) : bool := (33 <=? nat_of_ascii c)%nat && (nat_of_ascii c <=? 126)%nat.

(** A test of characters that holds of all 256. *)
Lemma every_char (P : ascii -> bool) :
  forallb P (ascii_of_nat <$> seq 0 256) = true -> forall c, P c = true.
Proof.
  intros H c. rewrite forallb_forall in H. apply H, list_elem_of_In, list_elem_of_fmap.
  exists (nat_of_ascii c). rewrite ascii_nat_embedding. split; [done|].
  apply elem_of_seq. pose proof (nat_ascii_bounded c). lia.
Qed.
Lemma every_char_impl (P Q : ascii -> bool) :
  forallb (fun c => implb (P c) (Q c)) (ascii_of_nat <$> seq 0 256) = true ->
  forall c, P c = true -> Q c = true.
Proof. intros H c HP. pose proof (every_char _ H c) as E. cbn in E. by rewrite HP in E. Qed.

Lemma all_chars_impl (P Q : ascii -> bool) s :
  (forall c, P c = true -> Q c = true) -> all_chars P s = true -> all_chars Q s = true.
Proof.
  intros HPQ. induction s as [|c s IH]; cbn; [done|]. intros [H1 H2]%andb_prop.
  by rewrite HPQ, IH.
Qed.
Lemma append_cons c s t : String c s +:+ t = String c (s +:+ t).
Proof. reflexivity. Qed.
Lemma append_nil t : EmptyString +:+ t = t.
Proof. reflexivity. Qed.
Lemma all_chars_app P s t : all_chars P (s +:+ t) = all_chars P s && all_chars P t.
Proof.
  induction s as [|c s IH]; [done|]. rewrite append_cons. cbn [all_chars].
  by rewrite IH, andb_assoc.
Qed.

Lemma string_app_assoc (s t u : string) : s +:+ t +:+ u = (s +:+ t) +:+ u.
Proof. induction s as [|c s IH]; [done|]. by rewrite !append_cons, IH. Qed.
Lemma string_app_nil (s : string) : s +:+ EmptyString = s.
Proof. induction s as [|c s IH]; [done|]. by rewrite append_cons, IH. Qed.

(** A string is empty or ends in a character. *)
Lemma string_rev_case s : s = EmptyString \/ exists s' c, s = s' +:+ String c EmptyString.
Proof.
  induction s as [|c s [->|(s' & c' & ->)]]; [by left|right..].
  - by exists EmptyString, c.
  - by exists (String c s'), c'.
Qed.
Lemma split_last_app s c : split_last (s +:+ String c EmptyString) = Some (s, c).
Proof.
  induction s as [|c' s IH]; [done|]. rewrite append_cons.
  cbn [split_last]. rewrite IH. by destruct s.
Qed.

Lemma list_ascii_app s t :
  list_ascii_of_string (s +:+ t) = list_ascii_of_string s ++ list_ascii_of_string t.
Proof. induction s as [|c s IH]; [done|]. rewrite append_cons. cbn. by rewrite IH. Qed.
Lemma rev_string_snoc s c : rev_string (s +:+ String c EmptyString) = String c (rev_string s).
Proof. unfold rev_string. by rewrite list_ascii_app, reverse_app. Qed.
Lemma rev_string_involutive s : rev_string (rev_string s) = s.
Proof.
  unfold rev_string. by rewrite list_ascii_of_string_of_list_ascii, reverse_involutive,
    string_of_list_ascii_of_string.
Qed.

Lemma lowercase_app s t :
  to_ascii_lowercase (s +:+ t) = to_ascii_lowercase s +:+ to_ascii_lowercase t.
Proof. induction s as [|c s IH]; [done|]. rewrite append_cons. cbn [to_ascii_lowercase]. by rewrite IH. Qed.
Lemma lower_char_digit c : is_digit c = true -> lower_char c = c.
Proof.
  intros Hc. apply Ascii.eqb_eq. revert c Hc.
  apply (every_char_impl is_digit (fun c => Ascii.eqb (lower_char c) c)). by vm_compute.
Qed.
Lemma lowercase_digits s : all_chars is_digit s = true -> to_ascii_lowercase s = s.
Proof.
  induction s as [|c s IH]; cbn; [done|]. intros [Hc Hs]%andb_prop. 
  by rewrite IH, lower_char_digit.
Qed.

(** ** [trim] *)

Definition starts_with (c : ascii) (w : string) : bool :=
  match w with String c' _ => Ascii.eqb c' c | EmptyString => true end.

Lemma strip_any_none ws c s :
  forallb (fun w => negb (starts_with c w)) ws = true -> strip_any ws (String c s) = None.
Proof.
  induction ws as [|w ws IH]; [done|]. cbn [forallb strip_any]. intros [Hw Hs]%andb_prop.
  destruct w as [|c' w]; [done|]. cbn [starts_with strip_prefix] in *.
  destruct (Ascii.eqb c' c); [done | by apply IH].
Qed.
Lemma trim_loop_plain ws n c s :
  forallb (fun w => negb (starts_with c w)) ws = true -> trim_loop ws n (String c s) = String c s.
Proof. intros H. destruct n; [done|]. cbn [trim_loop]. by rewrite strip_any_none. Qed.

(** No plain character starts or ends a white space character. *)
Definition unlike (ws : list string) (c : ascii) : bool :=
  forallb (fun w => negb (starts_with c w)) ws.
Lemma plain_not_white c : is_plain c = true -> unlike white_space c = true.
Proof. revert c. apply every_char_impl. by vm_compute. Qed.
Lemma plain_not_white_rev c : is_plain c = true -> unlike (rev_string <$> white_space) c = true.
Proof. revert c. apply every_char_impl. by vm_compute. Qed.

Lemma trim_plain s : all_chars is_plain s = true -> trim s = s.
Proof.
  intros H. unfold trim. destruct s as [|c s]; [done|].
  rewrite trim_loop_plain by (apply plain_not_white; by apply andb_prop in H as [??]).
  destruct (string_rev_case (String c s)) as [?|(s' & c' & E)]; [done|].
  rewrite E, all_chars_app in H. apply andb_prop in H as [_ H]. cbn in H.
  apply andb_prop in H as [H _]. rewrite E, rev_string_snoc, trim_loop_plain by by apply plain_not_white_rev.
  by rewrite <- rev_string_snoc, rev_string_involutive.
Qed.

(** * Numbers *)

Lemma pretty_digit (x : N) : (x < 10)%N -> digit_of (pretty_N_char x) = Some (Z.of_N x).
Proof.
  intros H. assert (x = 0 \/ x = 1 \/ x = 2 \/ x = 3 \/ x = 4 \/ x = 5 \/ x = 6 \/ x = 7 \/ x = 8
    \/ x = 9)%N as D by lia. by repeat destruct D as [->|D]; [.. | subst].
Qed.

(** Printing is what the reader undoes: [pretty_N_go x s] puts the digits of
    [x] before [s]. *)
Lemma parse_digits_pretty max (x : N) s : 0 < max ->
  parse_digits max 0 (pretty_N_go x s) =
  if Z.of_N x <? max then parse_digits max (Z.of_N x) s else None.
Proof.
  intros Hm. revert s. induction (N.lt_wf_0 x) as [x _ IH]; intros s.
  assert (x = 0 \/ 0 < x)%N as [->|Hx] by lia.
  { rewrite pretty_N_go_0. change (Z.of_N 0) with 0. by destruct (Z.ltb_spec 0 max); [|lia]. }
  assert (x mod 10 < 10)%N by (apply N.mod_lt; lia).
  rewrite pretty_N_go_step, IH by (done || by apply N.div_lt). cbn [parse_digits].
  rewrite pretty_digit by done. cbn [mbind option_bind].
  replace (Z.of_N (x / 10) * 10 + Z.of_N (x mod 10)) with (Z.of_N x)
    by (pose proof (N.div_mod x 10 ltac:(done)); lia).
  pose proof (N.div_lt x 10 Hx ltac:(done)).
  destruct (Z.ltb_spec (Z.of_N (x / 10)) max), (Z.leb_spec max (Z.of_N x)),
    (Z.ltb_spec (Z.of_N x) max); try lia; done.
Qed.

Lemma pretty_go_digits (x : N) s :
  all_chars is_digit s = true -> all_chars is_digit (pretty_N_go x s) = true.
Proof.
  revert s. induction (N.lt_wf_0 x) as [x _ IH]; intros s Hs.
  assert (x = 0 \/ 0 < x)%N as [->|Hx] by lia; [by rewrite pretty_N_go_0|].
  assert (x mod 10 < 10)%N by (apply N.mod_lt; lia).
  rewrite pretty_N_go_step by done. apply IH; [by apply N.div_lt|]. cbn [all_chars].
  unfold is_digit at 1. by rewrite pretty_digit.
Qed.

(** The numeral of a number, as [pretty_N] writes it. *)
Lemma pretty_Z_cases n : 0 <= n ->
  (n = 0 /\ pretty n = "0") \/ (0 < n /\ pretty n = pretty_N_go (Z.to_N n) EmptyString).
Proof.
  intros H. destruct n as [|p|p]; [by left | right | lia]. split; [done|].
  cbn. unfold pretty, pretty_positive, pretty, pretty_N. by rewrite decide_False.
Qed.

Lemma pretty_digits n : 0 <= n -> all_chars is_digit (pretty n) = true.
Proof. intros [[_ ->]|[_ ->]]%pretty_Z_cases; [done | by apply pretty_go_digits]. Qed.

Lemma pretty_go_nonempty (x : N) s : s <> EmptyString -> pretty_N_go x s <> EmptyString.
Proof.
  revert s. induction (N.lt_wf_0 x) as [x _ IH]; intros s Hs.
  assert (x = 0 \/ 0 < x)%N as [->|Hx] by lia; [by rewrite pretty_N_go_0|].
  rewrite pretty_N_go_step by done. apply IH; [by apply N.div_lt | done].
Qed.

Lemma pretty_cons n : 0 <= n -> exists c s, pretty n = String c s /\ is_digit c = true.
Proof.
  intros H. pose proof (pretty_digits n H) as D. destruct (pretty n) as [|c s] eqn:E.
  - exfalso. apply pretty_Z_cases in H as [[_ H]|[Hn H]]; rewrite E in H; [done|].
    rewrite pretty_N_go_step in H by lia. symmetry in H. revert H. by apply pretty_go_nonempty.
  - exists c, s. split; [done|]. by apply andb_prop in D as [??].
Qed.

(** The reader gives the number back when it is below its bound. *)
Lemma parse_uint_pretty max n : 0 < max -> 0 <= n ->
  parse_uint max (pretty n) = if n <? max then Some n else None.
Proof.
  intros Hm Hn. destruct (pretty_cons n Hn) as (c & s & E & Hc).
  assert (parse_uint max (pretty n) = parse_digits max 0 (pretty n)) as ->.
  { rewrite E. unfold parse_uint. revert Hc. destruct c as [[] [] [] [] [] [] [] []]; done. }
  apply pretty_Z_cases in Hn as Hp. destruct Hp as [[-> ->]|[Hp ->]].
  - change (parse_digits max 0 "0") with (if max <=? 0 then None else Some 0).
    destruct (Z.leb_spec max 0), (Z.ltb_spec 0 max); try lia; done.
  - rewrite parse_digits_pretty, Z2N.id by lia. by destruct (n <? max).
Qed.

(** * Sizes *)

Lemma plain_digit c : is_digit c = true -> is_plain c = true.
Proof. revert c. apply every_char_impl. by vm_compute. Qed.
Lemma digit_no_suffix c : is_digit c = true -> size_suffix c = None.
Proof. destruct c as [[] [] [] [] [] [] [] []]; done. Qed.
Definition is_suffix (c : ascii) : bool :=
  match size_suffix (lower_char c) with Some _ => true | None => false end.
Lemma plain_suffix c : is_suffix c = true -> is_plain c = true.
Proof. revert c. apply every_char_impl. by vm_compute. Qed.
Lemma size_suffix_range c k : size_suffix c = Some k -> 0 <= k.
Proof. destruct c as [[] [] [] [] [] [] [] []]; cbn; intros H; by simplify_eq. Qed.

(** An optional suffix, in either case, and the power of two it stands for. *)
Definition suffix_str (o : option ascii) : string :=
  match o with Some c => String c EmptyString | None => EmptyString end.
Definition suffix_shift (o : option ascii) : option Z :=
  match o with Some c => size_suffix (lower_char c) | None => Some 0 end.

(** The numeral and the suffix come apart again. *)
Lemma size_parts n o k : 0 <= n -> suffix_shift o = Some k ->
  match split_last (pretty n +:+ to_ascii_lowercase (suffix_str o)) with
  | Some (i, c) => match size_suffix c with
                   | Some k => (i, k)
                   | None => (pretty n +:+ to_ascii_lowercase (suffix_str o), 0)
                   end
  | None => (pretty n +:+ to_ascii_lowercase (suffix_str o), 0)
  end = (pretty n, k).
Proof.
  intros Hn Hk. destruct o as [c|]; cbn [suffix_str to_ascii_lowercase].
  - cbn [suffix_shift] in Hk. by rewrite split_last_app, Hk.
  - injection Hk as <-. rewrite string_app_nil. pose proof (pretty_digits n Hn) as D.
    destruct (string_rev_case (pretty n)) as [E|(s & c & E)]; rewrite E; [done|].
    rewrite split_last_app. rewrite E, all_chars_app in D. apply andb_prop in D as [_ D].
    cbn in D. rewrite andb_true_r in D. by rewrite digit_no_suffix.
Qed.

Lemma size_plain n o k : 0 <= n -> suffix_shift o = Some k ->
  all_chars is_plain (pretty n +:+ suffix_str o) = true.
Proof.
  intros Hn Hk. rewrite all_chars_app.
  rewrite (all_chars_impl is_digit is_plain) by (apply plain_digit || by apply pretty_digits).
  destruct o as [c|]; [|done]. cbn. rewrite plain_suffix; [done|]. unfold is_suffix. cbn in Hk.
  by rewrite Hk.
Qed.

Definition size_value (n k : Z) (s : string) : cli Z :=
  if n <? 2 ^ 64 then
    if n * 2 ^ k <? 2 ^ 64 then Good (n * 2 ^ k)
    else Bad (Message ("size " +:+ debug_str s +:+ " overflows"))
  else Bad (Message ("bad size " +:+ debug_str s)).

Lemma parse_size_value n o k : 0 <= n -> suffix_shift o = Some k ->
  parse_size (pretty n +:+ suffix_str o) =
  size_value n k (pretty n +:+ to_ascii_lowercase (suffix_str o)).
Proof.
  intros Hn Hk. unfold parse_size, size_value. rewrite trim_plain by by eapply size_plain.
  rewrite lowercase_app, lowercase_digits by by apply pretty_digits.
  rewrite (size_parts n o k) by done. rewrite parse_uint_pretty by done.
  destruct (n <? 2 ^ 64); [|done]. cbn [or_message mbind cli_bind]. unfold checked_mul64.
  rewrite Z.shiftl_1_l. by destruct (_ <? _).
Qed.

(** [parse_size] reads the sizes [mkfs.xfs] documents: a decimal number
    with [k], [m], [g], [t] or [p] after it, in either case, is that many KiB
    to PiB, exactly; one of 2^64 bytes or more is refused with its text,
    never wrapped. *)
Theorem parse_size_reads_sizes n o k : 0 <= n -> suffix_shift o = Some k ->
  parse_size (pretty n +:+ suffix_str o) =
  size_value n k (pretty n +:+ to_ascii_lowercase (suffix_str o)).
Proof. apply parse_size_value. Qed.

Lemma parse_size_reads_sizes_witness :
  parse_size "16G" = Good (2 ^ 34) /\
  parse_size "16384p" = Bad (Message ("size " +:+ debug_str "16384p" +:+ " overflows")).
Proof.
  split.
  - apply (parse_size_reads_sizes 16 (Some "G"%char) 30); [lia | reflexivity].
  - apply (parse_size_reads_sizes 16384 (Some "p"%char) 50); [lia | reflexivity].
Defined.

(** * Options *)

(** An option as a user writes it: a name and perhaps a value. *)
Definition Opt : Type := string * option string.
Definition no_char (c : ascii) : string -> bool := all_chars (fun c' => negb (Ascii.eqb c' c)).
Definition opt_word (o : Opt) : string :=
  match snd o with Some v => fst o +:+ String "=" v | None => fst o end.
Definition opt_pair (o : Opt) : string * string := (fst o, default "1" (snd o)).
Definition opt_ok (o : Opt) : Prop :=
  fst o <> EmptyString /\ no_char "," (fst o) = true /\ no_char "=" (fst o) = true /\
  no_char "," (default EmptyString (snd o)) = true.
Fixpoint join (l : list string) : string :=
  match l with
  | [] => EmptyString
  | [s] => s
  | s :: l => s +:+ String "," (join l)
  end.

Lemma split_one c s : no_char c s = true -> split c s = [s].
Proof.
  induction s as [|c' s IH]; [done|]. cbn. intros [H1%negb_true_iff H2]%andb_prop.
  by rewrite H1, IH.
Qed.
Lemma split_app c s t : no_char c s = true -> split c (s +:+ String c t) = s :: split c t.
Proof.
  induction s as [|c' s IH].
  - intros _. rewrite append_nil. cbn [split]. by rewrite Ascii.eqb_refl.
  - rewrite append_cons. cbn. intros [H1%negb_true_iff H2]%andb_prop. by rewrite H1, IH.
Qed.
Lemma split_once_app c k v : no_char c k = true -> split_once c (k +:+ String c v) = Some (k, v).
Proof.
  induction k as [|c' k IH].
  - intros _. rewrite append_nil. cbn [split_once]. by rewrite Ascii.eqb_refl.
  - rewrite append_cons. cbn [split_once no_char all_chars]. intros [H1%negb_true_iff H2]%andb_prop.
    by rewrite H1, IH.
Qed.
Lemma split_once_none c k : no_char c k = true -> split_once c k = None.
Proof.
  induction k as [|c' k IH]; [done|]. cbn. intros [H1%negb_true_iff H2]%andb_prop.
  by rewrite H1, IH.
Qed.
Lemma split_join l : Forall (fun s => no_char "," s = true) l -> l <> [] ->
  split "," (join l) = l.
Proof.
  intros H. induction H as [|s l Hs Hl IH]; intros Hne; [done|]. destruct l as [|s' l].
  - by apply split_one.
  - change (join (s :: s' :: l)) with (s +:+ String "," (join (s' :: l))).
    by rewrite split_app, IH.
Qed.

Lemma opt_word_ok o : opt_ok o -> no_char "," (opt_word o) = true /\ opt_word o <> EmptyString /\
  subopt (opt_word o) = opt_pair o.
Proof.
  destruct o as [k [v|]]; intros (H0 & H1 & H2 & H3); cbn in *; unfold opt_word, subopt; cbn [fst snd].
  - rewrite split_once_app by done. split_and!; [|by destruct k|done].
    unfold no_char in *. rewrite all_chars_app, H1. cbn. by rewrite H3.
  - by rewrite split_once_none.
Qed.

Lemma opt_words l : Forall opt_ok l ->
  filter (fun kv => kv <> EmptyString) (opt_word <$> l) = opt_word <$> l /\
  subopt <$> (opt_word <$> l) = opt_pair <$> l.
Proof.
  induction 1 as [|o l Ho _ [IH1 IH2]]; [done|]. destruct (opt_word_ok o Ho) as (_ & H2 & H3).
  rewrite !fmap_cons, filter_cons_True by done. by rewrite IH1, IH2, H3.
Qed.

Lemma subopts_pairs (args : list (list Opt)) : Forall (Forall opt_ok) args ->
  subopts ((fun opts => join (opt_word <$> opts)) <$> args) = opt_pair <$> mjoin args.
Proof.
  unfold subopts. induction 1 as [|opts args Ho _ IH]; [done|]. cbn [mjoin list_join fmap list_fmap].
  rewrite bind_cons, filter_app, !fmap_app, IH. f_equal.
  destruct (opt_words opts Ho) as [H1 H2]. destruct opts as [|o opts]; [done|].
  rewrite split_join, H1, H2; [done| |done]. apply Forall_fmap. eapply Forall_impl; [exact Ho|].
  intros o' H'. by destruct (opt_word_ok o' H').
Qed.

(** An option list is taken apart as it was put together: from any
    grouping of options into [-b], [-d], ... arguments, with the options of
    one joined by commas, [subopts] gives back the names and values in order, a
    name without a value standing for [1], one with an [=] in its value
    whole. *)
Theorem subopts_roundtrip (args : list (list Opt)) : Forall (Forall opt_ok) args ->
  subopts ((fun opts => join (opt_word <$> opts)) <$> args) = opt_pair <$> mjoin args.
Proof. apply subopts_pairs. Qed.

Lemma subopts_roundtrip_witness :
  subopts ["size=1g,agcount=4"; EmptyString; "file=a=b,sparse"] =
  [("size", "1g"); ("agcount", "4"); ("file", "a=b"); ("sparse", "1")].
Proof.
  apply (subopts_roundtrip [[("size", Some "1g"); ("agcount", Some "4")]; [];
    [("file", Some "a=b"); ("sparse", None)]]). by repeat constructor.
Defined.

(** * Parameters *)

Lemma cli_bind_Good {A B} (m : cli A) (f : A -> cli B) b :
  m ≫= f = Good b -> exists a, m = Good a /\ f a = Good b.
Proof. destruct m as [a|e]; [|done]. intros H. by exists a. Qed.

Lemma parse_digits_range max acc s v : 0 <= acc < max -> parse_digits max acc s = Some v ->
  0 <= v < max.
Proof.
  revert acc. induction s as [|c s IH]; intros acc Ha; cbn [parse_digits]; [intros [= <-]; done|].
  unfold digit_of. case_match eqn:Hd; [|done]. bools. cbn [mbind option_bind].
  case_match eqn:Hm; [done|]. bools. apply IH. lia.
Qed.
Lemma parse_uint_range max s v : 0 < max -> parse_uint max s = Some v -> 0 <= v < max.
Proof.
  unfold parse_uint. intros Hm. set (t := match s with String "+" s => s | _ => s end).
  destruct t as [|c t]; [done|]. apply parse_digits_range. lia.
Qed.
Lemma parse_size_range s n : parse_size s = Good n -> 0 <= n < 2 ^ 64.
Proof.
  unfold parse_size, or_message. destruct (match split_last _ with Some _ => _ | None => _ end) as [num k].
  destruct (parse_uint _ _) as [m|] eqn:Hm; [|done]. apply parse_uint_range in Hm; [|done].
  cbn [mbind cli_bind]. unfold checked_mul64.
  destruct (Z.ltb_spec (m * Z.shiftl 1 k) (2 ^ 64)) as [Hlt|]; [|done]. intros [= <-].
  split; [|done]. apply Z.mul_nonneg_nonneg; [lia|]. by apply Z.shiftl_nonneg.
Qed.

(** [mkfs-xfs -b size=1k -d size=1g,agcount=4 -L data -q img], and a parser
    that knows one UUID. *)
Definition cli0 : Cli :=
  mkCli ["size=1k"] ["size=1g,agcount=4"] [] [] [] (Some "data") false true false None "img".
Definition parse_str0 (s : string) : option buf :=
  if String.eqb s "00000000-0000-0000-0000-000000000000" then Some (zeroes 16) else None.
Lemma parse_str0_length s u : parse_str0 s = Some u -> length u = 16%nat.
Proof. unfold parse_str0. case_match; [|done]. by intros [= <-]. Qed.

(** Block, sector and inode sizes are cut to 32 bits without a word: a size
    and the size modulo 2^32 are the same option, so [-b size=4294971392]
    formats with blocks of 4096. *)
Theorem u32_sizes_wrap p n : 0 <= n < 2 ^ 64 ->
  block_opt p "size" (pretty n) = block_opt p "size" (pretty (u32 n)) /\
  sector_opt p "size" (pretty n) = sector_opt p "size" (pretty (u32 n)) /\
  inode_opt p "size" (pretty n) = inode_opt p "size" (pretty (u32 n)).
Proof.
  intros Hn. pose proof (u32_range n) as Hr.
  assert (forall m, 0 <= m < 2 ^ 64 -> parse_size (pretty m) = Good m) as E.
  { intros m Hm. pose proof (parse_size_value m None 0 ltac:(lia) eq_refl) as E.
    cbn [suffix_str] in E. rewrite string_app_nil in E. rewrite E. unfold size_value.
    by rewrite Z.mul_1_r, (proj2 (Z.ltb_lt _ _)) by lia. }
  unfold block_opt, sector_opt, inode_opt. cbn [String.eqb Ascii.eqb Bool.eqb].
  rewrite !E by lia. cbn [mbind cli_bind]. by rewrite (u32_id (u32 n)).
Qed.

Lemma u32_sizes_wrap_witness :
  block_opt Params_new "size" "4294971392" = block_opt Params_new "size" "4096" /\
  block_opt Params_new "size" "4096" = Good (Params_block_size Params_new 4096).
Proof.
  split; [|reflexivity]. apply (u32_sizes_wrap Params_new 4294971392). lia.
Defined.

(** * [mkfs-xfs] *)

(** [-N], and the device a command works on. *)
Definition with_dry_run (c : Cli) : Cli :=
  mkCli (c_block c) (c_data c) (c_inode c) (c_meta c) (c_sector c) (c_label c) true (c_quiet c)
    (c_force c) (c_create c) (c_device c).
Lemma io_bind_Ok {D A B} (f : A -> io D B) (m : io D A) d d' b :
  (m ≫= f) d = (d', Ok b) -> exists d1 a, m d = (d1, Ok a) /\ f a d1 = (d', Ok b).
Proof. rewrite io_bind_eq. destruct (m d) as [d1 [a| | |]]; try done. eauto. Qed.
Lemma of_result_Good {A} (r : result A) a : of_result r = Ok (Good a) -> r = Ok a.
Proof. destruct r; cbn; congruence. Qed.

Section Mkfs.
Context {D : Type} `{BlockDevice D}.
Variables (env : Env) (parse_str : string -> option buf) (open : result D) (create : Z -> result D).

(** The geometry a run reports is the one [compute] gives for the device. *)
Lemma format_geometry p (d d' : D) r : format env p d = (d', Ok r) ->
  compute p (dev_size d) (logical_sector_size d) (physical_sector_size d) = Ok (rep_geometry r).
Proof.
  unfold format. intros E. apply io_bind_Ok in E as (d1 & dev & E1 & E). injection E1 as <- <-.
  apply io_bind_Ok in E as (d2 & g & E2 & E). injection E2 as _ Eg. rewrite Eg. do 2 f_equal.
  repeat match goal with
  | E : mbind _ _ _ = (_, Ok _) |- _ => apply io_bind_Ok in E as (? & ? & _ & E)
  | E : (let '(_, _) := ?x in _) _ = (_, Ok _) |- _ => destruct x
  end.
  by injection E as _ <-.
Qed.

Lemma mkfs_main_runs c p (d : D) : params parse_str c = Good p -> mkfs_open open create c = Ok (Good d) ->
  mkfs_main env parse_str open create c = let '(d, r) := mkfs_run env c p d in (Some d, r).
Proof. intros Ep Eo. unfold mkfs_main. by rewrite Ep, Eo. Qed.

End Mkfs.

(** [mkfs-xfs --create 512m img]. *)
Definition cli1 : Cli :=
  mkCli [] [] [] [] [] None false false false (Some "512m") "img".
Definition create0 (n : Z) : result MemDevice := Ok (Mem_strict n 512).

Lemma created0 : mkfs_open Panic create0 cli1 = Ok (Good dev0).
Proof. vm_compute. reflexivity. Qed.

(** * [xfs-admin] *)

(** The operations a command line asks for, the label's first, and the lines
    it prints for them. *)
Definition label_ops (c : AdminCli) : list AdminOp :=
  match a_label c with Some l => [SetLabel (cleared_label l)] | None => [] end.
Definition label_lines (c : AdminCli) : list string :=
  match a_label c with Some l => ["new label = " +:+ dq +:+ cleared_label l +:+ dq] | None => [] end.
Definition word_op (fresh : buf) (w : UuidWord) : AdminOp :=
  match w with
  | Generate => SetUuid fresh
  | Nil => SetUuid (zeroes 16)
  | Restore => RestoreUuid
  | Given u => SetUuid u
  end.
Definition uuid_ops (parse_str : string -> option buf) (fresh : buf) (c : AdminCli) : cli (list AdminOp) :=
  match a_uuid c with
  | Some u => w ← uuid_word parse_str u; Good [word_op fresh w]
  | None => Good []
  end.
Definition op_lines (show_uuid : buf -> string) (o : AdminOp) : list string :=
  match o with SetUuid u => ["new UUID = " +:+ show_uuid u] | _ => [] end.

Section AdminMain.
Context {D : Type} `{DeviceSpec D}.
Variables (parse_str : string -> option buf) (fresh : buf) (show_uuid : buf -> string).

Lemma then_Good {A B} (m : io_cli A) (f : A -> io_cli B) (d d' d2 : D) out a out' r :
  m d = (d', (out, Ok (Good a))) -> f a d' = (d2, (out', r)) -> then_ m f d = (d2, (out ++ out', r)).
Proof. intros E E'. unfold then_. by rewrite E, E'. Qed.
Lemma run_lib_Ok {A} (m : io D A) (d d' : D) a : m d = (d', Ok a) -> run_lib m d = (d', ([], Ok (Good a))).
Proof. intros E. unfold run_lib. by rewrite E. Qed.
Lemma then_say (m : io D unit) (d d' : D) line : m d = (d', Ok tt) ->
  then_ (run_lib m) (fun _ => say line) d = (d', ([line], Ok (Good tt))).
Proof. intros E. by erewrite then_Good by (by apply run_lib_Ok || reflexivity). Qed.

(** One operation, as the one step of a sequence. *)
Lemma one_step_runs d a o a1 : rep d a -> steps a [o] a1 ->
  exists d1, run_admin o d = (d1, Ok tt) /\ later d d1 /\ rep d1 a1.
Proof.
  intros R S'. destruct (steps_run _ _ _ _ R S') as (d1 & E & L & R1). exists d1. split; [|done].
  cbn [io_for] in E. by apply io_bind_Ok in E as (d2 & [] & E & [= <-]).
Qed.

Lemma rep_valid (d : D) a : rep d a -> valid d.
Proof. intros (g & start & bbs & s & F & _). apply F. Qed.

Lemma label_runs c d a a1 : rep d a -> steps a (label_ops c) a1 ->
  exists d1, label_part (a_label c) d = (d1, (label_lines c, Ok (Good tt))) /\ later d d1 /\ rep d1 a1.
Proof.
  unfold label_ops, label_lines, label_part. destruct (a_label c) as [l|]; intros R S'.
  - destruct (one_step_runs _ _ _ _ R S') as (d1 & E & R1). exists d1. split; [|done].
    by apply then_say.
  - inversion S'; subst. exists d. split_and!; [done | by eapply later_refl, rep_valid | done].
Qed.

Lemma uuid_runs c d a ops a1 : uuid_ops parse_str fresh c = Good ops -> rep d a -> steps a ops a1 ->
  exists d1, uuid_part parse_str fresh show_uuid (a_uuid c) d =
    (d1, (ops ≫= op_lines show_uuid, Ok (Good tt))) /\ later d d1 /\ rep d1 a1.
Proof.
  unfold uuid_ops, uuid_part. destruct (a_uuid c) as [u|]; intros E R S'.
  - apply cli_bind_Good in E as (w & Ew & [= <-]).
    destruct (one_step_runs _ _ _ _ R S') as (d1 & E & R1). exists d1. split; [|done].
    apply (then_Good _ _ d d d1 [] w); [unfold answer; by rewrite Ew|].
    destruct w; cbn [word_op run_admin] in E; try by apply then_say.
    apply io_bind_Ok in E as (d3 & u' & E & [= <-]).
    by apply (then_Good _ _ d d3 d3 [] u'); [apply run_lib_Ok|].
  - injection E as <-. inversion S'; subst. exists d. split_and!; [done | by eapply later_refl, rep_valid | done].
Qed.

Lemma uuid_refused c (d : D) e : uuid_ops parse_str fresh c = Bad e ->
  uuid_part parse_str fresh show_uuid (a_uuid c) d = (d, ([], Ok (Bad e))).
Proof.
  unfold uuid_ops, uuid_part. destruct (a_uuid c) as [u|]; [|done]. unfold then_, answer.
  destruct (uuid_word parse_str u) as [w|e']; [done|]. by intros [= <-].
Qed.

Lemma admin_main_parts c (d d' : D) r : (a_uuid c <> None \/ a_label c <> None) ->
  then_ (label_part (a_label c)) (fun _ => uuid_part parse_str fresh show_uuid (a_uuid c)) d = (d', r) ->
  admin_main parse_str fresh show_uuid (Ok d) c = (Some d', r).
Proof. intros Hn E. unfold admin_main. destruct (a_uuid c), (a_label c); try (cbn [of_result_with]; by rewrite E). naive_solver. Qed.

(** The command, once its device is open. *)
Lemma admin_main_steps c d a a1 : rep d a -> steps a (label_ops c) a1 ->
  (forall ops a2, uuid_ops parse_str fresh c = Good ops -> label_ops c ++ ops <> [] ->
     steps a1 ops a2 ->
     exists d2, admin_main parse_str fresh show_uuid (Ok d) c =
       (Some d2, (label_lines c ++ (ops ≫= op_lines show_uuid), Ok (Good tt))) /\ later d d2 /\ rep d2 a2) /\
  (forall e, uuid_ops parse_str fresh c = Bad e ->
     exists d1, admin_main parse_str fresh show_uuid (Ok d) c = (Some d1, (label_lines c, Ok (Bad e))) /\
       later d d1 /\ rep d1 a1).
Proof.
  intros R S1. destruct (label_runs c d a a1 R S1) as (d1 & E1 & L1 & R1). split.
  - intros ops a2 Eo Hne S2. destruct (uuid_runs c d1 a1 ops a2 Eo R1 S2) as (d2 & E2 & L2 & R2).
    exists d2. split_and!; [|by eapply later_trans|done]. apply admin_main_parts with (d := d); [|by eapply then_Good].
    unfold label_ops, uuid_ops in *. destruct (a_uuid c), (a_label c); naive_solver.
  - intros e Ee. exists d1. split; [|done].
    apply admin_main_parts with (d := d).
    + unfold uuid_ops in Ee. destruct (a_uuid c); naive_solver.
    + rewrite <- (app_nil_r (label_lines c)). by eapply then_Good; [|apply uuid_refused].
Qed.

(** C38: [xfs-admin] does what its words ask, in the state machine's terms: from
    a device that holds a state, it makes the label's step and then the
    UUID's, whichever are given, and prints a line for each; [--] and an
    empty quoted pair clear the label.  A word that is no UUID is refused,
    but after the label was written.  A device that does not open is named
    in the error. *)
Theorem xfs_admin_runs_the_steps c d a a1 : rep d a -> steps a (label_ops c) a1 ->
  (forall ops a2, uuid_ops parse_str fresh c = Good ops -> label_ops c ++ ops <> [] ->
     steps a1 ops a2 ->
     exists d2, admin_main parse_str fresh show_uuid (Ok d) c =
       (Some d2, (label_lines c ++ (ops ≫= op_lines show_uuid), Ok (Good tt))) /\ rep d2 a2) /\
  (forall e, uuid_ops parse_str fresh c = Bad e ->
     exists d1, admin_main parse_str fresh show_uuid (Ok d) c = (Some d1, (label_lines c, Ok (Bad e))) /\
       rep d1 a1) /\
  (forall e, a_uuid c <> None \/ a_label c <> None ->
     admin_main (D := D) parse_str fresh show_uuid (Err e) c =
       (None, ([], Ok (Bad (InContext ("opening " +:+ a_device c) e))))).
Proof.
  intros R S1. destruct (admin_main_steps c d a a1 R S1) as [H1 H2]. split_and!.
  - intros ops a2 Eo Hne S2. destruct (H1 ops a2 Eo Hne S2) as (d2 & E & _ & R2). by exists d2.
  - intros e Ee. destruct (H2 e Ee) as (d1 & E & _ & R1). by exists d1.
  - intros e Hn. unfold admin_main. destruct (a_uuid c), (a_label c); naive_solver.
Qed.
End AdminMain.

(** [xfs-admin -L data -U restore img] on a fresh filesystem. *)
Definition admin1 : AdminCli := mkAdminCli (Some "Restore") (Some "data") "img".

Lemma xfs_admin_runs_the_steps_witness : exists d d2,
  admin_main parse_str0 uuid0 hex_bytes (Ok d) admin1 =
    (Some d2, (["new label = " +:+ dq +:+ "data" +:+ dq], Ok (Good tt))) /\
  rep d2 (mkNames uuid0 uuid0 (padded "data") false 1).
Proof.
  destruct (format_rep env0 Params_new dev0 geo512m request0 serves_first0) as (d & r & _ & R).
  exists d.
  apply (proj1 (xfs_admin_runs_the_steps parse_str0 uuid0 hex_bytes admin1 d _
    (mkNames uuid0 uuid0 (padded "data") false 1) R
    (steps_cons _ _ _ _ _ (step_label _ "data" eq_refl) (steps_nil _))) [RestoreUuid]).
  - vm_compute. reflexivity.
  - discriminate.
  - eapply steps_cons; [apply step_unchanged; reflexivity | apply steps_nil].
Defined.
