(* ===== verification/MkfsProps.v ===== *)
(** [mkfs-xfs] from its words to the image.

    A [Setting] is something a user can ask of a filesystem, [written] the
    ways the help of the command says to write it in each of its options, and
    [asked] the parameters some settings amount to, the last of each kind in
    force.  None of the three looks at the code: the theorems say that the
    parser makes the parameters that were asked for, that the command leaves
    the image of the filesystem they describe, and what [-N] says of it. *)

From Stdlib Require Import ZArith Lia String Ascii.
From stdpp Require Import base tactics list numbers strings pretty.
From coqutil Require Import Byte.
From S2P Require Import Prelude Bytes Fmt Geometry GeometryFacts Device Io Plan PlanFacts.
From S2P Require Import Format FormatFacts Cli CliFacts.

(** * What a user can ask for *)

Inductive Setting : Type :=
| BlockSize (v : Z)
| SectorSize (v : Z)
| DataSize (v : Z)
| AgCount (v : Z)
| AgSize (v : Z)
| InodeSize (v : Z)
| MaxPct (v : Z)
| Sparse (b : bool)
| Nrext64 (b : bool)
| Uuid (u : buf)
| Checksums
| Finobt (b : bool)
| Rmapbt (b : bool)
| Reflink (b : bool)
| Inobtcount (b : bool)
| Bigtime (b : bool).

(** The power of two a letter after a size stands for. *)
Definition unit_power (o : option ascii) : option Z :=
  match o with
  | None => Some 0
  | Some "k"%char | Some "K"%char => Some 10
  | Some "m"%char | Some "M"%char => Some 20
  | Some "g"%char | Some "G"%char => Some 30
  | Some "t"%char | Some "T"%char => Some 40
  | Some "p"%char | Some "P"%char => Some 50
  | Some _ => None
  end.

(** A size below 2^bits in decimal, in bytes or in units. *)
Definition size_word (bits v : Z) (s : string) : Prop := exists n o k, 0 <= n /\
  unit_power o = Some k /\ s = pretty n +:+ suffix_str o /\ v = n * 2 ^ k /\ v < 2 ^ bits.
(** A flag is 0 or 1; alone, it is 1. *)
Definition flag_word (b : bool) (s : option string) : Prop :=
  s = Some (if b then "1" else "0") \/ (b = true /\ s = None).

(** The options of the command that take settings, and how each is written. *)
Inductive Switch : Type := Block | Sector | Data | Inodes | Meta.

Inductive written (parse_str : string -> option buf) : Switch -> Setting -> Opt -> Prop :=
| w_block v s : size_word 32 v s -> written parse_str Block (BlockSize v) ("size", Some s)
| w_sector v s : size_word 32 v s -> written parse_str Sector (SectorSize v) ("size", Some s)
| w_data v s : size_word 64 v s -> written parse_str Data (DataSize v) ("size", Some s)
| w_agcount v : 0 <= v < 2 ^ 64 -> written parse_str Data (AgCount v) ("agcount", Some (pretty v))
| w_agsize v s : size_word 64 v s -> written parse_str Data (AgSize v) ("agsize", Some s)
| w_inode v s : size_word 32 v s -> written parse_str Inodes (InodeSize v) ("size", Some s)
| w_maxpct v : 0 <= v < 2 ^ 8 -> written parse_str Inodes (MaxPct v) ("maxpct", Some (pretty v))
| w_sparse b o : flag_word b o -> written parse_str Inodes (Sparse b) ("sparse", o)
| w_nrext64 b o : flag_word b o -> written parse_str Inodes (Nrext64 b) ("nrext64", o)
| w_uuid u s : parse_str s = Some u -> no_char "," s = true ->
    written parse_str Meta (Uuid u) ("uuid", Some s)
| w_crc o : flag_word true o -> written parse_str Meta Checksums ("crc", o)
| w_finobt b o : flag_word b o -> written parse_str Meta (Finobt b) ("finobt", o)
| w_rmapbt b o : flag_word b o -> written parse_str Meta (Rmapbt b) ("rmapbt", o)
| w_reflink b o : flag_word b o -> written parse_str Meta (Reflink b) ("reflink", o)
| w_inobtcount b o : flag_word b o -> written parse_str Meta (Inobtcount b) ("inobtcount", o)
| w_bigtime b o : flag_word b o -> written parse_str Meta (Bigtime b) ("bigtime", o).

(** The arguments of one switch, each a group of settings with commas between
    them. *)
Definition spelled (parse_str : string -> option buf) (w : Switch) (groups : list (list Setting))
    (words : list string) : Prop :=
  exists opts, Forall2 (Forall2 (written parse_str w)) groups opts /\
    words = (fun os => join (opt_word <$> os)) <$> opts.

(** A command line that asks for the settings [l], switch by switch. *)
Definition asks_for (parse_str : string -> option buf) (c : Cli) (l : list Setting) : Prop :=
  exists b s d i m, l = mjoin b ++ mjoin s ++ mjoin d ++ mjoin i ++ mjoin m /\
    spelled parse_str Block b (c_block c) /\ spelled parse_str Sector s (c_sector c) /\
    spelled parse_str Data d (c_data c) /\ spelled parse_str Inodes i (c_inode c) /\
    spelled parse_str Meta m (c_meta c).

(** The last setting of a kind. *)
Definition latest {A} (f : Setting -> option A) (l : list Setting) : option A := last (omap f l).

Definition asked (l : list Setting) (label : option string) : Params := {|
  p_size := latest (fun s => match s with DataSize v => Some v | _ => None end) l;
  p_block_size := latest (fun s => match s with BlockSize v => Some v | _ => None end) l;
  p_sector_size := latest (fun s => match s with SectorSize v => Some v | _ => None end) l;
  p_inode_size := latest (fun s => match s with InodeSize v => Some v | _ => None end) l;
  p_agcount := latest (fun s => match s with AgCount v => Some v | _ => None end) l;
  p_agsize := latest (fun s => match s with AgSize v => Some v | _ => None end) l;
  p_imaxpct := latest (fun s => match s with MaxPct v => Some v | _ => None end) l;
  p_label := label;
  p_uuid := latest (fun s => match s with Uuid u => Some u | _ => None end) l;
  p_time := None;
  p_gen_seed := None;
  p_features := {|
    finobt := default true (latest (fun s => match s with Finobt b => Some b | _ => None end) l);
    rmapbt := default true (latest (fun s => match s with Rmapbt b => Some b | _ => None end) l);
    reflink := default true (latest (fun s => match s with Reflink b => Some b | _ => None end) l);
    inobtcount := default true (latest (fun s => match s with Inobtcount b => Some b | _ => None end) l);
    bigtime := default true (latest (fun s => match s with Bigtime b => Some b | _ => None end) l);
    nrext64 := default true (latest (fun s => match s with Nrext64 b => Some b | _ => None end) l);
    sparse := default true (latest (fun s => match s with Sparse b => Some b | _ => None end) l);
  |};
|}.

(** * The words *)

Lemma unit_power_shift o k : unit_power o = Some k -> suffix_shift o = Some k.
Proof. destruct o as [[[] [] [] [] [] [] [] []]|]; try done; intros [= <-]; by vm_compute. Qed.

Lemma digit_no_comma c : is_digit c = true -> negb (Ascii.eqb c ",") = true.
Proof. revert c. apply every_char_impl. by vm_compute. Qed.

Lemma pretty_no_comma n : 0 <= n -> no_char "," (pretty n) = true.
Proof. intros Hn. eapply all_chars_impl; [exact digit_no_comma | by apply pretty_digits]. Qed.

Lemma size_word_read bits v s : 0 <= bits <= 64 -> size_word bits v s ->
  parse_size s = Good v /\ 0 <= v < 2 ^ bits /\ no_char "," s = true.
Proof.
  intros Hb (n & o & k & Hn & Hk & -> & -> & Hv). pose proof (unit_power_shift o k Hk) as Hs.
  assert (0 <= k) as Hk0 by (destruct o as [c|]; [by eapply size_suffix_range|]; cbn in Hs; by injection Hs as <-).
  pose proof (Z.pow_pos_nonneg 2 k ltac:(lia) Hk0). pose proof (Z.pow_le_mono_r 2 bits 64 ltac:(lia) ltac:(lia)).
  rewrite (parse_size_value n o k Hn Hs). unfold size_value.
  rewrite !(proj2 (Z.ltb_lt _ _)) by nia. split_and!; [done | nia | done |].
  unfold no_char. rewrite all_chars_app. fold (no_char "," (pretty n)). rewrite pretty_no_comma by done.
  destruct o as [[[] [] [] [] [] [] [] []]|]; cbn in Hk |- *; done.
Qed.

Lemma flag_word_read b o : flag_word b o ->
  parse_bool (default "1" o) = Good b /\ no_char "," (default EmptyString o) = true.
Proof. intros [-> | [-> ->]]; [by destruct b | done]. Qed.

Lemma number_word_read max v : 0 <= v < max -> parse_number max (pretty v) = Good v.
Proof.
  intros Hv. unfold parse_number. rewrite parse_uint_pretty by lia. by rewrite (proj2 (Z.ltb_lt _ _)) by lia.
Qed.

(** * The settings *)

(** A setting put in force. *)
Definition put_setting (p : Params) (s : Setting) : Params :=
  match s with
  | BlockSize v => Params_block_size p v
  | SectorSize v => Params_sector_size p v
  | DataSize v => Params_size p v
  | AgCount v => Params_agcount p v
  | AgSize v => set_agsize p v
  | InodeSize v => Params_inode_size p v
  | MaxPct v => set_imaxpct p v
  | Sparse b => set_features p (set_sparse b)
  | Nrext64 b => set_features p (set_nrext64 b)
  | Uuid u => Params_uuid p u
  | Checksums => p
  | Finobt b => set_features p (set_finobt b)
  | Rmapbt b => set_features p (set_rmapbt b)
  | Reflink b => set_features p (set_reflink b)
  | Inobtcount b => set_features p (set_inobtcount b)
  | Bigtime b => set_features p (set_bigtime b)
  end.

Lemma latest_snoc {A} (f : Setting -> option A) l s :
  latest f (l ++ [s]) = match f s with Some a => Some a | None => latest f l end.
Proof.
  unfold latest. rewrite omap_app. cbn. destruct (f s); [by rewrite last_snoc | by rewrite app_nil_r].
Qed.

Lemma asked_snoc l s label : asked (l ++ [s]) label = put_setting (asked l label) s.
Proof. unfold asked. rewrite !latest_snoc. by destruct s. Qed.

Lemma asked_foldl l : asked l None = foldl put_setting Params_new l.
Proof.
  induction l as [|s l IH] using rev_ind; [done|]. by rewrite asked_snoc, foldl_app, IH.
Qed.

Section Parser.
Variable parse_str : string -> option buf.

(** What the command does with an option of a switch. *)
Definition switch_opt (w : Switch) : Params -> string -> string -> cli Params :=
  match w with
  | Block => block_opt
  | Sector => sector_opt
  | Data => data_opt
  | Inodes => inode_opt
  | Meta => meta_opt parse_str
  end.

Lemma written_read w s o : written parse_str w s o -> opt_ok o /\
  forall p, switch_opt w p (fst (opt_pair o)) (snd (opt_pair o)) = Good (put_setting p s).
Proof.
  intros H. destruct H as [v t H|v t H|v t H|v H|v t H|v t H|v H|b t H|b t H|u t H Hc|t H|b t H|b t H|b t H|b t H|b t H];
    try (apply size_word_read in H as (E & R & C); [|lia]);
    try (apply flag_word_read in H as (E & C));
    try (pose proof (number_word_read _ _ H) as E; pose proof (pretty_no_comma v (proj1 H)) as C);
    (split; [by repeat split|]); intros p; cbn [opt_pair fst snd default id];
    unfold switch_opt, block_opt, sector_opt, data_opt, inode_opt, meta_opt, parse_uuid;
    cbn [String.eqb Ascii.eqb Bool.eqb andb]; rewrite ?E; cbn [mbind cli_bind]; rewrite ?u32_id by done; try done.
  - by rewrite H.
  - unfold parse_bool in E. destruct (String.eqb _ "1"); [done|]. by destruct (String.eqb _ "0").
Qed.

Lemma each_opt_app f p l l' : each_opt f p (l ++ l') = (p ← each_opt f p l; each_opt f p l').
Proof.
  revert p. induction l as [|[k v] l IH]; intros p; [done|]. cbn [app each_opt].
  destruct (f p k v) as [p1|]; [|done]. apply IH.
Qed.

(** A group of settings, and the groups of a switch. *)
Lemma group_read w settings opts : Forall2 (written parse_str w) settings opts ->
  Forall opt_ok opts /\
  forall p, each_opt (switch_opt w) p (opt_pair <$> opts) = Good (foldl put_setting p settings).
Proof.
  induction 1 as [|s o settings opts H _ [IH1 IH2]]; [by split|].
  destruct (written_read w s o H) as [Ho Hp]. split; [by constructor|]. intros p.
  rewrite fmap_cons. specialize (Hp p). destruct (opt_pair o) as [k v] eqn:E. cbn [each_opt fst snd foldl] in *.
  rewrite Hp. cbn [mbind cli_bind]. apply IH2.
Qed.

Lemma switch_read w groups words p : spelled parse_str w groups words ->
  each_opt (switch_opt w) p (subopts words) = Good (foldl put_setting p (mjoin groups)).
Proof.
  intros (opts & H & ->). assert (Forall (Forall opt_ok) opts) as Hok.
  { induction H as [|g os groups opts H _ IH]; constructor; [by eapply group_read | done]. }
  rewrite (subopts_pairs opts Hok). clear Hok. revert p.
  induction H as [|g os groups opts H _ IH]; intros p; [done|]. cbn [mjoin list_join].
  rewrite fmap_app, each_opt_app, foldl_app, (proj2 (group_read w g os H)). apply IH.
Qed.

Lemma options_read c l : asks_for parse_str c l -> params parse_str c = Good (asked l (c_label c)).
Proof.
  intros (b & s & d & i & m & -> & Hb & Hs & Hd & Hi & Hm). unfold params.
  pose proof (switch_read Block b _ Params_new Hb) as E. cbn [switch_opt] in E. rewrite E. cbn [mbind cli_bind].
  set (p1 := foldl _ _ _). pose proof (switch_read Sector s _ p1 Hs) as E1. cbn [switch_opt] in E1.
  rewrite E1. cbn [mbind cli_bind]. set (p2 := foldl _ p1 _).
  pose proof (switch_read Data d _ p2 Hd) as E2. cbn [switch_opt] in E2. rewrite E2. cbn [mbind cli_bind].
  set (p3 := foldl _ p2 _). pose proof (switch_read Inodes i _ p3 Hi) as E3. cbn [switch_opt] in E3.
  rewrite E3. cbn [mbind cli_bind]. set (p4 := foldl _ p3 _).
  pose proof (switch_read Meta m _ p4 Hm) as E4. cbn [switch_opt] in E4. rewrite E4. cbn [mbind cli_bind].
  f_equal. subst p1 p2 p3 p4. set (l := mjoin b ++ _).
  change (asked l (c_label c)) with (set_label_option (asked l None) (c_label c)). subst l.
  by rewrite asked_foldl, !foldl_app.
Qed.
End Parser.

(** * Properties *)

(** C36: the options of [mkfs-xfs] mean what they say: a command line that asks for
    some settings, each written in any of the ways of its switch, in whatever
    order and grouping, comes to the parameters they amount to: every setting
    in its own field, the last of a kind in force, the others at their
    defaults, and the label given. *)
Theorem options_mean_what_they_say parse_str c l :
  asks_for parse_str c l -> params parse_str c = Good (asked l (c_label c)).
Proof. apply options_read. Qed.

(** C16: [mkfs-xfs] as a whole: a command line that asks for some settings, on a
    device that serves the request they make, leaves the image of the
    filesystem they describe, its label the one given, and prints the report
    of its geometry, or nothing under [-q]. *)
Theorem mkfs_leaves_the_image {D} `{DeviceSpec D} env parse_str open create c l (d : D) g :
  asks_for parse_str c l -> mkfs_open open create c = Ok (Good d) -> c_dry_run c = false ->
  let p := asked l (c_label c) in
  request env p d g ->
  exists ps d', plans g = Ok ps /\
  mkfs_main env parse_str open create c =
      (Some d', Ok (Good (if c_quiet c then [] else report_lines g (c_device c)))) /\
  image g (run_uuid env p) (run_time env p) (run_gen env p) (planned_fdblocks ps) (contents d').
Proof.
  intros Ha Ho Hn p R. destruct (format_image env p d g R) as (ps & d' & Hps & E & _ & I).
  exists ps, d'. split_and!; [done | | done].
  rewrite (mkfs_main_runs _ _ _ _ _ _ _ (options_read _ _ _ Ha) Ho). unfold mkfs_run. fold p. by rewrite Hn, E.
Qed.

(** A run without parameters, a device or a geometry. *)
Lemma format_refuses {D} `{BlockDevice D} env p (d : D) :
  (forall g, compute p (dev_size d) (logical_sector_size d) (physical_sector_size d) <> Ok g) ->
  exists r, format env p d = (d, r) /\ forall A (f : Report -> result A) (f' : Geometry -> result A),
    (x ← r; f x) = (x ← compute p (dev_size d) (logical_sector_size d) (physical_sector_size d); f' x).
Proof.
  intros Hn. unfold format. rewrite io_bind_eq. cbn [asks]. rewrite io_bind_eq. unfold lift at 1.
  destruct (compute _ _ _ _) as [g|e| |]; [by destruct (Hn g)|..]; by eexists.
Qed.

(** C37: [-N] tells the truth.  Where a run ends well, the same command with [-N]
    prints the report of the geometry the run formatted with, and the run
    printed that or, under [-q], nothing; what [-N] refuses the run refuses
    alike, before it has written; and however [-N] ends, a device it opened is
    left as it was opened, or, with [--create], as it was created, which is
    not undone. *)
Theorem dry_run_reports_the_format {D} `{BlockDevice D} env parse_str (open : result D) create c :
  let run := mkfs_main env parse_str open create c in
  let dry := mkfs_main env parse_str open create (with_dry_run c) in
  (forall d' lines, run = (d', Ok (Good lines)) -> exists p d g,
     params parse_str c = Good p /\ mkfs_open open create c = Ok (Good d) /\
     compute p (dev_size d) (logical_sector_size d) (physical_sector_size d) = Ok g /\
     dry = (Some d, Ok (Good (report_lines g (c_device c)))) /\
     lines = if c_quiet c && negb (c_dry_run c) then [] else report_lines g (c_device c)) /\
  (forall d' r, dry = (d', r) -> (forall lines, r <> Ok (Good lines)) -> run = (d', r)) /\
  (forall d, mkfs_open open create c = Ok (Good d) -> fst dry = None \/ fst dry = Some d).
Proof.
  intros run dry. subst run dry. unfold mkfs_main. change (params parse_str (with_dry_run c)) with (params parse_str c).
  change (mkfs_open open create (with_dry_run c)) with (mkfs_open open create c).
  destruct (params parse_str c) as [p|e]; [|by split_and!; [..|left]].
  destruct (mkfs_open open create c) as [[d|e]|e| |]; [|by split_and!..].
  unfold mkfs_run. cbn [c_dry_run with_dry_run c_device]. split_and!; [..|intros ? [= ->]; by right].
  - intros d' lines E. destruct (c_dry_run c).
    + destruct (compute _ _ _ _) as [g| | |] eqn:Eg; try done. injection E as _ <-.
      exists p, d, g. by rewrite Eg, andb_false_r.
    + destruct (format env p d) as [d1 r] eqn:Ef. injection E as _ E. apply of_result_Good in E.
      destruct r as [r| | |]; try done. injection E as <-.
      exists p, d, (rep_geometry r). by rewrite (format_geometry _ _ _ _ _ Ef), andb_true_r.
  - intros d' r E Hr. destruct (c_dry_run c); [done|]. injection E as <- <-.
    destruct (compute p _ _ _) as [g|e| |] eqn:Eg; [by destruct (Hr (report_lines g (c_device c)))|..];
      (destruct (format_refuses env p d) as (r & -> & Er); [by rewrite Eg|]);
      by rewrite (Er _ _ (fun g => Ok (report_lines g (c_device c)))), Eg.
Qed.

(** * Witnesses *)

Lemma size_word_intro bits n o k : 0 <= n -> unit_power o = Some k -> n * 2 ^ k < 2 ^ bits ->
  size_word bits (n * 2 ^ k) (pretty n +:+ suffix_str o).
Proof. intros. by exists n, o, k. Qed.

Lemma cli0_asks : asks_for parse_str0 cli0 [BlockSize 1024; DataSize (2 ^ 30); AgCount 4].
Proof.
  exists [[BlockSize 1024]], [], [[DataSize (2 ^ 30); AgCount 4]], [], []. split; [reflexivity|].
  split_and!; try by exists [].
  - exists [[("size", Some "1k")]]. split; [|reflexivity]. repeat constructor.
    by apply (size_word_intro 32 1 (Some "k"%char) 10).
  - exists [[("size", Some "1g"); ("agcount", Some (pretty 4))]]. split; [|reflexivity].
    repeat constructor; [by apply (size_word_intro 64 1 (Some "g"%char) 30) | done..].
Qed.

Lemma options_mean_what_they_say_witness : exists p, params parse_str0 cli0 = Good p /\
  p_block_size p = Some 1024 /\ p_size p = Some (2 ^ 30) /\ p_agcount p = Some 4 /\ p_agsize p = None /\
  p_label p = Some "data"%string.
Proof.
  exists (asked [BlockSize 1024; DataSize (2 ^ 30); AgCount 4] (Some "data")).
  split; [apply (options_mean_what_they_say parse_str0 cli0), cli0_asks | repeat split].
Defined.

(** [mkfs-xfs -m crc=1,finobt -m rmapbt=1 --create 512m img]. *)
Definition cli2 : Cli :=
  mkCli [] [] [] ["crc=1,finobt"; "rmapbt=1"] [] None false false false (Some "512m") "img".

Lemma cli2_asks : asks_for parse_str0 cli2 [Checksums; Finobt true; Rmapbt true].
Proof.
  exists [], [], [], [], [[Checksums; Finobt true]; [Rmapbt true]]. split; [reflexivity|].
  split_and!; try by exists [].
  exists [[("crc", Some "1"); ("finobt", None)]; [("rmapbt", Some "1")]]. split; [|reflexivity].
  repeat constructor; (by left) || (by right).
Qed.

Lemma mkfs_leaves_the_image_witness : exists ps d', plans geo512m = Ok ps /\
  mkfs_main env0 parse_str0 Panic create0 cli2 = (Some d', Ok (Good (report_lines geo512m "img"))) /\
  image geo512m (run_uuid env0 Params_new) (run_time env0 Params_new) (run_gen env0 Params_new)
    (planned_fdblocks ps) (contents d').
Proof.
  apply (mkfs_leaves_the_image env0 parse_str0 Panic create0 cli2
    [Checksums; Finobt true; Rmapbt true] dev0 geo512m).
  - exact cli2_asks.
  - vm_compute. reflexivity.
  - reflexivity.
  - exact request0.
Defined.

(** A size that is refused, and a run that ends well. *)
Lemma dry_run_reports_the_format_witness :
  (exists d lines, mkfs_main env0 parse_str0 Panic create0 (with_dry_run cli1) = (Some d, Ok (Good lines))) /\
  mkfs_main env0 parse_str0 Panic create0 (mkCli ["size=1k,x"] [] [] [] [] None false false false (Some "512m") "img") =
    (None, Ok (Bad (Message "unknown -b option x"))).
Proof.
  split.
  - destruct (format_image env0 Params_new dev0 geo512m request0) as (ps & d' & _ & E & _).
    destruct (proj1 (dry_run_reports_the_format env0 parse_str0 Panic create0 cli1)
      (Some d') (report_lines geo512m "img")) as (p & d & g & _ & _ & _ & E' & _).
    + rewrite (mkfs_main_runs env0 parse_str0 Panic create0 cli1 Params_new dev0 eq_refl created0).
      unfold mkfs_run. cbn [c_dry_run cli1]. rewrite E. reflexivity.
    + exists d, (report_lines g (c_device cli1)). exact E'.
  - apply (proj1 (proj2 (dry_run_reports_the_format env0 parse_str0 Panic create0
      (mkCli ["size=1k,x"] [] [] [] [] None false false false (Some "512m") "img")))); [reflexivity | discriminate].
Defined.
