(* ===== verification/ToolFacts.v ===== *)
(** The commands on files: [mkfs-xfs --create] makes a file, [xfs-admin]
    opens it again.

    The mains of [Cli.v] run on [FileDevice] over any operating system that
    keeps [FileSpec], so the theorem composes the whole development: options,
    geometry, formatter, file device, reader, administrator. *)

From Stdlib Require Import ZArith Lia String.
From stdpp Require Import base tactics list numbers strings pretty.
From coqutil Require Import Byte Word.LittleEndianList.
From S2P Require Import Prelude Bytes Fmt Geometry GeometryFacts Superblock Inode LogRecord Device FileDevice.
From S2P Require Import Io Plan PlanFacts Format FormatFacts Inspect Admin LogFacts ClearFacts SbFacts.
From S2P Require Import AdminFacts InspectFacts AdminSpec Cli CliFacts.

(** A request for an image file of [size] bytes. *)
Record file_request (env : Env) (params : Params) (size : Z) (g : Geometry) : Prop := {
  fr_compute : compute params size 512 512 = Ok g;
  fr_params : params_ok params;
  fr_tiled : p_agcount params = None \/ p_agsize params <> None \/ tiled g;
  fr_log : prealloc_blocks g + logblocks g + min_freelist g <= ag_blocks g (logagno g);
  fr_order : e_order env ≡ₚ seqZ 0 (agcount g);
  fr_uuid : length (run_uuid env params) = 16%nat;
  fr_time : time_in (bigtime (features g)) (run_time env params);
}.

Section Files.
Context {F : Type} `{FileSpec F}.

(** Every file is a regular one. *)
Definition regular_files : Prop := forall f, healthy f -> exists n, metadata f = IoOk (true, n).

(** The device over a file of its size, as [create] makes it. *)
Definition image_file (f : F) : FileDevice F := mkFileDevice f (file_len f) 512 512 true.

Lemma image_file_valid f : healthy f -> valid (image_file f).
Proof. by split. Qed.

Lemma create_image (f : F) size d : healthy f -> 0 <= size ->
  FileDevice_create (IoOk tt) (IoOk f) size = Ok d ->
  exists f', d = image_file f' /\ healthy f' /\ file_len f' = size.
Proof.
  intros Hf Hs. unfold FileDevice_create, create_task. cbn [at_offset mbind result_bind].
  destruct (set_len f size) as [f' [[]|m]] eqn:E; [|done]. intros [= <-].
  destruct (set_len_spec f size f' Hf Hs E) as (Hf' & Hl & _). exists f'.
  unfold image_file. by rewrite Hl.
Qed.

Lemma open_image (f : F) : regular_files -> healthy f -> FileDevice_open (IoOk tt) (IoOk f) = Ok (image_file f).
Proof.
  intros Hr Hf. destruct (Hr f Hf) as [n E]. pose proof (metadata_spec f n Hf E) as ->.
  unfold FileDevice_open. cbn [at_offset mbind result_bind]. by rewrite E.
Qed.

Lemma file_serves (d : FileDevice F) : serves_first d /\ forall bsz, serves_blocks d bsz.
Proof.
  split.
  - apply Z.leb_le. cbn. lia.
  - intros bsz off len _ _ _ _ Hb. by apply Z.leb_le.
Qed.

Lemma image_request env params f g : healthy f -> file_request env params (file_len f) g ->
  request env params (image_file f) g.
Proof. intros Hf []. split; try done. apply file_serves. Qed.

(** What a device holds is in its file: opened again, it is still there. *)
Lemma rep_image (d : FileDevice F) a : valid d -> logical_sector_size d = 512 ->
  rep d a -> rep (image_file (fd_file d)) a.
Proof.
  intros [Hh Hs] Hl (g & start & bbs & s & [L G Sb C N] & Hc & Hy). exists g, start, bbs, s.
  split; [|done]. destruct d as [f size logical physical regular]. cbn in Hh, Hs, Hl. subst size logical.
  destruct (ly_log _ _ _ _ L) as (_ & _ & T). change TOTAL_REC_BBS with 4096 in T.
  split; [by destruct L; split | exact G | exact Sb | | exact N].
  eapply same_clean; [| | |exact C]; [done | lia | change (BDSTRAT_SIZE / 512) with 512; lia].
Qed.
End Files.

(** * Properties *)

(** C10: the commands, one after the other, on a file: [mkfs-xfs --create] on a
    file of any well-behaved system, whatever the file held, prints the
    geometry's report, and leaves a file that [xfs-admin], opening it again,
    finds, relabels and renames as the administrator's steps say of a fresh
    filesystem, printing its lines; the file ends with the size asked for. *)
Theorem tools_run_on_a_file {F} `{FileSpec F} env parse_str fresh show_uuid open c p size s g (f : F) d0 ac ops a :
  params parse_str c = Good p -> c_create c = Some s -> parse_size s = Good size -> c_dry_run c = false ->
  healthy f -> FileDevice_create (IoOk tt) (IoOk f) size = Ok d0 -> regular_files (F := F) ->
  file_request env p size g ->
  uuid_ops parse_str fresh ac = Good ops -> label_ops ac ++ ops <> [] ->
  steps (formatted env p g) (label_ops ac ++ ops) a ->
  exists d1 d2,
    mkfs_main env parse_str open (FileDevice_create (IoOk tt) (IoOk f)) c =
      (Some d1, Ok (Good (if c_quiet c then [] else report_lines g (c_device c)))) /\
    admin_main parse_str fresh show_uuid (FileDevice_open (IoOk tt) (IoOk (fd_file d1))) ac =
      (Some d2, (label_lines ac ++ (ops ≫= op_lines show_uuid), Ok (Good tt))) /\
    rep d2 a /\ file_len (fd_file d2) = size.
Proof.
  intros Ep Ec Es Hn Hf Ed Hr Fr Eo Hne Hs.
  assert (0 <= size) as Hsz by apply (parse_size_range _ _ Es).
  destruct (create_image f size d0 Hf Hsz Ed) as (f0 & -> & Hf0 & <-).
  pose proof (image_request env p f0 g Hf0 Fr) as R. destruct (file_serves (image_file f0)) as [Sf _].
  assert (mkfs_open open (FileDevice_create (IoOk tt) (IoOk f)) c = Ok (Good (image_file f0))) as Eopen.
  { unfold mkfs_open. by rewrite Ec, Es, Ed. }
  destruct (format_fs_ok env p (image_file f0) g R Sf) as (d1 & r & st & Ef & L1 & _).
  destruct (format_rep env p (image_file f0) g R Sf) as (d1' & r' & Ef' & R1).
  assert (d1' = d1 /\ r' = r) as [-> ->] by (rewrite Ef in Ef'; by injection Ef').
  pose proof (rep_image d1 _ (lt_valid _ _ L1) (lt_sector _ _ L1) R1) as R2.
  apply steps_app_inv in Hs as (a1 & S1 & S2).
  destruct (admin_main_steps parse_str fresh show_uuid ac _ _ _ R2 S1) as [Ha _].
  destruct (Ha ops a Eo Hne S2) as (d2 & E2 & L2 & R3). clear Ha.
  destruct (lt_valid _ _ L1) as [Hh1 Hs1]. destruct (lt_valid _ _ L2) as [_ Hs2].
  exists d1, d2. split_and!; [| |exact R3|].
  - rewrite (mkfs_main_runs _ _ _ _ _ _ _ Ep Eopen). unfold mkfs_run. rewrite Hn, Ef.
    pose proof (format_geometry _ _ _ _ _ Ef) as Eg. rewrite (rq_compute _ _ _ _ R) in Eg.
    injection Eg as ->. done.
  - by rewrite open_image.
  - rewrite <- Hs2. change (fd_size d2) with (dev_size d2). rewrite (lt_size _ _ L2). cbn.
    rewrite <- Hs1. apply (lt_size _ _ L1).
Qed.

(** [-N] spares a device but not a file it is told to create: [--create]
    comes first, so the file the run opened, emptied, is left with the size
    asked for and nothing in it. *)
Theorem dry_run_creates_the_file {F} `{FileSpec F} env parse_str open c p size s (f : F) d0 :
  params parse_str c = Good p -> c_create c = Some s -> parse_size s = Good size -> c_dry_run c = true ->
  healthy f -> file_len f = 0 -> FileDevice_create (IoOk tt) (IoOk f) size = Ok d0 ->
  exists d1 r, mkfs_main env parse_str open (FileDevice_create (IoOk tt) (IoOk f)) c = (Some d1, r) /\
    file_len (fd_file d1) = size /\ forall i, 0 <= i -> contents d1 i = byte.of_Z 0.
Proof.
  intros Ep Ec Es Hn Hf Hl Ed. assert (0 <= size) as Hsz by apply (parse_size_range _ _ Es).
  exists d0. eexists. split; [|].
  - rewrite (mkfs_main_runs _ _ _ _ c p d0 Ep); [|unfold mkfs_open; by rewrite Ec, Es, Ed].
    unfold mkfs_run. rewrite Hn. reflexivity.
  - unfold FileDevice_create, create_task in Ed. cbn [at_offset mbind result_bind] in Ed.
    destruct (set_len f size) as [f' [[]|m]] eqn:E; [|done]. injection Ed as <-.
    destruct (set_len_spec f size f' Hf Hsz E) as (_ & Hl' & C). split; [done|].
    intros i Hi. cbn. rewrite C. destruct (Z.ltb_spec i (file_len f)); [lia | done].
Qed.

(** [mkfs-xfs --create 512m img; xfs-admin -L data -U restore img], on an empty
    file in memory. *)
Lemma file_request0 : file_request env0 Params_new (512 * MIB) geo512m.
Proof. destruct request0. by split. Qed.

Lemma tools_run_on_a_file_witness : exists d1 d2 : FileDevice RamFile,
  mkfs_main env0 parse_str0 Panic (FileDevice_create (IoOk tt) (IoOk ram0)) cli1 =
    (Some d1, Ok (Good (report_lines geo512m "img"))) /\
  admin_main parse_str0 uuid0 hex_bytes (FileDevice_open (IoOk tt) (IoOk (fd_file d1))) admin1 =
    (Some d2, (["new label = " +:+ dq +:+ "data" +:+ dq], Ok (Good tt))) /\
  rep d2 (mkNames uuid0 uuid0 (padded "data") false 1) /\ file_len (fd_file d2) = 512 * MIB.
Proof.
  eapply (tools_run_on_a_file env0 parse_str0 uuid0 hex_bytes Panic cli1 Params_new (512 * MIB) "512m" geo512m
    ram0 _ admin1 [RestoreUuid]).
  - vm_compute. reflexivity.
  - reflexivity.
  - vm_compute. reflexivity.
  - reflexivity.
  - cbn. lia.
  - reflexivity.
  - intros f _. by eexists.
  - exact file_request0.
  - vm_compute. reflexivity.
  - discriminate.
  - eapply steps_cons; [apply (step_label _ "data"); reflexivity|].
    eapply steps_cons; [apply step_unchanged; reflexivity | apply steps_nil].
Defined.
